(** * A skip list laid out in one contiguous buffer (skip_list/skip_list.h)

    Shallow embedding of [SkipList<T, Compare>] and verification of its
    rank, lookup, ordering, capacity and erase properties.

    The buffer is modelled as a header record followed by node slots that
    are addressed by their byte offset from the start of the buffer; an
    offset of 0 plays the role of the null link, exactly as in the source.
    [uint32_t] and [size_t] arithmetic is written out with its wrap-around. *)

From Stdlib Require Import ZArith List Bool Lia String Permutation.
Import ListNotations.
Open Scope Z_scope.

(** ** Constants and machine arithmetic *)

Definition MAX_LEVEL_NUM : nat := 32.
Definition SKIPLIST_P : Z := 4.
Definition MAGIC_NUM : Z := 0x12345678.

Definition wrap32 (z : Z) : Z := z mod 2 ^ 32.
Definition wrap64 (z : Z) : Z := z mod 2 ^ 64.

(** [random_level]: the loop draws [random()] until a draw fails the test
    [(random() & 0xFFFF) < 1.0 / SKIPLIST_P * 0xFFFF]; the draws are the
    input here, and the comparison against 16383.75 is done exactly. *)
Fixpoint random_level_loop (draws : list Z) (level : nat) : nat :=
  match draws with
  | [] => level
  | r :: rest =>
      if Z.land r 0xFFFF * SKIPLIST_P <? 0xFFFF
      then random_level_loop rest (level + 1)
      else level
  end.

Definition random_level (draws : list Z) : nat :=
  let level := random_level_loop draws 1 in
  if (level <? MAX_LEVEL_NUM)%nat then level else MAX_LEVEL_NUM.

(** Local arrays [index[MAX_LEVEL_NUM]] and [update[MAX_LEVEL_NUM]]. *)
Definition arr_set (a : nat -> Z) (i : nat) (v : Z) : nat -> Z :=
  fun j => if Nat.eqb j i then v else a j.

(** [for (int i = lo; i < hi; ++i) body]. *)
Definition for_range {S : Type} (lo hi : nat) (body : nat -> S -> S) (s : S) : S :=
  fold_left (fun acc i => body i acc) (seq lo (hi - lo)) s.

(** [(sizeof(X) + 7) & (~7)] in [size_t] arithmetic, the expression of
    [mem_header_size()] and [mem_node_size()]; [~7] is the [int] -8,
    converted to [size_t]. *)
Definition align8 (size_of : Z) : Z :=
  Z.land (wrap64 (size_of + 7)) (wrap64 (Z.lnot 7)).

(** ** Data model *)

Record SLInfo := mkSLInfo {
  head : Z;
  tail : Z;
  level_num : nat;
  length : Z
}.

Record SLLevel := mkSLLevel {
  forward : Z;
  span : Z
}.

Record MemHeader := mkMemHeader {
  magic_num : Z;
  mem_size : Z;
  alloc_size : Z;
  header_size : Z;
  node_size : Z;
  free_list : Z;
  sl_info : SLInfo
}.

Record Iterator := mkIterator { node_ref : Z }.

Definition iter_eqb (a b : Iterator) : bool := node_ref a =? node_ref b.

Inductive init_result (S : Type) :=
| InitFailed (err_msg : string)
| InitUndefined
| InitOk (s : S).
Arguments InitFailed {S} _.
Arguments InitUndefined {S}.
Arguments InitOk {S} _.

(** The template parameters [T] and [Compare], with what the platform fixes
    for them: [T_zero] is the value of [T] whose object representation is
    all zero bytes (what [memset] leaves behind), [mem_header_size] and
    [mem_node_size] are the results of [mem_header_size()] and
    [mem_node_size()], the [sizeof]s rounded up to a multiple of 8. *)
Class Elem := mkElem {
  T : Type;
  cmp : T -> T -> bool;
  T_zero : T;
  mem_header_size : Z;
  mem_node_size : Z
}.

Section Model.

Context {E : Elem}.

Record MemNode := mkMemNode {
  element : T;
  backword : Z;
  level : nat -> SLLevel;
  next : Z
}.

(** The object: the header at offset 0 and the node found at each offset. *)
Record SkipList := mkSkipList {
  mem_header_ : MemHeader;
  deref : Z -> MemNode
}.

Definition sl (s : SkipList) : SLInfo := sl_info (mem_header_ s).
Definition fwd (s : SkipList) (ref : Z) (i : nat) : Z := forward (level (deref s ref) i).
Definition spn (s : SkipList) (ref : Z) (i : nat) : Z := span (level (deref s ref) i).
Definition elem (s : SkipList) (ref : Z) : T := element (deref s ref).
Definition bwd (s : SkipList) (ref : Z) : Z := backword (deref s ref).
Definition nxt (s : SkipList) (ref : Z) : Z := next (deref s ref).

(** *** Field writes *)

Definition with_header (f : MemHeader -> MemHeader) (s : SkipList) : SkipList :=
  mkSkipList (f (mem_header_ s)) (deref s).

Definition with_node (ref : Z) (f : MemNode -> MemNode) (s : SkipList) : SkipList :=
  mkSkipList (mem_header_ s)
             (fun r => if r =? ref then f (deref s ref) else deref s r).

Definition set_free_list (v : Z) : SkipList -> SkipList :=
  with_header (fun h => mkMemHeader (magic_num h) (mem_size h) (alloc_size h)
                          (header_size h) (node_size h) v (sl_info h)).

Definition set_alloc_size (v : Z) : SkipList -> SkipList :=
  with_header (fun h => mkMemHeader (magic_num h) (mem_size h) v
                          (header_size h) (node_size h) (free_list h) (sl_info h)).

Definition with_sl_info (f : SLInfo -> SLInfo) : SkipList -> SkipList :=
  with_header (fun h => mkMemHeader (magic_num h) (mem_size h) (alloc_size h)
                          (header_size h) (node_size h) (free_list h) (f (sl_info h))).

Definition set_tail (v : Z) : SkipList -> SkipList :=
  with_sl_info (fun i => mkSLInfo (head i) v (level_num i) (length i)).

Definition set_level_num (v : nat) : SkipList -> SkipList :=
  with_sl_info (fun i => mkSLInfo (head i) (tail i) v (length i)).

Definition set_length (v : Z) : SkipList -> SkipList :=
  with_sl_info (fun i => mkSLInfo (head i) (tail i) (level_num i) v).

Definition set_level (i : nat) (l : SLLevel) (n : MemNode) : MemNode :=
  mkMemNode (element n) (backword n)
            (fun j => if Nat.eqb j i then l else level n j) (next n).

Definition set_forward (ref : Z) (i : nat) (v : Z) : SkipList -> SkipList :=
  with_node ref (fun n => set_level i (mkSLLevel v (span (level n i))) n).

Definition set_span (ref : Z) (i : nat) (v : Z) : SkipList -> SkipList :=
  with_node ref (fun n => set_level i (mkSLLevel (forward (level n i)) v) n).

Definition set_backword (ref : Z) (v : Z) : SkipList -> SkipList :=
  with_node ref (fun n => mkMemNode (element n) v (level n) (next n)).

Definition set_element (ref : Z) (v : T) : SkipList -> SkipList :=
  with_node ref (fun n => mkMemNode v (backword n) (level n) (next n)).

Definition set_next (ref : Z) (v : Z) : SkipList -> SkipList :=
  with_node ref (fun n => mkMemNode (element n) (backword n) (level n) v).

(** [memset(node, 0, node_size)]. *)
Definition zero_node : MemNode :=
  mkMemNode T_zero 0 (fun _ => mkSLLevel 0 0) 0.

Definition memset_node (ref : Z) : SkipList -> SkipList :=
  with_node ref (fun _ => zero_node).

(** *** Sizes *)

Definition max_mem_size (max_sl_len : Z) : Z :=
  wrap64 (mem_header_size + wrap64 (wrap32 (max_sl_len + 1) * mem_node_size)).

(** *** The node allocator *)

Definition alloc_node (s : SkipList) : Z * SkipList :=
  let h := mem_header_ s in
  if negb (free_list h =? 0) then
    let pos := free_list h in
    let s := set_free_list (nxt s pos) s in
    (pos, memset_node pos s)
  else if wrap64 (alloc_size h + node_size h) <=? mem_size h then
    let pos := alloc_size h in
    let s := set_alloc_size (wrap64 (alloc_size h + node_size h)) s in
    (pos, memset_node pos s)
  else (0, s).

Definition free_node (ref : Z) (s : SkipList) : SkipList :=
  let s := set_next ref (free_list (mem_header_ s)) s in
  set_free_list ref s.

(** *** init *)

Definition raw_header (size : Z) : MemHeader :=
  mkMemHeader MAGIC_NUM size mem_header_size mem_header_size mem_node_size 0
              (mkSLInfo 0 0 0%nat 0).

(** [mem] is the caller's buffer with its content before the call, or
    [None] for a null pointer.  In raw mode the head sentinel is taken from
    [alloc_node] without a test; when that allocation fails the source goes
    on to write a node at offset 0, on top of the header: no defined
    result. *)
Definition init (mem : option SkipList) (size max_sl_len : Z) (is_raw : bool)
  : init_result SkipList :=
  match mem with
  | None => InitFailed "mem is nullptr"
  | Some buf =>
      if size <? max_mem_size max_sl_len then InitFailed "mem_size not enough"
      else if negb is_raw then
        let h := mem_header_ buf in
        if negb (magic_num h =? MAGIC_NUM) || negb (mem_size h =? size)
           || negb (header_size h =? mem_header_size)
           || negb (node_size h =? mem_node_size)
        then InitFailed "mem header check err"
        else InitOk buf
      else
        let s := mkSkipList (raw_header size) (deref buf) in
        let (ref, s) := alloc_node s in
        if ref =? 0 then InitUndefined
        else
          let s := with_sl_info (fun _ => mkSLInfo ref 0 1%nat 0) s in
          let s := set_backword ref 0 s in
          let s := for_range 0 MAX_LEVEL_NUM
                     (fun i s => set_span ref i 0 (set_forward ref i 0 s)) s in
          InitOk s
  end.

(** *** Cursors *)

Definition begin_ (s : SkipList) : Iterator :=
  mkIterator (fwd s (head (sl s)) 0).

Definition end_ (s : SkipList) : Iterator :=
  if negb (tail (sl s) =? 0)
  then mkIterator (fwd s (tail (sl s)) 0)
  else mkIterator (tail (sl s)).

Definition iter_get (s : SkipList) (it : Iterator) : T := elem s (node_ref it).
Definition iter_incr (s : SkipList) (it : Iterator) : Iterator :=
  mkIterator (fwd s (node_ref it) 0).
Definition iter_decr (s : SkipList) (it : Iterator) : Iterator :=
  mkIterator (bwd s (node_ref it)).

(** *** get_index *)

Fixpoint get_index_while (fuel : nat) (s : SkipList) (e : T) (i : nat)
         (node index : Z) : option (Z + Z * Z) :=
  match fuel with
  | O => None
  | S fuel' =>
      if fwd s node i =? 0 then Some (inr (node, index))
      else
        let forward_node := fwd s node i in
        if cmp (elem s forward_node) e
        then get_index_while fuel' s e i forward_node (wrap32 (index + spn s node i))
        else if negb (cmp e (elem s forward_node))
             then Some (inl (wrap32 (index + spn s node i)))
             else Some (inr (node, index))
  end.

Fixpoint get_index_for (fuel : nat) (s : SkipList) (e : T) (n : nat)
         (node index : Z) : option Z :=
  match n with
  | O => Some 0
  | S i =>
      match get_index_while fuel s e i node index with
      | None => None
      | Some (inl r) => Some r
      | Some (inr (node', index')) => get_index_for fuel s e i node' index'
      end
  end.

Definition get_index (fuel : nat) (e : T) (s : SkipList) : option Z :=
  get_index_for fuel s e (level_num (sl s)) (head (sl s)) 0.

(** *** find by element *)

Fixpoint find_while (fuel : nat) (s : SkipList) (e : T) (i : nat)
         (node : Z) : option (Iterator + Z) :=
  match fuel with
  | O => None
  | S fuel' =>
      if fwd s node i =? 0 then Some (inr node)
      else
        let forward_node := fwd s node i in
        if cmp (elem s forward_node) e
        then find_while fuel' s e i forward_node
        else if negb (cmp e (elem s forward_node))
             then Some (inl (mkIterator (fwd s node i)))
             else Some (inr node)
  end.

Fixpoint find_for (fuel : nat) (s : SkipList) (e : T) (n : nat) (node : Z)
  : option Iterator :=
  match n with
  | O => Some (mkIterator 0)
  | S i =>
      match find_while fuel s e i node with
      | None => None
      | Some (inl it) => Some it
      | Some (inr node') => find_for fuel s e i node'
      end
  end.

Definition find (fuel : nat) (e : T) (s : SkipList) : option Iterator :=
  find_for fuel s e (level_num (sl s)) (head (sl s)).

(** *** find by index *)

Fixpoint find_index_while (fuel : nat) (s : SkipList) (index : Z) (i : nat)
         (node total_span : Z) : option (Iterator + Z * Z) :=
  match fuel with
  | O => None
  | S fuel' =>
      if fwd s node i =? 0 then Some (inr (node, total_span))
      else
        let forward_node := fwd s node i in
        if wrap32 (total_span + spn s node i) <=? index
        then find_index_while fuel' s index i forward_node
                              (wrap32 (total_span + spn s node i))
        else if (total_span =? index) && negb (node =? head (sl s))
             then Some (inl (mkIterator node))
             else Some (inr (node, total_span))
  end.

Fixpoint find_index_for (fuel : nat) (s : SkipList) (index : Z) (n : nat)
         (node total_span : Z) : option Iterator :=
  match n with
  | O => Some (mkIterator 0)
  | S i =>
      match find_index_while fuel s index i node total_span with
      | None => None
      | Some (inl it) => Some it
      | Some (inr (node', total')) => find_index_for fuel s index i node' total'
      end
  end.

Definition find_index (fuel : nat) (index : Z) (s : SkipList) : option Iterator :=
  find_index_for fuel s index (level_num (sl s)) (head (sl s)) 0.

(** *** insert *)

Fixpoint insert_while (fuel : nat) (s : SkipList) (e : T) (i : nat)
         (node index : Z) : option (Z * Z) :=
  match fuel with
  | O => None
  | S fuel' =>
      if fwd s node i =? 0 then Some (node, index)
      else
        let forward_node := fwd s node i in
        if cmp (elem s forward_node) e
        then insert_while fuel' s e i forward_node (wrap32 (index + spn s node i))
        else Some (node, index)
  end.

Fixpoint insert_for (fuel : nat) (s : SkipList) (e : T) (n : nat) (node : Z)
         (index update : nat -> Z) : option ((nat -> Z) * (nat -> Z)) :=
  match n with
  | O => Some (index, update)
  | S i =>
      let start := if Nat.eqb i (level_num (sl s) - 1) then 0 else index (S i) in
      match insert_while fuel s e i node start with
      | None => None
      | Some (node', index_i) =>
          insert_for fuel s e i node' (arr_set index i index_i) (arr_set update i node')
      end
  end.

Definition insert_raise (lvl : nat) (index update : nat -> Z) (s : SkipList)
  : (nat -> Z) * (nat -> Z) * SkipList :=
  if (level_num (sl s) <? lvl)%nat then
    let '(index, update, s) :=
      for_range (level_num (sl s)) lvl
        (fun i '(index, update, s) =>
           let index := arr_set index i 0 in
           let update := arr_set update i (head (sl s)) in
           (index, update, set_span (update i) i (length (sl s)) s))
        (index, update, s) in
    (index, update, set_level_num lvl s)
  else (index, update, s).

Definition insert_splice (new_node_ref : Z) (lvl : nat) (index update : nat -> Z)
  : SkipList -> SkipList :=
  for_range 0 lvl
    (fun i s =>
       let s := set_forward new_node_ref i (fwd s (update i) i) s in
       let s := set_forward (update i) i new_node_ref s in
       let s := set_span new_node_ref i
                  (wrap32 (spn s (update i) i - wrap32 (index 0%nat - index i))) s in
       set_span (update i) i (wrap32 (wrap32 (index 0%nat - index i) + 1)) s).

Definition insert_bump (lvl : nat) (update : nat -> Z) (s : SkipList) : SkipList :=
  for_range lvl (level_num (sl s))
    (fun i s => set_span (update i) i (wrap32 (spn s (update i) i + 1)) s) s.

(** The body of [insert] once the new node is acquired; [lvl] is the value
    returned by [random_level()]. *)
Definition insert_link (fuel : nat) (lvl : nat) (e : T) (new_node_ref : Z)
           (s : SkipList) : option (bool * SkipList) :=
  match insert_for fuel s e (level_num (sl s)) (head (sl s))
                   (fun _ => 0) (fun _ => 0) with
  | None => None
  | Some (index, update) =>
      let '(index, update, s) := insert_raise lvl index update s in
      let s := insert_splice new_node_ref lvl index update s in
      let s := insert_bump lvl update s in
      let s := if update 0%nat =? head (sl s)
               then set_backword new_node_ref 0 s
               else set_backword new_node_ref (update 0%nat) s in
      let s := if negb (fwd s new_node_ref 0 =? 0)
               then set_backword (fwd s new_node_ref 0) new_node_ref s
               else set_tail new_node_ref s in
      let s := set_element new_node_ref e s in
      let s := set_length (wrap32 (length (sl s) + 1)) s in
      Some (true, s)
  end.

Definition insert (fuel : nat) (lvl : nat) (e : T) (s0 : SkipList)
  : option (bool * SkipList) :=
  let (new_node_ref, s) := alloc_node s0 in
  if new_node_ref =? 0 then Some (false, s)
  else insert_link fuel lvl e new_node_ref s.

(** *** del_first_of and erase *)

Fixpoint del_while (fuel : nat) (s : SkipList) (e : T) (i : nat) (node : Z)
  : option Z :=
  match fuel with
  | O => None
  | S fuel' =>
      if fwd s node i =? 0 then Some node
      else
        let forward_node := fwd s node i in
        if cmp (elem s forward_node) e
        then del_while fuel' s e i forward_node
        else Some node
  end.

Fixpoint del_for (fuel : nat) (s : SkipList) (e : T) (n : nat) (node : Z)
         (update : nat -> Z) : option (Z * (nat -> Z)) :=
  match n with
  | O => Some (node, update)
  | S i =>
      match del_while fuel s e i node with
      | None => None
      | Some node' => del_for fuel s e i node' (arr_set update i node')
      end
  end.

Definition del_unlink (del_node_ref : Z) (update : nat -> Z) (s : SkipList)
  : SkipList :=
  for_range 0 (level_num (sl s))
    (fun i s =>
       if fwd s (update i) i =? del_node_ref then
         let s := set_span (update i) i
                    (wrap32 (spn s (update i) i + spn s del_node_ref i)) s in
         let s := set_span (update i) i (wrap32 (spn s (update i) i - 1)) s in
         set_forward (update i) i (fwd s del_node_ref i) s
       else
         set_span (update i) i (wrap32 (spn s (update i) i - 1)) s) s.

(** [while (level_num > 1 && head.level[level_num - 1].forward == 0) level_num -= 1]. *)
Fixpoint del_shrink (n : nat) (s : SkipList) : SkipList :=
  match n with
  | O => s
  | S n' =>
      if (1 <? level_num (sl s))%nat
         && (fwd s (head (sl s)) (level_num (sl s) - 1) =? 0)
      then del_shrink n' (set_level_num (level_num (sl s) - 1) s)
      else s
  end.

(** The writes of [del_first_of] on the node found, up to the length. *)
Definition del_node (del_node_ref : Z) (update : nat -> Z) (s : SkipList)
  : SkipList :=
  let s := del_unlink del_node_ref update s in
  let s := if negb (fwd s del_node_ref 0 =? 0)
           then set_backword (fwd s del_node_ref 0) (bwd s del_node_ref) s
           else set_tail (bwd s del_node_ref) s in
  let s := del_shrink (level_num (sl s)) s in
  set_length (wrap32 (length (sl s) - 1)) s.

Definition del_first_of (fuel : nat) (e : T) (s : SkipList)
  : option (bool * SkipList) :=
  match del_for fuel s e (level_num (sl s)) (head (sl s)) (fun _ => 0) with
  | None => None
  | Some (node, update) =>
      if negb (fwd s node 0 =? 0) then
        let forward_node := fwd s node 0 in
        if negb (cmp e (elem s forward_node)) && negb (cmp (elem s forward_node) e)
        then
          let del_node_ref := forward_node in
          let s := del_node del_node_ref update s in
          let s := free_node del_node_ref s in
          Some (true, s)
        else Some (false, s)
      else Some (false, s)
  end.

Fixpoint erase_loop (fuel : nat) (n : nat) (e : T) (s : SkipList) (count : Z)
  : option (Z * SkipList) :=
  match n with
  | O => None
  | S n' =>
      match del_first_of fuel e s with
      | None => None
      | Some (true, s') => erase_loop fuel n' e s' (wrap32 (count + 1))
      | Some (false, s') => Some (count, s')
      end
  end.

Definition erase (fuel : nat) (e : T) (s : SkipList) : option (Z * SkipList) :=
  erase_loop fuel fuel e s 0.

End Model.

(** ** What can be observed of a state, and the states that occur *)

Section Observation.

Context {E : Elem}.

(** The walk [for (it = begin(); it != end(); ++it)], collecting the
    offsets of the nodes visited. *)
Fixpoint iterate (fuel : nat) (s : SkipList) (it : Iterator) : option (list Z) :=
  match fuel with
  | O => None
  | S fuel' =>
      if iter_eqb it (end_ s) then Some []
      else option_map (cons (node_ref it)) (iterate fuel' s (iter_incr s it))
  end.

Definition to_list (fuel : nat) (s : SkipList) : option (list Z) :=
  iterate fuel s (begin_ s).

(** The slots chained from [free_list] through [next]. *)
Fixpoint free_chain (fuel : nat) (s : SkipList) (ref : Z) : option (list Z) :=
  match fuel with
  | O => None
  | S fuel' =>
      if ref =? 0 then Some []
      else option_map (cons ref) (free_chain fuel' s (nxt s ref))
  end.

Definition free_slots (fuel : nat) (s : SkipList) : option (list Z) :=
  free_chain fuel s (free_list (mem_header_ s)).

(** Following the level-0 forward link [k] times. *)
Definition advance (s : SkipList) (k : nat) (ref : Z) : Z :=
  Nat.iter k (fun r => fwd s r 0) ref.

(** [a] and [b] are equal for [Compare]: neither is less than the other. *)
Definition equiv (a b : T) : bool := negb (cmp a b) && negb (cmp b a).

(** Non-decreasing under [Compare]: no element is less than an earlier one. *)
Inductive sorted : list T -> Prop :=
| sorted_nil : sorted []
| sorted_cons a l : Forall (fun b => cmp b a = false) l -> sorted l -> sorted (a :: l).

(** The buffer holds at most [2 ^ 32] node slots, the head sentinel among
    them, so that the [uint32_t] length cannot wrap. *)
Definition fits_uint32 (size : Z) : Prop :=
  size < mem_header_size + (2 ^ 32 + 1) * mem_node_size.

(** States reached from a raw [init] by calls of [insert] and [erase]; the
    level drawn by [random_level()] is any value it can return. *)
Inductive reachable : SkipList -> Prop :=
| reach_init buf size max_sl_len s :
    fits_uint32 size ->
    init (Some buf) size max_sl_len true = InitOk s ->
    reachable s
| reach_insert s fuel lvl e b s' :
    reachable s ->
    (1 <= lvl <= MAX_LEVEL_NUM)%nat ->
    insert fuel lvl e s = Some (b, s') ->
    reachable s'
| reach_erase s fuel e count s' :
    reachable s ->
    erase fuel e s = Some (count, s') ->
    reachable s'.

(** A search path: hops from the head sentinel along forward links of
    active levels, with the spans crossed added up. *)
Inductive search_path (s : SkipList) : Z -> Z -> Prop :=
| path_head : search_path s (head (sl s)) 0
| path_hop ref total i :
    search_path s ref total ->
    (i < level_num (sl s))%nat ->
    fwd s ref i <> 0 ->
    search_path s (fwd s ref i) (total + spn s ref i).

(** [insert] called on the elements of [l] in turn, with the given levels. *)
Fixpoint insert_all (fuel : nat) (l : list (nat * T)) (s : SkipList)
  : option (list bool * SkipList) :=
  match l with
  | [] => Some ([], s)
  | (lvl, e) :: l' =>
      match insert fuel lvl e s with
      | None => None
      | Some (b, s') =>
          match insert_all fuel l' s' with
          | None => None
          | Some (bs, s'') => Some (b :: bs, s'')
          end
      end
  end.

(** [erase] called on the elements of [l] in turn. *)
Fixpoint erase_all (fuel : nat) (l : list T) (s : SkipList)
  : option (list Z * SkipList) :=
  match l with
  | [] => Some ([], s)
  | e :: l' =>
      match erase fuel e s with
      | None => None
      | Some (c, s') =>
          match erase_all fuel l' s' with
          | None => None
          | Some (cs, s'') => Some (c :: cs, s'')
          end
      end
  end.

(** ** The list a state represents *)

(** One stored node: its offset, its element and the number of levels it
    was spliced into. *)
Record anode := mkANode {
  a_ref : Z;
  a_elem : T;
  a_height : nat
}.

(** The first node of [suf] that takes part in level [i], and how many
    base-level positions away it is; with no such node the link is null and
    the span reaches the end of the list. *)
Fixpoint fwd_of (i : nat) (suf : list anode) : Z :=
  match suf with
  | [] => 0
  | y :: rest => if (i <? a_height y)%nat then a_ref y else fwd_of i rest
  end.

Fixpoint dist_of (i : nat) (suf : list anode) : Z :=
  match suf with
  | [] => 0
  | y :: rest => if (i <? a_height y)%nat then 1 else 1 + dist_of i rest
  end.

Definition links_ok (s : SkipList) (x : anode) (suf : list anode) : Prop :=
  forall i, (i < a_height x)%nat ->
    fwd s (a_ref x) i = fwd_of i suf /\ spn s (a_ref x) i = dist_of i suf.

Fixpoint chain_ok (s : SkipList) (l : list anode) : Prop :=
  match l with
  | [] => True
  | x :: suf => links_ok s x suf /\ chain_ok s suf
  end.

Fixpoint back_ok (s : SkipList) (prev : Z) (l : list anode) : Prop :=
  match l with
  | [] => True
  | x :: rest => bwd s (a_ref x) = prev /\ back_ok s (a_ref x) rest
  end.

Fixpoint free_ok (s : SkipList) (p : Z) (F : list Z) : Prop :=
  match F with
  | [] => p = 0
  | f :: F' => p = f /\ free_ok s (nxt s f) F'
  end.

Definition head_node (s : SkipList) : anode :=
  mkANode (head (sl s)) T_zero (level_num (sl s)).

(** The nodes before the insertion point of [e], and those from it on. *)
Fixpoint less_part (e : T) (L : list anode) : list anode :=
  match L with
  | [] => []
  | x :: rest => if cmp (a_elem x) e then x :: less_part e rest else []
  end.

Fixpoint rest_part (e : T) (L : list anode) : list anode :=
  match L with
  | [] => []
  | x :: rest => if cmp (a_elem x) e then rest_part e rest else x :: rest
  end.

(** The representation invariant: [s] holds the nodes [L], in base-level
    order, its free list chains the slots [F], and the slots [X] are
    allocated but in neither list (a node between [alloc_node] and its
    splice, or between its unlinking and [free_node]). *)
Record InvX (s : SkipList) (L : list anode) (F X : list Z) : Prop := mkInvX {
  inv_node_size : node_size (mem_header_ s) = mem_node_size;
  inv_capacity : fits_uint32 (mem_size (mem_header_ s));
  inv_alloc : alloc_size (mem_header_ s)
              = mem_header_size
                + mem_node_size
                  * Z.of_nat (1 + List.length L + List.length F + List.length X);
  inv_alloc_le : alloc_size (mem_header_ s) <= mem_size (mem_header_ s);
  inv_nodup : NoDup (head (sl s) :: map a_ref L ++ F ++ X);
  inv_range : Forall (fun r => 0 < r < alloc_size (mem_header_ s))
                     (head (sl s) :: map a_ref L ++ F ++ X);
  inv_free : free_ok s (free_list (mem_header_ s)) F;
  inv_chain : chain_ok s (head_node s :: L);
  inv_top : forall i, (level_num (sl s) <= i)%nat -> fwd s (head (sl s)) i = 0;
  inv_level_num : (1 <= level_num (sl s) <= MAX_LEVEL_NUM)%nat;
  inv_heights : Forall (fun x => (1 <= a_height x <= level_num (sl s))%nat) L;
  inv_above : Forall (fun x => forall i, (a_height x <= i)%nat ->
                                fwd s (a_ref x) i = 0) L;
  inv_empty : L = [] -> level_num (sl s) = 1%nat;
  inv_elem : Forall (fun x => elem s (a_ref x) = a_elem x) L;
  inv_sorted : sorted (map a_elem L);
  inv_back : back_ok s 0 L;
  inv_tail : tail (sl s) = last (map a_ref L) 0;
  inv_length : length (sl s) = Z.of_nat (List.length L)
}.

Definition Inv (s : SkipList) (L : list anode) (F : list Z) : Prop :=
  InvX s L F [].

(** [y] takes no part in level [i]. *)
Definition invisible (i : nat) (y : anode) : Prop := (a_height y <= i)%nat.

(** [u] is the offset of the last node of [A] that takes part in level [i],
    and [ix] the number of nodes before it. *)
Definition located (A : list anode) (i : nat) (u ix : Z) : Prop :=
  exists pre x suf,
    A = pre ++ x :: suf /\ (i < a_height x)%nat /\ Forall (invisible i) suf /\
    u = a_ref x /\ ix = Z.of_nat (List.length pre).

(** The levels [insert] adds on top of the active ones. *)
Definition raised (s : SkipList) (lvl j : nat) : bool :=
  (level_num (sl s) <=? j)%nat && (j <? lvl)%nat.

(** The nodes at the front of [R] that [e] is not less than, and the rest. *)
Fixpoint eq_run (e : T) (R : list anode) : list anode :=
  match R with
  | [] => []
  | d :: rest => if cmp e (a_elem d) then [] else d :: eq_run e rest
  end.

Fixpoint after_run (e : T) (R : list anode) : list anode :=
  match R with
  | [] => []
  | d :: rest => if cmp e (a_elem d) then d :: rest else after_run e rest
  end.

(** The first node not less than [e], if there is one, is greater: the
    result of a search that has gone down all the levels without meeting a
    node equivalent to [e]. *)
Definition none_equal (e : T) (L : list anode) : Prop :=
  match rest_part e L with [] => True | d :: _ => cmp e (a_elem d) = true end.

(** The header fields that [init] sets once and for all: the magic number,
    the three sizes and the offset of the head sentinel. *)
Definition layout (s : SkipList) : Z * Z * Z * Z * Z :=
  let h := mem_header_ s in
  (magic_num h, mem_size h, header_size h, node_size h, head (sl_info h)).

(** States reached from [s0] by calls of [insert] and [erase]. *)
Inductive reachable_from (s0 : SkipList) : SkipList -> Prop :=
| from_start : reachable_from s0 s0
| from_insert s fuel lvl e b s' :
    reachable_from s0 s ->
    (1 <= lvl <= MAX_LEVEL_NUM)%nat ->
    insert fuel lvl e s = Some (b, s') ->
    reachable_from s0 s'
| from_erase s fuel e count s' :
    reachable_from s0 s ->
    erase fuel e s = Some (count, s') ->
    reachable_from s0 s'.

(** The top active level holds a node, unless it is the only level. *)
Definition top_level_used (s : SkipList) : Prop :=
  level_num (sl s) = 1%nat \/ fwd s (head (sl s)) (level_num (sl s) - 1) <> 0.

(** [r] is the offset of a whole node slot of the allocated part of the
    buffer, behind the header. *)
Definition is_slot (s : SkipList) (r : Z) : Prop :=
  exists k, 0 <= k /\ r = mem_header_size + k * mem_node_size /\
            r + mem_node_size <= alloc_size (mem_header_ s).

(** What is assumed of the template parameters: [Compare] is a strict weak
    ordering, and the sizes are positive and small enough for [size_t]. *)
Record ElemOK : Prop := mkElemOK {
  cmp_irrefl : forall a, cmp a a = false;
  cmp_trans : forall a b c, cmp a b = true -> cmp b c = true -> cmp a c = true;
  cmp_cotrans : forall a b c, cmp a c = true -> cmp a b = true \/ cmp b c = true;
  header_size_pos : 0 < mem_header_size;
  node_size_pos : 0 < mem_node_size;
  sizes_fit : mem_header_size + (2 ^ 32 + 2) * mem_node_size <= 2 ^ 64
}.

End Observation.

Arguments ElemOK : clear implicits.

(** Case analysis on every boolean test of the goal. *)
Ltac case_tests :=
  repeat match goal with
    | |- context [Z.eqb ?a ?b] => destruct (Z.eqb_spec a b)
    | |- context [Nat.eqb ?a ?b] => destruct (Nat.eqb_spec a b)
    | |- context [Nat.ltb ?a ?b] => destruct (Nat.ltb_spec a b)
    | |- context [Nat.leb ?a ?b] => destruct (Nat.leb_spec a b)
    end;
  cbn [andb orb negb]; subst;
  try first [reflexivity | lia | congruence | contradiction].

(** Brings every clause of the invariant into the context. *)
Ltac inv_facts H :=
  pose proof (inv_node_size _ _ _ _ H) as I_node_size;
  pose proof (inv_capacity _ _ _ _ H) as I_capacity;
  pose proof (inv_alloc _ _ _ _ H) as I_alloc;
  pose proof (inv_alloc_le _ _ _ _ H) as I_alloc_le;
  pose proof (inv_nodup _ _ _ _ H) as I_nodup;
  pose proof (inv_range _ _ _ _ H) as I_range;
  pose proof (inv_free _ _ _ _ H) as I_free;
  pose proof (inv_chain _ _ _ _ H) as I_chain;
  pose proof (inv_top _ _ _ _ H) as I_top;
  pose proof (inv_level_num _ _ _ _ H) as I_level_num;
  pose proof (inv_heights _ _ _ _ H) as I_heights;
  pose proof (inv_above _ _ _ _ H) as I_above;
  pose proof (inv_empty _ _ _ _ H) as I_empty;
  pose proof (inv_elem _ _ _ _ H) as I_elem;
  pose proof (inv_sorted _ _ _ _ H) as I_sorted;
  pose proof (inv_back _ _ _ _ H) as I_back;
  pose proof (inv_tail _ _ _ _ H) as I_tail;
  pose proof (inv_length _ _ _ _ H) as I_length.

(** Computes the header fields read after header and node writes. *)
Ltac hdr_simpl :=
  cbn [memset_node set_alloc_size set_free_list set_next set_tail set_level_num
       set_length set_backword set_element set_forward set_span free_node
       with_sl_info with_node with_header mem_header_ sl sl_info
       magic_num mem_size alloc_size header_size node_size free_list
       head tail level_num length].

(** ** The instance [SkipList<int>] on an LP64 platform *)

Definition IntElem : Elem := mkElem Z Z.ltb 0 72 536.

(** A buffer before its first use. *)
Definition int_buffer : @SkipList IntElem :=
  mkSkipList (mkMemHeader 0 0 0 0 0 0 (mkSLInfo 0 0 0%nat 0)) (fun _ => zero_node).

(** Raw initialisation over a buffer of [max_mem_size n] bytes. *)
Definition int_init (n : Z) : @SkipList IntElem :=
  match init (Some int_buffer) (max_mem_size (E := IntElem) n) n true with
  | InitOk s => s
  | _ => int_buffer
  end.

Definition int_inserts (l : list (nat * Z)) (s : @SkipList IntElem) : @SkipList IntElem :=
  match insert_all (E := IntElem) 16 l s with
  | Some (_, s') => s'
  | None => s
  end.

(** Two equal elements, the first drawn at level 2, the second at level 1. *)
Definition two_fives : @SkipList IntElem :=
  int_inserts [(2%nat, 5); (1%nat, 5)] (int_init 8).

(** A single element. *)
Definition one_seven : @SkipList IntElem :=
  int_inserts [(1%nat, 7)] (int_init 8).

(** The elements 5, 3, 5, 1, 5 inserted in this order. *)
Definition five_elems : @SkipList IntElem :=
  int_inserts [(1%nat, 5); (3%nat, 3); (2%nat, 5); (1%nat, 1); (4%nat, 5)] (int_init 8).

(** The state [five_elems] after [erase(5)]. *)
Definition without_fives : @SkipList IntElem :=
  match erase (E := IntElem) 16 5 five_elems with
  | Some (_, s') => s'
  | None => five_elems
  end.

(** A raw initialisation for the largest length over a buffer of 608
    bytes, the header and one node. *)
Definition int_init_longest : @SkipList IntElem :=
  match init (Some int_buffer) 608 (2 ^ 32 - 1) true with
  | InitOk s => s
  | _ => int_buffer
  end.

(** The state [without_fives] after [insert(4)] at level 1. *)
Definition with_four : @SkipList IntElem :=
  match insert (E := IntElem) 16 1 4 without_fives with
  | Some (_, s') => s'
  | None => without_fives
  end.

(** * Verification *)

Section Verification.

Context {E : Elem}.

(** ** Loops *)

Lemma for_range_empty {S : Type} (lo hi : nat) (body : nat -> S -> S) (s : S) :
  (hi <= lo)%nat -> for_range lo hi body s = s.
Proof.
  intros H. unfold for_range.
  replace (hi - lo)%nat with 0%nat by lia. reflexivity.
Qed.

Lemma for_range_last {S : Type} (lo hi : nat) (body : nat -> S -> S) (s : S) :
  (lo <= hi)%nat ->
  for_range lo (Datatypes.S hi) body s = body hi (for_range lo hi body s).
Proof.
  intros H. unfold for_range.
  replace (Datatypes.S hi - lo)%nat with (Datatypes.S (hi - lo)) by lia.
  rewrite seq_S, fold_left_app. simpl.
  replace (lo + (hi - lo))%nat with hi by lia. reflexivity.
Qed.

Lemma arr_set_same (a : nat -> Z) (i : nat) (v : Z) : arr_set a i v i = v.
Proof. unfold arr_set. now rewrite Nat.eqb_refl. Qed.

Lemma arr_set_other (a : nat -> Z) (i j : nat) (v : Z) :
  j <> i -> arr_set a i v j = a j.
Proof.
  intros H. unfold arr_set.
  destruct (Nat.eqb_spec j i); [contradiction | reflexivity].
Qed.

(** ** Reading a field after a write *)

Lemma hdr_with_node ref f (s : SkipList) :
  mem_header_ (with_node ref f s) = mem_header_ s.
Proof. reflexivity. Qed.

Lemma deref_with_header f (s : SkipList) r :
  deref (with_header f s) r = deref s r.
Proof. reflexivity. Qed.

Lemma deref_with_node_same ref f (s : SkipList) :
  deref (with_node ref f s) ref = f (deref s ref).
Proof. unfold with_node. simpl. now rewrite Z.eqb_refl. Qed.

Lemma deref_with_node_other ref f (s : SkipList) r :
  r <> ref -> deref (with_node ref f s) r = deref s r.
Proof.
  intros H. unfold with_node. simpl.
  destruct (Z.eqb_spec r ref); [contradiction | reflexivity].
Qed.

Lemma fwd_set_forward ref i v (s : SkipList) r j :
  fwd (set_forward ref i v s) r j
  = if (r =? ref) && Nat.eqb j i then v else fwd s r j.
Proof.
  unfold fwd, set_forward, with_node. simpl.
  destruct (Z.eqb_spec r ref) as [->|]; simpl; [|reflexivity].
  destruct (Nat.eqb j i); reflexivity.
Qed.

Lemma spn_set_forward ref i v (s : SkipList) r j :
  spn (set_forward ref i v s) r j = spn s r j.
Proof.
  unfold spn, set_forward, with_node. simpl.
  destruct (Z.eqb_spec r ref) as [->|]; simpl; [|reflexivity].
  destruct (Nat.eqb_spec j i) as [->|]; reflexivity.
Qed.

Lemma fwd_set_span ref i v (s : SkipList) r j :
  fwd (set_span ref i v s) r j = fwd s r j.
Proof.
  unfold fwd, set_span, with_node. simpl.
  destruct (Z.eqb_spec r ref) as [->|]; simpl; [|reflexivity].
  destruct (Nat.eqb_spec j i) as [->|]; reflexivity.
Qed.

Lemma spn_set_span ref i v (s : SkipList) r j :
  spn (set_span ref i v s) r j
  = if (r =? ref) && Nat.eqb j i then v else spn s r j.
Proof.
  unfold spn, set_span, with_node. simpl.
  destruct (Z.eqb_spec r ref) as [->|]; simpl; [|reflexivity].
  destruct (Nat.eqb j i); reflexivity.
Qed.

Lemma elem_set_forward ref i v (s : SkipList) r :
  elem (set_forward ref i v s) r = elem s r.
Proof.
  unfold elem, set_forward, with_node. simpl.
  destruct (Z.eqb_spec r ref) as [->|]; reflexivity.
Qed.

Lemma elem_set_span ref i v (s : SkipList) r :
  elem (set_span ref i v s) r = elem s r.
Proof.
  unfold elem, set_span, with_node. simpl.
  destruct (Z.eqb_spec r ref) as [->|]; reflexivity.
Qed.

Lemma bwd_set_forward ref i v (s : SkipList) r :
  bwd (set_forward ref i v s) r = bwd s r.
Proof.
  unfold bwd, set_forward, with_node. simpl.
  destruct (Z.eqb_spec r ref) as [->|]; reflexivity.
Qed.

Lemma bwd_set_span ref i v (s : SkipList) r :
  bwd (set_span ref i v s) r = bwd s r.
Proof.
  unfold bwd, set_span, with_node. simpl.
  destruct (Z.eqb_spec r ref) as [->|]; reflexivity.
Qed.

Lemma nxt_set_forward ref i v (s : SkipList) r :
  nxt (set_forward ref i v s) r = nxt s r.
Proof.
  unfold nxt, set_forward, with_node. simpl.
  destruct (Z.eqb_spec r ref) as [->|]; reflexivity.
Qed.

Lemma nxt_set_span ref i v (s : SkipList) r :
  nxt (set_span ref i v s) r = nxt s r.
Proof.
  unfold nxt, set_span, with_node. simpl.
  destruct (Z.eqb_spec r ref) as [->|]; reflexivity.
Qed.

Lemma fwd_set_backword ref v (s : SkipList) r j :
  fwd (set_backword ref v s) r j = fwd s r j.
Proof.
  unfold fwd, set_backword, with_node. simpl.
  destruct (Z.eqb_spec r ref) as [->|]; reflexivity.
Qed.

Lemma spn_set_backword ref v (s : SkipList) r j :
  spn (set_backword ref v s) r j = spn s r j.
Proof.
  unfold spn, set_backword, with_node. simpl.
  destruct (Z.eqb_spec r ref) as [->|]; reflexivity.
Qed.

Lemma elem_set_backword ref v (s : SkipList) r :
  elem (set_backword ref v s) r = elem s r.
Proof.
  unfold elem, set_backword, with_node. simpl.
  destruct (Z.eqb_spec r ref) as [->|]; reflexivity.
Qed.

Lemma nxt_set_backword ref v (s : SkipList) r :
  nxt (set_backword ref v s) r = nxt s r.
Proof.
  unfold nxt, set_backword, with_node. simpl.
  destruct (Z.eqb_spec r ref) as [->|]; reflexivity.
Qed.

Lemma bwd_set_backword ref v (s : SkipList) r :
  bwd (set_backword ref v s) r = if r =? ref then v else bwd s r.
Proof.
  unfold bwd, set_backword, with_node. simpl.
  destruct (Z.eqb_spec r ref) as [->|]; reflexivity.
Qed.

Lemma fwd_set_element ref v (s : SkipList) r j :
  fwd (set_element ref v s) r j = fwd s r j.
Proof.
  unfold fwd, set_element, with_node. simpl.
  destruct (Z.eqb_spec r ref) as [->|]; reflexivity.
Qed.

Lemma spn_set_element ref v (s : SkipList) r j :
  spn (set_element ref v s) r j = spn s r j.
Proof.
  unfold spn, set_element, with_node. simpl.
  destruct (Z.eqb_spec r ref) as [->|]; reflexivity.
Qed.

Lemma bwd_set_element ref v (s : SkipList) r :
  bwd (set_element ref v s) r = bwd s r.
Proof.
  unfold bwd, set_element, with_node. simpl.
  destruct (Z.eqb_spec r ref) as [->|]; reflexivity.
Qed.

Lemma nxt_set_element ref v (s : SkipList) r :
  nxt (set_element ref v s) r = nxt s r.
Proof.
  unfold nxt, set_element, with_node. simpl.
  destruct (Z.eqb_spec r ref) as [->|]; reflexivity.
Qed.

Lemma elem_set_element ref v (s : SkipList) r :
  elem (set_element ref v s) r = if r =? ref then v else elem s r.
Proof.
  unfold elem, set_element, with_node. simpl.
  destruct (Z.eqb_spec r ref) as [->|]; reflexivity.
Qed.

Lemma fwd_set_next ref v (s : SkipList) r j :
  fwd (set_next ref v s) r j = fwd s r j.
Proof.
  unfold fwd, set_next, with_node. simpl.
  destruct (Z.eqb_spec r ref) as [->|]; reflexivity.
Qed.

Lemma spn_set_next ref v (s : SkipList) r j :
  spn (set_next ref v s) r j = spn s r j.
Proof.
  unfold spn, set_next, with_node. simpl.
  destruct (Z.eqb_spec r ref) as [->|]; reflexivity.
Qed.

Lemma elem_set_next ref v (s : SkipList) r :
  elem (set_next ref v s) r = elem s r.
Proof.
  unfold elem, set_next, with_node. simpl.
  destruct (Z.eqb_spec r ref) as [->|]; reflexivity.
Qed.

Lemma bwd_set_next ref v (s : SkipList) r :
  bwd (set_next ref v s) r = bwd s r.
Proof.
  unfold bwd, set_next, with_node. simpl.
  destruct (Z.eqb_spec r ref) as [->|]; reflexivity.
Qed.

Lemma nxt_set_next ref v (s : SkipList) r :
  nxt (set_next ref v s) r = if r =? ref then v else nxt s r.
Proof.
  unfold nxt, set_next, with_node. simpl.
  destruct (Z.eqb_spec r ref) as [->|]; reflexivity.
Qed.

Lemma fwd_memset_node ref (s : SkipList) r j :
  fwd (memset_node ref s) r j = if r =? ref then 0 else fwd s r j.
Proof.
  unfold fwd, memset_node, with_node. simpl.
  destruct (Z.eqb_spec r ref) as [->|]; reflexivity.
Qed.

Lemma spn_memset_node ref (s : SkipList) r j :
  spn (memset_node ref s) r j = if r =? ref then 0 else spn s r j.
Proof.
  unfold spn, memset_node, with_node. simpl.
  destruct (Z.eqb_spec r ref) as [->|]; reflexivity.
Qed.

Lemma elem_memset_node ref (s : SkipList) r :
  elem (memset_node ref s) r = if r =? ref then T_zero else elem s r.
Proof.
  unfold elem, memset_node, with_node. simpl.
  destruct (Z.eqb_spec r ref) as [->|]; reflexivity.
Qed.

Lemma bwd_memset_node ref (s : SkipList) r :
  bwd (memset_node ref s) r = if r =? ref then 0 else bwd s r.
Proof.
  unfold bwd, memset_node, with_node. simpl.
  destruct (Z.eqb_spec r ref) as [->|]; reflexivity.
Qed.

Lemma nxt_memset_node ref (s : SkipList) r :
  nxt (memset_node ref s) r = if r =? ref then 0 else nxt s r.
Proof.
  unfold nxt, memset_node, with_node. simpl.
  destruct (Z.eqb_spec r ref) as [->|]; reflexivity.
Qed.

Lemma fwd_with_header f (s : SkipList) r j : fwd (with_header f s) r j = fwd s r j.
Proof. reflexivity. Qed.
Lemma spn_with_header f (s : SkipList) r j : spn (with_header f s) r j = spn s r j.
Proof. reflexivity. Qed.
Lemma elem_with_header f (s : SkipList) r : elem (with_header f s) r = elem s r.
Proof. reflexivity. Qed.
Lemma bwd_with_header f (s : SkipList) r : bwd (with_header f s) r = bwd s r.
Proof. reflexivity. Qed.
Lemma nxt_with_header f (s : SkipList) r : nxt (with_header f s) r = nxt s r.
Proof. reflexivity. Qed.

End Verification.

(** ** Facts about the represented list *)

Section ListFacts.

Context {E : Elem}.


Lemma fwd_of_app_invisible i p X :
  Forall (invisible i) p -> fwd_of i (p ++ X) = fwd_of i X.
Proof.
  induction 1 as [|y p Hy _ IH]; simpl; [reflexivity|].
  destruct (Nat.ltb_spec i (a_height y)); [unfold invisible in Hy; lia | exact IH].
Qed.

Lemma dist_of_app_invisible i p X :
  Forall (invisible i) p ->
  dist_of i (p ++ X) = Z.of_nat (List.length p) + dist_of i X.
Proof.
  induction 1 as [|y p Hy _ IH]; [simpl; lia|].
  cbn [app dist_of List.length].
  destruct (Nat.ltb_spec i (a_height y)); [unfold invisible in Hy; lia | lia].
Qed.

Lemma fwd_of_invisible i p : Forall (invisible i) p -> fwd_of i p = 0.
Proof.
  intros H. rewrite <- (app_nil_r p). now rewrite fwd_of_app_invisible.
Qed.

Lemma dist_of_invisible i p :
  Forall (invisible i) p -> dist_of i p = Z.of_nat (List.length p).
Proof.
  intros H. rewrite <- (app_nil_r p) at 1.
  rewrite dist_of_app_invisible by assumption. simpl. lia.
Qed.

Lemma fwd_of_first_visible i p y X :
  Forall (invisible i) p -> (i < a_height y)%nat ->
  fwd_of i (p ++ y :: X) = a_ref y.
Proof.
  intros Hp Hy. rewrite fwd_of_app_invisible by assumption. simpl.
  destruct (Nat.ltb_spec i (a_height y)); [reflexivity | lia].
Qed.

Lemma dist_of_first_visible i p y X :
  Forall (invisible i) p -> (i < a_height y)%nat ->
  dist_of i (p ++ y :: X) = Z.of_nat (List.length p) + 1.
Proof.
  intros Hp Hy. rewrite dist_of_app_invisible by assumption. simpl.
  destruct (Nat.ltb_spec i (a_height y)); [reflexivity | lia].
Qed.

(** Either no node of [p] takes part in level [i], or there is a first one. *)
Lemma first_visible i (p : list anode) :
  Forall (invisible i) p \/
  exists p1 y p2, p = p1 ++ y :: p2 /\ Forall (invisible i) p1 /\ (i < a_height y)%nat.
Proof.
  induction p as [|y p IH]; [left; constructor|].
  destruct (Nat.ltb_spec i (a_height y)) as [Hy|Hy].
  - right. exists [], y, p. repeat split; [constructor | assumption].
  - destruct IH as [IH | (p1 & z & p2 & -> & Hp1 & Hz)].
    + left. constructor; assumption.
    + right. exists (y :: p1), z, p2. repeat split; [constructor|]; assumption.
Qed.

(** Either no node of [p] takes part in level [i], or there is a last one. *)
Lemma last_visible i (p : list anode) :
  Forall (invisible i) p \/
  exists p1 y p2, p = p1 ++ y :: p2 /\ (i < a_height y)%nat /\ Forall (invisible i) p2.
Proof.
  induction p as [|y p IH]; [left; constructor|].
  destruct IH as [IH | (p1 & z & p2 & -> & Hz & Hp2)].
  - destruct (Nat.ltb_spec i (a_height y)) as [Hy|Hy].
    + right. exists [], y, p. repeat split; assumption.
    + left. constructor; assumption.
  - right. exists (y :: p1), z, p2. repeat split; assumption.
Qed.

Lemma fwd_of_nonzero i X :
  fwd_of i X <> 0 ->
  exists b, In b X /\ fwd_of i X = a_ref b /\ (i < a_height b)%nat.
Proof.
  induction X as [|y X IH]; simpl; [congruence|].
  destruct (Nat.ltb_spec i (a_height y)) as [Hy|Hy]; intros H.
  - exists y. auto.
  - destruct (IH H) as (b & Hb & Heq & Hlt). exists b. auto.
Qed.

Lemma fwd_of_zero i X :
  Forall (fun y => a_ref y <> 0) X -> fwd_of i X = 0 -> Forall (invisible i) X.
Proof.
  induction 1 as [|y X Hy _ IH]; simpl; [constructor|].
  destruct (Nat.ltb_spec i (a_height y)) as [Hlt|Hge]; intros H.
  - contradiction.
  - constructor; [exact Hge | exact (IH H)].
Qed.

Lemma dist_of_bounds i X : 0 <= dist_of i X <= Z.of_nat (List.length X).
Proof.
  induction X as [|y X IH]; cbn [dist_of List.length]; [lia|].
  destruct (i <? a_height y)%nat; lia.
Qed.

Lemma dist_of_pos i X : X <> [] -> 1 <= dist_of i X.
Proof.
  destruct X as [|y X]; [congruence|]. intros _. cbn [dist_of].
  pose proof (dist_of_bounds i X). destruct (i <? a_height y)%nat; lia.
Qed.

Lemma invisible_level0 (p : list anode) :
  Forall (fun x => (1 <= a_height x)%nat) p -> Forall (invisible 0) p -> p = [].
Proof.
  intros H1 H2. destruct p as [|y p]; [reflexivity|].
  inversion H1; inversion H2; subst. unfold invisible in *. lia.
Qed.

(** *** Chains *)

Lemma chain_ok_app_r (s : SkipList) l1 l2 : chain_ok s (l1 ++ l2) -> chain_ok s l2.
Proof. induction l1 as [|x l1 IH]; simpl; [auto | intros [_ H]; auto]. Qed.

Lemma chain_ok_at (s : SkipList) pre x suf :
  chain_ok s (pre ++ x :: suf) -> links_ok s x suf.
Proof. intros H. apply chain_ok_app_r in H. exact (proj1 H). Qed.

Lemma chain_ok_intro (s : SkipList) l :
  (forall pre x suf, l = pre ++ x :: suf -> links_ok s x suf) -> chain_ok s l.
Proof.
  induction l as [|x l IH]; simpl; [trivial|]. intros H. split.
  - apply (H [] x l). reflexivity.
  - apply IH. intros pre y suf ->. apply (H (x :: pre) y suf). reflexivity.
Qed.

(** In a list without repeated offsets a node sits at one position only. *)
Lemma split_unique (A : list anode) pre x suf pre' x' suf' :
  NoDup (map a_ref A) ->
  A = pre ++ x :: suf -> A = pre' ++ x' :: suf' -> a_ref x = a_ref x' ->
  pre = pre' /\ x = x' /\ suf = suf'.
Proof.
  intros Hnd -> . revert pre' Hnd.
  induction pre as [|a pre IH]; intros pre' Hnd Heq Href.
  - destruct pre' as [|a' pre']; simpl in *.
    + inversion Heq; auto.
    + inversion Heq; subst. inversion Hnd as [|? ? Hnot _]; subst.
      exfalso. apply Hnot. rewrite Href, map_app. apply in_or_app. right. now left.
  - destruct pre' as [|a' pre']; simpl in *.
    + inversion Heq; subst. inversion Hnd as [|? ? Hnot _]; subst.
      exfalso. apply Hnot. rewrite <- Href, map_app. apply in_or_app. right. now left.
    + inversion Heq; subst. inversion Hnd; subst.
      destruct (IH pre') as (-> & -> & ->); auto.
Qed.

(** Two splits of one list at nodes of level [i], each followed only by
    nodes outside level [i], are the same split. *)
Lemma last_visible_unique i (A : list anode) pre x suf pre' x' suf' :
  A = pre ++ x :: suf -> A = pre' ++ x' :: suf' ->
  (i < a_height x)%nat -> Forall (invisible i) suf ->
  (i < a_height x')%nat -> Forall (invisible i) suf' ->
  pre = pre' /\ x = x' /\ suf = suf'.
Proof.
  intros -> . revert pre'.
  induction pre as [|a pre IH]; intros pre' Heq Hx Hs Hx' Hs'.
  - destruct pre' as [|a' pre']; simpl in *.
    + inversion Heq; auto.
    + inversion Heq; subst.
      rewrite Forall_forall in Hs. specialize (Hs x').
      unfold invisible in Hs. exfalso.
      assert (a_height x' <= i)%nat by (apply Hs, in_or_app; right; now left). lia.
  - destruct pre' as [|a' pre']; simpl in *.
    + inversion Heq; subst.
      rewrite Forall_forall in Hs'. specialize (Hs' x).
      unfold invisible in Hs'. exfalso.
      assert (a_height x <= i)%nat by (apply Hs', in_or_app; right; now left). lia.
    + inversion Heq; subst.
      destruct (IH pre') as (-> & -> & ->); auto.
Qed.

(** *** The insertion point *)

Lemma less_rest_split e (L : list anode) : L = less_part e L ++ rest_part e L.
Proof.
  induction L as [|x L IH]; simpl; [reflexivity|].
  destruct (cmp (a_elem x) e); simpl; [now f_equal | reflexivity].
Qed.

Lemma less_part_less e (L : list anode) :
  Forall (fun x => cmp (a_elem x) e = true) (less_part e L).
Proof.
  induction L as [|x L IH]; simpl; [constructor|].
  destruct (cmp (a_elem x) e) eqn:Hx; constructor; assumption.
Qed.

Lemma rest_part_head e (L : list anode) d r :
  rest_part e L = d :: r -> cmp (a_elem d) e = false.
Proof.
  induction L as [|x L IH]; simpl; [discriminate|].
  destruct (cmp (a_elem x) e) eqn:Hx; [exact IH|].
  intros H; inversion H; subst. exact Hx.
Qed.

Lemma sorted_app_r (l1 l2 : list T) : sorted (l1 ++ l2) -> sorted l2.
Proof.
  induction l1 as [|a l1 IH]; simpl; [auto|]. intros H. inversion H; auto.
Qed.

Lemma sorted_remove (l1 : list T) d l2 : sorted (l1 ++ d :: l2) -> sorted (l1 ++ l2).
Proof.
  induction l1 as [|a l1 IH]; simpl; intros H; inversion H; subst; [assumption|].
  constructor; [|auto].
  rewrite Forall_app in *. destruct H2 as [Ha Hb]. inversion Hb; auto.
Qed.

Section WithOrder.

Hypothesis HE : ElemOK E.

Lemma cmp_asym a b : cmp a b = true -> cmp b a = false.
Proof.
  intros H. destruct (cmp b a) eqn:Hba; [|reflexivity].
  pose proof (cmp_trans HE _ _ _ H Hba) as Haa.
  rewrite (cmp_irrefl HE) in Haa. discriminate.
Qed.

Lemma equiv_refl a : equiv a a = true.
Proof. unfold equiv. now rewrite (cmp_irrefl HE). Qed.

(** Past a node that is not less than [e], no node is less than [e]. *)
Lemma sorted_not_less e a (l : list T) :
  sorted (a :: l) -> cmp a e = false -> Forall (fun b => cmp b e = false) (a :: l).
Proof.
  intros Hs Ha. inversion Hs as [|? ? Hall _]; subst. constructor; [assumption|].
  rewrite Forall_forall in *. intros b Hb.
  destruct (cmp b e) eqn:Hbe; [|reflexivity].
  destruct (cmp_cotrans HE b a e Hbe) as [H|H].
  - rewrite (Hall b Hb) in H. discriminate.
  - congruence.
Qed.

Lemma rest_part_not_less e (L : list anode) :
  sorted (map a_elem L) ->
  Forall (fun x => cmp (a_elem x) e = false) (rest_part e L).
Proof.
  intros Hs. rewrite (less_rest_split e L), map_app in Hs.
  apply sorted_app_r in Hs.
  destruct (rest_part e L) as [|d r] eqn:Hr; [constructor|].
  pose proof (rest_part_head e L d r Hr) as Hd.
  simpl in Hs. pose proof (sorted_not_less e _ _ Hs Hd) as H.
  change (a_elem d :: map a_elem r) with (map a_elem (d :: r)) in H.
  now rewrite Forall_map in H.
Qed.

Lemma sorted_insert e (l1 l2 : list T) :
  sorted (l1 ++ l2) ->
  Forall (fun a => cmp a e = true) l1 ->
  Forall (fun b => cmp b e = false) l2 ->
  sorted (l1 ++ e :: l2).
Proof.
  induction l1 as [|a l1 IH]; simpl; intros Hs H1 H2.
  - constructor; assumption.
  - inversion Hs; subst. inversion H1; subst. constructor; [|auto].
    rewrite Forall_app in *. destruct H3 as [Ha Hb]. split; [assumption|].
    constructor; [|assumption]. now apply cmp_asym.
Qed.

End WithOrder.

End ListFacts.

(** ** The search down the levels *)

Section Search.

Context {E : Elem}.


Lemma wrap32_small z : 0 <= z < 2 ^ 32 -> wrap32 z = z.
Proof. intros H. unfold wrap32. now apply Z.mod_small. Qed.

Lemma wrap64_small z : 0 <= z < 2 ^ 64 -> wrap64 z = z.
Proof. intros H. unfold wrap64. now apply Z.mod_small. Qed.

Variable s : SkipList.
Variable e : T.
Variable B : list anode.

Hypothesis B_not_less : Forall (fun y => cmp (a_elem y) e = false) B.

Lemma insert_while_spec i fuel :
  forall pre x s1 idx,
    chain_ok s (pre ++ x :: s1 ++ B) ->
    (i < a_height x)%nat ->
    Forall (fun y => cmp (a_elem y) e = true) s1 ->
    Forall (fun y => elem s (a_ref y) = a_elem y) (s1 ++ B) ->
    Forall (fun y => a_ref y <> 0) (s1 ++ B) ->
    (List.length s1 < fuel)%nat ->
    0 <= idx -> idx + Z.of_nat (List.length s1) < 2 ^ 32 ->
    exists pre' x' s1',
      pre ++ x :: s1 = pre' ++ x' :: s1' /\ (i < a_height x')%nat /\
      Forall (invisible i) s1' /\
      insert_while fuel s e i (a_ref x) idx
      = Some (a_ref x', idx + Z.of_nat (List.length pre') - Z.of_nat (List.length pre)).
Proof.
  induction fuel as [|fuel IH]; intros pre x s1 idx Hchain Hx Hless Helem Hnz Hfuel Hidx Hbound;
    [lia|].
  destruct (chain_ok_at s pre x (s1 ++ B) Hchain i Hx) as [Hf Hs].
  cbn [insert_while]. rewrite Hf, Hs.
  destruct (first_visible i s1) as [Hinv | (p & y & q & -> & Hp & Hy)].
  - assert (Hstop : (if fwd_of i (s1 ++ B) =? 0 then Some (a_ref x, idx)
              else if cmp (elem s (fwd_of i (s1 ++ B))) e
                   then insert_while fuel s e i (fwd_of i (s1 ++ B))
                          (wrap32 (idx + dist_of i (s1 ++ B)))
                   else Some (a_ref x, idx)) = Some (a_ref x, idx)).
    { rewrite fwd_of_app_invisible by assumption.
      destruct (Z.eqb_spec (fwd_of i B) 0) as [|Hne]; [reflexivity|].
      destruct (fwd_of_nonzero i B Hne) as (b & Hb & -> & _).
      rewrite Forall_forall in Helem, B_not_less.
      rewrite (Helem b) by (apply in_or_app; now right).
      now rewrite (B_not_less b Hb). }
    rewrite Hstop. exists pre, x, s1. repeat split; try assumption.
    f_equal. f_equal. lia.
  - rewrite <- app_assoc. cbn [app].
    rewrite fwd_of_first_visible, dist_of_first_visible by assumption.
    assert (Hyin : In y ((p ++ y :: q) ++ B)).
    { apply in_or_app. left. apply in_or_app. right. now left. }
    rewrite Forall_forall in Helem, Hnz.
    pose proof (Hnz y Hyin) as Hy0. pose proof (Helem y Hyin) as Hye.
    destruct (Z.eqb_spec (a_ref y) 0) as [|_]; [contradiction|].
    rewrite Hye.
    assert (Hyl : cmp (a_elem y) e = true).
    { rewrite Forall_forall in Hless. apply Hless. apply in_or_app. right. now left. }
    rewrite Hyl.
    rewrite length_app in Hfuel, Hbound. cbn [List.length] in Hfuel, Hbound.
    rewrite wrap32_small by lia.
    destruct (IH (pre ++ x :: p) y q (idx + (Z.of_nat (List.length p) + 1)))
      as (pre' & x' & s1' & Heq & Hx' & Hinv' & Hres).
    + rewrite <- app_assoc. cbn [app].
      rewrite <- app_assoc in Hchain. exact Hchain.
    + exact Hy.
    + apply Forall_app in Hless. destruct Hless as [_ Hl]. now inversion Hl.
    + rewrite Forall_forall. intros z Hz. apply Helem.
      rewrite <- app_assoc. apply in_or_app. right. now right.
    + rewrite Forall_forall. intros z Hz. apply Hnz.
      rewrite <- app_assoc. apply in_or_app. right. now right.
    + lia.
    + lia.
    + lia.
    + exists pre', x', s1'. repeat split; try assumption.
      * rewrite <- Heq, <- app_assoc. reflexivity.
      * rewrite Hres. f_equal. f_equal.
        rewrite length_app. cbn [List.length]. lia.
Qed.

Lemma del_while_insert_while i fuel : forall node idx,
  del_while fuel s e i node = option_map fst (insert_while fuel s e i node idx).
Proof.
  induction fuel as [|fuel IH]; intros node idx; [reflexivity|].
  cbn [del_while insert_while].
  destruct (fwd s node i =? 0); [reflexivity|].
  destruct (cmp (elem s (fwd s node i)) e); [apply IH | reflexivity].
Qed.

(** The nodes of [A] after its first one are less than [e]; those of [B]
    are not. *)
Variable A : list anode.
Hypothesis A_chain : chain_ok s (A ++ B).
Hypothesis A_less : Forall (fun y => cmp (a_elem y) e = true) (List.tl A).
Hypothesis AB_elem : Forall (fun y => elem s (a_ref y) = a_elem y) (List.tl A ++ B).
Hypothesis AB_nonzero : Forall (fun y => a_ref y <> 0) (List.tl A ++ B).
Hypothesis A_short : Z.of_nat (List.length A) <= 2 ^ 32.

Lemma tl_suffix (pre : list anode) x s1 :
  A = pre ++ x :: s1 -> exists p, List.tl A = p ++ s1.
Proof.
  intros ->. destruct pre as [|a pre]; simpl.
  - now exists [].
  - exists (pre ++ [x]). now rewrite <- app_assoc.
Qed.

Lemma walk_from fuel i pre x s1 :
  A = pre ++ x :: s1 -> (i < a_height x)%nat -> (List.length A <= fuel)%nat ->
  exists pre' x' s1',
    A = pre' ++ x' :: s1' /\ (i < a_height x')%nat /\ Forall (invisible i) s1' /\
    insert_while fuel s e i (a_ref x) (Z.of_nat (List.length pre))
    = Some (a_ref x', Z.of_nat (List.length pre')).
Proof.
  intros HA Hx Hfuel.
  destruct (tl_suffix pre x s1 HA) as (p & Htl).
  assert (Hlen : List.length A = (List.length pre + S (List.length s1))%nat).
  { rewrite HA, length_app. reflexivity. }
  destruct (insert_while_spec i fuel pre x s1 (Z.of_nat (List.length pre)))
    as (pre' & x' & s1' & Heq & Hx' & Hinv & Hres).
  - replace (pre ++ x :: s1 ++ B) with ((pre ++ x :: s1) ++ B)
      by (now rewrite <- app_assoc).
    now rewrite <- HA.
  - exact Hx.
  - rewrite Htl in A_less. apply Forall_app in A_less. tauto.
  - rewrite Htl, <- app_assoc in AB_elem. apply Forall_app in AB_elem. tauto.
  - rewrite Htl, <- app_assoc in AB_nonzero. apply Forall_app in AB_nonzero. tauto.
  - lia.
  - lia.
  - lia.
  - exists pre', x', s1'. repeat split; try assumption; [congruence|].
    rewrite Hres. f_equal. f_equal. lia.
Qed.

Lemma insert_for_spec fuel : forall n pre x s1 index update,
  A = pre ++ x :: s1 -> (n <= a_height x)%nat -> (n <= level_num (sl s))%nat ->
  (n = level_num (sl s) -> pre = []) ->
  ((n < level_num (sl s))%nat -> index n = Z.of_nat (List.length pre)) ->
  (List.length A <= fuel)%nat ->
  exists index' update',
    insert_for fuel s e n (a_ref x) index update = Some (index', update') /\
    (forall i, (i < n)%nat -> located A i (update' i) (index' i)) /\
    (forall i, (n <= i)%nat -> index' i = index i /\ update' i = update i).
Proof.
  induction n as [|i IH]; intros pre x s1 index update HA Hx Hn Htop Hidx Hfuel.
  - exists index, update. cbn [insert_for]. repeat split; intros; lia.
  - cbn [insert_for].
    assert (Hstart : (if Nat.eqb i (level_num (sl s) - 1) then 0 else index (S i))
                     = Z.of_nat (List.length pre)).
    { destruct (Nat.eqb_spec i (level_num (sl s) - 1)) as [Heq|Hne].
      - rewrite Htop by lia. reflexivity.
      - apply Hidx. lia. }
    rewrite Hstart.
    destruct (walk_from fuel i pre x s1 HA) as (pre' & x' & s1' & HA' & Hx' & Hinv' & Hres);
      [lia | assumption |].
    rewrite Hres.
    destruct (IH pre' x' s1' (arr_set index i (Z.of_nat (List.length pre')))
                 (arr_set update i (a_ref x')))
      as (index' & update' & Hfor & Hlow & Hhigh); try assumption; try lia.
    { intros _. apply arr_set_same. }
    exists index', update'. split; [exact Hfor|]. split.
    + intros j Hj. destruct (Nat.eq_dec j i) as [->|Hne].
      * destruct (Hhigh i) as [-> ->]; [lia|]. rewrite !arr_set_same.
        exists pre', x', s1'. auto.
      * apply Hlow. lia.
    + intros j Hj. destruct (Hhigh j) as [-> ->]; [lia|].
      rewrite !arr_set_other by lia. auto.
Qed.

Lemma del_for_spec fuel : forall n pre x s1 update,
  A = pre ++ x :: s1 -> (n <= a_height x)%nat ->
  (List.length A <= fuel)%nat ->
  exists node' update',
    del_for fuel s e n (a_ref x) update = Some (node', update') /\
    (forall i, (i < n)%nat -> exists ix, located A i (update' i) ix) /\
    (forall i, (n <= i)%nat -> update' i = update i) /\
    ((0 < n)%nat -> node' = update' 0%nat).
Proof.
  induction n as [|i IH]; intros pre x s1 update HA Hx Hfuel.
  - exists (a_ref x), update. cbn [del_for]. repeat split; intros; lia.
  - cbn [del_for].
    destruct (walk_from fuel i pre x s1 HA) as (pre' & x' & s1' & HA' & Hx' & Hinv' & Hres);
      [lia | assumption |].
    rewrite (del_while_insert_while i fuel _ (Z.of_nat (List.length pre))), Hres.
    cbn [option_map fst].
    destruct (IH pre' x' s1' (arr_set update i (a_ref x')))
      as (node' & update' & Hfor & Hlow & Hhigh & Hnode); try assumption; try lia.
    exists node', update'. split; [exact Hfor|]. split; [|split].
    + intros j Hj. destruct (Nat.eq_dec j i) as [->|Hne].
      * rewrite (Hhigh i) by lia. rewrite arr_set_same.
        exists (Z.of_nat (List.length pre')), pre', x', s1'. auto.
      * apply Hlow. lia.
    + intros j Hj. rewrite (Hhigh j) by lia. apply arr_set_other. lia.
    + intros _. destruct i as [|i].
      * cbn [del_for] in Hfor. inversion Hfor; subst. now rewrite arr_set_same.
      * apply Hnode. lia.
Qed.

End Search.

(** ** More fuel changes nothing *)

Section Fuel.

Context {E : Elem}.

Lemma insert_while_mono (s : SkipList) e i fuel : forall fuel' node idx r,
  insert_while fuel s e i node idx = Some r -> (fuel <= fuel')%nat ->
  insert_while fuel' s e i node idx = Some r.
Proof.
  induction fuel as [|fuel IH]; intros fuel' node idx r H Hle; [discriminate|].
  destruct fuel' as [|fuel']; [lia|]. cbn [insert_while] in *.
  destruct (fwd s node i =? 0); [assumption|].
  destruct (cmp (elem s (fwd s node i)) e); [|assumption].
  apply IH; [assumption | lia].
Qed.

Lemma insert_for_mono (s : SkipList) e fuel fuel' : forall n node index update r,
  insert_for fuel s e n node index update = Some r -> (fuel <= fuel')%nat ->
  insert_for fuel' s e n node index update = Some r.
Proof.
  induction n as [|i IH]; intros node index update r H Hle; [assumption|].
  cbn [insert_for] in *.
  destruct (insert_while fuel s e i node _) as [[node' ix]|] eqn:Hw; [|discriminate].
  rewrite (insert_while_mono _ _ _ _ _ _ _ _ Hw Hle). now apply IH.
Qed.

Lemma insert_mono fuel fuel' lvl e (s : SkipList) r :
  insert fuel lvl e s = Some r -> (fuel <= fuel')%nat ->
  insert fuel' lvl e s = Some r.
Proof.
  unfold insert, insert_link. intros H Hle.
  destruct (alloc_node s) as [new s1].
  destruct (new =? 0); [assumption|].
  destruct (insert_for fuel s1 e _ _ _ _) as [[index update]|] eqn:Hf; [|discriminate].
  now rewrite (insert_for_mono _ _ _ _ _ _ _ _ _ Hf Hle).
Qed.

Lemma del_while_mono (s : SkipList) e i fuel : forall fuel' node r,
  del_while fuel s e i node = Some r -> (fuel <= fuel')%nat ->
  del_while fuel' s e i node = Some r.
Proof.
  induction fuel as [|fuel IH]; intros fuel' node r H Hle; [discriminate|].
  destruct fuel' as [|fuel']; [lia|]. cbn [del_while] in *.
  destruct (fwd s node i =? 0); [assumption|].
  destruct (cmp (elem s (fwd s node i)) e); [|assumption].
  apply IH; [assumption | lia].
Qed.

Lemma del_for_mono (s : SkipList) e fuel fuel' : forall n node update r,
  del_for fuel s e n node update = Some r -> (fuel <= fuel')%nat ->
  del_for fuel' s e n node update = Some r.
Proof.
  induction n as [|i IH]; intros node update r H Hle; [assumption|].
  cbn [del_for] in *.
  destruct (del_while fuel s e i node) as [node'|] eqn:Hw; [|discriminate].
  rewrite (del_while_mono _ _ _ _ _ _ _ Hw Hle). now apply IH.
Qed.

Lemma del_first_of_mono fuel fuel' e (s : SkipList) r :
  del_first_of fuel e s = Some r -> (fuel <= fuel')%nat ->
  del_first_of fuel' e s = Some r.
Proof.
  unfold del_first_of. intros H Hle.
  destruct (del_for fuel s e _ _ _) as [[node update]|] eqn:Hf; [|discriminate].
  now rewrite (del_for_mono _ _ _ _ _ _ _ _ Hf Hle).
Qed.

Lemma erase_loop_mono fuel fuel' e : forall n n' (s : SkipList) count r,
  erase_loop fuel n e s count = Some r -> (fuel <= fuel')%nat -> (n <= n')%nat ->
  erase_loop fuel' n' e s count = Some r.
Proof.
  induction n as [|n IH]; intros n' s count r H Hle Hn; [discriminate|].
  destruct n' as [|n']; [lia|]. cbn [erase_loop] in *.
  destruct (del_first_of fuel e s) as [[b s']|] eqn:Hd; [|discriminate].
  rewrite (del_first_of_mono _ _ _ _ _ Hd Hle).
  destruct b; [|assumption]. apply IH; [assumption | lia | lia].
Qed.

Lemma erase_mono fuel fuel' e (s : SkipList) r :
  erase fuel e s = Some r -> (fuel <= fuel')%nat -> erase fuel' e s = Some r.
Proof. unfold erase. intros H Hle. now apply (erase_loop_mono fuel fuel' e fuel fuel'). Qed.

End Fuel.


(** ** The writes of [insert] *)

Section InsertWrites.

Context {E : Elem}.


Lemma insert_raise_loop (s : SkipList) lo index update : forall k,
  let '(ix, up, s') :=
    for_range lo (lo + k)
      (fun i '(index, update, s) =>
         let index := arr_set index i 0 in
         let update := arr_set update i (head (sl s)) in
         (index, update, set_span (update i) i (length (sl s)) s))
      (index, update, s) in
  (forall j, ix j = if (lo <=? j)%nat && (j <? lo + k)%nat then 0 else index j) /\
  (forall j, up j = if (lo <=? j)%nat && (j <? lo + k)%nat then head (sl s) else update j) /\
  (forall r j, fwd s' r j = fwd s r j) /\
  (forall r j, spn s' r j
               = if (r =? head (sl s)) && ((lo <=? j)%nat && (j <? lo + k)%nat)
                 then length (sl s) else spn s r j) /\
  (forall r, elem s' r = elem s r) /\
  (forall r, bwd s' r = bwd s r) /\
  (forall r, nxt s' r = nxt s r) /\
  mem_header_ s' = mem_header_ s.
Proof.
  induction k as [|k IH].
  - rewrite for_range_empty by lia.
    repeat split; intros; try reflexivity;
      destruct (Nat.leb_spec lo j); destruct (Nat.ltb_spec j (lo + 0)); simpl;
      try reflexivity; try lia; now rewrite andb_false_r.
  - replace (lo + S k)%nat with (S (lo + k)) by lia.
    rewrite for_range_last by lia.
    destruct (for_range lo (lo + k) _ _) as [[ix up] s'].
    destruct IH as (Hix & Hup & Hf & Hs & He & Hb & Hn & Hh).
    cbn beta iota zeta.
    assert (Hsl : sl s' = sl s) by (unfold sl; now rewrite Hh).
    rewrite arr_set_same, Hsl.
    repeat split.
    + intros j. unfold arr_set. destruct (Nat.eqb_spec j (lo + k)) as [->|Hne].
      * destruct (Nat.leb_spec lo (lo + k)); destruct (Nat.ltb_spec (lo + k) (S (lo + k)));
          simpl; try reflexivity; lia.
      * rewrite Hix.
        destruct (Nat.leb_spec lo j); destruct (Nat.ltb_spec j (lo + k));
          destruct (Nat.ltb_spec j (S (lo + k))); simpl; try reflexivity; lia.
    + intros j. unfold arr_set. destruct (Nat.eqb_spec j (lo + k)) as [->|Hne].
      * destruct (Nat.leb_spec lo (lo + k)); destruct (Nat.ltb_spec (lo + k) (S (lo + k)));
          simpl; try reflexivity; lia.
      * rewrite Hup.
        destruct (Nat.leb_spec lo j); destruct (Nat.ltb_spec j (lo + k));
          destruct (Nat.ltb_spec j (S (lo + k))); simpl; try reflexivity; lia.
    + intros r j. now rewrite fwd_set_span.
    + intros r j. rewrite spn_set_span, Hs.
      destruct (Z.eqb_spec r (head (sl s))) as [->|Hr]; simpl; [|reflexivity].
      destruct (Nat.eqb_spec j (lo + k)) as [->|Hne].
      * destruct (Nat.leb_spec lo (lo + k)); destruct (Nat.ltb_spec (lo + k) (S (lo + k)));
          simpl; try reflexivity; lia.
      * destruct (Nat.leb_spec lo j); destruct (Nat.ltb_spec j (lo + k));
          destruct (Nat.ltb_spec j (S (lo + k))); simpl; try reflexivity; lia.
    + intros r. now rewrite elem_set_span.
    + intros r. now rewrite bwd_set_span.
    + intros r. now rewrite nxt_set_span.
    + exact Hh.
Qed.

Lemma insert_raise_spec (s : SkipList) lvl index update :
  let '(ix, up, s') := insert_raise lvl index update s in
  (forall j, ix j = if raised s lvl j then 0 else index j) /\
  (forall j, up j = if raised s lvl j then head (sl s) else update j) /\
  (forall r j, fwd s' r j = fwd s r j) /\
  (forall r j, spn s' r j
               = if (r =? head (sl s)) && raised s lvl j
                 then length (sl s) else spn s r j) /\
  (forall r, elem s' r = elem s r) /\
  (forall r, bwd s' r = bwd s r) /\
  (forall r, nxt s' r = nxt s r) /\
  mem_header_ s'
  = if (level_num (sl s) <? lvl)%nat then mem_header_ (set_level_num lvl s)
    else mem_header_ s.
Proof.
  unfold insert_raise, raised.
  destruct (Nat.ltb_spec (level_num (sl s)) lvl) as [Hlt|Hge].
  - pose proof (insert_raise_loop s (level_num (sl s)) index update
                  (lvl - level_num (sl s))) as H.
    replace (level_num (sl s) + (lvl - level_num (sl s)))%nat with lvl in H by lia.
    destruct (for_range _ _ _ _) as [[ix up] s'].
    destruct H as (Hix & Hup & Hf & Hs & He & Hb & Hn & Hh).
    repeat split; try assumption.
    unfold set_level_num, with_sl_info, with_header. simpl. now rewrite Hh.
  - repeat split; intros; try reflexivity.
    + destruct (Nat.leb_spec (level_num (sl s)) j); destruct (Nat.ltb_spec j lvl);
        simpl; try reflexivity; lia.
    + destruct (Nat.leb_spec (level_num (sl s)) j); destruct (Nat.ltb_spec j lvl);
        simpl; try reflexivity; lia.
    + destruct (Nat.leb_spec (level_num (sl s)) j); destruct (Nat.ltb_spec j lvl);
        simpl; rewrite ?andb_false_r; try reflexivity; lia.
Qed.

Lemma insert_splice_spec new index update (s : SkipList) : forall lvl,
  (forall j, (j < lvl)%nat -> update j <> new) ->
  let s' := insert_splice new lvl index update s in
  (forall r j, fwd s' r j
               = if (j <? lvl)%nat
                 then if r =? new then fwd s (update j) j
                      else if r =? update j then new else fwd s r j
                 else fwd s r j) /\
  (forall r j, spn s' r j
               = if (j <? lvl)%nat
                 then if r =? new
                      then wrap32 (spn s (update j) j - wrap32 (index 0%nat - index j))
                      else if r =? update j
                           then wrap32 (wrap32 (index 0%nat - index j) + 1)
                           else spn s r j
                 else spn s r j) /\
  (forall r, elem s' r = elem s r) /\
  (forall r, bwd s' r = bwd s r) /\
  (forall r, nxt s' r = nxt s r) /\
  mem_header_ s' = mem_header_ s.
Proof.
  unfold insert_splice.
  induction lvl as [|n IH]; intros Hnew.
  - rewrite for_range_empty by lia. cbn zeta. repeat split; reflexivity.
  - rewrite for_range_last by lia.
    destruct IH as (Hf & Hs & He & Hb & Hn & Hh); [intros; apply Hnew; lia|].
    set (s1 := for_range 0 n _ s) in *.
    assert (Hun : update n <> new) by (apply Hnew; lia).
    cbn zeta. repeat split.
    + intros r j.
      rewrite fwd_set_span, fwd_set_span, fwd_set_forward, fwd_set_forward, !Hf.
      case_tests.
    + intros r j.
      rewrite spn_set_span, spn_set_span, !spn_set_forward, !Hs.
      case_tests.
    + intros r.
      now rewrite elem_set_span, elem_set_span, elem_set_forward, elem_set_forward.
    + intros r.
      now rewrite bwd_set_span, bwd_set_span, bwd_set_forward, bwd_set_forward.
    + intros r.
      now rewrite nxt_set_span, nxt_set_span, nxt_set_forward, nxt_set_forward.
    + exact Hh.
Qed.

Lemma insert_bump_loop update (s : SkipList) lo : forall k,
  let s' := for_range lo (lo + k)
              (fun i s => set_span (update i) i (wrap32 (spn s (update i) i + 1)) s) s in
  (forall r j, fwd s' r j = fwd s r j) /\
  (forall r j, spn s' r j
               = if ((lo <=? j)%nat && (j <? lo + k)%nat) && (r =? update j)
                 then wrap32 (spn s r j + 1) else spn s r j) /\
  (forall r, elem s' r = elem s r) /\
  (forall r, bwd s' r = bwd s r) /\
  (forall r, nxt s' r = nxt s r) /\
  mem_header_ s' = mem_header_ s.
Proof.
  induction k as [|k IH]; cbn zeta.
  - rewrite for_range_empty by lia. repeat split; try reflexivity.
    intros r j. destruct (Nat.leb_spec lo j); destruct (Nat.ltb_spec j (lo + 0));
      simpl; try reflexivity; lia.
  - replace (lo + S k)%nat with (S (lo + k)) by lia.
    rewrite for_range_last by lia. cbn zeta in IH.
    destruct IH as (Hf & Hs & He & Hb & Hn & Hh).
    set (s1 := for_range lo (lo + k) _ s) in *.
    repeat split.
    + intros r j. now rewrite fwd_set_span.
    + intros r j. rewrite spn_set_span, !Hs. case_tests.
    + intros r. now rewrite elem_set_span.
    + intros r. now rewrite bwd_set_span.
    + intros r. now rewrite nxt_set_span.
    + exact Hh.
Qed.

Lemma insert_bump_spec lvl update (s : SkipList) :
  let s' := insert_bump lvl update s in
  (forall r j, fwd s' r j = fwd s r j) /\
  (forall r j, spn s' r j
               = if ((lvl <=? j)%nat && (j <? level_num (sl s))%nat) && (r =? update j)
                 then wrap32 (spn s r j + 1) else spn s r j) /\
  (forall r, elem s' r = elem s r) /\
  (forall r, bwd s' r = bwd s r) /\
  (forall r, nxt s' r = nxt s r) /\
  mem_header_ s' = mem_header_ s.
Proof.
  unfold insert_bump. cbn zeta.
  destruct (Nat.le_gt_cases lvl (level_num (sl s))) as [Hle|Hgt].
  - pose proof (insert_bump_loop update s lvl (level_num (sl s) - lvl)) as H.
    replace (lvl + (level_num (sl s) - lvl))%nat with (level_num (sl s)) in H by lia.
    exact H.
  - rewrite for_range_empty by lia. repeat split; try reflexivity.
    intros r j. destruct (Nat.leb_spec lvl j); destruct (Nat.ltb_spec j (level_num (sl s)));
      simpl; try reflexivity; lia.
Qed.

End InsertWrites.

(** ** Header writes leave the nodes alone, node writes the header *)

Section HeaderWrites.

Context {E : Elem}.

Lemma fwd_set_free_list v (s : SkipList) r j : fwd (set_free_list v s) r j = fwd s r j.
Proof. reflexivity. Qed.

Lemma spn_set_free_list v (s : SkipList) r j : spn (set_free_list v s) r j = spn s r j.
Proof. reflexivity. Qed.

Lemma elem_set_free_list v (s : SkipList) r : elem (set_free_list v s) r = elem s r.
Proof. reflexivity. Qed.

Lemma bwd_set_free_list v (s : SkipList) r : bwd (set_free_list v s) r = bwd s r.
Proof. reflexivity. Qed.

Lemma nxt_set_free_list v (s : SkipList) r : nxt (set_free_list v s) r = nxt s r.
Proof. reflexivity. Qed.

Lemma fwd_set_alloc_size v (s : SkipList) r j : fwd (set_alloc_size v s) r j = fwd s r j.
Proof. reflexivity. Qed.

Lemma spn_set_alloc_size v (s : SkipList) r j : spn (set_alloc_size v s) r j = spn s r j.
Proof. reflexivity. Qed.

Lemma elem_set_alloc_size v (s : SkipList) r : elem (set_alloc_size v s) r = elem s r.
Proof. reflexivity. Qed.

Lemma bwd_set_alloc_size v (s : SkipList) r : bwd (set_alloc_size v s) r = bwd s r.
Proof. reflexivity. Qed.

Lemma nxt_set_alloc_size v (s : SkipList) r : nxt (set_alloc_size v s) r = nxt s r.
Proof. reflexivity. Qed.

Lemma fwd_set_tail v (s : SkipList) r j : fwd (set_tail v s) r j = fwd s r j.
Proof. reflexivity. Qed.

Lemma spn_set_tail v (s : SkipList) r j : spn (set_tail v s) r j = spn s r j.
Proof. reflexivity. Qed.

Lemma elem_set_tail v (s : SkipList) r : elem (set_tail v s) r = elem s r.
Proof. reflexivity. Qed.

Lemma bwd_set_tail v (s : SkipList) r : bwd (set_tail v s) r = bwd s r.
Proof. reflexivity. Qed.

Lemma nxt_set_tail v (s : SkipList) r : nxt (set_tail v s) r = nxt s r.
Proof. reflexivity. Qed.

Lemma fwd_set_level_num v (s : SkipList) r j : fwd (set_level_num v s) r j = fwd s r j.
Proof. reflexivity. Qed.

Lemma spn_set_level_num v (s : SkipList) r j : spn (set_level_num v s) r j = spn s r j.
Proof. reflexivity. Qed.

Lemma elem_set_level_num v (s : SkipList) r : elem (set_level_num v s) r = elem s r.
Proof. reflexivity. Qed.

Lemma bwd_set_level_num v (s : SkipList) r : bwd (set_level_num v s) r = bwd s r.
Proof. reflexivity. Qed.

Lemma nxt_set_level_num v (s : SkipList) r : nxt (set_level_num v s) r = nxt s r.
Proof. reflexivity. Qed.

Lemma fwd_set_length v (s : SkipList) r j : fwd (set_length v s) r j = fwd s r j.
Proof. reflexivity. Qed.

Lemma spn_set_length v (s : SkipList) r j : spn (set_length v s) r j = spn s r j.
Proof. reflexivity. Qed.

Lemma elem_set_length v (s : SkipList) r : elem (set_length v s) r = elem s r.
Proof. reflexivity. Qed.

Lemma bwd_set_length v (s : SkipList) r : bwd (set_length v s) r = bwd s r.
Proof. reflexivity. Qed.

Lemma nxt_set_length v (s : SkipList) r : nxt (set_length v s) r = nxt s r.
Proof. reflexivity. Qed.

Lemma fwd_with_sl_info f (s : SkipList) r j : fwd (with_sl_info f s) r j = fwd s r j.
Proof. reflexivity. Qed.

Lemma spn_with_sl_info f (s : SkipList) r j : spn (with_sl_info f s) r j = spn s r j.
Proof. reflexivity. Qed.

Lemma elem_with_sl_info f (s : SkipList) r : elem (with_sl_info f s) r = elem s r.
Proof. reflexivity. Qed.

Lemma bwd_with_sl_info f (s : SkipList) r : bwd (with_sl_info f s) r = bwd s r.
Proof. reflexivity. Qed.

Lemma nxt_with_sl_info f (s : SkipList) r : nxt (with_sl_info f s) r = nxt s r.
Proof. reflexivity. Qed.

Lemma hdr_set_forward ref i v (s : SkipList) : mem_header_ (set_forward ref i v s) = mem_header_ s.
Proof. reflexivity. Qed.

Lemma sl_set_forward ref i v (s : SkipList) : sl (set_forward ref i v s) = sl s.
Proof. reflexivity. Qed.

Lemma hdr_set_span ref i v (s : SkipList) : mem_header_ (set_span ref i v s) = mem_header_ s.
Proof. reflexivity. Qed.

Lemma sl_set_span ref i v (s : SkipList) : sl (set_span ref i v s) = sl s.
Proof. reflexivity. Qed.

Lemma hdr_set_backword ref v (s : SkipList) : mem_header_ (set_backword ref v s) = mem_header_ s.
Proof. reflexivity. Qed.

Lemma sl_set_backword ref v (s : SkipList) : sl (set_backword ref v s) = sl s.
Proof. reflexivity. Qed.

Lemma hdr_set_element ref v (s : SkipList) : mem_header_ (set_element ref v s) = mem_header_ s.
Proof. reflexivity. Qed.

Lemma sl_set_element ref v (s : SkipList) : sl (set_element ref v s) = sl s.
Proof. reflexivity. Qed.

Lemma hdr_set_next ref v (s : SkipList) : mem_header_ (set_next ref v s) = mem_header_ s.
Proof. reflexivity. Qed.

Lemma sl_set_next ref v (s : SkipList) : sl (set_next ref v s) = sl s.
Proof. reflexivity. Qed.

Lemma hdr_memset_node ref (s : SkipList) : mem_header_ (memset_node ref s) = mem_header_ s.
Proof. reflexivity. Qed.

Lemma sl_memset_node ref (s : SkipList) : sl (memset_node ref s) = sl s.
Proof. reflexivity. Qed.

End HeaderWrites.

Create Rewrite HintDb obs.

#[global] Hint Rewrite @fwd_set_forward @spn_set_forward @fwd_set_span
  @spn_set_span @elem_set_forward @elem_set_span @bwd_set_forward
  @bwd_set_span @nxt_set_forward @nxt_set_span @fwd_set_backword
  @spn_set_backword @elem_set_backword @nxt_set_backword @bwd_set_backword
  @fwd_set_element @spn_set_element @bwd_set_element @nxt_set_element
  @elem_set_element @fwd_set_next @spn_set_next @elem_set_next @bwd_set_next
  @nxt_set_next @fwd_memset_node @spn_memset_node @elem_memset_node
  @bwd_memset_node @nxt_memset_node @fwd_set_free_list @spn_set_free_list
  @elem_set_free_list @bwd_set_free_list @nxt_set_free_list
  @fwd_set_alloc_size @spn_set_alloc_size @elem_set_alloc_size
  @bwd_set_alloc_size @nxt_set_alloc_size @fwd_set_tail @spn_set_tail
  @elem_set_tail @bwd_set_tail @nxt_set_tail @fwd_set_level_num
  @spn_set_level_num @elem_set_level_num @bwd_set_level_num @nxt_set_level_num
  @fwd_set_length @spn_set_length @elem_set_length @bwd_set_length
  @nxt_set_length @fwd_with_sl_info @spn_with_sl_info @elem_with_sl_info
  @bwd_with_sl_info @nxt_with_sl_info @hdr_set_forward @sl_set_forward
  @hdr_set_span @sl_set_span @hdr_set_backword @sl_set_backword
  @hdr_set_element @sl_set_element @hdr_set_next @sl_set_next @hdr_memset_node
  @sl_memset_node : obs.


(** ** Writes that leave the represented list alone *)

Section Frame.

Context {E : Elem}.

Lemma chain_ok_frame (s s' : SkipList) l :
  (forall x j, In x l -> (j < a_height x)%nat ->
     fwd s' (a_ref x) j = fwd s (a_ref x) j /\ spn s' (a_ref x) j = spn s (a_ref x) j) ->
  chain_ok s l -> chain_ok s' l.
Proof.
  induction l as [|x l IH]; simpl; [trivial|]. intros Hsame [Hx Hl]. split.
  - intros j Hj. destruct (Hsame x j (or_introl eq_refl) Hj) as [-> ->]. now apply Hx.
  - apply IH; [|assumption]. intros y j Hy. apply Hsame. now right.
Qed.

Lemma back_ok_frame (s s' : SkipList) l : forall prev,
  (forall x, In x l -> bwd s' (a_ref x) = bwd s (a_ref x)) ->
  back_ok s prev l -> back_ok s' prev l.
Proof.
  induction l as [|x l IH]; simpl; [trivial|]. intros prev Hsame [Hx Hl]. split.
  - now rewrite Hsame by now left.
  - apply IH; [|assumption]. intros y Hy. apply Hsame. now right.
Qed.

Lemma free_ok_frame (s s' : SkipList) F : forall p,
  (forall r, In r F -> nxt s' r = nxt s r) ->
  free_ok s p F -> free_ok s' p F.
Proof.
  induction F as [|f F IH]; simpl; [trivial|]. intros p Hsame [Hp HF]. split; [assumption|].
  rewrite Hsame by now left. apply IH; [|assumption]. intros r Hr. apply Hsame. now right.
Qed.

Lemma elem_ok_frame (s s' : SkipList) (l : list anode) :
  (forall x, In x l -> elem s' (a_ref x) = elem s (a_ref x)) ->
  Forall (fun x => elem s (a_ref x) = a_elem x) l ->
  Forall (fun x => elem s' (a_ref x) = a_elem x) l.
Proof.
  intros Hsame H. rewrite Forall_forall in *. intros x Hx.
  now rewrite Hsame, H.
Qed.

(** The represented list stays when a write touches none of its nodes and
    keeps the skip-list fields of the header. *)
Lemma InvX_frame (s s' : SkipList) L F X F' X' :
  InvX s L F X ->
  sl s' = sl s ->
  node_size (mem_header_ s') = node_size (mem_header_ s) ->
  mem_size (mem_header_ s') = mem_size (mem_header_ s) ->
  (forall r j, In r (head (sl s) :: map a_ref L) ->
     fwd s' r j = fwd s r j /\ spn s' r j = spn s r j) ->
  (forall r, In r (map a_ref L) -> elem s' r = elem s r /\ bwd s' r = bwd s r) ->
  alloc_size (mem_header_ s')
  = mem_header_size
    + mem_node_size * Z.of_nat (1 + List.length L + List.length F' + List.length X') ->
  alloc_size (mem_header_ s') <= mem_size (mem_header_ s') ->
  NoDup (head (sl s) :: map a_ref L ++ F' ++ X') ->
  Forall (fun r => 0 < r < alloc_size (mem_header_ s'))
         (head (sl s) :: map a_ref L ++ F' ++ X') ->
  free_ok s' (free_list (mem_header_ s')) F' ->
  InvX s' L F' X'.
Proof.
  intros H Hsl Hns Hms Hlinks Hnodes Halloc Hle Hnd Hrange Hfree.
  destruct H.
  assert (Hhn : head_node s' = head_node s) by (unfold head_node; now rewrite Hsl).
  constructor; try assumption.
  - congruence.
  - now rewrite Hms.
  - now rewrite Hsl.
  - now rewrite Hsl.
  - rewrite Hhn. apply (chain_ok_frame s); [|assumption].
    intros x j Hx _. apply Hlinks.
    destruct Hx as [<-|Hx]; [now left | right; now apply in_map].
  - rewrite Hsl. intros i Hi.
    destruct (Hlinks (head (sl s)) i) as [-> _]; [now left | auto].
  - now rewrite Hsl.
  - now rewrite Hsl.
  - rewrite Forall_forall in *. intros x Hx i Hi.
    destruct (Hlinks (a_ref x) i) as [-> _]; [right; now apply in_map | auto].
  - now rewrite Hsl.
  - apply (elem_ok_frame s); [|assumption].
    intros x Hx. apply Hnodes. now apply in_map.
  - apply (back_ok_frame s); [|assumption].
    intros x Hx. apply Hnodes. now apply in_map.
  - now rewrite Hsl.
  - now rewrite Hsl.
Qed.

Lemma InvX_length_bound (s : SkipList) L F X :
  ElemOK E -> InvX s L F X ->
  Z.of_nat (1 + List.length L + List.length F + List.length X) <= 2 ^ 32.
Proof.
  intros HE H. inv_facts H.
  unfold fits_uint32 in I_capacity.
  pose proof (node_size_pos HE). nia.
Qed.

Lemma InvX_head_nonzero (s : SkipList) L F X : InvX s L F X -> head (sl s) <> 0.
Proof.
  intros H. pose proof (inv_range _ _ _ _ H) as Hr. inversion Hr; subst. lia.
Qed.

Lemma InvX_refs_nonzero (s : SkipList) L F X :
  InvX s L F X -> Forall (fun y => a_ref y <> 0) L.
Proof.
  intros H. pose proof (inv_range _ _ _ _ H) as Hr. inversion Hr as [|? ? _ Hr']; subst.
  apply Forall_app in Hr'. destruct Hr' as [Hr' _].
  rewrite Forall_map in Hr'. eapply Forall_impl; [|exact Hr']. simpl. intros; lia.
Qed.

(** *** The allocator *)

Lemma alloc_node_spec (s : SkipList) L F :
  ElemOK E -> Inv s L F ->
  (alloc_node s = (0, s) /\ F = [] /\
   mem_size (mem_header_ s) < alloc_size (mem_header_ s) + mem_node_size) \/
  (exists new s1 F',
     alloc_node s = (new, s1) /\ new <> 0 /\ InvX s1 L F' [new] /\
     (F = new :: F' \/
      (F = [] /\ F' = [] /\ new = alloc_size (mem_header_ s) /\
       alloc_size (mem_header_ s) + mem_node_size <= mem_size (mem_header_ s))) /\
     (forall j, fwd s1 new j = 0 /\ spn s1 new j = 0) /\
     sl s1 = sl s).
Proof.
  intros HE H. pose proof (InvX_length_bound _ _ _ _ HE H) as Hbound.
  inv_facts H. unfold alloc_node.
  pose proof (node_size_pos HE) as Hnp. pose proof (header_size_pos HE) as Hhp.
  pose proof (sizes_fit HE) as Hfit. unfold fits_uint32 in I_capacity.
  destruct F as [|f F].
  - simpl in I_free. rewrite I_free, I_node_size. cbn [negb Z.eqb].
    rewrite wrap64_small by nia.
    destruct (Z.leb_spec (alloc_size (mem_header_ s) + mem_node_size)
                         (mem_size (mem_header_ s))) as [Hfits|Hfull].
    + right.
      eexists _, _, []. split; [reflexivity|].
      split; [nia|]. split; [|split; [right; auto|split; [|reflexivity]]].
      * apply (InvX_frame s _ L [] []); try assumption; try reflexivity.
        -- intros r j Hr. rewrite fwd_memset_node, spn_memset_node.
           rewrite Forall_forall in I_range.
           assert (0 < r < alloc_size (mem_header_ s)).
           { apply I_range. simpl in Hr |- *. rewrite app_nil_r. exact Hr. }
           destruct (Z.eqb_spec r (alloc_size (mem_header_ s))); [lia | auto].
        -- intros r Hr. rewrite elem_memset_node, bwd_memset_node.
           rewrite Forall_forall in I_range.
           assert (0 < r < alloc_size (mem_header_ s)).
           { apply I_range. simpl. right. rewrite app_nil_r. exact Hr. }
           destruct (Z.eqb_spec r (alloc_size (mem_header_ s))); [lia | auto].
        -- hdr_simpl. rewrite I_alloc. cbn [List.length]. nia.
        -- simpl in I_nodup |- *. rewrite app_nil_r in I_nodup.
           apply (Permutation_NoDup (l := alloc_size (mem_header_ s)
                                          :: head (sl s) :: map a_ref L)).
           ++ change (head (sl s) :: map a_ref L ++ [alloc_size (mem_header_ s)])
                with ((head (sl s) :: map a_ref L) ++ [alloc_size (mem_header_ s)]).
              apply Permutation_cons_append.
           ++ constructor; [|assumption].
              intros Hin. rewrite Forall_forall in I_range.
              assert (0 < alloc_size (mem_header_ s) < alloc_size (mem_header_ s)); [|lia].
              apply I_range. simpl. now rewrite app_nil_r.
        -- simpl. rewrite app_nil_r in I_range.
           change (head (sl s) :: map a_ref L ++ [alloc_size (mem_header_ s)])
             with ((head (sl s) :: map a_ref L) ++ [alloc_size (mem_header_ s)]).
           apply Forall_app. split.
           ++ eapply Forall_impl; [|exact I_range]. simpl. intros; lia.
           ++ constructor; [nia | constructor].
      * intros j. rewrite fwd_memset_node, spn_memset_node, Z.eqb_refl. auto.
    + left. auto.
  - simpl in I_free. destruct I_free as [Hfl Hrest].
    assert (Hf : 0 < f < alloc_size (mem_header_ s)).
    { rewrite Forall_forall in I_range. apply I_range.
      right. apply in_or_app. right. now left. }
    rewrite Hfl. destruct (Z.eqb_spec f 0) as [|_]; [lia|]. cbn [negb].
    right. eexists _, _, F. split; [reflexivity|].
    split; [lia|]. split; [|split; [left; reflexivity|split; [|reflexivity]]].
    + assert (Hperm : Permutation (head (sl s) :: map a_ref L ++ (f :: F) ++ [])
                                  (head (sl s) :: map a_ref L ++ F ++ [f])).
      { apply perm_skip, Permutation_app_head. rewrite app_nil_r.
        apply Permutation_cons_append. }
      assert (Hfresh : forall r, In r (head (sl s) :: map a_ref L ++ F) -> r <> f).
      { intros r Hr ->. rewrite app_nil_r in I_nodup.
        change (head (sl s) :: map a_ref L ++ f :: F)
          with ((head (sl s) :: map a_ref L) ++ f :: F) in I_nodup.
        apply NoDup_remove_2 in I_nodup. apply I_nodup.
        simpl in Hr |- *. destruct Hr as [Hr|Hr]; [now left|right].
        apply in_app_or in Hr. apply in_or_app. tauto. }
      apply (InvX_frame s _ L (f :: F) []); try assumption; try reflexivity.
      * intros r j Hr. rewrite fwd_memset_node, spn_memset_node.
        destruct (Z.eqb_spec r f) as [->|]; [|auto].
        exfalso. apply (Hfresh f); [|reflexivity].
        simpl in Hr |- *. destruct Hr as [Hr|Hr]; [now left|right].
        apply in_or_app. now left.
      * intros r Hr. rewrite elem_memset_node, bwd_memset_node.
        destruct (Z.eqb_spec r f) as [->|]; [|auto].
        exfalso. apply (Hfresh f); [|reflexivity].
        right. apply in_or_app. now left.
      * simpl. rewrite I_alloc. simpl List.length. f_equal. f_equal. lia.
      * eapply Permutation_NoDup; [exact Hperm | assumption].
      * eapply Permutation_Forall; [exact Hperm | assumption].
      * simpl. apply (free_ok_frame s); [|assumption].
        intros r Hr. rewrite nxt_memset_node.
        destruct (Z.eqb_spec r f) as [->|]; [|reflexivity].
        exfalso. apply (Hfresh f); [|reflexivity].
        right. apply in_or_app. now right.
    + intros j. rewrite fwd_memset_node, spn_memset_node, Z.eqb_refl. auto.
Qed.

Lemma free_node_spec (s : SkipList) L F d :
  InvX s L F [d] -> Inv (free_node d s) L (d :: F).
Proof.
  intros H. inv_facts H. unfold free_node.
  assert (Hperm : Permutation (head (sl s) :: map a_ref L ++ F ++ [d])
                              (head (sl s) :: map a_ref L ++ (d :: F) ++ [])).
  { apply perm_skip, Permutation_app_head. rewrite app_nil_r.
    symmetry. apply Permutation_cons_append. }
  apply (InvX_frame s _ L F [d]); try assumption; try reflexivity.
  - intros r j Hr. now autorewrite with obs.
  - intros r Hr. now autorewrite with obs.
  - hdr_simpl. rewrite I_alloc. cbn [List.length]. f_equal. f_equal. lia.
  - eapply Permutation_NoDup; [exact Hperm | assumption].
  - eapply Permutation_Forall; [exact Hperm | assumption].
  - hdr_simpl. split; [reflexivity|].
    autorewrite with obs. rewrite Z.eqb_refl.
    apply (free_ok_frame s); [|assumption].
    intros r Hr. autorewrite with obs.
    destruct (Z.eqb_spec r d) as [->|]; [|reflexivity].
    exfalso.
    change (head (sl s) :: map a_ref L ++ F ++ [d])
      with ((head (sl s) :: map a_ref L) ++ F ++ [d]) in I_nodup.
    rewrite app_assoc in I_nodup.
    apply NoDup_remove_2 in I_nodup. apply I_nodup.
    rewrite app_nil_r. apply in_or_app. now right.
Qed.

End Frame.

(** ** Where a node of a spliced list comes from *)

Section Splits.

Context {E : Elem}.

Lemma app_cons_split (A B : list anode) nn : forall pre x suf,
  A ++ nn :: B = pre ++ x :: suf ->
  (exists s1, A = pre ++ x :: s1 /\ suf = s1 ++ nn :: B) \/
  (pre = A /\ x = nn /\ suf = B) \/
  (exists pb, B = pb ++ x :: suf /\ pre = A ++ nn :: pb).
Proof.
  induction A as [|a A IH]; intros pre x suf Heq.
  - destruct pre as [|p pre]; simpl in Heq; inversion Heq; subst.
    + right. left. auto.
    + right. right. exists pre. auto.
  - destruct pre as [|p pre]; simpl in Heq; inversion Heq; subst.
    + left. exists A. auto.
    + destruct (IH pre x suf H1) as [(s1 & -> & ->) | [(-> & -> & ->) | (pb & -> & ->)]].
      * left. exists s1. auto.
      * right. left. auto.
      * right. right. exists pb. auto.
Qed.

Lemma app_split (A B : list anode) : forall pre x suf,
  A ++ B = pre ++ x :: suf ->
  (exists s1, A = pre ++ x :: s1 /\ suf = s1 ++ B) \/
  (exists pb, B = pb ++ x :: suf /\ pre = A ++ pb).
Proof.
  induction A as [|a A IH]; intros pre x suf Heq.
  - right. exists pre. auto.
  - destruct pre as [|p pre]; simpl in Heq; inversion Heq; subst.
    + left. exists A. auto.
    + destruct (IH pre x suf H1) as [(s1 & -> & ->) | (pb & -> & ->)].
      * left. exists s1. auto.
      * right. exists pb. auto.
Qed.

Lemma refs_apart (A B : list anode) x y :
  NoDup (map a_ref (A ++ B)) -> In x A -> In y B -> a_ref x <> a_ref y.
Proof.
  rewrite map_app. intros Hnd Hx Hy Heq.
  induction A as [|a A IH]; [contradiction|].
  simpl in Hnd. inversion Hnd as [|? ? Hnot Hnd']; subst.
  destruct Hx as [->|Hx]; [|auto].
  apply Hnot. rewrite Heq. apply in_or_app. right. now apply in_map.
Qed.

End Splits.

Section LocatedNode.

Context {E : Elem}.

(** The node located at level [i] takes part in level [i]. *)
Lemma located_visible (A : list anode) i u ix x :
  NoDup (map a_ref A) -> located A i u ix -> In x A -> a_ref x = u ->
  (i < a_height x)%nat.
Proof.
  intros Hnd (p & xi & suf & HA & Hxi & _ & Hu & _) Hx Heq.
  destruct (in_split x A Hx) as (p' & suf' & HA').
  destruct (split_unique A p' x suf' p xi suf Hnd HA' HA) as (_ & -> & _);
    [congruence | assumption].
Qed.

End LocatedNode.

(** ** The chain after the splice of [insert] *)

Section SpliceChain.

Context {E : Elem}.

Variables s2 s4 : SkipList.
Variables A B : list anode.
Variable nn : anode.
Variables index update : nat -> Z.
Variable H : nat.

Hypothesis Hchain : chain_ok s2 (A ++ B).
Hypothesis Hloc : forall i, (i < H)%nat -> located A i (update i) (index i).
Hypothesis Hheights : Forall (fun x => (1 <= a_height x <= H)%nat) (A ++ B).
Hypothesis Hlvl : (1 <= a_height nn <= H)%nat.
Hypothesis Hnd : NoDup (map a_ref (A ++ B)).
Hypothesis Hnew : ~ In (a_ref nn) (map a_ref (A ++ B)).
Hypothesis Hshort : Z.of_nat (List.length A + List.length B) < 2 ^ 32.
Hypothesis Hfwd : forall r j,
  fwd s4 r j
  = if (j <? a_height nn)%nat
    then if r =? a_ref nn then fwd s2 (update j) j
         else if r =? update j then a_ref nn else fwd s2 r j
    else fwd s2 r j.
Hypothesis Hspn : forall r j,
  spn s4 r j
  = if (j <? a_height nn)%nat
    then if r =? a_ref nn
         then wrap32 (spn s2 (update j) j - wrap32 (index 0%nat - index j))
         else if r =? update j
              then wrap32 (wrap32 (index 0%nat - index j) + 1)
              else spn s2 r j
    else if (j <? H)%nat && (r =? update j)
         then wrap32 (spn s2 r j + 1) else spn s2 r j.

Lemma splice_index0 : index 0%nat = Z.of_nat (List.length A) - 1.
Proof.
  destruct (Hloc 0%nat) as (p0 & x0 & s0 & HA & _ & Hs0 & _ & Hix); [lia|].
  assert (s0 = []) as ->.
  { apply invisible_level0; [|assumption].
    rewrite HA in Hheights. rewrite Forall_forall in *. intros y Hy.
    apply Hheights. apply in_or_app. left. apply in_or_app. right. now right. }
  rewrite Hix, HA, length_app. cbn [List.length]. lia.
Qed.

Lemma splice_height_A x : In x (A ++ B) -> (1 <= a_height x <= H)%nat.
Proof. intros Hx. rewrite Forall_forall in Hheights. now apply Hheights. Qed.

Lemma splice_not_new x : In x (A ++ B) -> a_ref x <> a_ref nn.
Proof. intros Hx Heq. apply Hnew. rewrite <- Heq. now apply in_map. Qed.

Lemma splice_links_A pre x s1 :
  A = pre ++ x :: s1 -> links_ok s4 x (s1 ++ nn :: B).
Proof.
  intros HA i Hi.
  assert (HxA : In x A) by (rewrite HA; apply in_or_app; right; now left).
  assert (Hx : In x (A ++ B)) by (apply in_or_app; now left).
  pose proof (splice_height_A x Hx) as HxH.
  pose proof (splice_not_new x Hx) as Hxn.
  assert (Hold : links_ok s2 x (s1 ++ B)).
  { apply (chain_ok_at s2 pre). rewrite HA, <- app_assoc in Hchain. exact Hchain. }
  destruct (Hold i Hi) as [Hf Hs].
  destruct (Hloc i) as (pi & xi & si & HAi & Hxi & Hsi & Hu & Hix); [lia|].
  pose proof splice_index0 as H0.
  assert (Hlen : List.length A = (List.length pre + S (List.length s1))%nat).
  { rewrite HA, length_app. reflexivity. }
  rewrite Hfwd, Hspn.
  destruct (Z.eqb_spec (a_ref x) (a_ref nn)) as [|_]; [contradiction|].
  destruct (first_visible i s1) as [Hinv | (p1 & y & p2 & Hs1 & Hp1 & Hy)].
  - destruct (last_visible_unique i A pre x s1 pi xi si HA HAi Hi Hinv Hxi Hsi)
      as (<- & <- & <-).
    rewrite Hu, Z.eqb_refl.
    pose proof (dist_of_bounds i B) as HdB.
    destruct (Nat.ltb_spec i (a_height nn)) as [Hlt|Hge].
    + rewrite fwd_of_first_visible, dist_of_first_visible by assumption.
      split; [reflexivity|].
      replace (index 0%nat - index i) with (Z.of_nat (List.length s1)) by lia.
      rewrite (wrap32_small (Z.of_nat _)) by lia. apply wrap32_small. lia.
    + destruct (Nat.ltb_spec i H) as [_|]; [|lia]. cbn [andb].
      rewrite Hf, Hs.
      rewrite !fwd_of_app_invisible, !dist_of_app_invisible by assumption.
      cbn [fwd_of dist_of].
      destruct (Nat.ltb_spec i (a_height nn)) as [|_]; [lia|].
      split; [reflexivity|]. rewrite wrap32_small by lia. lia.
  - assert (Hne : a_ref x <> update i).
    { intros Heq. rewrite Hu in Heq.
      destruct (split_unique A pre x s1 pi xi si) as (_ & _ & <-); try assumption.
      - rewrite map_app in Hnd. now apply NoDup_app_remove_r in Hnd.
      - rewrite Hs1 in Hsi. apply Forall_app in Hsi. destruct Hsi as [_ Hsi].
        inversion Hsi; subst. unfold invisible in *. lia. }
    destruct (Z.eqb_spec (a_ref x) (update i)) as [|_]; [contradiction|].
    rewrite andb_false_r.
    assert (Hsame : fwd s4 (a_ref x) i = fwd s2 (a_ref x) i -> True) by trivial.
    replace (if (i <? a_height nn)%nat then fwd s2 (a_ref x) i else fwd s2 (a_ref x) i)
      with (fwd s2 (a_ref x) i) by (destruct (i <? a_height nn)%nat; reflexivity).
    replace (if (i <? a_height nn)%nat then spn s2 (a_ref x) i else spn s2 (a_ref x) i)
      with (spn s2 (a_ref x) i) by (destruct (i <? a_height nn)%nat; reflexivity).
    rewrite Hf, Hs, Hs1, <- !app_assoc. cbn [app].
    rewrite !fwd_of_first_visible, !dist_of_first_visible by assumption. auto.
Qed.

Lemma splice_links_new : links_ok s4 nn B.
Proof.
  intros i Hi.
  destruct (Hloc i) as (pi & xi & si & HAi & Hxi & Hsi & Hu & Hix); [lia|].
  assert (Hold : links_ok s2 xi (si ++ B)).
  { apply (chain_ok_at s2 pi). rewrite HAi, <- app_assoc in Hchain. exact Hchain. }
  destruct (Hold i Hxi) as [Hf Hs].
  pose proof splice_index0 as H0.
  assert (Hlen : List.length A = (List.length pi + S (List.length si))%nat).
  { rewrite HAi, length_app. reflexivity. }
  rewrite Hfwd, Hspn, Z.eqb_refl.
  destruct (Nat.ltb_spec i (a_height nn)) as [_|]; [|lia].
  rewrite Hu, Hf, Hs.
  rewrite fwd_of_app_invisible, dist_of_app_invisible by assumption.
  split; [reflexivity|].
  pose proof (dist_of_bounds i B) as HdB.
  replace (index 0%nat - index i) with (Z.of_nat (List.length si)) by lia.
  rewrite (wrap32_small (Z.of_nat _)) by lia.
  rewrite wrap32_small by lia. lia.
Qed.

Lemma splice_links_B pb x suf :
  B = pb ++ x :: suf -> links_ok s4 x suf.
Proof.
  intros HB i Hi.
  assert (HxB : In x B) by (rewrite HB; apply in_or_app; right; now left).
  assert (Hx : In x (A ++ B)) by (apply in_or_app; now right).
  pose proof (splice_height_A x Hx) as HxH.
  pose proof (splice_not_new x Hx) as Hxn.
  assert (Hold : links_ok s2 x suf).
  { apply (chain_ok_at s2 (A ++ pb)). rewrite HB in Hchain.
    now rewrite <- app_assoc. }
  destruct (Hold i Hi) as [Hf Hs].
  destruct (Hloc i) as (pi & xi & si & HAi & Hxi & Hsi & Hu & Hix); [lia|].
  assert (Hne : a_ref x <> update i).
  { rewrite Hu. intros Heq. symmetry in Heq. revert Heq.
    apply (refs_apart A B); try assumption.
    rewrite HAi. apply in_or_app. right. now left. }
  rewrite Hfwd, Hspn.
  destruct (Z.eqb_spec (a_ref x) (a_ref nn)) as [|_]; [contradiction|].
  destruct (Z.eqb_spec (a_ref x) (update i)) as [|_]; [contradiction|].
  rewrite andb_false_r.
  destruct (i <? a_height nn)%nat; auto.
Qed.

Lemma splice_chain : chain_ok s4 (A ++ nn :: B).
Proof.
  apply chain_ok_intro. intros pre x suf Heq.
  destruct (app_cons_split A B nn pre x suf Heq)
    as [(s1 & HA & ->) | [(-> & -> & ->) | (pb & HB & ->)]].
  - now apply (splice_links_A pre).
  - apply splice_links_new.
  - now apply (splice_links_B pb).
Qed.

End SpliceChain.

(** ** The search on a state that satisfies the invariant *)

Section InvSearch.

Context {E : Elem}.
Hypothesis HE : ElemOK E.

Variable s : SkipList.
Variables (L : list anode) (F X : list Z).
Hypothesis HI : InvX s L F X.
Variable e : T.

Lemma inv_search_chain :
  chain_ok s ((head_node s :: less_part e L) ++ rest_part e L).
Proof.
  cbn [app]. rewrite <- less_rest_split. exact (inv_chain _ _ _ _ HI).
Qed.

Lemma inv_search_elem :
  Forall (fun y => elem s (a_ref y) = a_elem y)
         (List.tl (head_node s :: less_part e L) ++ rest_part e L).
Proof.
  cbn [List.tl]. rewrite <- less_rest_split. exact (inv_elem _ _ _ _ HI).
Qed.

Lemma inv_search_nonzero :
  Forall (fun y => a_ref y <> 0)
         (List.tl (head_node s :: less_part e L) ++ rest_part e L).
Proof.
  cbn [List.tl]. rewrite <- less_rest_split. exact (InvX_refs_nonzero _ _ _ _ HI).
Qed.

Lemma less_part_length : (List.length (less_part e L) <= List.length L)%nat.
Proof.
  rewrite (less_rest_split e L) at 2. rewrite length_app. lia.
Qed.

Lemma inv_search_short :
  Z.of_nat (List.length (head_node s :: less_part e L)) <= 2 ^ 32.
Proof.
  pose proof (InvX_length_bound _ _ _ _ HE HI). pose proof less_part_length.
  cbn [List.length]. lia.
Qed.

Lemma inv_insert_search fuel :
  (List.length L < fuel)%nat ->
  exists index update,
    insert_for fuel s e (level_num (sl s)) (head (sl s)) (fun _ => 0) (fun _ => 0)
    = Some (index, update) /\
    forall i, (i < level_num (sl s))%nat ->
      located (head_node s :: less_part e L) i (update i) (index i).
Proof.
  intros Hfuel. pose proof less_part_length as Hlen.
  destruct (insert_for_spec s e (rest_part e L)
              (rest_part_not_less HE e L (inv_sorted _ _ _ _ HI))
              (head_node s :: less_part e L)
              inv_search_chain (less_part_less e L) inv_search_elem
              inv_search_nonzero inv_search_short
              fuel (level_num (sl s)) [] (head_node s) (less_part e L)
              (fun _ => 0) (fun _ => 0))
    as (index & update & Hfor & Hloc & _); try reflexivity; try (cbn; lia).
  exists index, update. split; assumption.
Qed.

Lemma inv_del_search fuel :
  (List.length L < fuel)%nat ->
  exists node update,
    del_for fuel s e (level_num (sl s)) (head (sl s)) (fun _ => 0)
    = Some (node, update) /\
    (forall i, (i < level_num (sl s))%nat ->
       exists ix, located (head_node s :: less_part e L) i (update i) ix) /\
    node = update 0%nat.
Proof.
  intros Hfuel. pose proof less_part_length as Hlen.
  destruct (del_for_spec s e (rest_part e L)
              (rest_part_not_less HE e L (inv_sorted _ _ _ _ HI))
              (head_node s :: less_part e L)
              inv_search_chain (less_part_less e L) inv_search_elem
              inv_search_nonzero inv_search_short
              fuel (level_num (sl s)) [] (head_node s) (less_part e L)
              (fun _ => 0))
    as (node & update & Hfor & Hloc & _ & Hnode); try reflexivity; try (cbn; lia).
  exists node, update. repeat split; try assumption.
  apply Hnode. pose proof (inv_level_num _ _ _ _ HI). lia.
Qed.

End InvSearch.

Section Level0.

Context {E : Elem}.

(** At level 0 the node located is the last one. *)
Lemma located_level0 (A : list anode) u ix :
  Forall (fun x => (1 <= a_height x)%nat) A ->
  located A 0 u ix ->
  exists p x, A = p ++ [x] /\ u = a_ref x /\ ix = Z.of_nat (List.length p).
Proof.
  intros Hh (p & x & suf & HA & _ & Hsuf & Hu & Hix).
  assert (suf = []) as ->.
  { apply invisible_level0; [|assumption].
    rewrite HA in Hh. apply Forall_app in Hh. destruct Hh as [_ Hh].
    now inversion Hh. }
  exists p, x. auto.
Qed.

Lemma last_nonempty {A : Type} (l : list A) d d' : l <> [] -> last l d = last l d'.
Proof.
  induction l as [|a l IH]; [congruence|]. intros _.
  destruct l as [|b l]; [reflexivity|]. cbn [last] in *. apply IH. discriminate.
Qed.

Lemma last_snoc {A : Type} (l : list A) x d : last (l ++ [x]) d = x.
Proof. apply last_last. Qed.

Lemma last_app_nonempty {A : Type} (l1 l2 : list A) d :
  l2 <> [] -> last (l1 ++ l2) d = last l2 d.
Proof.
  intros H. induction l1 as [|a l1 IH]; [reflexivity|].
  cbn [app].
  change (last (a :: (l1 ++ l2)) d)
    with (match l1 ++ l2 with [] => a | _ :: _ => last (l1 ++ l2) d end).
  destruct (l1 ++ l2) eqn:Heq.
  - apply app_eq_nil in Heq. tauto.
  - exact IH.
Qed.

Lemma back_ok_app (s : SkipList) (l1 l2 : list anode) : forall prev,
  back_ok s prev (l1 ++ l2) <->
  back_ok s prev l1 /\ back_ok s (last (map a_ref l1) prev) l2.
Proof.
  induction l1 as [|x l1 IH]; intros prev; cbn [app back_ok map].
  - simpl. tauto.
  - rewrite IH.
    assert (last (a_ref x :: map a_ref l1) prev = last (map a_ref l1) (a_ref x)) as ->.
    { destruct (map a_ref l1) eqn:Hm; [reflexivity|].
      cbn [last]. destruct l; [reflexivity|]. apply last_nonempty. discriminate. }
    tauto.
Qed.

Lemma fwd_of_level0 (l : list anode) :
  Forall (fun x => (1 <= a_height x)%nat) l ->
  fwd_of 0 l = match l with [] => 0 | y :: _ => a_ref y end.
Proof.
  intros H. destruct l as [|y l]; [reflexivity|]. cbn [fwd_of].
  inversion H; subst. destruct (Nat.ltb_spec 0 (a_height y)); [reflexivity | lia].
Qed.

End Level0.

(** ** [insert] keeps the invariant *)

Section InsertInv.

Context {E : Elem}.
Hypothesis HE : ElemOK E.

Lemma set_level_num_same (s : SkipList) :
  mem_header_ (set_level_num (level_num (sl s)) s) = mem_header_ s.
Proof. destruct s as [[m ms a h n f [hd tl lv ln]] d]. reflexivity. Qed.

Lemma located_raise (s : SkipList) (L1 : list anode) lvl i u ix :
  located (head_node s :: L1) i u ix ->
  located (mkANode (head (sl s)) T_zero (Nat.max (level_num (sl s)) lvl) :: L1) i u ix.
Proof.
  intros (p & x & suf & HA & Hx & Hsuf & Hu & Hix).
  destruct p as [|h p]; cbn [app] in HA; inversion HA; subst.
  - exists [], (mkANode (head (sl s)) T_zero (Nat.max (level_num (sl s)) lvl)), suf.
    cbn in *. repeat split; auto. lia.
  - exists (mkANode (head (sl s)) T_zero (Nat.max (level_num (sl s)) lvl) :: p), x, suf.
    cbn in *. repeat split; auto.
Qed.

Variable s1 : SkipList.
Variables (L : list anode) (F : list Z).
Variable new : Z.
Variable lvl : nat.
Variable e : T.

Hypothesis HI : InvX s1 L F [new].
Hypothesis Hzero : forall j, fwd s1 new j = 0.
Hypothesis Hlvl : (1 <= lvl <= MAX_LEVEL_NUM)%nat.

Let L1 := less_part e L.
Let L2 := rest_part e L.
Let H' := Nat.max (level_num (sl s1)) lvl.
Let hn' := mkANode (head (sl s1)) T_zero H'.
Let nn := mkANode new e lvl.

Lemma ins_split : L = L1 ++ L2.
Proof. apply less_rest_split. Qed.

Lemma ins_new_fresh : ~ In new (map a_ref ((hn' :: L1) ++ L2)).
Proof.
  pose proof (inv_nodup _ _ _ _ HI) as Hnd.
  cbn [app map a_ref hn']. rewrite <- ins_split.
  change (head (sl s1) :: map a_ref L ++ F ++ [new])
    with ((head (sl s1) :: map a_ref L) ++ F ++ [new]) in Hnd.
  rewrite app_assoc in Hnd. apply NoDup_remove_2 in Hnd.
  rewrite app_nil_r in Hnd. intros Hin. apply Hnd. apply in_or_app. now left.
Qed.

Lemma ins_nodup : NoDup (map a_ref ((hn' :: L1) ++ L2)).
Proof.
  pose proof (inv_nodup _ _ _ _ HI) as Hnd.
  cbn [app map a_ref hn']. rewrite <- ins_split.
  change (head (sl s1) :: map a_ref L ++ F ++ [new])
    with ((head (sl s1) :: map a_ref L) ++ F ++ [new]) in Hnd.
  now apply NoDup_app_remove_r in Hnd.
Qed.

Lemma ins_heights : Forall (fun x => (1 <= a_height x <= H')%nat) ((hn' :: L1) ++ L2).
Proof.
  pose proof (inv_heights _ _ _ _ HI) as Hh.
  pose proof (inv_level_num _ _ _ _ HI) as Hn.
  cbn [app]. rewrite <- ins_split. constructor.
  - cbn. unfold H'. lia.
  - eapply Forall_impl; [|exact Hh]. cbn. intros x Hx. unfold H'. lia.
Qed.

(** The state after the new levels are prepared. *)
Lemma ins_raised_chain (s2 : SkipList) index update index2 update2 :
  (forall i, (i < level_num (sl s1))%nat ->
     located (head_node s1 :: L1) i (update i) (index i)) ->
  (forall j, index2 j = if raised s1 lvl j then 0 else index j) ->
  (forall j, update2 j = if raised s1 lvl j then head (sl s1) else update j) ->
  (forall r j, fwd s2 r j = fwd s1 r j) ->
  (forall r j, spn s2 r j
               = if (r =? head (sl s1)) && raised s1 lvl j
                 then length (sl s1) else spn s1 r j) ->
  chain_ok s2 ((hn' :: L1) ++ L2) /\
  forall i, (i < H')%nat -> located (hn' :: L1) i (update2 i) (index2 i).
Proof.
  intros Hloc Hix2 Hup2 Hf2 Hs2.
  pose proof (inv_heights _ _ _ _ HI) as Hh.
  pose proof (inv_level_num _ _ _ _ HI) as Hn.
  pose proof (inv_chain _ _ _ _ HI) as Hc.
  pose proof (inv_top _ _ _ _ HI) as Ht.
  pose proof (inv_length _ _ _ _ HI) as Hlen.
  pose proof (inv_nodup _ _ _ _ HI) as Hnd.
  assert (Hinv : forall i, (level_num (sl s1) <= i)%nat -> Forall (invisible i) L).
  { intros i Hi. eapply Forall_impl; [|exact Hh]. unfold invisible. cbn. intros; lia. }
  split.
  - cbn [app]. rewrite <- ins_split. cbn [chain_ok] in *. destruct Hc as [Hhd Hrest].
    split.
    + intros i Hi. cbn [hn' a_ref a_height] in *. rewrite Hf2, Hs2, Z.eqb_refl.
      unfold raised. cbn [andb].
      destruct (Nat.leb_spec (level_num (sl s1)) i) as [Hge|Hlt].
      * destruct (Nat.ltb_spec i lvl) as [Hlt|Hge']; [|unfold H' in Hi; lia].
        cbn [andb]. rewrite Ht by assumption.
        rewrite fwd_of_invisible, dist_of_invisible by auto. auto.
      * cbn [andb]. apply Hhd. cbn. lia.
    + apply (chain_ok_frame s1); [|assumption].
      intros x j Hx Hj. rewrite Hf2, Hs2.
      rewrite Forall_forall in Hh. pose proof (Hh x Hx) as Hxh.
      unfold raised.
      destruct (Nat.leb_spec (level_num (sl s1)) j); [lia|].
      cbn [andb]. rewrite andb_false_r. auto.
  - intros i Hi. rewrite Hix2, Hup2. unfold raised.
    destruct (Nat.leb_spec (level_num (sl s1)) i) as [Hge|Hlt]; cbn [andb].
    + destruct (Nat.ltb_spec i lvl) as [Hlt|Hge']; [|unfold H' in Hi; lia].
      exists [], hn', L1. cbn. repeat split; auto.
      specialize (Hinv i Hge). rewrite ins_split in Hinv.
      apply Forall_app in Hinv. tauto.
    + apply located_raise. now apply Hloc.
Qed.

Lemma ins_spliced_chain (s2 s4 : SkipList) index2 update2 :
  chain_ok s2 ((hn' :: L1) ++ L2) ->
  (forall i, (i < H')%nat -> located (hn' :: L1) i (update2 i) (index2 i)) ->
  (forall r j,
     fwd s4 r j
     = if (j <? lvl)%nat
       then if r =? new then fwd s2 (update2 j) j
            else if r =? update2 j then new else fwd s2 r j
       else fwd s2 r j) ->
  (forall r j,
     spn s4 r j
     = if (j <? lvl)%nat
       then if r =? new
            then wrap32 (spn s2 (update2 j) j - wrap32 (index2 0%nat - index2 j))
            else if r =? update2 j
                 then wrap32 (wrap32 (index2 0%nat - index2 j) + 1)
                 else spn s2 r j
       else if (j <? H')%nat && (r =? update2 j)
            then wrap32 (spn s2 r j + 1) else spn s2 r j) ->
  chain_ok s4 ((hn' :: L1) ++ nn :: L2).
Proof.
  intros Hc Hloc Hf Hs.
  pose proof (InvX_length_bound _ _ _ _ HE HI) as Hbound.
  apply (splice_chain s2 s4 (hn' :: L1) L2 nn index2 update2 H'); try assumption.
  - apply ins_heights.
  - cbn. unfold H'. lia.
  - apply ins_nodup.
  - apply ins_new_fresh.
  - rewrite <- length_app. cbn [app List.length]. rewrite <- ins_split.
    cbn [List.length] in Hbound. lia.
Qed.

Lemma ins_final_inv (s8 : SkipList) :
  chain_ok s8 ((hn' :: L1) ++ nn :: L2) ->
  (forall i, (H' <= i)%nat -> fwd s8 (head (sl s1)) i = 0) ->
  Forall (fun x => forall i, (a_height x <= i)%nat -> fwd s8 (a_ref x) i = 0)
         (L1 ++ nn :: L2) ->
  (forall r, elem s8 r = if r =? new then e else elem s1 r) ->
  (forall r, nxt s8 r = nxt s1 r) ->
  (forall r, r <> 0 ->
             bwd s8 r
             = if r =? fwd_of 0 L2 then new
               else if r =? new then last (map a_ref L1) 0 else bwd s1 r) ->
  mem_header_ s8
  = mkMemHeader (magic_num (mem_header_ s1)) (mem_size (mem_header_ s1))
      (alloc_size (mem_header_ s1)) (header_size (mem_header_ s1))
      (node_size (mem_header_ s1)) (free_list (mem_header_ s1))
      (mkSLInfo (head (sl s1))
                (match L2 with [] => new | _ :: _ => tail (sl s1) end)
                H' (wrap32 (length (sl s1) + 1))) ->
  Inv s8 (L1 ++ nn :: L2) F.
Proof.
  intros Hc Htop Habove He Hn Hb Hh.
  pose proof (InvX_length_bound _ _ _ _ HE HI) as Hbound.
  pose proof ins_split as HL.
  inv_facts HI.
  assert (Hsl : sl s8 = mkSLInfo (head (sl s1))
                  (match L2 with [] => new | _ :: _ => tail (sl s1) end)
                  H' (wrap32 (length (sl s1) + 1))).
  { unfold sl at 1. now rewrite Hh. }
  assert (Hlen : List.length (L1 ++ nn :: L2) = S (List.length L)).
  { rewrite HL, !length_app. cbn [List.length]. lia. }
  assert (Hperm : Permutation (head (sl s1) :: map a_ref L ++ F ++ [new])
                    (head (sl s1) :: map a_ref (L1 ++ nn :: L2) ++ F ++ [])).
  { apply perm_skip. rewrite app_nil_r, app_assoc.
    rewrite HL, !map_app. cbn [map a_ref nn].
    etransitivity; [symmetry; apply Permutation_cons_append|].
    rewrite <- !app_assoc. cbn [app].
    apply (Permutation_middle (map a_ref L1) (map a_ref L2 ++ F) new). }
  assert (Hnew : forall x, In x L -> a_ref x <> new).
  { intros x Hx Heq. apply ins_new_fresh. cbn [app map]. right.
    rewrite <- HL, <- Heq. now apply in_map. }
  assert (Hheadnew : head (sl s1) <> new).
  { intros Heq. apply ins_new_fresh. cbn [app map a_ref hn']. now left. }
  assert (Hnz : Forall (fun y => a_ref y <> 0) L) by exact (InvX_refs_nonzero _ _ _ _ HI).
  assert (Hnz' : forall x, In x L -> a_ref x <> 0).
  { rewrite Forall_forall in Hnz. exact Hnz. }
  assert (Hnew0 : new <> 0).
  { rewrite Forall_forall in I_range.
    assert (0 < new < alloc_size (mem_header_ s1)); [|lia].
    apply I_range. right. apply in_or_app. right. apply in_or_app. right. now left. }
  assert (Hh1 : Forall (fun x => (1 <= a_height x)%nat) L2).
  { rewrite HL in I_heights. apply Forall_app in I_heights.
    eapply Forall_impl; [|exact (proj2 I_heights)]. cbn. intros; lia. }
  constructor; rewrite ?Hsl, ?Hh; hdr_simpl.
  - exact I_node_size.
  - exact I_capacity.
  - rewrite I_alloc, Hlen. cbn [List.length]. f_equal. f_equal. lia.
  - exact I_alloc_le.
  - eapply Permutation_NoDup; [exact Hperm | exact I_nodup].
  - eapply Permutation_Forall; [exact Hperm | exact I_range].
  - apply (free_ok_frame s1); [|exact I_free]. intros r _. apply Hn.
  - unfold head_node. rewrite Hsl. hdr_simpl. exact Hc.
  - exact Htop.
  - unfold H', MAX_LEVEL_NUM in *. lia.
  - pose proof ins_heights as Hh'. cbn [app] in Hh'. apply Forall_inv_tail in Hh'.
    rename Hh' into Hh''. apply Forall_app in Hh''. destruct Hh'' as [Ha Hb'].
    apply Forall_app. split; [assumption|]. constructor; [|assumption].
    cbn. unfold H'. lia.
  - exact Habove.
  - intros Hnil. apply app_eq_nil in Hnil. destruct Hnil as [_ Hnil]. discriminate.
  - rewrite HL in I_elem, Hnew. apply Forall_app in I_elem. destruct I_elem as [Ha Hb'].
    apply Forall_app. split; [|constructor].
    + rewrite Forall_forall in *. intros x Hx. rewrite He.
      destruct (Z.eqb_spec (a_ref x) new) as [Heq|_]; [|now apply Ha].
      exfalso. apply (Hnew x); [apply in_or_app; now left | assumption].
    + cbn. now rewrite He, Z.eqb_refl.
    + rewrite Forall_forall in *. intros x Hx. rewrite He.
      destruct (Z.eqb_spec (a_ref x) new) as [Heq|_]; [|now apply Hb'].
      exfalso. apply (Hnew x); [apply in_or_app; now right | assumption].
  - rewrite map_app. cbn [map a_elem nn].
    apply (sorted_insert HE).
    + rewrite <- map_app, <- HL. exact I_sorted.
    + rewrite Forall_map. apply less_part_less.
    + rewrite Forall_map. apply (rest_part_not_less HE). exact I_sorted.
  - rewrite HL in I_back. apply back_ok_app in I_back. destruct I_back as [Hb1 Hb2].
    assert (Hf0 : fwd_of 0 L2 = match L2 with [] => 0 | y :: _ => a_ref y end)
      by now apply fwd_of_level0.
    assert (Hnot2 : forall x, In x L1 -> a_ref x <> fwd_of 0 L2).
    { intros x Hx. rewrite Hf0. destruct L2 as [|d r] eqn:HL2.
      - rewrite Forall_forall in Hnz. apply Hnz. rewrite HL. apply in_or_app. now left.
      - apply (refs_apart L1 (d :: r)); [| assumption | now left].
        rewrite <- HL.
        apply NoDup_cons_iff in I_nodup. destruct I_nodup as [_ Hnd].
        now apply NoDup_app_remove_r in Hnd. }
    apply back_ok_app. split.
    + apply (back_ok_frame s1); [|assumption].
      intros x Hx.
      rewrite Hb by (apply Hnz'; rewrite HL; apply in_or_app; now left).
      destruct (Z.eqb_spec (a_ref x) (fwd_of 0 L2)) as [Heq|_];
        [exfalso; now apply (Hnot2 x)|].
      destruct (Z.eqb_spec (a_ref x) new) as [Heq|_]; [|reflexivity].
      exfalso. apply (Hnew x); [rewrite HL; apply in_or_app; now left | assumption].
    + cbn [back_ok a_ref nn]. split.
      * rewrite Hb, Z.eqb_refl by assumption.
        destruct (Z.eqb_spec new (fwd_of 0 L2)) as [Heq|_]; [|reflexivity].
        exfalso. rewrite Hf0 in Heq. destruct L2 as [|d r] eqn:HL2.
        -- contradiction.
        -- apply (Hnew d); [rewrite HL; apply in_or_app; right; now left | now symmetry].
      * destruct L2 as [|d r] eqn:HL2; [exact I|].
        cbn [back_ok] in Hb2 |- *. destruct Hb2 as [_ Hb2]. split.
        -- rewrite Hb, Hf0, Z.eqb_refl; [reflexivity|].
           apply Hnz'. rewrite HL. apply in_or_app. right. now left.
        -- apply (back_ok_frame s1); [|assumption].
           intros x Hx.
           rewrite Hb, Hf0 by (apply Hnz'; rewrite HL; apply in_or_app; right; now right).
           destruct (Z.eqb_spec (a_ref x) (a_ref d)) as [Heq|_].
           ++ exfalso.
              apply NoDup_cons_iff in I_nodup. destruct I_nodup as [_ Hnd].
              apply NoDup_app_remove_r in Hnd. rewrite HL, map_app in Hnd.
              apply NoDup_app_remove_l in Hnd. cbn [map] in Hnd.
              apply NoDup_cons_iff in Hnd. destruct Hnd as [Hnot _]. apply Hnot.
              rewrite <- Heq. now apply in_map.
           ++ destruct (Z.eqb_spec (a_ref x) new) as [Heq|_]; [|reflexivity].
              exfalso. apply (Hnew x); [|assumption].
              rewrite HL. apply in_or_app. right. now right.
  - rewrite map_app. cbn [map a_ref nn]. rewrite I_tail, HL, map_app.
    destruct L2 as [|d r] eqn:HL2.
    + cbn [map]. now rewrite last_snoc.
    + rewrite !last_app_nonempty by discriminate. reflexivity.
  - rewrite I_length, Hlen. rewrite wrap32_small; [lia|].
    cbn [List.length] in Hbound. lia.
Qed.

Lemma cons_snoc_inv (h : anode) (l p : list anode) x :
  h :: l = p ++ [x] -> l <> [] -> exists p', p = h :: p' /\ l = p' ++ [x].
Proof.
  intros Heq Hl. destruct p as [|a p]; cbn [app] in Heq.
  - inversion Heq. congruence.
  - inversion Heq. exists p. auto.
Qed.

Lemma insert_link_spec fuel :
  (List.length L < fuel)%nat ->
  exists s',
    insert_link fuel lvl e new s1 = Some (true, s') /\
    Inv s' (L1 ++ nn :: L2) F.
Proof.
  intros Hfuel.
  destruct (inv_insert_search HE s1 L F [new] HI e fuel Hfuel)
    as (index & update & Hfor & Hloc).
  unfold insert_link. rewrite Hfor.
  pose proof (insert_raise_spec s1 lvl index update) as Hraise.
  destruct (insert_raise lvl index update s1) as [[index2 update2] s2].
  destruct Hraise as (Hix2 & Hup2 & Hf2 & Hs2 & He2 & Hb2 & Hn2 & Hh2).
  destruct (ins_raised_chain s2 index update index2 update2 Hloc Hix2 Hup2 Hf2 Hs2)
    as [Hc2 Hloc2].
  assert (Hfresh2 : forall j, (j < lvl)%nat -> update2 j <> new).
  { intros j Hj.
    destruct (Hloc2 j) as (p & x & suf & HA & _ & _ & Hu & _); [unfold H'; lia|].
    rewrite Hu. intros Heq. apply ins_new_fresh. rewrite <- Heq.
    apply in_map. apply in_or_app. left. rewrite HA. apply in_or_app; right; now left. }
  pose proof (insert_splice_spec new index2 update2 s2 lvl Hfresh2) as Hsplice.
  cbn zeta in Hsplice.
  set (s3 := insert_splice new lvl index2 update2 s2) in *.
  destruct Hsplice as (Hf3 & Hs3 & He3 & Hb3 & Hn3 & Hh3).
  pose proof (insert_bump_spec lvl update2 s3) as Hbump. cbn zeta in Hbump.
  set (s4 := insert_bump lvl update2 s3) in *.
  destruct Hbump as (Hf4 & Hs4 & He4 & Hb4 & Hn4 & Hh4).
  assert (Hhdr2 : mem_header_ s2 = mem_header_ (set_level_num H' s1)).
  { rewrite Hh2. unfold H'. destruct (Nat.ltb_spec (level_num (sl s1)) lvl).
    - now rewrite Nat.max_r by lia.
    - rewrite Nat.max_l by lia. symmetry. apply set_level_num_same. }
  assert (Hln3 : level_num (sl s3) = H').
  { unfold sl. rewrite Hh3, Hhdr2. reflexivity. }
  assert (Hhdr4 : mem_header_ s4 = mem_header_ (set_level_num H' s1)).
  { now rewrite Hh4, Hh3. }
  assert (Hsl4 : sl s4 = mkSLInfo (head (sl s1)) (tail (sl s1)) H' (length (sl s1))).
  { unfold sl at 1. rewrite Hhdr4. reflexivity. }
  assert (Hc4 : chain_ok s4 ((hn' :: L1) ++ nn :: L2)).
  { apply (ins_spliced_chain s2 s4 index2 update2 Hc2 Hloc2).
    - intros r j. rewrite Hf4, Hf3. reflexivity.
    - intros r j. rewrite Hs4, Hs3, Hln3. case_tests. }
  pose proof (inv_level_num _ _ _ _ HI) as Hlevels.
  pose proof (InvX_refs_nonzero _ _ _ _ HI) as Hnz.
  pose proof ins_split as HL.
  (* the node before the new one *)
  assert (Hprev : (if update2 0%nat =? head (sl s4) then set_backword new 0 s4
                   else set_backword new (update2 0%nat) s4)
                  = set_backword new (last (map a_ref L1) 0) s4).
  { rewrite Hsl4. hdr_simpl.
    destruct (located_level0 (hn' :: L1) (update2 0%nat) (index2 0%nat))
      as (p & x0 & HA & Hu & _).
    - pose proof ins_heights as Hh. cbn [app] in Hh.
      rewrite HL in *. rewrite Forall_forall in Hh |- *. intros y Hy.
      assert (1 <= a_height y <= H')%nat; [|lia].
      apply Hh. destruct Hy as [<-|Hy]; [now left | right; apply in_or_app; now left].
    - apply Hloc2. unfold H'. lia.
    - assert (L1 = [] \/ L1 <> []) as [Hnil|Hne].
      { unfold L1. destruct (less_part e L); [now left | right; discriminate]. }
      + rewrite Hnil in *. destruct p as [|a p]; cbn [app] in HA.
        * inversion HA; subst x0. rewrite Hu. cbn [a_ref hn']. now rewrite Z.eqb_refl.
        * inversion HA. destruct p; discriminate.
      + destruct (cons_snoc_inv hn' L1 p x0 HA Hne) as (p' & -> & HL1).
        assert (Hlast : last (map a_ref L1) 0 = a_ref x0).
        { rewrite HL1, map_app. cbn [map]. apply last_snoc. }
        rewrite Hlast, Hu.
        destruct (Z.eqb_spec (a_ref x0) (head (sl s1))) as [Heq|_]; [|reflexivity].
        exfalso. pose proof ins_nodup as Hnd. cbn [app map a_ref hn'] in Hnd.
        apply NoDup_cons_iff in Hnd. destruct Hnd as [Hnot _]. apply Hnot.
        rewrite <- Heq. apply in_map. apply in_or_app. left.
        rewrite HL1. apply in_or_app. right. now left. }
  rewrite Hprev.
  set (s5 := set_backword new (last (map a_ref L1) 0) s4).
  assert (Hnext : fwd s5 new 0 = fwd_of 0 L2).
  { unfold s5. rewrite fwd_set_backword.
    destruct (chain_ok_at s4 (hn' :: L1) nn L2 Hc4 0%nat) as [Hf _]; [cbn; lia|].
    exact Hf. }
  rewrite Hnext.
  eexists. split; [reflexivity|].
  apply ins_final_inv.
  - apply (chain_ok_frame s4); [|exact Hc4].
    intros x j _ _. destruct (negb (fwd_of 0 L2 =? 0)); unfold s5; now autorewrite with obs.
  - intros i Hi.
    assert (Hfi : fwd s4 (head (sl s1)) i = 0).
    { rewrite Hf4, Hf3.
      destruct (Nat.ltb_spec i lvl); [unfold H' in Hi; lia|].
      rewrite Hf2. apply (inv_top _ _ _ _ HI). unfold H' in Hi. lia. }
    destruct (negb (fwd_of 0 L2 =? 0)); unfold s5; now autorewrite with obs.
  - assert (Hsame : forall r i, fwd s4 r i
              = if (i <? lvl)%nat
                then if r =? new then fwd s2 (update2 i) i
                     else if r =? update2 i then new else fwd s1 r i
                else fwd s1 r i).
    { intros r i. rewrite Hf4, Hf3, !Hf2. reflexivity. }
    assert (Hold : forall x, In x L -> forall i, (a_height x <= i)%nat ->
                     fwd s4 (a_ref x) i = 0).
    { intros x Hx i Hi. rewrite Hsame.
      pose proof (inv_above _ _ _ _ HI) as Hab. rewrite Forall_forall in Hab.
      destruct (Nat.ltb_spec i lvl) as [Hlt|_]; [|now apply Hab].
      destruct (Z.eqb_spec (a_ref x) new) as [Heq|_].
      - exfalso. apply ins_new_fresh. rewrite <- Heq. cbn [app map]. right.
        rewrite <- HL. now apply in_map.
      - destruct (Z.eqb_spec (a_ref x) (update2 i)) as [Heq|_]; [|now apply Hab].
        exfalso.
        assert (Hvis : (i < a_height x)%nat); [|lia].
        apply (located_visible (hn' :: L1) i (update2 i) (index2 i)).
        + pose proof ins_nodup as Hnd. rewrite map_app in Hnd.
          now apply NoDup_app_remove_r in Hnd.
        + apply Hloc2. unfold H'. lia.
        + destruct (Hloc2 i) as (p & xi & suf & HA & _ & _ & Hu & _); [unfold H'; lia|].
          assert (Hxi : In xi (hn' :: L1)) by (rewrite HA; apply in_or_app; right; now left).
          rewrite HL in Hx. apply in_app_or in Hx. destruct Hx as [Hx|Hx]; [now right|].
          exfalso. revert Heq. rewrite Hu. intros Heq. symmetry in Heq. revert Heq.
          apply (refs_apart (hn' :: L1) L2); [apply ins_nodup | assumption | assumption].
        + assumption. }
    assert (Hfinal : forall r i,
              fwd (set_length (wrap32 (length (sl (set_element new e
                     (if negb (fwd_of 0 L2 =? 0)
                      then set_backword (fwd_of 0 L2) new s5
                      else set_tail new s5))) + 1))
                     (set_element new e
                        (if negb (fwd_of 0 L2 =? 0)
                         then set_backword (fwd_of 0 L2) new s5
                         else set_tail new s5))) r i = fwd s4 r i).
    { intros r i. destruct (negb (fwd_of 0 L2 =? 0)); unfold s5; now autorewrite with obs. }
    rewrite Forall_forall. intros x Hx i Hi. rewrite Hfinal.
    apply in_app_or in Hx. destruct Hx as [Hx|[<-|Hx]].
    + apply Hold; [rewrite HL; apply in_or_app; now left | assumption].
    + cbn [a_ref a_height nn] in *. rewrite Hsame.
      destruct (Nat.ltb_spec i lvl); [lia | apply Hzero].
    + apply Hold; [rewrite HL; apply in_or_app; now right | assumption].
  - intros r.
    assert (He : elem s4 r = elem s1 r) by now rewrite He4, He3, He2.
    destruct (negb (fwd_of 0 L2 =? 0)); unfold s5; autorewrite with obs; now rewrite He.
  - intros r.
    assert (Hn : nxt s4 r = nxt s1 r) by now rewrite Hn4, Hn3, Hn2.
    destruct (negb (fwd_of 0 L2 =? 0)); unfold s5; now autorewrite with obs.
  - intros r Hr.
    assert (Hb : bwd s4 r = bwd s1 r) by now rewrite Hb4, Hb3, Hb2.
    destruct (Z.eqb_spec (fwd_of 0 L2) 0) as [Hz|Hz]; cbn [negb];
      unfold s5; autorewrite with obs; rewrite Hb.
    + rewrite Hz. destruct (Z.eqb_spec r 0); [contradiction | reflexivity].
    + reflexivity.
  - assert (Hh1 : Forall (fun x => (1 <= a_height x)%nat) L2).
    { pose proof (inv_heights _ _ _ _ HI) as Hh. rewrite HL in Hh.
      apply Forall_app in Hh. eapply Forall_impl; [|exact (proj2 Hh)]. cbn. intros; lia. }
    rewrite (fwd_of_level0 L2 Hh1).
    destruct L2 as [|d r] eqn:HL2.
    + cbn [Z.eqb negb]. unfold s5. autorewrite with obs. hdr_simpl.
      unfold sl. rewrite Hhdr4. reflexivity.
    + assert (Hd : a_ref d <> 0).
      { rewrite Forall_forall in Hnz. apply Hnz. rewrite HL.
        apply in_or_app. right. now left. }
      destruct (Z.eqb_spec (a_ref d) 0) as [|_]; [contradiction|]. cbn [negb].
      unfold s5. autorewrite with obs. hdr_simpl.
      unfold sl. rewrite Hhdr4. reflexivity.
Qed.

End InsertInv.

Section InsertSpec.

Context {E : Elem}.
Hypothesis HE : ElemOK E.

(** [insert] either finds no slot and changes nothing, or links a node for
    [e] in front of the first node that is not less than [e]. *)
Lemma insert_spec (s : SkipList) L F lvl e fuel :
  Inv s L F -> (1 <= lvl <= MAX_LEVEL_NUM)%nat -> (List.length L < fuel)%nat ->
  (insert fuel lvl e s = Some (false, s) /\ F = [] /\
   mem_size (mem_header_ s) < alloc_size (mem_header_ s) + mem_node_size) \/
  (exists new s' F',
     insert fuel lvl e s = Some (true, s') /\
     Inv s' (less_part e L ++ mkANode new e lvl :: rest_part e L) F' /\
     (F = new :: F' \/
      (F = [] /\ F' = [] /\ new = alloc_size (mem_header_ s) /\
       alloc_size (mem_header_ s) + mem_node_size <= mem_size (mem_header_ s)))).
Proof.
  intros HI Hlvl Hfuel. unfold insert.
  destruct (alloc_node_spec s L F HE HI)
    as [(Ha & HF & Hfull) | (new & s1 & F' & Ha & Hnew & HI1 & Hcase & Hzero & _)].
  - left. rewrite Ha. cbn [Z.eqb]. auto.
  - right. rewrite Ha.
    destruct (Z.eqb_spec new 0) as [|_]; [contradiction|].
    destruct (insert_link_spec HE s1 L F' new lvl e HI1
                (fun j => proj1 (Hzero j)) Hlvl fuel Hfuel)
      as (s' & Hlink & HI').
    exists new, s', F'. auto.
Qed.

End InsertSpec.

(** ** The writes of [del_first_of] *)

Section DeleteWrites.

Context {E : Elem}.

Lemma del_unlink_loop d update (s : SkipList) : forall n,
  (forall j, (j < n)%nat -> update j <> d) ->
  let s' :=
    for_range 0 n
      (fun i s =>
         if fwd s (update i) i =? d then
           let s := set_span (update i) i
                      (wrap32 (spn s (update i) i + spn s d i)) s in
           let s := set_span (update i) i (wrap32 (spn s (update i) i - 1)) s in
           set_forward (update i) i (fwd s d i) s
         else
           set_span (update i) i (wrap32 (spn s (update i) i - 1)) s) s in
  (forall r j, fwd s' r j
               = if ((j <? n)%nat && (r =? update j)) && (fwd s r j =? d)
                 then fwd s d j else fwd s r j) /\
  (forall r j, spn s' r j
               = if (j <? n)%nat && (r =? update j)
                 then if fwd s r j =? d
                      then wrap32 (wrap32 (spn s r j + spn s d j) - 1)
                      else wrap32 (spn s r j - 1)
                 else spn s r j) /\
  (forall r, elem s' r = elem s r) /\
  (forall r, bwd s' r = bwd s r) /\
  (forall r, nxt s' r = nxt s r) /\
  mem_header_ s' = mem_header_ s.
Proof.
  induction n as [|n IH]; intros Hd.
  - rewrite for_range_empty by lia. cbn zeta. repeat split; reflexivity.
  - rewrite for_range_last by lia.
    destruct IH as (Hf & Hs & He & Hb & Hn & Hh); [intros; apply Hd; lia|].
    set (s1 := for_range 0 n _ s) in *.
    assert (Hun : update n <> d) by (apply Hd; lia).
    cbn zeta.
    assert (Hfn : fwd s1 (update n) n = fwd s (update n) n).
    { rewrite Hf. case_tests. }
    assert (Hsn : forall r, spn s1 r n = spn s r n).
    { intros r. rewrite Hs. case_tests. }
    assert (Hfd : fwd s1 d n = fwd s d n).
    { rewrite Hf. case_tests. }
    rewrite Hfn.
    destruct (Z.eqb_spec (fwd s (update n) n) d) as [Heq|Hne].
    + repeat split; intros; autorewrite with obs; rewrite ?Hf, ?Hs, ?He, ?Hb, ?Hn; auto.
      * destruct (Nat.eq_dec j n) as [->|Hjn]; case_tests.
      * destruct (Nat.eq_dec j n) as [->|Hjn]; case_tests.
    + repeat split; intros; autorewrite with obs; rewrite ?Hf, ?Hs, ?He, ?Hb, ?Hn; auto.
      * destruct (Nat.eq_dec j n) as [->|Hjn]; case_tests.
      * destruct (Nat.eq_dec j n) as [->|Hjn]; case_tests.
Qed.

Lemma del_unlink_spec d update (s : SkipList) :
  (forall j, (j < level_num (sl s))%nat -> update j <> d) ->
  let s' := del_unlink d update s in
  (forall r j, fwd s' r j
               = if ((j <? level_num (sl s))%nat && (r =? update j)) && (fwd s r j =? d)
                 then fwd s d j else fwd s r j) /\
  (forall r j, spn s' r j
               = if (j <? level_num (sl s))%nat && (r =? update j)
                 then if fwd s r j =? d
                      then wrap32 (wrap32 (spn s r j + spn s d j) - 1)
                      else wrap32 (spn s r j - 1)
                 else spn s r j) /\
  (forall r, elem s' r = elem s r) /\
  (forall r, bwd s' r = bwd s r) /\
  (forall r, nxt s' r = nxt s r) /\
  mem_header_ s' = mem_header_ s.
Proof. intros Hd. exact (del_unlink_loop d update s (level_num (sl s)) Hd). Qed.

Lemma del_shrink_spec (s : SkipList) : forall n,
  (level_num (sl s) <= S n)%nat -> (1 <= level_num (sl s))%nat ->
  let s' := del_shrink n s in
  (forall r j, fwd s' r j = fwd s r j) /\
  (forall r j, spn s' r j = spn s r j) /\
  (forall r, elem s' r = elem s r) /\
  (forall r, bwd s' r = bwd s r) /\
  (forall r, nxt s' r = nxt s r) /\
  mem_header_ s' = mem_header_ (set_level_num (level_num (sl s')) s) /\
  (1 <= level_num (sl s') <= level_num (sl s))%nat /\
  (forall i, (level_num (sl s') <= i < level_num (sl s))%nat ->
     fwd s (head (sl s)) i = 0) /\
  (level_num (sl s') = 1%nat \/ fwd s (head (sl s)) (level_num (sl s') - 1) <> 0).
Proof.
  intros n. revert s.
  induction n as [|n IH]; intros s Hn H1; cbn zeta.
  - cbn [del_shrink]. repeat split; try reflexivity; try lia.
    symmetry. apply set_level_num_same.
  - cbn [del_shrink].
    destruct (Nat.ltb_spec 1 (level_num (sl s))) as [Hgt|Hle]; cbn [andb].
    + destruct (Z.eqb_spec (fwd s (head (sl s)) (level_num (sl s) - 1)) 0) as [Hz|Hnz].
      * specialize (IH (set_level_num (level_num (sl s) - 1) s)).
        cbn zeta in IH.
        set (s1 := set_level_num (level_num (sl s) - 1) s) in *.
        assert (Hl1 : level_num (sl s1) = (level_num (sl s) - 1)%nat) by reflexivity.
        assert (Hhd : head (sl s1) = head (sl s)) by reflexivity.
        destruct IH as (Hf & Hs & He & Hb & Hnx & Hh & Hrange & Hzero & Hlast);
          [lia | lia |].
        split; [exact Hf|]. split; [exact Hs|]. split; [exact He|].
        split; [exact Hb|]. split; [exact Hnx|].
        split; [rewrite Hh; reflexivity|].
        split; [lia|]. split.
        -- intros i Hi.
           destruct (Nat.eq_dec i (level_num (sl s) - 1)) as [->|Hne]; [assumption|].
           apply (Hzero i). lia.
        -- exact Hlast.
      * repeat split; try reflexivity; try lia;
          try (symmetry; apply set_level_num_same); now right.
    + repeat split; try reflexivity; try lia.
      symmetry. apply set_level_num_same.
Qed.

End DeleteWrites.

(** ** The chain after the unlinking of [del_first_of] *)

Section UnlinkChain.

Context {E : Elem}.

Variables s s' : SkipList.
Variables A B' : list anode.
Variable d : anode.
Variable update : nat -> Z.
Variable H : nat.

Hypothesis Hchain : chain_ok s (A ++ d :: B').
Hypothesis Hloc : forall i, (i < H)%nat -> exists ix, located A i (update i) ix.
Hypothesis Hheights : Forall (fun x => (1 <= a_height x <= H)%nat) (A ++ d :: B').
Hypothesis Hnd : NoDup (map a_ref (A ++ d :: B')).
Hypothesis Hnz : a_ref d <> 0.
Hypothesis Hshort : Z.of_nat (List.length A + List.length B') < 2 ^ 32.
Hypothesis Hfwd : forall r j,
  fwd s' r j
  = if ((j <? H)%nat && (r =? update j)) && (fwd s r j =? a_ref d)
    then fwd s (a_ref d) j else fwd s r j.
Hypothesis Hspn : forall r j,
  spn s' r j
  = if (j <? H)%nat && (r =? update j)
    then if fwd s r j =? a_ref d
         then wrap32 (wrap32 (spn s r j + spn s (a_ref d) j) - 1)
         else wrap32 (spn s r j - 1)
    else spn s r j.

Lemma unlink_d_links : links_ok s d B'.
Proof. exact (chain_ok_at s A d B' Hchain). Qed.

Lemma unlink_not_d i : fwd_of i B' <> a_ref d.
Proof.
  destruct (Z.eq_dec (fwd_of i B') 0) as [Hz|Hne]; [congruence|].
  destruct (fwd_of_nonzero i B' Hne) as (b & Hb & -> & _).
  rewrite map_app in Hnd. apply NoDup_app_remove_l in Hnd. cbn [map] in Hnd.
  apply NoDup_cons_iff in Hnd. destruct Hnd as [Hnot _].
  intros Heq. apply Hnot. rewrite <- Heq. now apply in_map.
Qed.

Lemma unlink_links_A pre x s1 :
  A = pre ++ x :: s1 -> links_ok s' x (s1 ++ B').
Proof.
  intros HA i Hi.
  assert (HxA : In x A) by (rewrite HA; apply in_or_app; right; now left).
  assert (HxH : (1 <= a_height x <= H)%nat).
  { rewrite Forall_forall in Hheights. apply Hheights. apply in_or_app. now left. }
  assert (Hold : links_ok s x (s1 ++ d :: B')).
  { apply (chain_ok_at s pre). rewrite HA, <- app_assoc in Hchain. exact Hchain. }
  destruct (Hold i Hi) as [Hf Hs].
  destruct (Hloc i) as (ix & pi & xi & si & HAi & Hxi & Hsi & Hu & Hix); [lia|].
  assert (Hlen : List.length A = (List.length pre + S (List.length s1))%nat).
  { rewrite HA, length_app. reflexivity. }
  rewrite Hfwd, Hspn.
  destruct (Nat.ltb_spec i H) as [_|]; [|lia]. cbn [andb].
  destruct (first_visible i s1) as [Hinv | (p1 & y & p2 & Hs1 & Hp1 & Hy)].
  - destruct (last_visible_unique i A pre x s1 pi xi si HA HAi Hi Hinv Hxi Hsi)
      as (<- & <- & <-).
    rewrite Hu, Z.eqb_refl. rewrite <- Hu. cbn [andb]. rewrite Hu, Hf, Hs.
    rewrite !fwd_of_app_invisible, !dist_of_app_invisible by assumption.
    pose proof (dist_of_bounds i B') as HdB.
    cbn [fwd_of dist_of].
    destruct (Nat.ltb_spec i (a_height d)) as [Hlt|Hge].
    + rewrite Z.eqb_refl.
      destruct (unlink_d_links i Hlt) as [Hfd Hsd]. rewrite Hfd, Hsd.
      split; [reflexivity|].
      rewrite (wrap32_small (_ + _)) by lia. rewrite wrap32_small by lia. lia.
    + destruct (Z.eqb_spec (fwd_of i B') (a_ref d)) as [Heq|_].
      * exfalso. exact (unlink_not_d i Heq).
      * split; [reflexivity|]. rewrite wrap32_small by lia. lia.
  - assert (Hne : a_ref x <> update i).
    { intros Heq. rewrite Hu in Heq.
      destruct (split_unique A pre x s1 pi xi si) as (_ & _ & <-); try assumption.
      - rewrite map_app in Hnd. now apply NoDup_app_remove_r in Hnd.
      - rewrite Hs1 in Hsi. apply Forall_app in Hsi. destruct Hsi as [_ Hsi].
        apply Forall_inv in Hsi. unfold invisible in *. lia. }
    destruct (Z.eqb_spec (a_ref x) (update i)) as [|_]; [contradiction|].
    cbn [andb].
    rewrite Hf, Hs, Hs1, <- !app_assoc. cbn [app].
    rewrite !fwd_of_first_visible, !dist_of_first_visible by assumption. auto.
Qed.

Lemma unlink_links_B pb x suf :
  B' = pb ++ x :: suf -> links_ok s' x suf.
Proof.
  intros HB i Hi.
  assert (HxB : In x (d :: B')) by (right; rewrite HB; apply in_or_app; right; now left).
  assert (HxH : (1 <= a_height x <= H)%nat).
  { rewrite Forall_forall in Hheights. apply Hheights. apply in_or_app. now right. }
  assert (Hold : links_ok s x suf).
  { apply (chain_ok_at s (A ++ d :: pb)). rewrite HB in Hchain.
    rewrite <- app_assoc. exact Hchain. }
  destruct (Hold i Hi) as [Hf Hs].
  destruct (Hloc i) as (ix & pi & xi & si & HAi & Hxi & Hsi & Hu & Hix); [lia|].
  assert (Hne : a_ref x <> update i).
  { rewrite Hu. intros Heq. symmetry in Heq. revert Heq.
    apply (refs_apart A (d :: B')); try assumption.
    rewrite HAi. apply in_or_app. right. now left. }
  rewrite Hfwd, Hspn.
  destruct (Z.eqb_spec (a_ref x) (update i)) as [|_]; [contradiction|].
  rewrite !andb_false_r. cbn [andb]. auto.
Qed.

Lemma unlink_chain : chain_ok s' (A ++ B').
Proof.
  apply chain_ok_intro. intros pre x suf Heq.
  destruct (app_split A B' pre x suf Heq) as [(s1 & HA & ->) | (pb & HB & ->)].
  - now apply (unlink_links_A pre).
  - now apply (unlink_links_B pb).
Qed.

End UnlinkChain.

(** ** [del_first_of] keeps the invariant *)

Section DeleteInv.

Context {E : Elem}.
Hypothesis HE : ElemOK E.

Lemma fwd_of_visible i (l : list anode) y :
  Forall (fun x => a_ref x <> 0) l -> In y l -> (i < a_height y)%nat ->
  fwd_of i l <> 0.
Proof.
  intros Hnz Hy Hi Hz. pose proof (fwd_of_zero i l Hnz Hz) as Hinv.
  rewrite Forall_forall in Hinv. specialize (Hinv y Hy). unfold invisible in Hinv. lia.
Qed.

Lemma chain_ok_lower (s : SkipList) h t n n' (l : list anode) :
  (n' <= n)%nat -> chain_ok s (mkANode h t n :: l) -> chain_ok s (mkANode h t n' :: l).
Proof.
  intros Hle [Hh Hl]. split; [|exact Hl].
  intros i Hi. apply Hh. cbn in *. lia.
Qed.

Variable s : SkipList.
Variables (L1 B' : list anode) (d : anode) (F : list Z).

Hypothesis HI : Inv s (L1 ++ d :: B') F.

Lemma del_final_inv (s4 : SkipList) n' :
  chain_ok s4 (head_node s :: L1 ++ B') ->
  (1 <= n' <= level_num (sl s))%nat ->
  (forall i, (n' <= i)%nat -> fwd s4 (head (sl s)) i = 0) ->
  (n' = 1%nat \/ fwd s4 (head (sl s)) (n' - 1) <> 0) ->
  Forall (fun x => forall i, (a_height x <= i)%nat -> fwd s4 (a_ref x) i = 0)
         (L1 ++ B') ->
  (forall r, elem s4 r = elem s r) ->
  (forall r, nxt s4 r = nxt s r) ->
  (forall r, r <> 0 ->
     bwd s4 r = if r =? fwd_of 0 B' then bwd s (a_ref d) else bwd s r) ->
  mem_header_ s4
  = mkMemHeader (magic_num (mem_header_ s)) (mem_size (mem_header_ s))
      (alloc_size (mem_header_ s)) (header_size (mem_header_ s))
      (node_size (mem_header_ s)) (free_list (mem_header_ s))
      (mkSLInfo (head (sl s))
                (match B' with [] => bwd s (a_ref d) | _ :: _ => tail (sl s) end)
                n' (wrap32 (length (sl s) - 1))) ->
  InvX s4 (L1 ++ B') F [a_ref d].
Proof.
  intros Hc Hn' Hzero Hlast Habove He Hnx Hb Hh.
  pose proof (InvX_length_bound _ _ _ _ HE HI) as Hbound.
  pose proof (InvX_refs_nonzero _ _ _ _ HI) as Hnz.
  inv_facts HI.
  assert (Hsl : sl s4 = mkSLInfo (head (sl s))
                  (match B' with [] => bwd s (a_ref d) | _ :: _ => tail (sl s) end)
                  n' (wrap32 (length (sl s) - 1))).
  { unfold sl at 1. now rewrite Hh. }
  assert (Hlen : List.length (L1 ++ d :: B') = S (List.length (L1 ++ B'))).
  { rewrite !length_app. cbn [List.length]. lia. }
  assert (Hperm : Permutation (head (sl s) :: map a_ref (L1 ++ d :: B') ++ F ++ [])
                    (head (sl s) :: map a_ref (L1 ++ B') ++ F ++ [a_ref d])).
  { apply perm_skip. rewrite app_nil_r, app_assoc.
    rewrite !map_app. cbn [map].
    etransitivity; [|apply Permutation_cons_append].
    rewrite <- !app_assoc. cbn [app].
    symmetry. apply (Permutation_middle (map a_ref L1) (map a_ref B' ++ F) (a_ref d)). }
  assert (Hnz' : Forall (fun y => a_ref y <> 0) (L1 ++ B')).
  { apply Forall_app in Hnz. destruct Hnz as [H1 H2]. apply Forall_inv_tail in H2.
    apply Forall_app. auto. }
  assert (Hh1 : Forall (fun x => (1 <= a_height x)%nat) B').
  { apply Forall_app in I_heights. destruct I_heights as [_ H2].
    apply Forall_inv_tail in H2. eapply Forall_impl; [|exact H2]. cbn. intros; lia. }
  assert (Hf0 : fwd_of 0 B' = match B' with [] => 0 | y :: _ => a_ref y end)
    by now apply fwd_of_level0.
  assert (Hnd : NoDup (map a_ref (L1 ++ d :: B'))).
  { apply NoDup_cons_iff in I_nodup. destruct I_nodup as [_ Hnd].
    now apply NoDup_app_remove_r in Hnd. }
  apply back_ok_app in I_back. destruct I_back as [Hb1 Hb2].
  cbn [back_ok] in Hb2. destruct Hb2 as [Hbd Hb2].
  constructor; rewrite ?Hsl, ?Hh; hdr_simpl.
  - exact I_node_size.
  - exact I_capacity.
  - rewrite I_alloc, Hlen. cbn [List.length]. f_equal. f_equal. lia.
  - exact I_alloc_le.
  - eapply Permutation_NoDup; [exact Hperm | exact I_nodup].
  - eapply Permutation_Forall; [exact Hperm | exact I_range].
  - apply (free_ok_frame s); [|exact I_free]. intros r _. apply Hnx.
  - unfold head_node. rewrite Hsl. hdr_simpl.
    apply (chain_ok_lower s4 _ _ (level_num (sl s))); [lia | exact Hc].
  - exact Hzero.
  - unfold MAX_LEVEL_NUM in *. lia.
  - rewrite Forall_forall. intros y Hy.
    assert (HyH : (1 <= a_height y <= level_num (sl s))%nat).
    { rewrite Forall_forall in I_heights. apply I_heights.
      apply in_app_or in Hy. apply in_or_app.
      destruct Hy as [Hy|Hy]; [now left | right; now right]. }
    split; [lia|].
    destruct (Nat.le_gt_cases (a_height y) n') as [|Hgt]; [assumption|].
    exfalso.
    destruct Hc as [Hhead _].
    destruct (Hhead (a_height y - 1)%nat) as [Hf _]; [cbn; lia|].
    cbn [a_ref head_node] in Hf.
    rewrite Hzero in Hf by lia.
    symmetry in Hf. revert Hf. apply (fwd_of_visible _ _ y); [assumption | assumption | lia].
  - exact Habove.
  - intros Hnil. destruct Hlast as [|Hlast]; [assumption|]. exfalso. apply Hlast.
    destruct Hc as [Hhead _].
    destruct (Hhead (n' - 1)%nat) as [Hf _]; [cbn; lia|].
    cbn [a_ref head_node] in Hf. rewrite Hf, Hnil. reflexivity.
  - apply Forall_app in I_elem. destruct I_elem as [H1 H2]. apply Forall_inv_tail in H2.
    apply Forall_app.
    split; [eapply Forall_impl; [|exact H1] | eapply Forall_impl; [|exact H2]];
      cbn; intros x Hx; now rewrite He.
  - rewrite map_app in *. cbn [map] in I_sorted. now apply sorted_remove in I_sorted.
  - assert (HnotB : forall x, In x L1 -> a_ref x <> fwd_of 0 B').
    { intros x Hx. rewrite Hf0. destruct B' as [|b r] eqn:HB.
      - rewrite Forall_forall in Hnz. apply Hnz. apply in_or_app. now left.
      - apply (refs_apart L1 (d :: b :: r)); [assumption | assumption | right; now left]. }
    apply back_ok_app. split.
    + apply (back_ok_frame s); [|assumption].
      intros x Hx. rewrite Hb.
      * destruct (Z.eqb_spec (a_ref x) (fwd_of 0 B')) as [Heq|_]; [|reflexivity].
        exfalso. now apply (HnotB x).
      * rewrite Forall_forall in Hnz. apply Hnz. apply in_or_app. now left.
    + destruct B' as [|b r] eqn:HB; [exact I|].
      cbn [back_ok] in Hb2 |- *. destruct Hb2 as [_ Hb2].
      assert (Hbnz : a_ref b <> 0).
      { rewrite Forall_forall in Hnz. apply Hnz. apply in_or_app. right. right. now left. }
      split.
      * rewrite Hb, Hf0, Z.eqb_refl by assumption. exact Hbd.
      * apply (back_ok_frame s); [|assumption].
        intros x Hx. rewrite Hb, Hf0.
        -- destruct (Z.eqb_spec (a_ref x) (a_ref b)) as [Heq|_]; [|reflexivity].
           exfalso. rewrite map_app in Hnd. apply NoDup_app_remove_l in Hnd.
           cbn [map] in Hnd. apply NoDup_cons_iff in Hnd. destruct Hnd as [_ Hnd].
           apply NoDup_cons_iff in Hnd. destruct Hnd as [Hnot _]. apply Hnot.
           rewrite <- Heq. now apply in_map.
        -- rewrite Forall_forall in Hnz. apply Hnz. apply in_or_app. right. right. now right.
  - rewrite !map_app. cbn [map]. destruct B' as [|b r] eqn:HB.
    + cbn [map]. rewrite app_nil_r. exact Hbd.
    + rewrite I_tail, map_app. cbn [map].
      rewrite !last_app_nonempty by discriminate. reflexivity.
  - rewrite I_length, Hlen. rewrite wrap32_small; [lia|].
    rewrite Hlen in Hbound. lia.
Qed.

Lemma del_node_spec update :
  (forall i, (i < level_num (sl s))%nat ->
     exists ix, located (head_node s :: L1) i (update i) ix) ->
  InvX (del_node (a_ref d) update s) (L1 ++ B') F [a_ref d].
Proof.
  intros Hloc. unfold del_node.
  pose proof (InvX_length_bound _ _ _ _ HE HI) as Hbound.
  pose proof (InvX_refs_nonzero _ _ _ _ HI) as Hnz.
  inv_facts HI.
  assert (Hnd : NoDup (map a_ref ((head_node s :: L1) ++ d :: B'))).
  { cbn [app map a_ref head_node].
    change (head (sl s) :: map a_ref (L1 ++ d :: B') ++ F ++ [])
      with ((head (sl s) :: map a_ref (L1 ++ d :: B')) ++ F ++ []) in I_nodup.
    now apply NoDup_app_remove_r in I_nodup. }
  assert (Hdnz : a_ref d <> 0).
  { rewrite Forall_forall in Hnz. apply Hnz. apply in_or_app. right. now left. }
  assert (Hupd : forall j, (j < level_num (sl s))%nat -> update j <> a_ref d).
  { intros j Hj. destruct (Hloc j Hj) as (ix & p & x & suf & HA & _ & _ & Hu & _).
    rewrite Hu. apply (refs_apart (head_node s :: L1) (d :: B')); [assumption | | now left].
    rewrite HA. apply in_or_app. right. now left. }
  pose proof (del_unlink_spec (a_ref d) update s Hupd) as Hun. cbn zeta in Hun.
  set (s1 := del_unlink (a_ref d) update s) in *.
  destruct Hun as (Hf1 & Hs1 & He1 & Hb1 & Hn1 & Hh1).
  assert (Hc1 : chain_ok s1 ((head_node s :: L1) ++ B')).
  { apply (unlink_chain s s1 (head_node s :: L1) B' d update (level_num (sl s)));
      try assumption.
    - constructor; [cbn; lia | exact I_heights].
    - rewrite <- length_app. cbn [app List.length].
      rewrite length_app in *. cbn [List.length] in *. lia. }
  assert (Hdlinks : links_ok s d B').
  { exact (chain_ok_at s (head_node s :: L1) d B' I_chain). }
  assert (Hd1 : (1 <= a_height d)%nat).
  { apply Forall_app in I_heights. destruct I_heights as [_ H2].
    apply Forall_inv in H2. lia. }
  assert (Hfd : fwd s1 (a_ref d) 0 = fwd_of 0 B').
  { rewrite Hf1. destruct (Hdlinks 0%nat) as [Hf _]; [lia|].
    destruct (Nat.ltb_spec 0 (level_num (sl s))) as [Hlt|]; [|lia].
    destruct (Z.eqb_spec (a_ref d) (update 0%nat)) as [Heq|_].
    - exfalso. symmetry in Heq. revert Heq. apply Hupd. lia.
    - cbn [andb]. exact Hf. }
  rewrite Hfd, Hb1.
  set (s2 := if negb (fwd_of 0 B' =? 0)
             then set_backword (fwd_of 0 B') (bwd s (a_ref d)) s1
             else set_tail (bwd s (a_ref d)) s1).
  assert (Hln2 : level_num (sl s2) = level_num (sl s)).
  { unfold s2. destruct (negb (fwd_of 0 B' =? 0)); autorewrite with obs;
      unfold sl; hdr_simpl; now rewrite Hh1. }
  assert (Hhd2 : head (sl s2) = head (sl s)).
  { unfold s2. destruct (negb (fwd_of 0 B' =? 0)); autorewrite with obs;
      unfold sl; hdr_simpl; now rewrite Hh1. }
  assert (Hf2 : forall r j, fwd s2 r j = fwd s1 r j).
  { intros. unfold s2. destruct (negb (fwd_of 0 B' =? 0)); now autorewrite with obs. }
  pose proof (del_shrink_spec s2 (level_num (sl s2))) as Hsh. cbn zeta in Hsh.
  set (s3 := del_shrink (level_num (sl s2)) s2) in *.
  destruct Hsh as (Hf3 & Hs3 & He3 & Hb3 & Hn3 & Hh3 & Hrange & Hzero & Hlast);
    [lia | lia |].
  rewrite Hln2, Hhd2 in *.
  assert (Hh1' : Forall (fun x => (1 <= a_height x)%nat) B').
  { apply Forall_app in I_heights. destruct I_heights as [_ H2].
    apply Forall_inv_tail in H2. eapply Forall_impl; [|exact H2]. cbn. intros; lia. }
  apply (del_final_inv _ (level_num (sl s3))).
  - apply (chain_ok_frame s1); [|exact Hc1].
    intros x j _ _. autorewrite with obs. rewrite Hf3, Hs3, Hf2.
    unfold s2. destruct (negb (fwd_of 0 B' =? 0)); now autorewrite with obs.
  - lia.
  - intros i Hi. autorewrite with obs. rewrite Hf3.
    destruct (Nat.lt_ge_cases i (level_num (sl s))) as [Hlt|Hge].
    + apply Hzero. lia.
    + rewrite Hf2, Hf1.
      destruct (Nat.ltb_spec i (level_num (sl s))); [lia|]. cbn [andb].
      now apply I_top.
  - destruct Hlast as [Hl|Hl]; [now left | right].
    autorewrite with obs. now rewrite Hf3.
  - rewrite Forall_forall. intros x Hx i Hi.
    autorewrite with obs. rewrite Hf3, Hf2, Hf1.
    assert (HxL : In x (L1 ++ d :: B')).
    { apply in_app_or in Hx. apply in_or_app.
      destruct Hx as [Hx|Hx]; [now left | right; now right]. }
    rewrite Forall_forall in I_above. specialize (I_above x HxL i Hi).
    destruct (Nat.ltb_spec i (level_num (sl s))) as [Hlt|_]; [|exact I_above].
    destruct (Z.eqb_spec (a_ref x) (update i)) as [Heq|_]; [|exact I_above].
    exfalso.
    destruct (Hloc i Hlt) as (ix & Hl).
    assert (Hvis : (i < a_height x)%nat); [|lia].
    apply (located_visible (head_node s :: L1) i (update i) ix).
    + rewrite map_app in Hnd. now apply NoDup_app_remove_r in Hnd.
    + exact Hl.
    + apply in_app_or in Hx. destruct Hx as [Hx|Hx]; [now right|].
      exfalso. destruct Hl as (p & xi & suf & HA & _ & _ & Hu & _).
      revert Heq. rewrite Hu. intros Heq. symmetry in Heq. revert Heq.
      apply (refs_apart (head_node s :: L1) (d :: B')); [assumption | | now right].
      rewrite HA. apply in_or_app. right. now left.
    + assumption.
  - intros r. autorewrite with obs. rewrite He3. unfold s2.
    destruct (negb (fwd_of 0 B' =? 0)); autorewrite with obs; apply He1.
  - intros r. autorewrite with obs. rewrite Hn3. unfold s2.
    destruct (negb (fwd_of 0 B' =? 0)); autorewrite with obs; apply Hn1.
  - intros r Hr. autorewrite with obs. rewrite Hb3. unfold s2.
    destruct (Z.eqb_spec (fwd_of 0 B') 0) as [Hz|Hz]; cbn [negb];
      autorewrite with obs; rewrite ?Hb1.
    + rewrite Hz. destruct (Z.eqb_spec r 0); [contradiction | reflexivity].
    + reflexivity.
  - hdr_simpl. unfold sl. rewrite Hh3. hdr_simpl. unfold s2.
    destruct B' as [|b r] eqn:HB.
    + cbn [fwd_of Z.eqb negb]. hdr_simpl. rewrite Hh1. reflexivity.
    + rewrite (fwd_of_level0 (b :: r) Hh1').
      assert (Hbnz : a_ref b <> 0).
      { rewrite Forall_forall in Hnz. apply Hnz. apply in_or_app. right. right. now left. }
      destruct (Z.eqb_spec (a_ref b) 0) as [|_]; [contradiction|]. cbn [negb].
      hdr_simpl. rewrite Hh1. reflexivity.
Qed.

End DeleteInv.

Section DeleteSpec.

Context {E : Elem}.
Hypothesis HE : ElemOK E.

(** [del_first_of] removes the first node that is not less than [e] when
    [e] is not less than it either, and otherwise changes nothing. *)
Lemma del_first_of_spec (s : SkipList) L F e fuel :
  Inv s L F -> (List.length L < fuel)%nat ->
  match rest_part e L with
  | [] => del_first_of fuel e s = Some (false, s)
  | d :: B' =>
      if cmp e (a_elem d) then del_first_of fuel e s = Some (false, s)
      else exists s',
             del_first_of fuel e s = Some (true, s') /\
             Inv s' (less_part e L ++ B') (a_ref d :: F)
  end.
Proof.
  intros HI Hfuel.
  destruct (inv_del_search HE s L F [] HI e fuel Hfuel)
    as (node & update & Hfor & Hloc & Hnode).
  unfold del_first_of. rewrite Hfor.
  pose proof (less_rest_split e L) as HL.
  pose proof (InvX_refs_nonzero _ _ _ _ HI) as Hnz.
  inv_facts HI.
  assert (Hh1 : Forall (fun x => (1 <= a_height x)%nat) L).
  { eapply Forall_impl; [|exact I_heights]. cbn. intros; lia. }
  assert (Hfwd0 : fwd s node 0 = fwd_of 0 (rest_part e L)).
  { destruct (Hloc 0%nat) as (ix & Hl0); [lia|].
    destruct (located_level0 (head_node s :: less_part e L) (update 0%nat) ix)
      as (p & x & HA & Hu & _); [|exact Hl0|].
    - constructor; [cbn; lia|]. rewrite HL in Hh1. apply Forall_app in Hh1. tauto.
    - rewrite Hnode, Hu.
      assert (Hc : chain_ok s (p ++ x :: rest_part e L)).
      { replace (p ++ x :: rest_part e L) with ((p ++ [x]) ++ rest_part e L)
          by (now rewrite <- app_assoc).
        rewrite <- HA. cbn [app]. rewrite <- HL. exact I_chain. }
      destruct (chain_ok_at s p x (rest_part e L) Hc 0%nat) as [Hf _]; [|exact Hf].
      assert (Hin : In x (head_node s :: less_part e L)).
      { rewrite HA. apply in_or_app. right. now left. }
      destruct Hin as [<-|Hin]; [cbn; lia|].
      rewrite Forall_forall in Hh1. apply (Hh1 x). rewrite HL. apply in_or_app. now left. }
  rewrite Hfwd0.
  destruct (rest_part e L) as [|d B'] eqn:Hrest.
  - reflexivity.
  - assert (Hh2 : Forall (fun x => (1 <= a_height x)%nat) (d :: B')).
    { rewrite HL in Hh1. apply Forall_app in Hh1. tauto. }
    rewrite (fwd_of_level0 _ Hh2).
    assert (Hdnz : a_ref d <> 0).
    { rewrite Forall_forall in Hnz. apply Hnz. rewrite HL. apply in_or_app. right. now left. }
    destruct (Z.eqb_spec (a_ref d) 0) as [|_]; [contradiction|]. cbn [negb].
    assert (Hde : elem s (a_ref d) = a_elem d).
    { rewrite Forall_forall in I_elem. apply I_elem. rewrite HL.
      apply in_or_app. right. now left. }
    rewrite Hde, (rest_part_head e L d B' Hrest). cbn [negb]. rewrite andb_true_r.
    destruct (cmp e (a_elem d)); cbn [negb]; [reflexivity|].
    eexists. split; [reflexivity|].
    apply free_node_spec.
    rewrite HL in HI.
    apply (del_node_spec HE s (less_part e L) B' d F HI update).
    exact Hloc.
Qed.

End DeleteSpec.

(** ** [init] establishes the invariant *)

Section InitInv.

Context {E : Elem}.
Hypothesis HE : ElemOK E.

Lemma init_loop_spec ref (s : SkipList) : forall n,
  let s' := for_range 0 n (fun i s => set_span ref i 0 (set_forward ref i 0 s)) s in
  (forall r j, fwd s' r j = if (r =? ref) && (j <? n)%nat then 0 else fwd s r j) /\
  (forall r j, spn s' r j = if (r =? ref) && (j <? n)%nat then 0 else spn s r j) /\
  (forall r, elem s' r = elem s r) /\
  (forall r, bwd s' r = bwd s r) /\
  (forall r, nxt s' r = nxt s r) /\
  mem_header_ s' = mem_header_ s.
Proof.
  induction n as [|n IH]; cbn zeta.
  - rewrite for_range_empty by lia. repeat split; try reflexivity; intros; case_tests.
  - rewrite for_range_last by lia. cbn zeta in IH.
    destruct IH as (Hf & Hs & He & Hb & Hn & Hh).
    set (s1 := for_range 0 n _ s) in *.
    repeat split; intros; autorewrite with obs; rewrite ?Hf, ?Hs; auto; case_tests.
Qed.

(** What a successful raw [init] returns. *)
Lemma init_raw_ok buf size max_sl_len (s : SkipList) :
  init (Some buf) size max_sl_len true = InitOk s ->
  max_mem_size max_sl_len <= size /\
  mem_header_size + mem_node_size <= size /\
  mem_header_ s
  = mkMemHeader MAGIC_NUM size (mem_header_size + mem_node_size) mem_header_size
      mem_node_size 0 (mkSLInfo mem_header_size 0 1%nat 0) /\
  (forall j, fwd s mem_header_size j = 0 /\ spn s mem_header_size j = 0).
Proof.
  unfold init.
  pose proof (node_size_pos HE) as Hnp. pose proof (header_size_pos HE) as Hhp.
  pose proof (sizes_fit HE) as Hfit.
  destruct (Z.ltb_spec size (max_mem_size max_sl_len)) as [|Hsize]; [discriminate|].
  cbn [negb]. unfold alloc_node, raw_header. hdr_simpl. cbn [Z.eqb negb].
  rewrite wrap64_small by lia.
  destruct (Z.leb_spec (mem_header_size + mem_node_size) size) as [Hroom|]; [|discriminate].
  destruct (Z.eqb_spec mem_header_size 0) as [|_]; [lia|].
  intros Hinit. injection Hinit as Hs. rewrite <- Hs. clear Hs.
  match goal with
  | |- context [for_range 0 MAX_LEVEL_NUM ?body ?s0] =>
      pose proof (init_loop_spec mem_header_size s0 MAX_LEVEL_NUM) as Hloop
  end.
  cbn zeta in Hloop. destruct Hloop as (Hf & Hsp & _ & _ & _ & Hh).
  split; [assumption|]. split; [assumption|]. split.
  - rewrite Hh. reflexivity.
  - intros j. rewrite Hf, Hsp. autorewrite with obs. case_tests.
Qed.

Lemma init_spec buf size max_sl_len (s : SkipList) :
  fits_uint32 size ->
  init (Some buf) size max_sl_len true = InitOk s ->
  Inv s [] [].
Proof.
  intros Hcap Hinit.
  destruct (init_raw_ok buf size max_sl_len s Hinit) as (_ & Hroom & Hh & Hzero).
  pose proof (node_size_pos HE) as Hnp. pose proof (header_size_pos HE) as Hhp.
  assert (Hsl : sl s = mkSLInfo mem_header_size 0 1%nat 0).
  { unfold sl. now rewrite Hh. }
  constructor; rewrite ?Hsl, ?Hh; hdr_simpl; cbn [List.length map app last].
  - reflexivity.
  - exact Hcap.
  - cbn. lia.
  - exact Hroom.
  - constructor; [intros [] | constructor].
  - constructor; [lia | constructor].
  - reflexivity.
  - unfold head_node. rewrite Hsl. hdr_simpl. split; [|exact I].
    intros i _. cbn [a_ref fwd_of dist_of]. apply Hzero.
  - intros i _. apply Hzero.
  - unfold MAX_LEVEL_NUM. lia.
  - constructor.
  - constructor.
  - reflexivity.
  - constructor.
  - constructor.
  - exact I.
  - reflexivity.
  - reflexivity.
Qed.

End InitInv.

(** ** [erase] keeps the invariant *)

Section EraseInv.

Context {E : Elem}.
Hypothesis HE : ElemOK E.


Lemma run_split e (R : list anode) : R = eq_run e R ++ after_run e R.
Proof.
  induction R as [|d R IH]; cbn; [reflexivity|].
  destruct (cmp e (a_elem d)); cbn; [reflexivity | now f_equal].
Qed.

Lemma eq_run_not_greater e (R : list anode) :
  Forall (fun d => cmp e (a_elem d) = false) (eq_run e R).
Proof.
  induction R as [|d R IH]; cbn; [constructor|].
  destruct (cmp e (a_elem d)) eqn:Hd; constructor; assumption.
Qed.

Lemma after_run_head e (R : list anode) :
  match after_run e R with [] => True | g :: _ => cmp e (a_elem g) = true end.
Proof.
  induction R as [|d R IH]; cbn; [exact I|].
  destruct (cmp e (a_elem d)) eqn:Hd; assumption.
Qed.

Lemma less_rest_of_app e (L1 R : list anode) :
  Forall (fun x => cmp (a_elem x) e = true) L1 ->
  Forall (fun x => cmp (a_elem x) e = false) R ->
  less_part e (L1 ++ R) = L1 /\ rest_part e (L1 ++ R) = R.
Proof.
  intros H1 H2. induction H1 as [|x L1 Hx _ IH]; cbn.
  - destruct H2 as [|r R Hr _]; cbn; [auto|]. rewrite Hr. auto.
  - rewrite Hx. destruct IH as [-> ->]. auto.
Qed.

Lemma erase_loop_spec e fuel : forall run (s : SkipList) L F gt n count,
  Inv s L F -> rest_part e L = run ++ gt ->
  Forall (fun d => cmp e (a_elem d) = false) run ->
  match gt with [] => True | g :: _ => cmp e (a_elem g) = true end ->
  (List.length L < fuel)%nat -> (List.length run < n)%nat ->
  0 <= count -> count + Z.of_nat (List.length run) < 2 ^ 32 ->
  exists s',
    erase_loop fuel n e s count = Some (count + Z.of_nat (List.length run), s') /\
    Inv s' (less_part e L ++ gt) (rev (map a_ref run) ++ F).
Proof.
  induction run as [|d run IH]; intros s L F gt n count HI Hrest Hrun Hgt Hfuel Hn Hc Hb.
  - destruct n as [|n]; [cbn in Hn; lia|]. cbn [erase_loop].
    pose proof (del_first_of_spec HE s L F e fuel HI Hfuel) as Hdel.
    rewrite Hrest in Hdel. cbn [app] in Hdel, Hrest.
    assert (Hfalse : del_first_of fuel e s = Some (false, s)).
    { destruct gt as [|g gt]; [assumption|]. now rewrite Hgt in Hdel. }
    rewrite Hfalse. exists s. split.
    + cbn [List.length]. f_equal. f_equal. lia.
    + cbn [map rev app]. rewrite <- Hrest, <- less_rest_split. exact HI.
  - destruct n as [|n]; [cbn in Hn; lia|]. cbn [erase_loop].
    pose proof (del_first_of_spec HE s L F e fuel HI Hfuel) as Hdel.
    rewrite Hrest in Hdel. cbn [app] in Hdel.
    apply Forall_cons_iff in Hrun. destruct Hrun as [Hd Hrun].
    rewrite Hd in Hdel. destruct Hdel as (s1 & Hdel & HI1).
    rewrite Hdel.
    assert (Hnl : Forall (fun x => cmp (a_elem x) e = false) (run ++ gt)).
    { pose proof (rest_part_not_less HE e L (inv_sorted _ _ _ _ HI)) as H.
      rewrite Hrest in H. cbn [app] in H. now apply Forall_inv_tail in H. }
    destruct (less_rest_of_app e (less_part e L) (run ++ gt) (less_part_less e L) Hnl)
      as [Hless' Hrest'].
    cbn [List.length] in Hn, Hb.
    destruct (IH s1 (less_part e L ++ run ++ gt) (a_ref d :: F) gt n (wrap32 (count + 1)))
      as (s' & Hloop & HI'); try assumption.
    + pose proof (less_rest_split e L) as HL. rewrite Hrest in HL.
      rewrite HL in Hfuel. cbn [app] in Hfuel.
      rewrite !length_app in *. cbn [List.length] in Hfuel.
      rewrite ?length_app in Hfuel. lia.
    + lia.
    + rewrite wrap32_small by lia. lia.
    + rewrite wrap32_small by lia. lia.
    + exists s'. split.
      * rewrite Hloop. rewrite wrap32_small by lia. cbn [List.length].
        f_equal. f_equal. lia.
      * rewrite Hless' in HI'. cbn [map rev]. rewrite <- app_assoc. exact HI'.
Qed.

Lemma erase_spec (s : SkipList) L F e fuel :
  Inv s L F -> (List.length L < fuel)%nat ->
  exists s',
    erase fuel e s
    = Some (Z.of_nat (List.length (eq_run e (rest_part e L))), s') /\
    Inv s' (less_part e L ++ after_run e (rest_part e L))
        (rev (map a_ref (eq_run e (rest_part e L))) ++ F).
Proof.
  intros HI Hfuel. unfold erase.
  pose proof (InvX_length_bound _ _ _ _ HE HI) as Hbound.
  assert (Hlen : (List.length (eq_run e (rest_part e L)) <= List.length L)%nat).
  { rewrite (less_rest_split e L) at 2.
    rewrite (run_split e (rest_part e L)) at 2. rewrite !length_app. lia. }
  destruct (erase_loop_spec e fuel (eq_run e (rest_part e L)) s L F
              (after_run e (rest_part e L)) fuel 0 HI)
    as (s' & Hloop & HI'); try lia.
  - apply run_split.
  - apply eq_run_not_greater.
  - apply after_run_head.
  - exists s'. split; [|exact HI']. rewrite Hloop. reflexivity.
Qed.

(** *** Every reachable state satisfies the invariant *)

Lemma reachable_inv (s : SkipList) : reachable s -> exists L F, Inv s L F.
Proof.
  induction 1 as [buf size n s Hcap Hinit
                 | s fuel lvl e b s' _ IH Hlvl Hins
                 | s fuel e count s' _ IH Her].
  - exists [], []. exact (init_spec HE buf size n s Hcap Hinit).
  - destruct IH as (L & F & HI).
    pose proof (insert_mono fuel (Nat.max fuel (S (List.length L))) lvl e s _ Hins) as Hbig.
    specialize (Hbig ltac:(lia)).
    destruct (insert_spec HE s L F lvl e (Nat.max fuel (S (List.length L))) HI Hlvl)
      as [(Hfail & _) | (new & s'' & F' & Hok & HI' & _)]; [lia | |].
    + rewrite Hfail in Hbig. inversion Hbig; subst. exists L, F. exact HI.
    + rewrite Hok in Hbig. inversion Hbig; subst. eexists _, _. exact HI'.
  - destruct IH as (L & F & HI).
    pose proof (erase_mono fuel (Nat.max fuel (S (List.length L))) e s _ Her) as Hbig.
    specialize (Hbig ltac:(lia)).
    destruct (erase_spec s L F e (Nat.max fuel (S (List.length L))) HI)
      as (s'' & Hok & HI'); [lia|].
    rewrite Hok in Hbig. inversion Hbig; subst. eexists _, _. exact HI'.
Qed.

End EraseInv.

(** ** What the walks over a state return *)

Section Walks.

Context {E : Elem}.

Lemma end_inv (s : SkipList) L F X :
  InvX s L F X -> end_ s = mkIterator 0.
Proof.
  intros HI. inv_facts HI. unfold end_. rewrite I_tail.
  destruct (Z.eqb_spec (last (map a_ref L) 0) 0) as [->|Hne]; cbn [negb]; [reflexivity|].
  f_equal.
  destruct (exists_last (l := L)) as (p & x & HL).
  { intros ->. now cbn in Hne. }
  rewrite HL, map_app in *. cbn [map]. rewrite last_snoc.
  assert (Hc : chain_ok s ((head_node s :: p) ++ x :: [])).
  { cbn [app]. exact I_chain. }
  destruct (chain_ok_at s _ x [] Hc 0%nat) as [Hf _]; [|exact Hf].
  apply Forall_app in I_heights. destruct I_heights as [_ Hx].
  apply Forall_inv in Hx. lia.
Qed.

Lemma iterate_chain (s : SkipList) : forall suf fuel,
  end_ s = mkIterator 0 ->
  chain_ok s suf ->
  Forall (fun x => (1 <= a_height x)%nat) suf ->
  Forall (fun x => a_ref x <> 0) suf ->
  (List.length suf < fuel)%nat ->
  iterate fuel s (mkIterator (fwd_of 0 suf)) = Some (map a_ref suf).
Proof.
  induction suf as [|x suf IH]; intros fuel Hend Hc Hh Hnz Hfuel;
    (destruct fuel as [|fuel]; [cbn in Hfuel; lia|]); cbn [iterate].
  - rewrite Hend. reflexivity.
  - rewrite Hend. rewrite (fwd_of_level0 _ Hh).
    apply Forall_cons_iff in Hh, Hnz. destruct Hh as [Hx Hh]. destruct Hnz as [Hx0 Hnz].
    unfold iter_eqb. cbn [node_ref].
    destruct (Z.eqb_spec (a_ref x) 0) as [|_]; [contradiction|].
    unfold iter_incr. cbn [node_ref].
    destruct Hc as [Hlx Hc]. destruct (Hlx 0%nat Hx) as [Hf _]. rewrite Hf.
    rewrite IH; try assumption; [reflexivity | cbn in Hfuel; lia].
Qed.

Lemma to_list_inv (s : SkipList) L F X fuel :
  InvX s L F X -> (List.length L < fuel)%nat ->
  to_list fuel s = Some (map a_ref L).
Proof.
  intros HI Hfuel. pose proof (end_inv s L F X HI) as Hend.
  pose proof (InvX_refs_nonzero _ _ _ _ HI) as Hnz.
  inv_facts HI. unfold to_list, begin_.
  destruct I_chain as [Hhead Hc].
  destruct (Hhead 0%nat) as [Hf _]; [cbn; lia|]. cbn [a_ref head_node] in Hf.
  rewrite Hf. apply iterate_chain; try assumption.
  eapply Forall_impl; [|exact I_heights]. cbn. intros; lia.
Qed.

Lemma free_chain_ok (s : SkipList) : forall F p fuel,
  free_ok s p F -> Forall (fun r => r <> 0) F -> (List.length F < fuel)%nat ->
  free_chain fuel s p = Some F.
Proof.
  induction F as [|f F IH]; intros p fuel Hok Hnz Hfuel;
    (destruct fuel as [|fuel]; [cbn in Hfuel; lia|]); cbn [free_chain free_ok] in *.
  - subst p. reflexivity.
  - destruct Hok as [-> Hok]. apply Forall_cons_iff in Hnz. destruct Hnz as [Hf Hnz].
    destruct (Z.eqb_spec f 0) as [|_]; [contradiction|].
    rewrite (IH _ fuel Hok Hnz); [reflexivity | cbn in Hfuel; lia].
Qed.

Lemma free_slots_inv (s : SkipList) L F X fuel :
  InvX s L F X -> (List.length F < fuel)%nat -> free_slots fuel s = Some F.
Proof.
  intros HI Hfuel. inv_facts HI. unfold free_slots.
  apply free_chain_ok; try assumption.
  apply Forall_inv_tail in I_range. apply Forall_app in I_range.
  destruct I_range as [_ Hr]. apply Forall_app in Hr. destruct Hr as [Hr _].
  eapply Forall_impl; [|exact Hr]. cbn. intros; lia.
Qed.

Lemma elems_inv (s : SkipList) L F X :
  InvX s L F X -> map (elem s) (map a_ref L) = map a_elem L.
Proof.
  intros HI. pose proof (inv_elem _ _ _ _ HI) as He.
  rewrite map_map. apply map_ext_in. intros x Hx.
  rewrite Forall_forall in He. now apply He.
Qed.

End Walks.

(** ** The size of the buffer is never rewritten *)

Section BufferSize.

Context {E : Elem}.

Lemma alloc_node_mem_size (s : SkipList) :
  mem_size (mem_header_ (snd (alloc_node s))) = mem_size (mem_header_ s).
Proof.
  unfold alloc_node.
  destruct (negb (free_list (mem_header_ s) =? 0)); [reflexivity|].
  destruct (wrap64 _ <=? _); reflexivity.
Qed.

Lemma insert_link_mem_size fuel lvl e new (s s' : SkipList) b :
  insert_link fuel lvl e new s = Some (b, s') ->
  mem_size (mem_header_ s') = mem_size (mem_header_ s).
Proof.
  unfold insert_link.
  destruct (insert_for fuel s e _ _ _ _) as [[index update]|]; [|discriminate].
  pose proof (insert_raise_spec s lvl index update) as Hraise.
  destruct (insert_raise lvl index update s) as [[index2 update2] s2].
  destruct Hraise as (_ & _ & _ & _ & _ & _ & _ & Hh2).
  pose proof (insert_bump_spec lvl update2 (insert_splice new lvl index2 update2 s2)) as Hb.
  cbn zeta in Hb. destruct Hb as (_ & _ & _ & _ & _ & Hh4).
  assert (Hh3 : mem_header_ (insert_splice new lvl index2 update2 s2) = mem_header_ s2).
  { unfold insert_splice. generalize lvl at 1. intros n.
    induction n as [|n IH]; [now rewrite for_range_empty by lia|].
    rewrite for_range_last by lia. exact IH. }
  intros Hs. injection Hs as _ Hs. rewrite <- Hs.
  set (s4 := insert_bump lvl update2 (insert_splice new lvl index2 update2 s2)) in *.
  assert (Hm4 : mem_size (mem_header_ s4) = mem_size (mem_header_ s)).
  { rewrite Hh4, Hh3, Hh2. destruct (level_num (sl s) <? lvl)%nat; reflexivity. }
  rewrite <- Hm4.
  destruct (update2 0%nat =? head (sl s4));
    match goal with
    | |- context [negb (?c =? 0)] => destruct (negb (c =? 0))
    end; reflexivity.
Qed.

Lemma insert_mem_size fuel lvl e (s s' : SkipList) b :
  insert fuel lvl e s = Some (b, s') ->
  mem_size (mem_header_ s') = mem_size (mem_header_ s).
Proof.
  unfold insert. pose proof (alloc_node_mem_size s) as Ha.
  destruct (alloc_node s) as [new s1]. cbn [snd] in Ha.
  destruct (new =? 0).
  - intros H. injection H as _ <-. exact Ha.
  - intros H. apply insert_link_mem_size in H. congruence.
Qed.

End BufferSize.

(** ** Runs of [insert] and of [erase] *)

Section Runs.

Context {E : Elem}.
Hypothesis HE : ElemOK E.

(** With an empty free list and room for one more slot, [insert] takes
    the slot at [alloc_size]. *)
Lemma insert_fresh (s : SkipList) L lvl e fuel :
  Inv s L [] -> (1 <= lvl <= MAX_LEVEL_NUM)%nat -> (List.length L < fuel)%nat ->
  alloc_size (mem_header_ s) + mem_node_size <= mem_size (mem_header_ s) ->
  exists s',
    insert fuel lvl e s = Some (true, s') /\
    Inv s' (less_part e L ++ mkANode (alloc_size (mem_header_ s)) e lvl :: rest_part e L) [] /\
    mem_size (mem_header_ s') = mem_size (mem_header_ s).
Proof.
  intros HI Hlvl Hfuel Hroom.
  destruct (insert_spec HE s L [] lvl e fuel HI Hlvl Hfuel)
    as [(_ & _ & Hfull) | (new & s' & F' & Hins & HI' & [Hcase | (_ & -> & -> & _)])].
  - lia.
  - discriminate.
  - exists s'. split; [assumption|]. split; [assumption|].
    exact (insert_mem_size _ _ _ _ _ _ Hins).
Qed.

(** With an empty free list and no room, [insert] fails and changes nothing. *)
Lemma insert_full (s : SkipList) L lvl e fuel :
  Inv s L [] -> (1 <= lvl <= MAX_LEVEL_NUM)%nat -> (List.length L < fuel)%nat ->
  mem_size (mem_header_ s) < alloc_size (mem_header_ s) + mem_node_size ->
  insert fuel lvl e s = Some (false, s).
Proof.
  intros HI Hlvl Hfuel Hfull.
  destruct (insert_spec HE s L [] lvl e fuel HI Hlvl Hfuel)
    as [(Hins & _) | (new & s' & F' & Hins & HI' & [Hcase | (_ & _ & _ & Hroom)])].
  - exact Hins.
  - discriminate.
  - lia.
Qed.

Lemma insert_abs_length e (L : list anode) x :
  List.length (less_part e L ++ x :: rest_part e L) = S (List.length L).
Proof.
  rewrite (less_rest_split e L) at 3. rewrite !length_app. cbn [List.length]. lia.
Qed.

Lemma insert_abs_in e (L : list anode) x y :
  In y (less_part e L ++ x :: rest_part e L) -> y = x \/ In y L.
Proof.
  intros H. rewrite (less_rest_split e L).
  apply in_app_or in H. destruct H as [H|[H|H]]; [right | now left | right];
    apply in_or_app; auto.
Qed.

(** Inserts that all succeed while the free list is empty. *)
Lemma insert_all_true fuel : forall l (s : SkipList) L bs s1,
  Inv s L [] ->
  insert_all fuel l s = Some (bs, s1) ->
  Forall (fun b => b = true) bs ->
  Forall (fun p => (1 <= fst p <= MAX_LEVEL_NUM)%nat) l ->
  (List.length L + List.length l < fuel)%nat ->
  exists L1,
    Inv s1 L1 [] /\ List.length L1 = (List.length L + List.length l)%nat /\
    (forall x, In x L1 -> In x L \/ In (a_elem x) (map snd l)) /\
    mem_size (mem_header_ s1) = mem_size (mem_header_ s).
Proof.
  induction l as [|[lvl e] l IH]; intros s L bs s1 HI Hall Hbs Hlv Hfuel.
  - cbn in Hall. injection Hall as <- <-. exists L.
    split; [assumption|]. split; [cbn; lia|]. split; [auto | reflexivity].
  - cbn [insert_all] in Hall. cbn [List.length] in Hfuel.
    apply Forall_cons_iff in Hlv. destruct Hlv as [Hlvl Hlv]. cbn [fst] in Hlvl.
    destruct (insert fuel lvl e s) as [[b s']|] eqn:Hins; [|discriminate].
    destruct (insert_all fuel l s') as [[bs' s'']|] eqn:Hrest; [|discriminate].
    injection Hall as <- <-.
    apply Forall_cons_iff in Hbs. destruct Hbs as [-> Hbs].
    pose proof (insert_mem_size _ _ _ _ _ _ Hins) as Hms.
    destruct (insert_spec HE s L [] lvl e fuel HI Hlvl)
      as [(Hfail & _) | (new & s2 & F' & Hok & HI' & [Hcase | (_ & -> & _)])]; [lia | | |].
    + rewrite Hfail in Hins. discriminate.
    + discriminate.
    + rewrite Hok in Hins. injection Hins as <-.
      destruct (IH s2 _ bs' s'' HI' Hrest Hbs Hlv) as (L1 & HI1 & Hlen & Hin & Hms1).
      { rewrite insert_abs_length. lia. }
      exists L1. split; [assumption|]. split; [|split].
      * rewrite Hlen, insert_abs_length. cbn [List.length]. lia.
      * intros x Hx. destruct (Hin x Hx) as [Hx'|Hx'].
        -- apply insert_abs_in in Hx'. destruct Hx' as [->|Hx']; [|now left].
           right. cbn. now left.
        -- right. cbn. now right.
      * congruence.
Qed.

(** Past the run of nodes equal to [e], every node is greater than [e]. *)
Lemma after_run_greater e (R : list anode) :
  sorted (map a_elem R) ->
  Forall (fun x => cmp e (a_elem x) = true) (after_run e R).
Proof.
  induction R as [|d R IH]; cbn [after_run map]; [constructor|].
  intros Hs. destruct (cmp e (a_elem d)) eqn:Hd.
  - constructor; [assumption|].
    inversion Hs as [|? ? Hall _]; subst.
    rewrite Forall_map in Hall. eapply Forall_impl; [|exact Hall]. cbn.
    intros b Hb. destruct (cmp_cotrans HE e (a_elem b) (a_elem d) Hd) as [H|H];
      [assumption | congruence].
  - apply IH. now inversion Hs.
Qed.

(** The nodes that [erase] leaves are not equal to [e]. *)
Lemma erase_abs_apart e (L : list anode) :
  sorted (map a_elem L) ->
  Forall (fun x => equiv (a_elem x) e = false)
         (less_part e L ++ after_run e (rest_part e L)).
Proof.
  intros Hs. apply Forall_app. split.
  - eapply Forall_impl; [|apply less_part_less]. cbn. intros x Hx.
    unfold equiv. now rewrite Hx.
  - eapply Forall_impl; [|apply after_run_greater].
    + cbn. intros x Hx. unfold equiv. rewrite Hx. now rewrite andb_false_r.
    + rewrite (less_rest_split e L), map_app in Hs. now apply sorted_app_r in Hs.
Qed.

Lemma erase_abs_in e (L : list anode) x :
  In x (less_part e L ++ after_run e (rest_part e L)) -> In x L.
Proof.
  intros H. rewrite (less_rest_split e L).
  rewrite (run_split e (rest_part e L)).
  apply in_app_or in H. apply in_or_app. destruct H as [H|H]; [now left | right].
  apply in_or_app. now right.
Qed.

Lemma erase_abs_length e (L : list anode) :
  (List.length (less_part e L ++ after_run e (rest_part e L))
   + List.length (eq_run e (rest_part e L)))%nat = List.length L.
Proof.
  rewrite (less_rest_split e L) at 4.
  rewrite (run_split e (rest_part e L)) at 3. rewrite !length_app. lia.
Qed.

Lemma erase_all_spec fuel : forall es (s : SkipList) L F,
  Inv s L F -> (List.length L < fuel)%nat ->
  exists cs s' L' F',
    erase_all fuel es s = Some (cs, s') /\ Inv s' L' F' /\
    (List.length L' + List.length F')%nat = (List.length L + List.length F)%nat /\
    (forall x, In x L' ->
       In x L /\ forall e, In e es -> equiv (a_elem x) e = false).
Proof.
  induction es as [|e es IH]; intros s L F HI Hfuel.
  - exists [], s, L, F. cbn [erase_all].
    split; [reflexivity|]. split; [assumption|]. split; [reflexivity|].
    intros x Hx. split; [assumption|]. intros e [].
  - cbn [erase_all].
    destruct (erase_spec HE s L F e fuel HI Hfuel) as (s1 & Her & HI1).
    rewrite Her.
    pose proof (erase_abs_length e L) as Hlen.
    destruct (IH s1 _ _ HI1) as (cs & s' & L' & F' & Hall & HI' & Hcount & Hin); [lia|].
    rewrite Hall. eexists _, s', L', F'. split; [reflexivity|]. split; [assumption|].
    split.
    + rewrite Hcount. rewrite (length_app (rev _)), length_rev, length_map. lia.
    + intros x Hx. destruct (Hin x Hx) as [Hx1 Hne]. split.
      * now apply erase_abs_in in Hx1.
      * intros e' [<-|He']; [|now apply Hne].
        pose proof (erase_abs_apart e L (inv_sorted _ _ _ _ HI)) as Hap.
        rewrite Forall_forall in Hap. now apply Hap.
Qed.

End Runs.

(** ** Reading the invariant off a state *)

Section Reading.

Context {E : Elem}.
Hypothesis HE : ElemOK E.

Lemma filter_all {A : Type} (f : A -> bool) (l : list A) :
  Forall (fun x => f x = true) l -> filter f l = l.
Proof.
  induction 1 as [|x l Hx _ IH]; cbn; [reflexivity|]. now rewrite Hx, IH.
Qed.

Lemma filter_none {A : Type} (f : A -> bool) (l : list A) :
  Forall (fun x => f x = false) l -> filter f l = [].
Proof.
  induction 1 as [|x l Hx _ IH]; cbn; [reflexivity|]. now rewrite Hx, IH.
Qed.

Lemma eq_run_equiv e (L : list anode) :
  sorted (map a_elem L) ->
  Forall (fun x => equiv (a_elem x) e = true) (eq_run e (rest_part e L)).
Proof.
  intros Hs.
  pose proof (rest_part_not_less HE e L Hs) as Hnl.
  pose proof (eq_run_not_greater e (rest_part e L)) as Hng.
  rewrite (run_split e (rest_part e L)) in Hnl. apply Forall_app in Hnl.
  destruct Hnl as [Hnl _].
  rewrite Forall_forall in *. intros x Hx. unfold equiv.
  now rewrite (Hnl x Hx), (Hng x Hx).
Qed.

(** What [erase] keeps and what it removes, as filters. *)
Lemma filter_kept e (L : list anode) :
  sorted (map a_elem L) ->
  filter (fun x => negb (equiv (a_elem x) e)) L
  = less_part e L ++ after_run e (rest_part e L).
Proof.
  intros Hs.
  pose proof (erase_abs_apart HE e L Hs) as Hap. apply Forall_app in Hap.
  destruct Hap as [H1 H3]. pose proof (eq_run_equiv e L Hs) as H2.
  rewrite (less_rest_split e L) at 1. rewrite (run_split e (rest_part e L)) at 1.
  rewrite !filter_app.
  rewrite (filter_all _ (less_part e L)), (filter_none _ (eq_run e _)), (filter_all _ (after_run e _)).
  - reflexivity.
  - eapply Forall_impl; [|exact H3]. cbn. intros x ->. reflexivity.
  - eapply Forall_impl; [|exact H2]. cbn. intros x ->. reflexivity.
  - eapply Forall_impl; [|exact H1]. cbn. intros x ->. reflexivity.
Qed.

Lemma filter_removed e (L : list anode) :
  sorted (map a_elem L) ->
  filter (fun x => equiv (a_elem x) e) L = eq_run e (rest_part e L).
Proof.
  intros Hs.
  pose proof (erase_abs_apart HE e L Hs) as Hap. apply Forall_app in Hap.
  destruct Hap as [H1 H3]. pose proof (eq_run_equiv e L Hs) as H2.
  rewrite (less_rest_split e L) at 1. rewrite (run_split e (rest_part e L)) at 1.
  rewrite !filter_app.
  rewrite (filter_none _ (less_part e L)), (filter_all _ (eq_run e _)), (filter_none _ (after_run e _))
    by assumption.
  now rewrite app_nil_r.
Qed.

Lemma filter_refs (s : SkipList) L F X (f : T -> bool) :
  InvX s L F X ->
  filter (fun r => f (elem s r)) (map a_ref L)
  = map a_ref (filter (fun x => f (a_elem x)) L).
Proof.
  intros HI. pose proof (inv_elem _ _ _ _ HI) as He. clear HI.
  induction He as [|x L Hx _ IH]; cbn; [reflexivity|].
  rewrite Hx, IH. destruct (f (a_elem x)); reflexivity.
Qed.

Lemma forall_refs (s : SkipList) L F X (P : T -> Prop) :
  InvX s L F X ->
  (Forall (fun r => P (elem s r)) (map a_ref L) <-> Forall (fun x => P (a_elem x)) L).
Proof.
  intros HI. pose proof (inv_elem _ _ _ _ HI) as He. clear HI.
  rewrite Forall_map. rewrite !Forall_forall in *.
  split; intros H x Hx; specialize (H x Hx); now rewrite (He x Hx) in *.
Qed.

Lemma back_ok_at (s : SkipList) (l1 l2 : list anode) x prev :
  back_ok s prev (l1 ++ x :: l2) -> bwd s (a_ref x) = last (map a_ref l1) prev.
Proof.
  intros H. apply back_ok_app in H. destruct H as [_ H]. cbn in H. tauto.
Qed.

Lemma refs_split (L : list anode) pre r suf :
  map a_ref L = pre ++ r :: suf ->
  exists l1 x l2, L = l1 ++ x :: l2 /\ map a_ref l1 = pre /\ a_ref x = r /\
                  map a_ref l2 = suf.
Proof.
  intros H. apply map_eq_app in H. destruct H as (l1 & l2' & -> & H1 & H2).
  apply map_eq_cons in H2. destruct H2 as (x & l2 & -> & Hx & H2).
  exists l1, x, l2. auto.
Qed.

(** A non-null link at an active level advances by its span. *)
Lemma link_advances (s : SkipList) L F X k r i :
  InvX s L F X ->
  nth_error (head (sl s) :: map a_ref L) k = Some r ->
  (i < level_num (sl s))%nat -> fwd s r i <> 0 ->
  1 <= spn s r i /\
  nth_error (head (sl s) :: map a_ref L) (k + Z.to_nat (spn s r i))
  = Some (fwd s r i).
Proof.
  intros HI Hk Hi Hnz. inv_facts HI.
  change (head (sl s) :: map a_ref L) with (map a_ref (head_node s :: L)) in *.
  destruct (nth_error (head_node s :: L) k) as [x|] eqn:Hx;
    [|rewrite nth_error_map, Hx in Hk; discriminate].
  rewrite nth_error_map, Hx in Hk. cbn in Hk. injection Hk as <-.
  destruct (nth_error_split _ _ Hx) as (pre & suf & HA & Hlen).
  assert (Hvis : (i < a_height x)%nat).
  { destruct (Nat.lt_ge_cases i (a_height x)) as [|Hge]; [assumption|]. exfalso.
    destruct pre as [|h pre]; cbn [app] in HA; injection HA as Hh HL.
    - subst x. cbn in Hge. lia.
    - rewrite Forall_forall in I_above. apply Hnz. apply I_above; [|assumption].
      rewrite HL. apply in_or_app. right. now left. }
  rewrite HA in I_chain.
  destruct (chain_ok_at s pre x suf I_chain i Hvis) as [Hf Hs].
  rewrite Hf in Hnz.
  destruct (first_visible i suf) as [Hinv | (p & y & q & -> & Hp & Hy)].
  - exfalso. apply Hnz. now apply fwd_of_invisible.
  - rewrite Hf, Hs, fwd_of_first_visible, dist_of_first_visible by assumption.
    split; [lia|].
    replace (k + Z.to_nat (Z.of_nat (List.length p) + 1))%nat
      with (List.length (pre ++ x :: p) + 0)%nat
      by (rewrite length_app; cbn [List.length]; lia).
    rewrite HA.
    replace (pre ++ x :: p ++ y :: q) with ((pre ++ x :: p) ++ y :: q)
      by (now rewrite <- app_assoc).
    rewrite map_app, nth_error_app2 by (rewrite length_map; lia).
    rewrite length_map.
    replace (List.length (pre ++ x :: p) + 0 - List.length (pre ++ x :: p))%nat
      with 0%nat by lia.
    reflexivity.
Qed.

(** The spans crossed on a search path add up to the rank of its node. *)
Lemma path_rank (s : SkipList) L F X r total :
  InvX s L F X -> search_path s r total ->
  0 <= total /\
  nth_error (head (sl s) :: map a_ref L) (Z.to_nat total) = Some r.
Proof.
  intros HI Hp. induction Hp as [|r total i _ [Ht IH] Hi Hnz].
  - split; [lia | reflexivity].
  - destruct (link_advances s L F X _ r i HI IH Hi Hnz) as [Hs Hn].
    split; [lia|]. rewrite Z2Nat.inj_add by lia. exact Hn.
Qed.

End Reading.

(** ** The level drawn for a new node *)

Lemma random_level_loop_ge (draws : list Z) : forall level,
  (level <= random_level_loop draws level)%nat.
Proof.
  induction draws as [|r rest IH]; intros level; cbn [random_level_loop]; [lia|].
  destruct (Z.land r 65535 * SKIPLIST_P <? 65535); [|lia].
  specialize (IH (level + 1)%nat). lia.
Qed.

(** [random_level()] is between 1 and [MAX_LEVEL_NUM] whatever the draws. *)
Lemma random_level_range (draws : list Z) :
  (1 <= random_level draws <= MAX_LEVEL_NUM)%nat.
Proof.
  unfold random_level. pose proof (random_level_loop_ge draws 1) as Hge.
  destruct (Nat.ltb_spec (random_level_loop draws 1) MAX_LEVEL_NUM) as [Hlt|_].
  - lia.
  - unfold MAX_LEVEL_NUM. lia.
Qed.

Lemma random_level_loop_run (k : nat) : forall level,
  random_level_loop (repeat 0 k ++ [65535]) level = (level + k)%nat.
Proof.
  induction k as [|k IH]; intros level.
  - cbn. lia.
  - cbn [repeat app random_level_loop].
    change (Z.land 0 65535 * SKIPLIST_P <? 65535) with true. cbn iota.
    rewrite IH. lia.
Qed.

(** Every level between 1 and [MAX_LEVEL_NUM] is returned for some draws. *)
Lemma random_level_attained (lvl : nat) :
  (1 <= lvl <= MAX_LEVEL_NUM)%nat -> exists draws, random_level draws = lvl.
Proof.
  intros Hlvl. exists (repeat 0 (lvl - 1) ++ [65535]).
  unfold random_level. rewrite random_level_loop_run.
  destruct (Nat.ltb_spec (1 + (lvl - 1)) MAX_LEVEL_NUM); lia.
Qed.

(** ** What [get_index] and [find(element)] return *)

Section LookupLoops.

Context {E : Elem}.

Variable s : SkipList.
Variable e : T.

(** The inner loop of [get_index] is the search loop of [insert] followed
    by one test of the node it stopped before. *)
Lemma get_index_while_insert_while i fuel : forall node idx,
  get_index_while fuel s e i node idx
  = match insert_while fuel s e i node idx with
    | None => None
    | Some (node', idx') =>
        Some (if fwd s node' i =? 0 then inr (node', idx')
              else if negb (cmp e (elem s (fwd s node' i)))
                   then inl (wrap32 (idx' + spn s node' i))
                   else inr (node', idx'))
    end.
Proof.
  induction fuel as [|fuel IH]; intros node idx; [reflexivity|].
  cbn [get_index_while insert_while].
  destruct (fwd s node i =? 0) eqn:Hz; [now rewrite Hz|].
  destruct (cmp (elem s (fwd s node i)) e); [apply IH|].
  rewrite Hz. now destruct (cmp e (elem s (fwd s node i))).
Qed.

Lemma find_while_insert_while i fuel : forall node idx,
  find_while fuel s e i node
  = match insert_while fuel s e i node idx with
    | None => None
    | Some (node', _) =>
        Some (if fwd s node' i =? 0 then inr node'
              else if negb (cmp e (elem s (fwd s node' i)))
                   then inl (mkIterator (fwd s node' i))
                   else inr node')
    end.
Proof.
  induction fuel as [|fuel IH]; intros node idx; [reflexivity|].
  cbn [find_while insert_while].
  destruct (fwd s node i =? 0) eqn:Hz; [now rewrite Hz|].
  destruct (cmp (elem s (fwd s node i)) e); [apply IH|].
  rewrite Hz. now destruct (cmp e (elem s (fwd s node i))).
Qed.

End LookupLoops.

Section Lookup.

Context {E : Elem}.
Hypothesis HE : ElemOK E.

Variable s : SkipList.
Variables (L : list anode) (F X : list Z).
Hypothesis HI : InvX s L F X.
Variable e : T.

(** What one level of the search meets first among the nodes that are not
    less than [e]: nothing, or the node [y] with [q] nodes before it. *)
Lemma lookup_level fuel i pre x s1 :
  head_node s :: less_part e L = pre ++ x :: s1 -> (i < a_height x)%nat ->
  (List.length L < fuel)%nat ->
  exists pre' x' s1',
    head_node s :: less_part e L = pre' ++ x' :: s1' /\ (i < a_height x')%nat /\
    insert_while fuel s e i (a_ref x) (Z.of_nat (List.length pre))
    = Some (a_ref x', Z.of_nat (List.length pre')) /\
    ((fwd s (a_ref x') i = 0 /\ Forall (invisible i) (rest_part e L)) \/
     exists q y t,
       rest_part e L = q ++ y :: t /\ Forall (invisible i) q /\
       (i < a_height y)%nat /\ fwd s (a_ref x') i = a_ref y /\ a_ref y <> 0 /\
       elem s (a_ref y) = a_elem y /\
       wrap32 (Z.of_nat (List.length pre') + spn s (a_ref x') i)
       = Z.of_nat (List.length (less_part e L)) + Z.of_nat (List.length q) + 1).
Proof.
  intros HA Hx Hfuel.
  pose proof (less_part_length L e) as Hlen.
  pose proof (InvX_length_bound _ _ _ _ HE HI) as Hbound.
  destruct (walk_from s e (rest_part e L)
              (rest_part_not_less HE e L (inv_sorted _ _ _ _ HI))
              (head_node s :: less_part e L)
              (inv_search_chain s L F X HI e) (less_part_less e L)
              (inv_search_elem s L F X HI e) (inv_search_nonzero s L F X HI e)
              (inv_search_short HE s L F X HI e) fuel i pre x s1 HA Hx)
    as (pre' & x' & s1' & HA' & Hx' & Hinv & Hres); [cbn [List.length]; lia|].
  exists pre', x', s1'. split; [exact HA'|]. split; [exact Hx'|]. split; [exact Hres|].
  pose proof (inv_search_chain s L F X HI e) as Hc.
  rewrite HA', <- app_assoc in Hc. cbn [app] in Hc.
  destruct (chain_ok_at s pre' x' (s1' ++ rest_part e L) Hc i Hx') as [Hf Hs].
  rewrite fwd_of_app_invisible in Hf by assumption.
  rewrite dist_of_app_invisible in Hs by assumption.
  destruct (first_visible i (rest_part e L)) as [Hall | (q & y & t & HB & Hq & Hy)].
  - left. split; [|exact Hall]. rewrite Hf. now apply fwd_of_invisible.
  - right. exists q, y, t.
    assert (Hin : In y (rest_part e L)).
    { rewrite HB. apply in_or_app. right. now left. }
    assert (HinL : In y L).
    { rewrite (less_rest_split e L). apply in_or_app. now right. }
    pose proof (InvX_refs_nonzero _ _ _ _ HI) as Hnz.
    pose proof (inv_elem _ _ _ _ HI) as Hel.
    rewrite Forall_forall in Hnz, Hel.
    repeat split; try assumption.
    + rewrite Hf, HB. now apply fwd_of_first_visible.
    + now apply Hnz.
    + now apply Hel.
    + rewrite Hs, HB, dist_of_first_visible by assumption.
      apply (f_equal (@List.length anode)) in HA'.
      rewrite length_app in HA'. cbn [List.length] in HA'.
      rewrite wrap32_small.
      * lia.
      * apply (f_equal (@List.length anode)) in HB.
        rewrite length_app in HB. cbn [List.length] in HB.
        pose proof (f_equal (@List.length anode) (less_rest_split e L)) as HL.
        rewrite length_app in HL. lia.
Qed.

(** At the base level the first node not less than [e] is met. *)
Lemma lookup_base :
  Forall (invisible 0) (rest_part e L) -> rest_part e L = [].
Proof.
  intros Hall. destruct (rest_part e L) as [|d t] eqn:HB; [reflexivity|]. exfalso.
  assert (Hin : In d L).
  { rewrite (less_rest_split e L), HB. apply in_or_app. right. now left. }
  pose proof (inv_heights _ _ _ _ HI) as Hh. rewrite Forall_forall in Hh.
  specialize (Hh d Hin). apply Forall_inv in Hall. unfold invisible in Hall. lia.
Qed.

Lemma lookup_base_first q y t :
  rest_part e L = q ++ y :: t -> Forall (invisible 0) q -> q = [].
Proof.
  intros HB Hq. destruct q as [|d q]; [reflexivity|]. exfalso.
  assert (Hin : In d L).
  { rewrite (less_rest_split e L), HB. apply in_or_app. right. now left. }
  pose proof (inv_heights _ _ _ _ HI) as Hh. rewrite Forall_forall in Hh.
  specialize (Hh d Hin). apply Forall_inv in Hq. unfold invisible in Hq. lia.
Qed.

(** No node is equivalent to [e] when the first node not less than [e] is
    greater. *)
Lemma none_equal_all :
  none_equal e L -> Forall (fun y => equiv (a_elem y) e = false) L.
Proof.
  unfold none_equal. intros Hnone.
  rewrite (less_rest_split e L) at 1. apply Forall_app. split.
  - eapply Forall_impl; [|exact (less_part_less e L)].
    cbn. intros y Hy. unfold equiv. now rewrite Hy.
  - pose proof (inv_sorted _ _ _ _ HI) as Hs.
    rewrite (less_rest_split e L), map_app in Hs. apply sorted_app_r in Hs.
    pose proof (after_run_greater HE e _ Hs) as Hg.
    destruct (rest_part e L) as [|d t]; [constructor|].
    cbn [after_run] in Hg. rewrite Hnone in Hg.
    eapply Forall_impl; [|exact Hg].
    cbn. intros y Hy. unfold equiv. rewrite Hy. apply andb_false_r.
Qed.

Lemma met_is_equal q y t :
  rest_part e L = q ++ y :: t -> cmp e (a_elem y) = false ->
  nth_error (map a_ref L) (List.length (less_part e L) + List.length q) = Some (a_ref y) /\
  equiv (elem s (a_ref y)) e = true.
Proof.
  intros HB Hey. split.
  - rewrite (less_rest_split e L) at 1. rewrite HB, !map_app. cbn [map].
    rewrite app_assoc, nth_error_app2 by (rewrite length_app, !length_map; lia).
    rewrite length_app, !length_map, Nat.sub_diag. reflexivity.
  - assert (Hin : In y (rest_part e L)).
    { rewrite HB. apply in_or_app. right. now left. }
    assert (HinL : In y L).
    { rewrite (less_rest_split e L). apply in_or_app. now right. }
    pose proof (inv_elem _ _ _ _ HI) as Hel. rewrite Forall_forall in Hel.
    rewrite (Hel y HinL).
    pose proof (rest_part_not_less HE e L (inv_sorted _ _ _ _ HI)) as Hnl.
    rewrite Forall_forall in Hnl. unfold equiv. now rewrite (Hnl y Hin), Hey.
Qed.

End Lookup.

(** ** What [find(index)] returns *)

Section FindIndex.

Context {E : Elem}.
Hypothesis HE : ElemOK E.

Variable s : SkipList.
Variables (L : list anode) (F X : list Z).
Hypothesis HI : InvX s L F X.
Variable j : Z.

Lemma fi_nodup : NoDup (map a_ref (head_node s :: L)).
Proof.
  pose proof (inv_nodup _ _ _ _ HI) as Hnd.
  change (head (sl s) :: map a_ref L ++ F ++ X)
    with ((head (sl s) :: map a_ref L) ++ F ++ X) in Hnd.
  now apply NoDup_app_remove_r in Hnd.
Qed.

Lemma fi_is_head pre x suf :
  head_node s :: L = pre ++ x :: suf ->
  (a_ref x =? head (sl s)) = match pre with [] => true | _ :: _ => false end.
Proof.
  intros HC. destruct pre as [|h pre]; cbn [app] in HC.
  - injection HC as <- _. cbn. apply Z.eqb_refl.
  - destruct (Z.eqb_spec (a_ref x) (head (sl s))) as [Heq|]; [|reflexivity].
    exfalso.
    destruct (split_unique (head_node s :: L) [] (head_node s) L (h :: pre) x suf
                fi_nodup eq_refl HC) as (Hnil & _); [now rewrite Heq|].
    discriminate.
Qed.

Lemma fi_length pre x suf :
  head_node s :: L = pre ++ x :: suf ->
  (List.length pre + List.length suf)%nat = List.length L.
Proof.
  intros HC. apply (f_equal (@List.length anode)) in HC.
  rewrite length_app in HC. cbn [List.length] in HC. lia.
Qed.

Lemma find_index_while_spec i fuel : forall pre x suf,
  head_node s :: L = pre ++ x :: suf -> (i < a_height x)%nat ->
  Z.of_nat (List.length pre) <= j -> (List.length suf < fuel)%nat ->
  exists pre' x' suf',
    head_node s :: L = pre' ++ x' :: suf' /\ (i < a_height x')%nat /\
    Z.of_nat (List.length pre') <= j /\
    (fwd_of i suf' = 0 \/ j < Z.of_nat (List.length pre') + dist_of i suf') /\
    find_index_while fuel s j i (a_ref x) (Z.of_nat (List.length pre))
    = Some (if negb (fwd_of i suf' =? 0) && (Z.of_nat (List.length pre') =? j)
               && match pre' with [] => false | _ :: _ => true end
            then inl (mkIterator (a_ref x'))
            else inr (a_ref x', Z.of_nat (List.length pre'))).
Proof.
  pose proof (InvX_length_bound _ _ _ _ HE HI) as Hbound.
  induction fuel as [|fuel IH]; intros pre x suf HC Hx Hp Hfuel; [lia|].
  pose proof (inv_chain _ _ _ _ HI) as Hc. rewrite HC in Hc.
  destruct (chain_ok_at s pre x suf Hc i Hx) as [Hf Hs].
  pose proof (fi_length pre x suf HC) as Hlen.
  cbn [find_index_while]. rewrite Hf, Hs, (fi_is_head pre x suf HC).
  destruct (Z.eqb_spec (fwd_of i suf) 0) as [Hz|Hnz].
  - exists pre, x, suf. repeat split; try assumption; [now left|].
    rewrite Hz. reflexivity.
  - destruct (first_visible i suf) as [Hinv | (q & y & r & -> & Hq & Hy)].
    { exfalso. apply Hnz. now apply fwd_of_invisible. }
    rewrite dist_of_first_visible by assumption.
    rewrite length_app in Hlen, Hfuel. cbn [List.length] in Hlen, Hfuel.
    rewrite wrap32_small by lia.
    destruct (Z.leb_spec (Z.of_nat (List.length pre) + (Z.of_nat (List.length q) + 1)) j)
      as [Hle|Hgt].
    + rewrite fwd_of_first_visible by assumption.
      destruct (IH (pre ++ x :: q) y r) as (pre' & x' & suf' & HC' & Hx' & Hp' & Hstop & Hres).
      * rewrite HC, <- app_assoc. reflexivity.
      * exact Hy.
      * rewrite length_app. cbn [List.length]. lia.
      * lia.
      * exists pre', x', suf'. repeat split; try assumption.
        rewrite <- Hres. f_equal. rewrite length_app. cbn [List.length]. lia.
    + exists pre, x, (q ++ y :: r). repeat split; try assumption.
      * right. rewrite dist_of_first_visible by assumption. lia.
      * destruct (Z.eqb_spec (fwd_of i (q ++ y :: r)) 0) as [|_]; [contradiction|].
        cbn [negb andb]. destruct pre; destruct (Z.of_nat _ =? j); reflexivity.
Qed.

Lemma find_index_for_spec fuel : forall n pre x suf,
  head_node s :: L = pre ++ x :: suf -> (n <= a_height x)%nat ->
  Z.of_nat (List.length pre) <= j -> (List.length L < fuel)%nat ->
  exists it,
    find_index_for fuel s j n (a_ref x) (Z.of_nat (List.length pre)) = Some it /\
    (it = mkIterator 0 \/
     (1 <= j < Z.of_nat (List.length L) /\
      nth_error (map a_ref L) (Z.to_nat (j - 1)) = Some (node_ref it))) /\
    ((0 < n)%nat -> 1 <= j < Z.of_nat (List.length L) -> it <> mkIterator 0).
Proof.
  pose proof (InvX_refs_nonzero _ _ _ _ HI) as Hnz.
  induction n as [|i IH]; intros pre x suf HC Hn Hp Hfuel.
  - exists (mkIterator 0). cbn [find_index_for]. repeat split; [now left | lia].
  - cbn [find_index_for].
    pose proof (fi_length pre x suf HC) as Hlen.
    destruct (find_index_while_spec i fuel pre x suf HC)
      as (pre' & x' & suf' & HC' & Hx' & Hp' & Hstop & Hres); try lia.
    rewrite Hres. pose proof (fi_length pre' x' suf' HC') as Hlen'.
    assert (Hx'nz : pre' <> [] -> a_ref x' <> 0).
    { intros Hne. rewrite Forall_forall in Hnz. apply Hnz.
      destruct pre' as [|h pre']; [congruence|]. cbn [app] in HC'.
      injection HC' as _ ->. apply in_or_app. right. now left. }
    destruct (negb (fwd_of i suf' =? 0) && (Z.of_nat (List.length pre') =? j)
              && match pre' with [] => false | _ :: _ => true end) eqn:Hc.
    + apply andb_prop in Hc. destruct Hc as [Hc Hpre]. apply andb_prop in Hc.
      destruct Hc as [Hfw Heq]. apply Z.eqb_eq in Heq.
      apply negb_true_iff, Z.eqb_neq in Hfw.
      assert (Hsuf : suf' <> []) by (intros ->; now apply Hfw).
      assert (Hpne : pre' <> []) by (destruct pre'; [discriminate | congruence]).
      assert (Hrange : 1 <= j < Z.of_nat (List.length L)).
      { destruct pre'; [congruence|]. destruct suf'; [congruence|].
        cbn [List.length] in *. lia. }
      exists (mkIterator (a_ref x')). split; [reflexivity|]. split.
      * right. split; [exact Hrange|]. cbn [node_ref].
        destruct pre' as [|h pre']; [congruence|]. cbn [app] in HC'.
        injection HC' as _ ->. cbn [List.length] in Heq.
        replace (Z.to_nat (j - 1)) with (List.length (map a_ref pre') + 0)%nat
          by (rewrite length_map; lia).
        rewrite map_app. cbn [map]. rewrite nth_error_app2 by lia.
        replace (List.length (map a_ref pre') + 0 - List.length (map a_ref pre'))%nat
          with 0%nat by lia.
        reflexivity.
      * intros _ _ Habs. injection Habs as Habs. now apply Hx'nz.
    + destruct (IH pre' x' suf' HC') as (it & Hfor & Hit & Hsure); try lia.
      exists it. split; [exact Hfor|]. split; [exact Hit|].
      intros _ Hrange. destruct i as [|i]; [|apply Hsure; [lia | assumption]].
      exfalso.
      assert (Hh1 : Forall (fun y => (1 <= a_height y)%nat) suf').
      { pose proof (inv_heights _ _ _ _ HI) as Hh.
        assert (Hall : Forall (fun y => (1 <= a_height y)%nat) (head_node s :: L)).
        { constructor; [cbn; pose proof (inv_level_num _ _ _ _ HI); lia|].
          eapply Forall_impl; [|exact Hh]. cbn. intros; lia. }
        rewrite HC' in Hall. apply Forall_app in Hall. destruct Hall as [_ Hall].
        now apply Forall_inv_tail in Hall. }
      rewrite (fwd_of_level0 _ Hh1) in Hstop, Hc.
      destruct suf' as [|y suf'].
      * cbn [List.length] in Hlen'. lia.
      * cbn [dist_of] in Hstop.
        pose proof (Forall_inv Hh1) as Hy. cbn beta in Hy.
        destruct (Nat.ltb_spec 0 (a_height y)) as [_|]; [|lia].
        assert (Hynz : a_ref y <> 0).
        { rewrite Forall_forall in Hnz. apply Hnz.
          destruct pre' as [|h pre']; cbn [app] in HC'; injection HC' as _ HL.
          - rewrite HL. now left.
          - rewrite HL. apply in_or_app. right. right. now left. }
        destruct Hstop as [|Hstop]; [contradiction|].
        destruct (Z.eqb_spec (a_ref y) 0) as [|_]; [contradiction|].
        assert (Heq : Z.of_nat (List.length pre') = j) by lia.
        rewrite Heq, Z.eqb_refl in Hc. cbn [negb andb] in Hc.
        destruct pre'; [cbn [List.length] in Heq; lia | discriminate].
Qed.

End FindIndex.

Section FindIndexTheorem.

Context {E : Elem}.
Hypothesis HE : ElemOK E.

(** X2. [find(index)] is on the node of rank [index] for every index below the
    length, and is [end()] for index 0 and from the length on, the length
    itself included. *)
Theorem find_index_spec (s : SkipList) :
  reachable s ->
  exists nodes,
    forall fuel j, (List.length nodes < fuel)%nat -> 0 <= j < 2 ^ 32 ->
      to_list fuel s = Some nodes /\
      (1 <= j < Z.of_nat (List.length nodes) ->
       exists r, nth_error nodes (Z.to_nat (j - 1)) = Some r /\
                 find_index fuel j s = Some (mkIterator r)) /\
      (j = 0 \/ Z.of_nat (List.length nodes) <= j ->
       find_index fuel j s = Some (end_ s)).
Proof.
  intros Hr. destruct (reachable_inv HE s Hr) as (L & F & HI).
  exists (map a_ref L). intros fuel j Hfuel Hj. rewrite length_map in *.
  split; [now apply (to_list_inv s L F [])|].
  destruct (find_index_for_spec HE s L F [] HI j fuel (level_num (sl s)) []
              (head_node s) L eq_refl)
    as (it & Hfor & Hit & Hsure); try (cbn; lia).
  unfold find_index. cbn [List.length Z.of_nat a_ref head_node] in Hfor. rewrite Hfor.
  pose proof (inv_level_num _ _ _ _ HI) as Hlv.
  split.
  - intros Hrange. destruct Hit as [->|[_ Hnth]].
    + exfalso. apply Hsure; [lia | assumption | reflexivity].
    + exists (node_ref it). split; [exact Hnth|]. now destruct it.
  - intros Hout. rewrite (end_inv s L F [] HI).
    destruct Hit as [->|[Hrange _]]; [reflexivity | lia].
Qed.

End FindIndexTheorem.

(** ** What [insert] and [erase] write to the header *)

Section HeaderFacts.

Context {E : Elem}.

Lemma alloc_node_layout (s : SkipList) :
  layout (snd (alloc_node s)) = layout s /\ sl (snd (alloc_node s)) = sl s.
Proof.
  unfold alloc_node.
  destruct (negb (free_list (mem_header_ s) =? 0)); [split; reflexivity|].
  destruct (wrap64 _ <=? _); split; reflexivity.
Qed.

Lemma insert_splice_header new lvl index update (s : SkipList) :
  mem_header_ (insert_splice new lvl index update s) = mem_header_ s.
Proof.
  unfold insert_splice. generalize lvl at 1. intros n.
  induction n as [|n IH]; [now rewrite for_range_empty by lia|].
  rewrite for_range_last by lia. exact IH.
Qed.

(** The header after the body of [insert]: the level count is raised to
    the level drawn when that is larger, the length is one more, [tail]
    may have moved, and nothing else is written. *)
Lemma insert_link_header fuel lvl e new (s s' : SkipList) b :
  insert_link fuel lvl e new s = Some (b, s') ->
  b = true /\
  layout s' = layout s /\
  alloc_size (mem_header_ s') = alloc_size (mem_header_ s) /\
  free_list (mem_header_ s') = free_list (mem_header_ s) /\
  level_num (sl s') = Nat.max (level_num (sl s)) lvl /\
  length (sl s') = wrap32 (length (sl s) + 1).
Proof.
  unfold insert_link.
  destruct (insert_for fuel s e _ _ _ _) as [[index update]|]; [|discriminate].
  pose proof (insert_raise_spec s lvl index update) as Hraise.
  destruct (insert_raise lvl index update s) as [[index2 update2] s2].
  destruct Hraise as (_ & _ & _ & _ & _ & _ & _ & Hh2).
  pose proof (insert_bump_spec lvl update2 (insert_splice new lvl index2 update2 s2)) as Hb.
  cbn zeta in Hb. destruct Hb as (_ & _ & _ & _ & _ & Hh4).
  pose proof (insert_splice_header new lvl index2 update2 s2) as Hh3.
  intros Hs. injection Hs as <- Hs. rewrite <- Hs. split; [reflexivity|].
  set (s4 := insert_bump lvl update2 (insert_splice new lvl index2 update2 s2)) in *.
  assert (H4 : mem_header_ s4
               = if (level_num (sl s) <? lvl)%nat
                 then mem_header_ (set_level_num lvl s) else mem_header_ s)
    by now rewrite Hh4, Hh3, Hh2.
  clearbody s4.
  assert (Hmax : level_num (sl_info (mem_header_ s4)) = Nat.max (level_num (sl s)) lvl).
  { rewrite H4. unfold sl in *.
    destruct (Nat.ltb_spec (level_num (sl_info (mem_header_ s))) lvl); hdr_simpl; lia. }
  unfold layout, sl in *.
  destruct (update2 0%nat =? head (sl_info (mem_header_ s4)));
    match goal with
    | |- context [negb (?c =? 0)] => destruct (negb (c =? 0))
    end; hdr_simpl; rewrite ?Hmax; rewrite H4;
    destruct (level_num (sl_info (mem_header_ s)) <? lvl)%nat; hdr_simpl;
    repeat split; reflexivity.
Qed.

(** [insert] leaves the layout fields alone; a successful call adds one to
    the length and raises the level count to the level drawn when that is
    larger. *)
Lemma insert_header fuel lvl e (s s' : SkipList) b :
  insert fuel lvl e s = Some (b, s') ->
  layout s' = layout s /\
  if b then level_num (sl s') = Nat.max (level_num (sl s)) lvl /\
            length (sl s') = wrap32 (length (sl s) + 1)
  else sl s' = sl s.
Proof.
  unfold insert. pose proof (alloc_node_layout s) as [Ha Hsl].
  destruct (alloc_node s) as [new s1] eqn:Hal. cbn [snd] in Ha, Hsl.
  destruct (new =? 0) eqn:Hnew.
  - intros H. injection H as <- <-. split; assumption.
  - intros H. apply insert_link_header in H.
    destruct H as (-> & Hl & _ & _ & Hlv & Hlen).
    split; [congruence|]. rewrite Hlv, Hlen, Hsl. split; reflexivity.
Qed.

Lemma del_unlink_header d update (s : SkipList) :
  mem_header_ (del_unlink d update s) = mem_header_ s.
Proof.
  unfold del_unlink. generalize (level_num (sl s)). intros n.
  induction n as [|n IH]; [now rewrite for_range_empty by lia|].
  rewrite for_range_last by lia.
  match goal with
  | |- context [if ?c then _ else _] => destruct c
  end; exact IH.
Qed.

Lemma del_shrink_header : forall n (s : SkipList),
  (1 <= level_num (sl s))%nat ->
  (level_num (sl s) <= S n)%nat ->
  mem_header_ (del_shrink n s)
  = mem_header_ (set_level_num (level_num (sl (del_shrink n s))) s) /\
  (1 <= level_num (sl (del_shrink n s)))%nat /\
  (forall r j, fwd (del_shrink n s) r j = fwd s r j) /\
  top_level_used (del_shrink n s).
Proof.
  intros n s H1 Hn.
  destruct (del_shrink_spec s n Hn H1) as (Hf & _ & _ & _ & _ & Hh & Hlv & _ & Htop).
  split; [exact Hh|]. split; [lia|]. split; [exact Hf|].
  unfold top_level_used. destruct Htop as [Htop|Htop]; [now left|]. right.
  rewrite Hf.
  replace (head (sl (del_shrink n s))) with (head (sl s)); [exact Htop|].
  unfold sl. rewrite Hh. reflexivity.
Qed.

(** The header after the writes of a successful [del_first_of]. *)
Lemma del_node_header d update (s : SkipList) :
  (1 <= level_num (sl s))%nat ->
  let s' := free_node d (del_node d update s) in
  layout s' = layout s /\
  alloc_size (mem_header_ s') = alloc_size (mem_header_ s) /\
  free_list (mem_header_ s') = d /\
  (1 <= level_num (sl s') <= level_num (sl s))%nat /\
  top_level_used s' /\
  length (sl s') = wrap32 (length (sl s) - 1).
Proof.
  intros H1. unfold del_node. cbn zeta.
  pose proof (del_unlink_header d update s) as Hu.
  set (s1 := del_unlink d update s) in *. clearbody s1.
  set (s2 := if negb (fwd s1 d 0 =? 0)
             then set_backword (fwd s1 d 0) (bwd s1 d) s1
             else set_tail (bwd s1 d) s1).
  assert (H2 : layout s2 = layout s /\
               alloc_size (mem_header_ s2) = alloc_size (mem_header_ s) /\
               level_num (sl s2) = level_num (sl s) /\
               length (sl s2) = length (sl s)).
  { unfold s2, layout, sl. destruct (negb (fwd s1 d 0 =? 0)); hdr_simpl; rewrite Hu;
      repeat split; reflexivity. }
  clearbody s2. destruct H2 as (Hl2 & Ha2 & Hn2 & Hlen2).
  destruct (del_shrink_header (level_num (sl s2)) s2) as (Hh & Hge & Hf & Htop);
    [lia | lia |].
  pose proof (del_shrink_spec s2 (level_num (sl s2)) ltac:(lia) ltac:(lia)) as Hspec.
  cbn zeta in Hspec. destruct Hspec as (_ & _ & _ & _ & _ & _ & Hle & _).
  set (s3 := del_shrink (level_num (sl s2)) s2) in *. clearbody s3.
  assert (Hhead : head (sl s3) = head (sl s2)) by (unfold sl; now rewrite Hh).
  assert (Hfree : forall v r j, fwd (free_node d (set_length v s3)) r j = fwd s3 r j).
  { intros v r j. unfold fwd, free_node, set_length, set_next, set_free_list,
      with_sl_info, with_header, with_node. cbn [deref].
    destruct (Z.eqb_spec r d) as [->|_]; reflexivity. }
  assert (Hfields : layout s3 = layout s2 /\
                    alloc_size (mem_header_ s3) = alloc_size (mem_header_ s2) /\
                    length (sl s3) = length (sl s2)).
  { unfold layout, sl. rewrite Hh. repeat split; reflexivity. }
  destruct Hfields as (Hl3 & Ha3 & Hlen3).
  split; [|split; [|split; [|split; [|split]]]].
  - unfold layout in *. hdr_simpl. congruence.
  - hdr_simpl. congruence.
  - reflexivity.
  - unfold sl in *. hdr_simpl. lia.
  - unfold top_level_used in *.
    replace (level_num (sl (free_node d (set_length (wrap32 (length (sl s3) - 1)) s3))))
      with (level_num (sl s3)) by reflexivity.
    replace (head (sl (free_node d (set_length (wrap32 (length (sl s3) - 1)) s3))))
      with (head (sl s3)) by reflexivity.
    rewrite Hfree. exact Htop.
  - unfold sl in *. hdr_simpl. congruence.
Qed.

Lemma del_first_of_header fuel e (s s' : SkipList) b :
  (1 <= level_num (sl s))%nat ->
  del_first_of fuel e s = Some (b, s') ->
  if b then
    layout s' = layout s /\
    alloc_size (mem_header_ s') = alloc_size (mem_header_ s) /\
    (1 <= level_num (sl s') <= level_num (sl s))%nat /\
    top_level_used s' /\
    length (sl s') = wrap32 (length (sl s) - 1)
  else s' = s.
Proof.
  intros H1. unfold del_first_of.
  destruct (del_for fuel s e _ _ _) as [[node update]|]; [|discriminate].
  destruct (negb (fwd s node 0 =? 0)).
  - destruct (negb (cmp e _) && negb (cmp _ e)).
    + intros H. injection H as <- <-.
      destruct (del_node_header (fwd s node 0) update s H1) as (Hl & Ha & _ & Hn & Ht & Hlen).
      repeat split; try assumption; lia.
    + intros H. injection H as <- <-. reflexivity.
  - intros H. injection H as <- <-. reflexivity.
Qed.

Lemma erase_loop_header fuel e : forall n (s s' : SkipList) count count',
  (1 <= level_num (sl s))%nat ->
  erase_loop fuel n e s count = Some (count', s') ->
  layout s' = layout s /\
  alloc_size (mem_header_ s') = alloc_size (mem_header_ s) /\
  (1 <= level_num (sl s') <= level_num (sl s))%nat /\
  (top_level_used s -> top_level_used s').
Proof.
  induction n as [|n IH]; intros s s' count count' H1 H; [discriminate|].
  cbn [erase_loop] in H.
  destruct (del_first_of fuel e s) as [[[|] s1]|] eqn:Hd; [| |discriminate].
  - pose proof (del_first_of_header fuel e s s1 true H1 Hd) as (Hl & Ha & Hn & Ht & _).
    destruct (IH s1 s' _ _ ltac:(lia) H) as (Hl' & Ha' & Hn' & Ht').
    repeat split; try congruence; try lia. intros _. now apply Ht'.
  - pose proof (del_first_of_header fuel e s s1 false H1 Hd) as Heq. cbn in Heq.
    injection H as _ <-. subst s1. repeat split; try lia. tauto.
Qed.

Lemma erase_header fuel e (s s' : SkipList) count :
  (1 <= level_num (sl s))%nat ->
  erase fuel e s = Some (count, s') ->
  layout s' = layout s /\
  alloc_size (mem_header_ s') = alloc_size (mem_header_ s) /\
  (1 <= level_num (sl s') <= level_num (sl s))%nat /\
  (top_level_used s -> top_level_used s').
Proof. unfold erase. apply erase_loop_header. Qed.

End HeaderFacts.

(** ** What every state reached from a raw [init] satisfies *)

Section Reached.

Context {E : Elem}.
Hypothesis HE : ElemOK E.

Lemma reachable_from_trans (s0 s1 s2 : SkipList) :
  reachable_from s0 s1 -> reachable_from s1 s2 -> reachable_from s0 s2.
Proof.
  intros H01 H12. induction H12 as [|s fuel lvl e b s' _ IH Hlvl Hins
                                     |s fuel e count s' _ IH Her].
  - exact H01.
  - exact (from_insert s0 s fuel lvl e b s' IH Hlvl Hins).
  - exact (from_erase s0 s fuel e count s' IH Her).
Qed.

Lemma reachable_from_reachable (s0 s : SkipList) :
  reachable s0 -> reachable_from s0 s -> reachable s.
Proof.
  intros H0 H. induction H as [|s fuel lvl e b s' _ IH Hlvl Hins
                                |s fuel e count s' _ IH Her].
  - exact H0.
  - exact (reach_insert s fuel lvl e b s' IH Hlvl Hins).
  - exact (reach_erase s fuel e count s' IH Her).
Qed.

(** A reachable state is reached from the result of some raw [init]. *)
Lemma reachable_split (s : SkipList) :
  reachable s ->
  exists buf size max_sl_len s0,
    fits_uint32 size /\
    init (Some buf) size max_sl_len true = InitOk s0 /\
    reachable_from s0 s.
Proof.
  induction 1 as [buf size n s Hcap Hinit
                 | s fuel lvl e b s' _ IH Hlvl Hins
                 | s fuel e count s' _ IH Her].
  - exists buf, size, n, s. repeat split; try assumption. constructor.
  - destruct IH as (buf & size & n & s0 & Hcap & Hinit & Hfrom).
    exists buf, size, n, s0. repeat split; try assumption.
    exact (from_insert s0 s fuel lvl e b s' Hfrom Hlvl Hins).
  - destruct IH as (buf & size & n & s0 & Hcap & Hinit & Hfrom).
    exists buf, size, n, s0. repeat split; try assumption.
    exact (from_erase s0 s fuel e count s' Hfrom Her).
Qed.

Lemma is_slot_grow (s s' : SkipList) r :
  alloc_size (mem_header_ s) <= alloc_size (mem_header_ s') ->
  is_slot s r -> is_slot s' r.
Proof.
  intros Hle (k & Hk & Hr & Hin). exists k. repeat split; try assumption. lia.
Qed.

Lemma layout_head (s s' : SkipList) : layout s' = layout s -> head (sl s') = head (sl s).
Proof. unfold layout, sl. intros H. now injection H. Qed.

Lemma layout_mem_size (s s' : SkipList) :
  layout s' = layout s -> mem_size (mem_header_ s') = mem_size (mem_header_ s).
Proof. unfold layout. intros H. now injection H. Qed.

Lemma in_less_part e (L : list anode) x : In x (less_part e L) -> In x L.
Proof. intros H. rewrite (less_rest_split e L). apply in_or_app. now left. Qed.

Lemma in_rest_part e (L : list anode) x : In x (rest_part e L) -> In x L.
Proof. intros H. rewrite (less_rest_split e L). apply in_or_app. now right. Qed.

Lemma in_eq_run e (R : list anode) x : In x (eq_run e R) -> In x R.
Proof. intros H. rewrite (run_split e R). apply in_or_app. now left. Qed.

Lemma in_after_run e (R : list anode) x : In x (after_run e R) -> In x R.
Proof. intros H. rewrite (run_split e R). apply in_or_app. now right. Qed.

(** One successful [insert]: the invariant of the new state, with the
    slot that it took. *)
Lemma insert_step (s s' : SkipList) L F fuel lvl e :
  Inv s L F ->
  Forall (is_slot s) (head (sl s) :: map a_ref L ++ F) ->
  top_level_used s ->
  (1 <= lvl <= MAX_LEVEL_NUM)%nat ->
  insert fuel lvl e s = Some (true, s') ->
  exists new F',
    Inv s' (less_part e L ++ mkANode new e lvl :: rest_part e L) F' /\
    layout s' = layout s /\
    Forall (is_slot s')
           (head (sl s') :: map a_ref (less_part e L ++ mkANode new e lvl :: rest_part e L)
                      ++ F') /\
    top_level_used s' /\
    ((F = new :: F' /\ alloc_size (mem_header_ s') = alloc_size (mem_header_ s)) \/
     (F = [] /\ F' = [] /\ new = alloc_size (mem_header_ s) /\
      alloc_size (mem_header_ s') = alloc_size (mem_header_ s) + mem_node_size)).
Proof.
  intros HI Hslots Htop Hlvl Hins.
  pose proof (insert_mono fuel (Nat.max fuel (S (List.length L))) lvl e s _ Hins) as Hbig.
  specialize (Hbig ltac:(lia)).
  destruct (insert_spec HE s L F lvl e (Nat.max fuel (S (List.length L))) HI Hlvl)
    as [(Hfail & _) | (new & s'' & F' & Hok & HI' & Hnew)]; [lia | congruence |].
  rewrite Hok in Hbig. injection Hbig as <-.
  destruct (insert_header fuel lvl e s s'' true Hins) as (Hlay & Hlv & Hlen).
  pose proof (layout_head _ _ Hlay) as Hhead.
  pose proof (node_size_pos HE) as Hnp.
  pose proof (inv_alloc _ _ _ _ HI) as Ha. pose proof (inv_alloc _ _ _ _ HI') as Ha'.
  assert (HlenL : List.length (less_part e L ++ mkANode new e lvl :: rest_part e L)
                  = S (List.length L)).
  { rewrite (less_rest_split e L) at 3. rewrite !length_app. cbn [List.length]. lia. }
  rewrite HlenL in Ha'. cbn [List.length] in Ha, Ha'.
  assert (Hcase :
    (F = new :: F' /\ alloc_size (mem_header_ s'') = alloc_size (mem_header_ s)) \/
    (F = [] /\ F' = [] /\ new = alloc_size (mem_header_ s) /\
     alloc_size (mem_header_ s'') = alloc_size (mem_header_ s) + mem_node_size)).
  { destruct Hnew as [HF | (HF & HF' & Hn & _)].
    - left. split; [exact HF|]. rewrite Ha, Ha', HF. cbn [List.length]. lia.
    - right. repeat split; try assumption. rewrite Ha, Ha', HF, HF'. cbn [List.length]. lia. }
  assert (Hgrow : alloc_size (mem_header_ s) <= alloc_size (mem_header_ s''))
    by (destruct Hcase as [(_ & ->) | (_ & _ & _ & ->)]; lia).
  assert (Hnewslot : is_slot s'' new).
  { destruct Hcase as [(HF & _) | (HF & _ & Hn & Hal)].
    - apply (is_slot_grow s s'' new Hgrow).
      rewrite Forall_forall in Hslots. apply Hslots. right.
      apply in_or_app. right. rewrite HF. now left.
    - exists (Z.of_nat (1 + List.length L)). split; [lia|]. split.
      + rewrite Hn, Ha, HF. cbn [List.length]. lia.
      + rewrite Hal, Hn. lia. }
  exists new, F'. split; [exact HI'|]. split; [exact Hlay|].
  split; [|split; [|exact Hcase]].
  - rewrite Forall_forall in *. intros r Hr.
    rewrite Hhead in Hr.
    destruct Hr as [<- | Hr].
    + apply (is_slot_grow s s'' _ Hgrow). apply Hslots. now left.
    + apply in_app_or in Hr. destruct Hr as [Hr | Hr].
      * rewrite map_app in Hr. cbn [map a_ref] in Hr.
        apply in_app_or in Hr. destruct Hr as [Hr | [<- | Hr]].
        -- apply (is_slot_grow s s'' _ Hgrow). apply Hslots. right.
           apply in_or_app. left.
           apply in_map_iff in Hr. destruct Hr as (x & <- & Hx).
           apply in_map. now apply (in_less_part e).
        -- exact Hnewslot.
        -- apply (is_slot_grow s s'' _ Hgrow). apply Hslots. right.
           apply in_or_app. left.
           apply in_map_iff in Hr. destruct Hr as (x & <- & Hx).
           apply in_map. now apply (in_rest_part e).
      * apply (is_slot_grow s s'' _ Hgrow). apply Hslots. right.
        apply in_or_app. right.
        destruct Hcase as [(HF & _) | (_ & HF' & _)].
        -- rewrite HF. now right.
        -- rewrite HF' in Hr. destruct Hr.
  - unfold top_level_used.
    destruct (Nat.eq_dec (level_num (sl s'')) 1) as [H1|H1]; [now left|]. right.
    pose proof (inv_chain _ _ _ _ HI') as [Hlinks _].
    pose proof (inv_level_num _ _ _ _ HI') as Hrange'.
    destruct (Hlinks (level_num (sl s'') - 1)%nat) as [Hf _]; [cbn; lia|].
    cbn [head_node a_ref] in Hf. rewrite Hf.
    pose proof (InvX_refs_nonzero _ _ _ _ HI') as Hnz'.
    destruct (Nat.le_gt_cases (level_num (sl s)) lvl) as [Hle|Hgt].
    + apply (fwd_of_visible _ _ (mkANode new e lvl) Hnz').
      * apply in_or_app. right. now left.
      * cbn [a_height]. lia.
    + assert (Hsame : level_num (sl s'') = level_num (sl s)) by lia.
      destruct Htop as [Hone | Hused]; [lia|].
      pose proof (inv_chain _ _ _ _ HI) as [Hlinks0 _].
      pose proof (inv_level_num _ _ _ _ HI) as Hrange.
      destruct (Hlinks0 (level_num (sl s) - 1)%nat) as [Hf0 _]; [cbn; lia|].
      cbn [head_node a_ref] in Hf0. rewrite Hf0 in Hused.
      destruct (fwd_of_nonzero _ _ Hused) as (b0 & Hb0 & _ & Hh0).
      apply (fwd_of_visible _ _ b0 Hnz').
      * rewrite (less_rest_split e L) in Hb0. apply in_app_or in Hb0.
        apply in_or_app. destruct Hb0; [now left | right; now right].
      * lia.
Qed.

(** One [erase]. *)
Lemma erase_step (s s' : SkipList) L F fuel e count :
  Inv s L F ->
  Forall (is_slot s) (head (sl s) :: map a_ref L ++ F) ->
  top_level_used s ->
  erase fuel e s = Some (count, s') ->
  count = Z.of_nat (List.length (eq_run e (rest_part e L))) /\
  Inv s' (less_part e L ++ after_run e (rest_part e L))
         (rev (map a_ref (eq_run e (rest_part e L))) ++ F) /\
  layout s' = layout s /\
  alloc_size (mem_header_ s') = alloc_size (mem_header_ s) /\
  Forall (is_slot s')
         (head (sl s') :: map a_ref (less_part e L ++ after_run e (rest_part e L))
                    ++ rev (map a_ref (eq_run e (rest_part e L))) ++ F) /\
  top_level_used s'.
Proof.
  intros HI Hslots Htop Her.
  pose proof (erase_mono fuel (Nat.max fuel (S (List.length L))) e s _ Her) as Hbig.
  specialize (Hbig ltac:(lia)).
  destruct (erase_spec HE s L F e (Nat.max fuel (S (List.length L))) HI)
    as (s'' & Hok & HI'); [lia|].
  rewrite Hok in Hbig. injection Hbig as <- <-.
  pose proof (inv_level_num _ _ _ _ HI) as Hrange.
  destruct (erase_header fuel e s s'' _ ltac:(lia) Her) as (Hlay & Hal & _ & Ht).
  pose proof (layout_head _ _ Hlay) as Hhead.
  split; [reflexivity|]. split; [exact HI'|]. split; [exact Hlay|]. split; [exact Hal|].
  split; [|now apply Ht].
  rewrite Forall_forall in *. intros r Hr.
  apply (is_slot_grow s s'' r); [lia|]. apply Hslots.
  rewrite Hhead in Hr. destruct Hr as [<- | Hr]; [now left|]. right.
  apply in_app_or in Hr. destruct Hr as [Hr | Hr].
  - apply in_or_app. left.
    apply in_map_iff in Hr. destruct Hr as (x & <- & Hx). apply in_map.
    apply in_app_or in Hx. destruct Hx as [Hx | Hx].
    + now apply (in_less_part e).
    + apply (in_rest_part e). now apply (in_after_run e).
  - apply in_app_or in Hr. destruct Hr as [Hr | Hr].
    + apply in_or_app. left. apply in_rev in Hr.
      apply in_map_iff in Hr. destruct Hr as (x & <- & Hx). apply in_map.
      apply (in_rest_part e). now apply (in_eq_run e).
    + apply in_or_app. now right.
Qed.

(** What a raw [init] establishes. *)
Lemma init_reached buf size max_sl_len (s0 : SkipList) :
  fits_uint32 size ->
  init (Some buf) size max_sl_len true = InitOk s0 ->
  Inv s0 [] [] /\
  Forall (is_slot s0) (head (sl s0) :: map a_ref [] ++ []) /\
  top_level_used s0 /\
  layout s0 = (MAGIC_NUM, size, mem_header_size, mem_node_size, mem_header_size).
Proof.
  intros Hcap Hinit.
  pose proof (init_spec HE buf size max_sl_len s0 Hcap Hinit) as HI.
  destruct (init_raw_ok HE buf size max_sl_len s0 Hinit) as (_ & _ & Hh & _).
  split; [exact HI|]. unfold is_slot, top_level_used, layout, sl. rewrite Hh.
  cbn [map app mem_header_ sl_info head level_num alloc_size magic_num mem_size
       header_size node_size].
  repeat split.
  - constructor; [|constructor]. exists 0. lia.
  - now left.
Qed.

(** The invariant, the layout, the slots and the use of the top level are
    kept along every run of [insert] and [erase]. *)
Lemma reachable_from_inv (s0 s : SkipList) L0 F0 :
  Inv s0 L0 F0 ->
  Forall (is_slot s0) (head (sl s0) :: map a_ref L0 ++ F0) ->
  top_level_used s0 ->
  reachable_from s0 s ->
  exists L F,
    Inv s L F /\ layout s = layout s0 /\
    Forall (is_slot s) (head (sl s) :: map a_ref L ++ F) /\
    top_level_used s.
Proof.
  intros HI0 Hs0 Ht0 Hfrom.
  induction Hfrom as [|s fuel lvl e b s' _ IH Hlvl Hins
                       |s fuel e count s' _ IH Her].
  - exists L0, F0. split; [exact HI0|]. split; [reflexivity|]. split; assumption.
  - destruct IH as (L & F & HI & Hlay & Hslots & Htop).
    destruct b.
    + destruct (insert_step s s' L F fuel lvl e HI Hslots Htop Hlvl Hins)
        as (new & F' & HI' & Hlay' & Hslots' & Htop' & _).
      eexists _, F'. split; [exact HI'|]. split; [congruence|]. split; assumption.
    + pose proof (insert_mono fuel (Nat.max fuel (S (List.length L))) lvl e s _ Hins) as Hbig.
      specialize (Hbig ltac:(lia)).
      destruct (insert_spec HE s L F lvl e (Nat.max fuel (S (List.length L))) HI Hlvl)
        as [(Hfail & _) | (new & s'' & F' & Hok & _)]; [lia | | congruence].
      rewrite Hfail in Hbig. injection Hbig as <-.
      exists L, F. split; [exact HI|]. split; [exact Hlay|]. split; assumption.
  - destruct IH as (L & F & HI & Hlay & Hslots & Htop).
    destruct (erase_step s s' L F fuel e count HI Hslots Htop Her)
      as (_ & HI' & Hlay' & _ & Hslots' & Htop').
    eexists _, _. split; [exact HI'|]. split; [congruence|]. split; assumption.
Qed.

(** The same for the states reachable from any raw [init]. *)
Lemma reachable_full (s : SkipList) :
  reachable s ->
  exists L F,
    Inv s L F /\
    Forall (is_slot s) (head (sl s) :: map a_ref L ++ F) /\
    top_level_used s /\
    magic_num (mem_header_ s) = MAGIC_NUM /\
    header_size (mem_header_ s) = mem_header_size /\
    head (sl s) = mem_header_size.
Proof.
  intros Hr. destruct (reachable_split s Hr) as (buf & size & n & s0 & Hcap & Hinit & Hfrom).
  destruct (init_reached buf size n s0 Hcap Hinit) as (HI0 & Hs0 & Ht0 & Hl0).
  destruct (reachable_from_inv s0 s [] [] HI0 Hs0 Ht0 Hfrom) as (L & F & HI & Hlay & Hsl & Ht).
  exists L, F. rewrite Hl0 in Hlay. unfold layout, sl in *.
  injection Hlay as Hm _ Hh _ Hd.
  split; [exact HI|]. split; [exact Hsl|]. split; [exact Ht|]. repeat split; assumption.
Qed.

End Reached.

(** ** [get_index] and [find(element)] side by side *)

Section LookupJoint.

Context {E : Elem}.
Hypothesis HE : ElemOK E.

Variable s : SkipList.
Variables (L : list anode) (F X : list Z).
Hypothesis HI : InvX s L F X.
Variable e : T.

(** The two searches stop at the same node. *)
Lemma lookup_for_spec fuel : forall n pre x s1,
  head_node s :: less_part e L = pre ++ x :: s1 -> (n <= a_height x)%nat ->
  (List.length L < fuel)%nat ->
  exists r it,
    get_index_for fuel s e n (a_ref x) (Z.of_nat (List.length pre)) = Some r /\
    find_for fuel s e n (a_ref x) = Some it /\
    ((r = 0 /\ it = mkIterator 0 /\ ((0 < n)%nat -> none_equal e L)) \/
     exists q y t,
       rest_part e L = q ++ y :: t /\ cmp e (a_elem y) = false /\
       r = Z.of_nat (List.length (less_part e L)) + Z.of_nat (List.length q) + 1 /\
       it = mkIterator (a_ref y)).
Proof.
  induction n as [|i IH]; intros pre x s1 HA Hn Hfuel.
  - exists 0, (mkIterator 0). split; [reflexivity|]. split; [reflexivity|].
    left. repeat split. lia.
  - cbn [get_index_for find_for]. rewrite get_index_while_insert_while.
    rewrite (find_while_insert_while s e i fuel (a_ref x) (Z.of_nat (List.length pre))).
    destruct (lookup_level HE s L F X HI e fuel i pre x s1 HA)
      as (pre' & x' & s1' & HA' & Hx' & Hres & Hnext); try lia.
    rewrite Hres.
    destruct (IH pre' x' s1' HA') as (r & it & Hget & Hfind & Hr); try lia.
    assert (Hdown : (0 < i)%nat \/ i = 0%nat) by lia.
    assert (Hcont : none_equal e L ->
              exists r0 it0,
                get_index_for fuel s e i (a_ref x') (Z.of_nat (List.length pre')) = Some r0 /\
                find_for fuel s e i (a_ref x') = Some it0 /\
                ((r0 = 0 /\ it0 = mkIterator 0 /\ ((0 < S i)%nat -> none_equal e L)) \/
                 exists q y t,
                   rest_part e L = q ++ y :: t /\ cmp e (a_elem y) = false /\
                   r0 = Z.of_nat (List.length (less_part e L))
                        + Z.of_nat (List.length q) + 1 /\
                   it0 = mkIterator (a_ref y))).
    { intros Hnone. exists r, it. split; [exact Hget|]. split; [exact Hfind|].
      destruct Hr as [(-> & -> & _) | Hr]; [|now right].
      left. repeat split. intros _. exact Hnone. }
    destruct Hnext as [(Hz & Hall) | (q & y & t & HB & Hq & Hy & Hf & Hynz & Hye & Hix)].
    + rewrite Hz, Z.eqb_refl.
      destruct Hdown as [Hi | ->].
      * exists r, it. split; [exact Hget|]. split; [exact Hfind|].
        destruct Hr as [(-> & -> & Hnone) | Hr]; [|now right].
        left. repeat split. intros _. now apply Hnone.
      * apply Hcont. unfold none_equal.
        now rewrite (lookup_base s L F X HI e Hall).
    + rewrite Hf. destruct (Z.eqb_spec (a_ref y) 0) as [|_]; [contradiction|].
      rewrite Hye.
      destruct (cmp e (a_elem y)) eqn:Hey; cbn [negb].
      * destruct Hdown as [Hi | ->].
        -- exists r, it. split; [exact Hget|]. split; [exact Hfind|].
           destruct Hr as [(-> & -> & Hnone) | Hr]; [|now right].
           left. repeat split. intros _. now apply Hnone.
        -- apply Hcont. unfold none_equal.
           rewrite HB, (lookup_base_first s L F X HI e q y t HB Hq). exact Hey.
      * eexists _, _. split; [reflexivity|]. split; [reflexivity|].
        right. exists q, y, t. repeat split; assumption.
Qed.

Lemma sorted_later (l1 l2 : list anode) a b :
  sorted (map a_elem (l1 ++ a :: l2)) -> In b l2 -> cmp (a_elem b) (a_elem a) = false.
Proof.
  intros Hs Hb. rewrite map_app in Hs. apply sorted_app_r in Hs. cbn [map] in Hs.
  inversion Hs as [|? ? Hall _]. rewrite Forall_forall in Hall.
  apply Hall. now apply in_map.
Qed.

(** The nodes from the first one not less than [e] up to one that [e] is
    not less than are all equivalent to [e]. *)
Lemma run_until_met q y t :
  rest_part e L = q ++ y :: t -> cmp e (a_elem y) = false ->
  Forall (fun d => cmp e (a_elem d) = false) (q ++ [y]).
Proof.
  intros HB Hey. apply Forall_app. split; [|constructor; [exact Hey | constructor]].
  pose proof (inv_sorted _ _ _ _ HI) as Hs.
  rewrite (less_rest_split e L), HB in Hs.
  rewrite Forall_forall. intros d Hd.
  apply in_split in Hd. destruct Hd as (q1 & q2 & ->).
  destruct (cmp e (a_elem d)) eqn:Hed; [|reflexivity]. exfalso.
  assert (Hyd : cmp (a_elem y) (a_elem d) = false).
  { apply (sorted_later (less_part e L ++ q1) (q2 ++ y :: t)).
    - rewrite <- !app_assoc in *. cbn [app] in *. exact Hs.
    - apply in_or_app. right. now left. }
  destruct (cmp_cotrans HE e (a_elem y) (a_elem d) Hed) as [H|H]; congruence.
Qed.

Lemma eq_run_prefix (p t : list anode) :
  Forall (fun d => cmp e (a_elem d) = false) p ->
  eq_run e (p ++ t) = p ++ eq_run e t.
Proof.
  induction 1 as [|d p Hd _ IH]; [reflexivity|].
  cbn [app eq_run]. rewrite Hd. now f_equal.
Qed.

Lemma filter_less :
  filter (fun x => cmp (a_elem x) e) L = less_part e L.
Proof.
  rewrite (less_rest_split e L) at 1. rewrite filter_app.
  pose proof (less_part_less e L) as Hl.
  pose proof (rest_part_not_less HE e L (inv_sorted _ _ _ _ HI)) as Hr.
  replace (filter (fun x => cmp (a_elem x) e) (rest_part e L)) with (@nil anode).
  - rewrite app_nil_r. induction Hl as [|x l Hx _ IH]; [reflexivity|].
    cbn [filter]. rewrite Hx. now f_equal.
  - induction Hr as [|x l Hx _ IH]; [reflexivity|].
    cbn [filter]. now rewrite Hx.
Qed.

(** What the two lookups return in a state that satisfies the invariant:
    nothing when no node is equivalent to [e], and otherwise the rank and
    the offset of one and the same node of the run of nodes equivalent to
    [e]. *)
Lemma lookup_inv fuel :
  (List.length L < fuel)%nat ->
  exists r it,
    get_index fuel e s = Some r /\ find fuel e s = Some it /\
    ((r = 0 /\ it = mkIterator 0 /\
      Forall (fun y => equiv (a_elem y) e = false) L) \/
     exists q y t,
       rest_part e L = q ++ y :: t /\
       Forall (fun d => cmp e (a_elem d) = false) (q ++ [y]) /\
       r = Z.of_nat (List.length (less_part e L)) + Z.of_nat (List.length q) + 1 /\
       it = mkIterator (a_ref y)).
Proof.
  intros Hfuel. pose proof (inv_level_num _ _ _ _ HI) as Hlv.
  destruct (lookup_for_spec fuel (level_num (sl s)) [] (head_node s) (less_part e L) eq_refl)
    as (r & it & Hget & Hfind & Hres); try (cbn; lia).
  exists r, it. split; [exact Hget|]. split; [exact Hfind|].
  destruct Hres as [(-> & -> & Hnone) | (q & y & t & HB & Hey & -> & ->)].
  - left. repeat split.
    exact (none_equal_all HE s L F X HI e (Hnone ltac:(lia))).
  - right. exists q, y, t. repeat split; try assumption.
    exact (run_until_met q y t HB Hey).
Qed.

(** The rank returned lies within the run of nodes equivalent to [e]. *)
Lemma lookup_rank_bounds q y t :
  rest_part e L = q ++ y :: t ->
  Forall (fun d => cmp e (a_elem d) = false) (q ++ [y]) ->
  (List.length q < List.length (filter (fun x => equiv (a_elem x) e) L))%nat /\
  List.length (less_part e L) = List.length (filter (fun x => cmp (a_elem x) e) L) /\
  nth_error (map a_ref L) (List.length (less_part e L) + List.length q) = Some (a_ref y) /\
  a_ref y <> 0 /\
  equiv (elem s (a_ref y)) e = true.
Proof.
  intros HB Hrun.
  assert (Hey : cmp e (a_elem y) = false).
  { apply Forall_app in Hrun. destruct Hrun as [_ Hy]. now apply Forall_inv in Hy. }
  destruct (met_is_equal HE s L F X HI e q y t HB Hey) as [Hnth Heq].
  split; [|split; [|split; [|split]]]; try assumption.
  - rewrite (filter_removed HE e L (inv_sorted _ _ _ _ HI)), HB.
    replace (q ++ y :: t) with ((q ++ [y]) ++ t) by (rewrite <- app_assoc; reflexivity).
    rewrite (eq_run_prefix _ _ Hrun), !length_app. cbn [List.length]. lia.
  - now rewrite filter_less.
  - pose proof (InvX_refs_nonzero _ _ _ _ HI) as Hnz. rewrite Forall_forall in Hnz.
    apply Hnz. rewrite (less_rest_split e L), HB.
    apply in_or_app. right. apply in_or_app. right. now left.
Qed.

End LookupJoint.

Section EraseAbsent.

Context {E : Elem}.
Hypothesis HE : ElemOK E.

(** [erase] of an element that no node is equivalent to. *)
Lemma erase_absent_inv (s : SkipList) L F e fuel :
  Inv s L F ->
  Forall (fun y => equiv (a_elem y) e = false) L ->
  (List.length L < fuel)%nat ->
  del_first_of fuel e s = Some (false, s) /\ erase fuel e s = Some (0, s).
Proof.
  intros HI Habs Hfuel.
  assert (Hdel : del_first_of fuel e s = Some (false, s)).
  { pose proof (del_first_of_spec HE s L F e fuel HI Hfuel) as Hd.
    destruct (rest_part e L) as [|d B'] eqn:Hrest; [assumption|].
    pose proof (rest_part_head e L d B' Hrest) as Hdl.
    assert (Hde : equiv (a_elem d) e = false).
    { rewrite Forall_forall in Habs. apply Habs. rewrite (less_rest_split e L), Hrest.
      apply in_or_app. right. now left. }
    unfold equiv in Hde. rewrite Hdl in Hde. cbn [negb andb] in Hde.
    destruct (cmp e (a_elem d)); [assumption | discriminate]. }
  split; [exact Hdel|].
  unfold erase. destruct fuel as [|fuel]; [lia|]. cbn [erase_loop]. now rewrite Hdel.
Qed.

End EraseAbsent.

Section LookupTheorems.

Context {E : Elem}.
Hypothesis HE : ElemOK E.

(** [get_index] is 0 exactly when no element of the list is equivalent to
    the one looked up, and is otherwise the rank of a node that holds an
    equivalent element. *)
Theorem get_index_spec (s : SkipList) :
  reachable s ->
  exists nodes,
    forall fuel e, (List.length nodes < fuel)%nat ->
      to_list fuel s = Some nodes /\
      exists r, get_index fuel e s = Some r /\
        ((r = 0 /\ Forall (fun y => equiv (elem s y) e = false) nodes) \/
         (1 <= r /\ exists y, nth_error nodes (Z.to_nat (r - 1)) = Some y /\
                              equiv (elem s y) e = true)).
Proof.
  intros Hr. destruct (reachable_inv HE s Hr) as (L & F & HI).
  exists (map a_ref L). intros fuel e Hfuel. rewrite length_map in Hfuel.
  split; [now apply (to_list_inv s L F [])|].
  destruct (lookup_inv HE s L F [] HI e fuel Hfuel) as (r & it & Hget & _ & Hres).
  exists r. split; [exact Hget|].
  destruct Hres as [(-> & _ & Habs) | (q & y & t & HB & Hrun & -> & _)].
  - left. split; [reflexivity|].
    now apply (forall_refs s L F [] (fun t => equiv t e = false) HI).
  - right. split; [lia|]. exists (a_ref y).
    destruct (lookup_rank_bounds HE s L F [] HI e q y t HB Hrun) as (_ & _ & Hnth & _ & Heq).
    split; [|exact Heq]. rewrite <- Hnth. f_equal. lia.
Qed.

(** X1. [find(element)] is [end()] exactly when no element of the list is
    equivalent to the one looked up, and is otherwise on a node that holds an
    equivalent element. *)
Theorem find_spec (s : SkipList) :
  reachable s ->
  exists nodes,
    forall fuel e, (List.length nodes < fuel)%nat ->
      to_list fuel s = Some nodes /\
      exists it, find fuel e s = Some it /\
        ((it = end_ s /\ Forall (fun y => equiv (elem s y) e = false) nodes) \/
         (In (node_ref it) nodes /\ equiv (elem s (node_ref it)) e = true)).
Proof.
  intros Hr. destruct (reachable_inv HE s Hr) as (L & F & HI).
  exists (map a_ref L). intros fuel e Hfuel. rewrite length_map in Hfuel.
  split; [now apply (to_list_inv s L F [])|].
  destruct (lookup_inv HE s L F [] HI e fuel Hfuel) as (r & it & _ & Hfind & Hres).
  exists it. split; [exact Hfind|].
  destruct Hres as [(_ & -> & Habs) | (q & y & t & HB & Hrun & _ & ->)].
  - left. split; [now rewrite (end_inv s L F [] HI)|].
    now apply (forall_refs s L F [] (fun t => equiv t e = false) HI).
  - right. cbn [node_ref].
    destruct (lookup_rank_bounds HE s L F [] HI e q y t HB Hrun) as (_ & _ & Hnth & _ & Heq).
    split; [|exact Heq]. eapply nth_error_In. exact Hnth.
Qed.

End LookupTheorems.

(** * The properties of the specification *)

Section Claims.

Context {E : Elem}.
Hypothesis HE : ElemOK E.

(** C4. In every state reachable from a raw initialisation by inserts and
    erases, a non-null forward link of an active level leads exactly
    [span] base-level positions further, and the spans crossed on any
    search path from the head sentinel add up to the 1-based rank of the
    node reached. *)
Theorem span_counts_base_positions (s : SkipList) :
  reachable s ->
  exists nodes,
    (forall fuel, (List.length nodes < fuel)%nat -> to_list fuel s = Some nodes) /\
    length (sl s) = Z.of_nat (List.length nodes) /\
    NoDup (head (sl s) :: nodes) /\
    (forall k r i,
       nth_error (head (sl s) :: nodes) k = Some r ->
       (i < level_num (sl s))%nat -> fwd s r i <> 0 ->
       1 <= spn s r i /\
       nth_error (head (sl s) :: nodes) (k + Z.to_nat (spn s r i))
       = Some (fwd s r i)) /\
    (forall r total,
       search_path s r total ->
       0 <= total /\
       nth_error (head (sl s) :: nodes) (Z.to_nat total) = Some r).
Proof.
  intros Hr. destruct (reachable_inv HE s Hr) as (L & F & HI).
  exists (map a_ref L). split; [|split; [|split; [|split]]].
  - intros fuel Hfuel. rewrite length_map in Hfuel. now apply (to_list_inv s L F []).
  - rewrite length_map. exact (inv_length _ _ _ _ HI).
  - pose proof (inv_nodup _ _ _ _ HI) as Hnd.
    change (head (sl s) :: map a_ref L ++ F ++ [])
      with ((head (sl s) :: map a_ref L) ++ F ++ []) in Hnd.
    now apply NoDup_app_remove_r in Hnd.
  - intros k r i. now apply (link_advances s L F []).
  - intros r total. now apply (path_rank s L F []).
Qed.

(** C5. In every reachable state the walk from [begin()] to [end()] along
    the level-0 forward links visits the elements in non-decreasing
    order, and each backward link points to the previous node of that
    walk, or is null at the first node; [tail] is its last node. *)
Theorem base_level_sorted_and_doubly_linked (s : SkipList) :
  reachable s ->
  exists nodes,
    (forall fuel, (List.length nodes < fuel)%nat -> to_list fuel s = Some nodes) /\
    sorted (map (elem s) nodes) /\
    (forall pre r suf, nodes = pre ++ r :: suf ->
       bwd s r = last pre 0 /\ fwd s r 0 = hd 0 suf) /\
    node_ref (begin_ s) = hd 0 nodes /\
    tail (sl s) = last nodes 0 /\
    end_ s = mkIterator 0.
Proof.
  intros Hr. destruct (reachable_inv HE s Hr) as (L & F & HI).
  pose proof HI as HI0. inv_facts HI.
  assert (Hh1 : Forall (fun x => (1 <= a_height x)%nat) L).
  { eapply Forall_impl; [|exact I_heights]. cbn. intros; lia. }
  exists (map a_ref L). split; [|split; [|split; [|split; [|split]]]].
  - intros fuel Hfuel. rewrite length_map in Hfuel. now apply (to_list_inv s L F []).
  - rewrite (elems_inv s L F [] HI0). exact I_sorted.
  - intros pre r suf Heq.
    destruct (refs_split L pre r suf Heq) as (l1 & x & l2 & -> & <- & <- & <-).
    split.
    + exact (back_ok_at s l1 l2 x 0 I_back).
    + assert (Hc : chain_ok s ((head_node s :: l1) ++ x :: l2)) by exact I_chain.
      destruct (chain_ok_at s _ x l2 Hc 0%nat) as [Hf _].
      { apply Forall_app in Hh1. destruct Hh1 as [_ Hx]. apply Forall_inv in Hx. lia. }
      rewrite Hf, fwd_of_level0.
      * destruct l2; reflexivity.
      * apply Forall_app in Hh1. destruct Hh1 as [_ Hx]. now apply Forall_inv_tail in Hx.
  - unfold begin_. cbn [node_ref].
    destruct I_chain as [Hhead _]. destruct (Hhead 0%nat) as [Hf _]; [cbn; lia|].
    cbn [a_ref head_node] in Hf. rewrite Hf, fwd_of_level0 by assumption.
    destruct L; reflexivity.
  - exact I_tail.
  - exact (end_inv s L F [] HI0).
Qed.

(** C10. In a reachable state that holds no element equal to [e],
    [erase(e)] returns 0 and hands back the very same state: nothing in
    the header or in any node has been written. *)
Theorem erase_absent_writes_nothing (s : SkipList) (e : T) :
  reachable s ->
  exists nodes,
    forall fuel, (List.length nodes < fuel)%nat ->
      to_list fuel s = Some nodes /\
      (Forall (fun r => equiv (elem s r) e = false) nodes ->
       del_first_of fuel e s = Some (false, s) /\
       erase fuel e s = Some (0, s)).
Proof.
  intros Hr. destruct (reachable_inv HE s Hr) as (L & F & HI).
  exists (map a_ref L). intros fuel Hfuel. rewrite length_map in Hfuel.
  split; [now apply (to_list_inv s L F [])|].
  intros Habs.
  apply (forall_refs s L F [] (fun t => equiv t e = false) HI) in Habs.
  assert (Hdel : del_first_of fuel e s = Some (false, s)).
  { pose proof (del_first_of_spec HE s L F e fuel HI Hfuel) as Hd.
    destruct (rest_part e L) as [|d B'] eqn:Hrest; [assumption|].
    pose proof (rest_part_head e L d B' Hrest) as Hdl.
    assert (Hde : equiv (a_elem d) e = false).
    { rewrite Forall_forall in Habs. apply Habs. rewrite (less_rest_split e L), Hrest.
      apply in_or_app. right. now left. }
    unfold equiv in Hde. rewrite Hdl in Hde. cbn [negb andb] in Hde.
    destruct (cmp e (a_elem d)); [assumption | discriminate]. }
  split; [exact Hdel|].
  unfold erase. destruct fuel as [|fuel]; [lia|]. cbn [erase_loop]. now rewrite Hdel.
Qed.

End Claims.

Section MoreClaims.

Context {E : Elem}.
Hypothesis HE : ElemOK E.

Lemma forall_part_refs (s : SkipList) L F X (P : T -> Prop) (l : list anode) :
  InvX s L F X -> (forall x, In x l -> In x L) ->
  Forall (fun x => P (a_elem x)) l ->
  Forall (fun r => P (elem s r)) (map a_ref l).
Proof.
  intros HI Hsub H. pose proof (inv_elem _ _ _ _ HI) as He.
  rewrite Forall_map. rewrite !Forall_forall in *. intros x Hx.
  rewrite (He x (Hsub x Hx)). now apply H.
Qed.

(** What one call of [del_first_of] does to the walk. *)
Lemma del_first_of_walk (s : SkipList) L F e fuel :
  Inv s L F -> (List.length L < fuel)%nat ->
  exists b s1,
    del_first_of fuel e s = Some (b, s1) /\
    if b then
      exists pre d suf,
        map a_ref L = pre ++ d :: suf /\
        Forall (fun r => equiv (elem s r) e = false) pre /\
        equiv (elem s d) e = true /\
        to_list fuel s1 = Some (pre ++ suf)
    else
      s1 = s /\ Forall (fun r => equiv (elem s r) e = false) (map a_ref L).
Proof.
  intros HI Hfuel.
  pose proof (del_first_of_spec HE s L F e fuel HI Hfuel) as Hd.
  pose proof (less_rest_split e L) as HL.
  pose proof (inv_sorted _ _ _ _ HI) as Hs.
  assert (Hless : Forall (fun x => equiv (a_elem x) e = false) (less_part e L)).
  { eapply Forall_impl; [|apply less_part_less]. cbn. intros x Hx.
    unfold equiv. now rewrite Hx. }
  destruct (rest_part e L) as [|d B'] eqn:Hrest.
  - exists false, s. split; [assumption|]. split; [reflexivity|].
    rewrite app_nil_r in HL. rewrite HL at 1.
    apply (forall_part_refs s L F [] (fun t => equiv t e = false)); try assumption.
    intros x Hx. now rewrite HL.
  - pose proof (rest_part_head e L d B' Hrest) as Hdl.
    destruct (cmp e (a_elem d)) eqn:Hed.
    + exists false, s. split; [assumption|]. split; [reflexivity|].
      apply (forall_part_refs s L F [] (fun t => equiv t e = false)); try auto.
      rewrite HL at 1. apply Forall_app. split; [assumption|].
      pose proof (after_run_greater HE e (d :: B')) as Hgt.
      cbn [after_run] in Hgt. rewrite Hed in Hgt.
      eapply Forall_impl; [|apply Hgt].
      * cbn. intros x Hx. unfold equiv. rewrite Hx. now rewrite andb_false_r.
      * rewrite HL, map_app in Hs. now apply sorted_app_r in Hs.
    + destruct Hd as (s1 & Hdel & HI1).
      exists true, s1. split; [assumption|].
      exists (map a_ref (less_part e L)), (a_ref d), (map a_ref B').
      split; [|split; [|split]].
      * rewrite HL at 1. rewrite map_app. reflexivity.
      * apply (forall_part_refs s L F [] (fun t => equiv t e = false)); try assumption.
        intros x Hx. rewrite HL. apply in_or_app. now left.
      * pose proof (inv_elem _ _ _ _ HI) as He. rewrite Forall_forall in He.
        unfold elem in *. rewrite (He d).
        -- unfold equiv. now rewrite Hdl, Hed.
        -- rewrite HL. apply in_or_app. right. now left.
      * rewrite <- map_app. apply (to_list_inv s1 _ _ [] fuel HI1).
        rewrite HL in Hfuel. rewrite !length_app in *. cbn [List.length] in Hfuel. lia.
Qed.

(** C8. In a reachable state [erase(e)] removes every node whose element
    is equal to [e] and no other, returns their number (0 when there is
    none) and lowers the length by it; each [del_first_of] it runs takes
    the foremost of them. *)
Theorem erase_removes_every_occurrence (s : SkipList) (e : T) :
  reachable s ->
  exists nodes,
    forall fuel, (List.length nodes < fuel)%nat ->
      to_list fuel s = Some nodes /\
      (exists s',
         erase fuel e s
         = Some (Z.of_nat (List.length (filter (fun r => equiv (elem s r) e) nodes)), s') /\
         to_list fuel s' = Some (filter (fun r => negb (equiv (elem s r) e)) nodes) /\
         Forall (fun r => elem s' r = elem s r /\ equiv (elem s' r) e = false)
                (filter (fun r => negb (equiv (elem s r) e)) nodes) /\
         length (sl s')
         = length (sl s)
           - Z.of_nat (List.length (filter (fun r => equiv (elem s r) e) nodes))) /\
      (exists b s1,
         del_first_of fuel e s = Some (b, s1) /\
         if b then
           exists pre d suf,
             nodes = pre ++ d :: suf /\
             Forall (fun r => equiv (elem s r) e = false) pre /\
             equiv (elem s d) e = true /\
             to_list fuel s1 = Some (pre ++ suf)
         else
           s1 = s /\ Forall (fun r => equiv (elem s r) e = false) nodes).
Proof.
  intros Hr. destruct (reachable_inv HE s Hr) as (L & F & HI).
  exists (map a_ref L). intros fuel Hfuel. rewrite length_map in Hfuel.
  split; [now apply (to_list_inv s L F [])|]. split.
  - destruct (erase_spec HE s L F e fuel HI Hfuel) as (s' & Her & HI').
    pose proof (inv_sorted _ _ _ _ HI) as Hs.
    pose proof (erase_abs_length e L) as Hlen.
    rewrite (filter_refs s L F [] (fun t => equiv t e) HI).
    rewrite (filter_refs s L F [] (fun t => negb (equiv t e)) HI).
    rewrite (filter_removed HE e L Hs), (filter_kept HE e L Hs), !length_map.
    exists s'. split; [exact Her|]. split; [|split].
    + apply (to_list_inv s' _ _ [] fuel HI'). lia.
    + pose proof (inv_elem _ _ _ _ HI') as He'. pose proof (inv_elem _ _ _ _ HI) as He.
      pose proof (erase_abs_apart HE e L Hs) as Hap.
      rewrite Forall_map. rewrite !Forall_forall in *. intros x Hx.
      rewrite (He' x Hx), (He x (erase_abs_in e L x Hx)). split; [reflexivity|].
      now apply Hap.
    + rewrite (inv_length _ _ _ _ HI'), (inv_length _ _ _ _ HI). lia.
  - exact (del_first_of_walk s L F e fuel HI Hfuel).
Qed.

(** C9. After a raw initialisation, inserts that all succeed, and the
    erase of every inserted element, the structure is empty again, with
    one level, and its free list chains exactly as many slots as were
    inserted. *)
Theorem insert_erase_round_trip buf size max_sl_len (s0 : SkipList)
        (l : list (nat * T)) (es : list T) bs s1 fuel :
  fits_uint32 size ->
  init (Some buf) size max_sl_len true = InitOk s0 ->
  Forall (fun p => (1 <= fst p <= MAX_LEVEL_NUM)%nat) l ->
  (List.length l < fuel)%nat ->
  insert_all fuel l s0 = Some (bs, s1) ->
  Forall (fun b => b = true) bs ->
  (forall e, In e (map snd l) -> In e es) ->
  exists cs s2 slots,
    erase_all fuel es s1 = Some (cs, s2) /\
    length (sl s2) = 0 /\
    level_num (sl s2) = 1%nat /\
    to_list fuel s2 = Some [] /\
    free_slots fuel s2 = Some slots /\
    List.length slots = List.length l /\
    NoDup slots /\
    Forall (fun r => 0 < r < alloc_size (mem_header_ s2)) slots.
Proof.
  intros Hcap Hinit Hlv Hfuel Hall Hbs Hes.
  pose proof (init_spec HE buf size max_sl_len s0 Hcap Hinit) as HI0.
  destruct (insert_all_true HE fuel l s0 [] bs s1 HI0 Hall Hbs Hlv)
    as (L1 & HI1 & Hlen1 & Hin1 & _); [cbn [List.length]; lia|].
  cbn [List.length] in Hlen1.
  destruct (erase_all_spec HE fuel es s1 L1 [] HI1)
    as (cs & s2 & L' & F' & Her & HI2 & Hcount & Hin2); [lia|].
  assert (HL' : L' = []).
  { destruct L' as [|x L']; [reflexivity|]. exfalso.
    destruct (Hin2 x (or_introl eq_refl)) as [Hx Hne].
    destruct (Hin1 x Hx) as [[]|Hx'].
    specialize (Hne (a_elem x) (Hes _ Hx')).
    rewrite (equiv_refl HE) in Hne. discriminate. }
  subst L'. cbn [List.length] in Hcount.
  exists cs, s2, F'. split; [exact Her|].
  inv_facts HI2.
  split; [exact I_length|]. split; [now apply I_empty|].
  split; [apply (to_list_inv s2 [] F' [] fuel HI2); cbn; lia|].
  split; [apply (free_slots_inv s2 [] F' [] fuel HI2); lia|].
  split; [lia|]. split.
  - cbn [map app] in I_nodup. apply NoDup_cons_iff in I_nodup.
    destruct I_nodup as [_ Hnd]. now rewrite app_nil_r in Hnd.
  - cbn [map app] in I_range. apply Forall_inv_tail in I_range.
    now rewrite app_nil_r in I_range.
Qed.

(** Where [insert] puts the new node: behind the nodes that are less than
    [e] and in front of all the others. *)
Lemma insert_position (s : SkipList) lvl e :
  reachable s -> (1 <= lvl <= MAX_LEVEL_NUM)%nat ->
  exists nodes,
    forall fuel s', (List.length nodes < fuel)%nat ->
      to_list fuel s = Some nodes /\
      (insert fuel lvl e s = Some (true, s') ->
       exists before new after,
         nodes = before ++ after /\
         to_list (S fuel) s' = Some (before ++ new :: after) /\
         Forall (fun r => cmp (elem s r) e = true) before /\
         Forall (fun r => cmp (elem s r) e = false) after /\
         elem s' new = e /\ ~ In new nodes /\
         Forall (fun r => elem s' r = elem s r) nodes /\
         length (sl s') = length (sl s) + 1).
Proof.
  intros Hr Hlvl. destruct (reachable_inv HE s Hr) as (L & F & HI).
  exists (map a_ref L). intros fuel s' Hfuel. rewrite length_map in Hfuel.
  split; [now apply (to_list_inv s L F [])|]. intros Hins.
  destruct (insert_spec HE s L F lvl e fuel HI Hlvl Hfuel)
    as [(Hfail & _) | (new & s2 & F' & Hok & HI' & _)]; [congruence|].
  rewrite Hok in Hins. injection Hins as ->.
  pose proof (less_rest_split e L) as HL.
  pose proof (InvX_length_bound _ _ _ _ HE HI') as Hbound.
  pose proof (insert_abs_length e L (mkANode new e lvl)) as Hlen.
  exists (map a_ref (less_part e L)), new, (map a_ref (rest_part e L)).
  split; [|split; [|split; [|split; [|split; [|split; [|split]]]]]].
  - rewrite <- map_app. now rewrite <- HL.
  - change (map a_ref (less_part e L) ++ new :: map a_ref (rest_part e L))
      with (map a_ref (less_part e L) ++ map a_ref (mkANode new e lvl :: rest_part e L)).
    rewrite <- map_app. apply (to_list_inv s' _ _ [] (S fuel) HI'). lia.
  - apply (forall_part_refs s L F [] (fun t => cmp t e = true)); try assumption.
    + intros x Hx. rewrite HL. apply in_or_app. now left.
    + apply less_part_less.
  - apply (forall_part_refs s L F [] (fun t => cmp t e = false)); try assumption.
    + intros x Hx. rewrite HL. apply in_or_app. now right.
    + apply (rest_part_not_less HE). exact (inv_sorted _ _ _ _ HI).
  - pose proof (inv_elem _ _ _ _ HI') as He. apply Forall_app in He.
    destruct He as [_ He]. apply Forall_inv in He. exact He.
  - pose proof (inv_nodup _ _ _ _ HI') as Hnd.
    apply NoDup_cons_iff in Hnd. destruct Hnd as [_ Hnd].
    apply NoDup_app_remove_r in Hnd. rewrite map_app in Hnd. cbn [map a_ref] in Hnd.
    apply NoDup_remove_2 in Hnd. rewrite HL at 1. now rewrite map_app.
  - pose proof (inv_elem _ _ _ _ HI') as He'. pose proof (inv_elem _ _ _ _ HI) as He.
    rewrite Forall_map. rewrite !Forall_forall in *. intros x Hx.
    rewrite (He x Hx). apply He'.
    rewrite HL in Hx. apply in_app_or in Hx. apply in_or_app.
    destruct Hx as [Hx|Hx]; [now left | right; now right].
  - rewrite (inv_length _ _ _ _ HI'), (inv_length _ _ _ _ HI), Hlen. lia.
Qed.

End MoreClaims.

(** * Further properties of the code *)

(** ** Lookups *)

Section LookupProperties.

Context {E : Elem}.
Hypothesis HE : ElemOK E.

(** X3. [get_index] and [find(element)] stop at the same node: either both
    report that nothing was found, or the cursor of [find] is on the node
    whose rank [get_index] returns. *)
Theorem get_index_find_agree (s : SkipList) :
  reachable s ->
  exists nodes,
    forall fuel e, (List.length nodes < fuel)%nat ->
      to_list fuel s = Some nodes /\
      exists r it,
        get_index fuel e s = Some r /\ find fuel e s = Some it /\
        ((r = 0 /\ it = end_ s) \/
         (1 <= r /\ nth_error nodes (Z.to_nat (r - 1)) = Some (node_ref it))).
Proof.
  intros Hr. destruct (reachable_inv HE s Hr) as (L & F & HI).
  exists (map a_ref L). intros fuel e Hfuel. rewrite length_map in Hfuel.
  split; [now apply (to_list_inv s L F [])|].
  destruct (lookup_inv HE s L F [] HI e fuel Hfuel) as (r & it & Hget & Hfind & Hres).
  exists r, it. split; [exact Hget|]. split; [exact Hfind|].
  destruct Hres as [(-> & -> & _) | (q & y & t & HB & Hrun & -> & ->)].
  - left. split; [reflexivity|]. now rewrite (end_inv s L F [] HI).
  - right. split; [lia|]. cbn [node_ref].
    destruct (lookup_rank_bounds HE s L F [] HI e q y t HB Hrun) as (_ & _ & Hnth & _).
    rewrite <- Hnth. f_equal. lia.
Qed.

(** X4. The rank that [get_index] returns lies within the run of elements
    equivalent to the one looked up: it is 0 when there is none, and otherwise
    more than the number of smaller elements and at most that number plus the
    number of equivalent ones. With a single equivalent element it is the
    exact rank. *)
Theorem get_index_within_run (s : SkipList) :
  reachable s ->
  exists nodes,
    forall fuel e, (List.length nodes < fuel)%nat ->
      to_list fuel s = Some nodes /\
      exists r,
        get_index fuel e s = Some r /\
        let smaller := List.length (filter (fun x => cmp (elem s x) e) nodes) in
        let equal := List.length (filter (fun x => equiv (elem s x) e) nodes) in
        if (equal =? 0)%nat then r = 0
        else Z.of_nat smaller + 1 <= r <= Z.of_nat smaller + Z.of_nat equal.
Proof.
  intros Hr. destruct (reachable_inv HE s Hr) as (L & F & HI).
  exists (map a_ref L). intros fuel e Hfuel. rewrite length_map in Hfuel.
  split; [now apply (to_list_inv s L F [])|].
  destruct (lookup_inv HE s L F [] HI e fuel Hfuel) as (r & it & Hget & _ & Hres).
  exists r. split; [exact Hget|]. cbn zeta.
  rewrite (filter_refs s L F [] (fun t => cmp t e) HI).
  rewrite (filter_refs s L F [] (fun t => equiv t e) HI).
  rewrite !length_map.
  destruct Hres as [(-> & _ & Habs) | (q & y & t & HB & Hrun & -> & _)].
  - assert (Hnil : forall l : list anode,
              Forall (fun y => equiv (a_elem y) e = false) l ->
              filter (fun x => equiv (a_elem x) e) l = []).
    { induction 1 as [|x l Hx _ IH]; [reflexivity|]. cbn [filter]. now rewrite Hx. }
    rewrite (Hnil L Habs). reflexivity.
  - destruct (lookup_rank_bounds HE s L F [] HI e q y t HB Hrun) as (Hq & Hless & _).
    rewrite <- Hless.
    destruct (Nat.eqb_spec (List.length (filter (fun x => equiv (a_elem x) e) L)) 0); lia.
Qed.

(** X6. An element that has just been inserted is found: [get_index] returns a
    rank between 1 and the length, and [find] a cursor other than [end()] on
    an element equivalent to it. *)
Theorem insert_then_found (s s' : SkipList) lvl e fuel :
  reachable s -> (1 <= lvl <= MAX_LEVEL_NUM)%nat ->
  insert fuel lvl e s = Some (true, s') ->
  forall fuel', length (sl s') < Z.of_nat fuel' ->
    exists r it,
      get_index fuel' e s' = Some r /\ 1 <= r <= length (sl s') /\
      find fuel' e s' = Some it /\ it <> end_ s' /\
      equiv (iter_get s' it) e = true.
Proof.
  intros Hr Hlvl Hins fuel' Hfuel.
  assert (Hr' : reachable s') by exact (reach_insert s fuel lvl e true s' Hr Hlvl Hins).
  destruct (reachable_inv HE s' Hr') as (L & F & HI).
  pose proof (inv_length _ _ _ _ HI) as Hlen. rewrite Hlen in *.
  destruct (lookup_inv HE s' L F [] HI e fuel' ltac:(lia)) as (r & it & Hget & Hfind & Hres).
  exists r, it.
  destruct Hres as [(-> & -> & Habs) | (q & y & t & HB & Hrun & -> & ->)].
  - exfalso.
    (* the new node is in the list *)
    destruct (reachable_inv HE s Hr) as (L0 & F0 & HI0).
    pose proof (insert_mono fuel (Nat.max fuel (S (List.length L0))) lvl e s _ Hins) as Hbig.
    specialize (Hbig ltac:(lia)).
    destruct (insert_spec HE s L0 F0 lvl e (Nat.max fuel (S (List.length L0))) HI0 Hlvl)
      as [(Hfail & _) | (new & s'' & F' & Hok & HI' & _)]; [lia | congruence |].
    rewrite Hok in Hbig. injection Hbig as <-.
    assert (Hrefs : map a_ref L
                    = map a_ref (less_part e L0 ++ mkANode new e lvl :: rest_part e L0)).
    { assert (Hl0 : List.length (less_part e L0 ++ mkANode new e lvl :: rest_part e L0)
                    = S (List.length L0)).
      { rewrite (less_rest_split e L0) at 3. rewrite !length_app. cbn [List.length]. lia. }
      pose proof (to_list_inv s'' L F [] (S (S (List.length L + List.length L0))) HI
                    ltac:(lia)) as H1.
      pose proof (to_list_inv s'' _ F' [] (S (S (List.length L + List.length L0))) HI'
                    ltac:(lia)) as H2.
      rewrite H1 in H2. now injection H2. }
    assert (Hin : In new (map a_ref L)).
    { rewrite Hrefs, map_app. apply in_or_app. right. now left. }
    apply in_map_iff in Hin. destruct Hin as (x & Hx & HxL).
    pose proof (inv_elem _ _ _ _ HI) as Hel. pose proof (inv_elem _ _ _ _ HI') as Hel'.
    rewrite Forall_forall in Hel, Hel', Habs.
    specialize (Hel x HxL). specialize (Habs x HxL).
    specialize (Hel' (mkANode new e lvl) ltac:(apply in_or_app; right; now left)).
    cbn [a_ref a_elem] in Hel'. rewrite Hx, Hel' in Hel. rewrite <- Hel in Habs.
    unfold equiv in Habs. rewrite (cmp_irrefl HE) in Habs. discriminate.
  - destruct (lookup_rank_bounds HE s' L F [] HI e q y t HB Hrun)
      as (_ & _ & Hnth & Hynz & Heq).
    split; [exact Hget|]. split.
    + split; [lia|].
      assert (Hsome : nth_error (map a_ref L)
                        (List.length (less_part e L) + List.length q) <> None)
        by congruence.
      apply nth_error_Some in Hsome. rewrite length_map in Hsome. lia.
    + split; [exact Hfind|]. split.
      * rewrite (end_inv s' L F [] HI). intros H. injection H as H. contradiction.
      * exact Heq.
Qed.

(** X7. After [erase(e)] the element is gone: [get_index] returns 0, [find]
    returns [end()], and a second [erase(e)] returns 0 and leaves the state as
    it is. *)
Theorem erase_then_absent (s s' : SkipList) e fuel count :
  reachable s ->
  erase fuel e s = Some (count, s') ->
  forall fuel', length (sl s') < Z.of_nat fuel' ->
    get_index fuel' e s' = Some 0 /\
    find fuel' e s' = Some (end_ s') /\
    del_first_of fuel' e s' = Some (false, s') /\
    erase fuel' e s' = Some (0, s').
Proof.
  intros Hr Her fuel' Hfuel.
  destruct (reachable_inv HE s Hr) as (L & F & HI).
  pose proof (erase_mono fuel (Nat.max fuel (S (List.length L))) e s _ Her) as Hbig.
  specialize (Hbig ltac:(lia)).
  destruct (erase_spec HE s L F e (Nat.max fuel (S (List.length L))) HI)
    as (s'' & Hok & HI'); [lia|].
  rewrite Hok in Hbig. injection Hbig as _ <-.
  pose proof (erase_abs_apart HE e L (inv_sorted _ _ _ _ HI)) as Habs.
  pose proof (inv_length _ _ _ _ HI') as Hlen. rewrite Hlen in Hfuel.
  set (L' := less_part e L ++ after_run e (rest_part e L)) in *.
  destruct (lookup_inv HE s'' L' _ [] HI' e fuel' ltac:(lia))
    as (r & it & Hget & Hfind & Hres).
  destruct (erase_absent_inv HE s'' L' _ e fuel' HI' Habs ltac:(lia)) as [Hdel Her'].
  destruct Hres as [(-> & -> & _) | (q & y & t & HB & Hrun & _)].
  - rewrite (end_inv s'' L' _ [] HI'). repeat split; assumption.
  - exfalso.
    assert (Hy : In y L').
    { rewrite (less_rest_split e L'), HB. apply in_or_app. right.
      apply in_or_app. right. now left. }
    assert (Hyl : cmp (a_elem y) e = false).
    { pose proof (rest_part_not_less HE e L' (inv_sorted _ _ _ _ HI')) as Hnl.
      rewrite Forall_forall in Hnl. apply Hnl. rewrite HB.
      apply in_or_app. right. now left. }
    apply Forall_app in Hrun. destruct Hrun as [_ Hyr]. apply Forall_inv in Hyr.
    rewrite Forall_forall in Habs. specialize (Habs y Hy).
    unfold equiv in Habs. rewrite Hyl, Hyr in Habs. discriminate.
Qed.

End LookupProperties.

(** ** The buffer: initialisation, capacity and the allocator *)

Section BufferProperties.

Context {E : Elem}.
Hypothesis HE : ElemOK E.

Lemma max_mem_size_exact n :
  0 <= n < 2 ^ 32 - 1 ->
  max_mem_size n = mem_header_size + (n + 1) * mem_node_size.
Proof.
  intros Hn. pose proof (node_size_pos HE) as Hnp. pose proof (header_size_pos HE) as Hhp.
  pose proof (sizes_fit HE) as Hfit. unfold max_mem_size.
  rewrite (wrap32_small (n + 1)) by lia.
  rewrite (wrap64_small ((n + 1) * mem_node_size)) by nia.
  rewrite wrap64_small by nia. reflexivity.
Qed.

(** X8. [max_mem_size] is the header and [max_sl_len + 1] nodes, the head
    sentinel among them, for every length below [2 ^ 32 - 1]; a raw [init]
    fails on a null or a smaller buffer and succeeds on every other one,
    whatever the buffer holds. *)
Theorem init_raw_succeeds (buf : SkipList) (size n : Z) :
  0 <= n < 2 ^ 32 - 1 ->
  max_mem_size n = mem_header_size + (n + 1) * mem_node_size /\
  init None size n true = InitFailed "mem is nullptr" /\
  (size < max_mem_size n ->
   init (Some buf) size n true = InitFailed "mem_size not enough") /\
  (max_mem_size n <= size ->
   exists s, init (Some buf) size n true = InitOk s /\
             length (sl s) = 0 /\ level_num (sl s) = 1%nat /\
             mem_size (mem_header_ s) = size /\
             alloc_size (mem_header_ s) = mem_header_size + mem_node_size).
Proof.
  intros Hn. pose proof (max_mem_size_exact n Hn) as Hsize.
  pose proof (node_size_pos HE) as Hnp. pose proof (header_size_pos HE) as Hhp.
  pose proof (sizes_fit HE) as Hfit.
  split; [exact Hsize|]. split; [reflexivity|]. split.
  - intros Hsmall. unfold init.
    destruct (Z.ltb_spec size (max_mem_size n)); [reflexivity | lia].
  - intros Hbig.
    assert (Hex : exists s, init (Some buf) size n true = InitOk s).
    { unfold init.
      destruct (Z.ltb_spec size (max_mem_size n)) as [|_]; [lia|].
      cbn [negb]. unfold alloc_node, raw_header. hdr_simpl. cbn [Z.eqb negb].
      rewrite wrap64_small by lia.
      destruct (Z.leb_spec (mem_header_size + mem_node_size) size) as [_|]; [|nia].
      destruct (Z.eqb_spec mem_header_size 0) as [|_]; [lia|].
      eexists. reflexivity. }
    destruct Hex as (s & Hinit). exists s. split; [exact Hinit|].
    destruct (init_raw_ok HE buf size n s Hinit) as (_ & _ & Hh & _).
    unfold sl. rewrite Hh. repeat split.
Qed.

(** X9. For [max_sl_len = 2 ^ 32 - 1] the [uint32_t] sum [max_sl_len + 1] is
    0: [max_mem_size] is the size of the header alone, the size test of [init]
    lets a buffer pass that has no room for the head sentinel, and the raw
    initialisation goes on with the offset 0 that [alloc_node] returned. *)
Theorem init_length_overflow (buf : SkipList) (size : Z) :
  mem_header_size <= size < mem_header_size + mem_node_size ->
  max_mem_size (2 ^ 32 - 1) = mem_header_size /\
  init (Some buf) size (2 ^ 32 - 1) true = InitUndefined.
Proof.
  intros Hsz. pose proof (node_size_pos HE) as Hnp. pose proof (header_size_pos HE) as Hhp.
  pose proof (sizes_fit HE) as Hfit.
  assert (Hmax : max_mem_size (2 ^ 32 - 1) = mem_header_size).
  { unfold max_mem_size. replace (2 ^ 32 - 1 + 1) with (2 ^ 32) by lia.
    unfold wrap32 at 1. rewrite Z.mod_same by lia. rewrite Z.mul_0_l.
    unfold wrap64 at 2. rewrite Z.mod_0_l by lia. rewrite Z.add_0_r.
    apply wrap64_small. lia. }
  split; [exact Hmax|]. unfold init. rewrite Hmax.
  destruct (Z.ltb_spec size mem_header_size) as [|_]; [lia|].
  cbn [negb]. unfold alloc_node, raw_header. hdr_simpl. cbn [Z.eqb negb].
  rewrite wrap64_small by lia.
  destruct (Z.leb_spec (mem_header_size + mem_node_size) size) as [|_]; [lia|].
  reflexivity.
Qed.

(** X10. A list that has just been initialised is empty for every operation:
    the walk visits nothing, the lookups find nothing, and [erase] removes
    nothing and leaves the state as it is. *)
Theorem fresh_list_is_empty (buf : SkipList) (size n : Z) (s : SkipList) :
  init (Some buf) size n true = InitOk s ->
  length (sl s) = 0 /\ begin_ s = end_ s /\
  forall fuel, (0 < fuel)%nat ->
    to_list fuel s = Some [] /\
    (forall e, get_index fuel e s = Some 0 /\
               find fuel e s = Some (end_ s) /\
               erase fuel e s = Some (0, s)) /\
    (forall i, find_index fuel i s = Some (end_ s)).
Proof.
  intros Hinit. destruct (init_raw_ok HE buf size n s Hinit) as (_ & _ & Hh & Hz).
  assert (Hsl : sl s = mkSLInfo mem_header_size 0 1%nat 0) by (unfold sl; now rewrite Hh).
  assert (Hf : forall j, fwd s mem_header_size j = 0) by (intros j; apply Hz).
  assert (Hend : end_ s = mkIterator 0) by (unfold end_; rewrite Hsl; reflexivity).
  assert (Hbegin : begin_ s = mkIterator 0).
  { unfold begin_. rewrite Hsl. cbn [head]. now rewrite Hf. }
  split; [now rewrite Hsl|]. split; [congruence|].
  intros fuel Hfuel. destruct fuel as [|fuel]; [lia|].
  split; [|split].
  - unfold to_list. rewrite Hbegin. cbn [iterate]. rewrite Hend. reflexivity.
  - intros e. rewrite Hend. split; [|split].
    + unfold get_index. rewrite Hsl. cbn [level_num head get_index_for get_index_while].
      now rewrite Hf.
    + unfold find. rewrite Hsl. cbn [level_num head find_for find_while].
      now rewrite Hf.
    + unfold erase. cbn [erase_loop]. unfold del_first_of. rewrite Hsl.
      cbn [level_num head del_for del_while]. rewrite Hf. cbn [Z.eqb].
      rewrite Hf. reflexivity.
  - intros i. rewrite Hend. unfold find_index. rewrite Hsl.
    cbn [level_num head find_index_for find_index_while]. now rewrite Hf.
Qed.

(** Along every run of [insert] and [erase] the level count stays at 1 or
    more and the layout fields stay as [init] wrote them. *)
Lemma reachable_from_layout (s0 s : SkipList) :
  (1 <= level_num (sl s0))%nat ->
  reachable_from s0 s ->
  layout s = layout s0 /\ (1 <= level_num (sl s))%nat.
Proof.
  intros H0 Hfrom.
  induction Hfrom as [|s fuel lvl e b s' _ IH Hlvl Hins
                       |s fuel e count s' _ IH Her].
  - split; [reflexivity | exact H0].
  - destruct IH as [Hlay Hge]. destruct (insert_header fuel lvl e s s' b Hins) as [Hl Hb].
    split; [congruence|]. destruct b.
    + destruct Hb as [-> _]. lia.
    + now rewrite Hb.
  - destruct IH as [Hlay Hge].
    destruct (erase_header fuel e s s' count Hge Her) as (Hl & _ & Hn & _).
    split; [congruence | lia].
Qed.

(** X11. A buffer that was initialised raw and then used can be attached again
    ([is_raw = false]) with the size it was created with, and is handed back
    as it is; with any other size the attachment is refused. *)
Theorem attach_after_use (buf : SkipList) (size n : Z) (s0 s : SkipList) :
  init (Some buf) size n true = InitOk s0 ->
  reachable_from s0 s ->
  forall n',
    (max_mem_size n' <= size -> init (Some s) size n' false = InitOk s) /\
    (forall size', size' <> size ->
       exists msg, init (Some s) size' n' false = InitFailed msg).
Proof.
  intros Hinit Hfrom n'.
  destruct (init_raw_ok HE buf size n s0 Hinit) as (_ & _ & Hh & _).
  destruct (reachable_from_layout s0 s) as [Hlay _]; [unfold sl; rewrite Hh; cbn; lia | assumption|].
  unfold layout in Hlay. rewrite Hh in Hlay. cbn [magic_num mem_size header_size node_size] in Hlay.
  injection Hlay as Hm Hs Hhs Hns _.
  split.
  - intros Hbig. unfold init.
    destruct (Z.ltb_spec size (max_mem_size n')) as [|_]; [lia|].
    cbn [negb]. rewrite Hm, Hs, Hhs, Hns, !Z.eqb_refl. reflexivity.
  - intros size' Hne. unfold init.
    destruct (size' <? max_mem_size n'); [eexists; reflexivity|].
    cbn [negb]. rewrite Hs.
    destruct (Z.eqb_spec size size') as [|_]; [congruence|].
    cbn [negb orb]. rewrite orb_true_r. cbn [orb]. eexists; reflexivity.
Qed.

(** X12. The capacity asked of [init] is available however inserts and erases
    are mixed: as long as the list is shorter than [max_sl_len], [insert]
    succeeds; and in a buffer of [max_mem_size(max_sl_len)] bytes, or less
    than one node more, it fails exactly when the list holds [max_sl_len]
    elements, leaving the state as it is. *)
Theorem insert_succeeds_while_room (buf : SkipList) (size n : Z) (s0 s : SkipList)
        lvl e fuel :
  0 <= n < 2 ^ 32 - 1 ->
  fits_uint32 size ->
  init (Some buf) size n true = InitOk s0 ->
  reachable_from s0 s ->
  (1 <= lvl <= MAX_LEVEL_NUM)%nat ->
  length (sl s) < Z.of_nat fuel ->
  mem_header_size + (length (sl s) + 1) * mem_node_size <= size /\
  (length (sl s) < n -> exists s', insert fuel lvl e s = Some (true, s')) /\
  (size < max_mem_size n + mem_node_size ->
   length (sl s) <= n /\
   (length (sl s) = n -> insert fuel lvl e s = Some (false, s))).
Proof.
  intros Hn Hcap Hinit Hfrom Hlvl Hfuel.
  pose proof (max_mem_size_exact n Hn) as Hmax.
  pose proof (node_size_pos HE) as Hnp. pose proof (header_size_pos HE) as Hhp.
  destruct (init_raw_ok HE buf size n s0 Hinit) as (Hsize & _ & Hh & _).
  destruct (init_reached HE buf size n s0 Hcap Hinit) as (HI0 & Hs0 & Ht0 & Hl0).
  destruct (reachable_from_inv HE s0 s [] [] HI0 Hs0 Ht0 Hfrom) as (L & F & HI & Hlay & _ & _).
  pose proof (layout_mem_size _ _ Hlay) as Hms. rewrite Hh in Hms. cbn [mem_size] in Hms.
  pose proof (inv_length _ _ _ _ HI) as Hlen.
  pose proof (inv_alloc _ _ _ _ HI) as Ha. pose proof (inv_alloc_le _ _ _ _ HI) as Hale.
  rewrite Hms in Hale. rewrite Hlen in *. cbn [List.length] in Ha.
  rewrite Nat.add_0_r in Ha.
  split; [nia|].
  destruct (insert_spec HE s L F lvl e fuel HI Hlvl ltac:(lia))
    as [(Hfail & HF & Hfull) | (new & s' & F' & Hok & _ & Hnew)].
  - rewrite Hms in Hfull. subst F. cbn [List.length] in Ha. split.
    + intros Hroom. exfalso. nia.
    + intros Htight. split; [nia|]. intros _. exact Hfail.
  - split; [intros _; now exists s'|].
    intros Htight.
    assert (Hle : Z.of_nat (List.length L) + Z.of_nat (List.length F) <= n) by nia.
    split; [lia|]. intros Heq. exfalso.
    destruct Hnew as [HF | (HF & _ & _ & Hroom)].
    + subst F. cbn [List.length] in Hle. lia.
    + rewrite Hms in Hroom. subst F. cbn [List.length] in Ha. nia.
Qed.

Lemma init_raw_defined (buf : SkipList) (size n : Z) :
  0 <= n < 2 ^ 32 - 1 -> max_mem_size n <= size ->
  exists s, init (Some buf) size n true = InitOk s.
Proof.
  intros Hn Hbig. pose proof (max_mem_size_exact n Hn) as Hsize.
  pose proof (node_size_pos HE) as Hnp. pose proof (header_size_pos HE) as Hhp.
  pose proof (sizes_fit HE) as Hfit.
  unfold init.
  destruct (Z.ltb_spec size (max_mem_size n)) as [|_]; [lia|].
  cbn [negb]. unfold alloc_node, raw_header. hdr_simpl. cbn [Z.eqb negb].
  rewrite wrap64_small by lia.
  destruct (Z.leb_spec (mem_header_size + mem_node_size) size) as [_|]; [|nia].
  destruct (Z.eqb_spec mem_header_size 0) as [|_]; [lia|].
  eexists. reflexivity.
Qed.

(** X24. For every length [n] below [2 ^ 32 - 1], a raw [init] over a buffer
    of exactly [max_mem_size n] bytes succeeds, [n] inserts in a row all
    return true, and one more returns false and hands back the very same
    state: the length is still [n] and no link, span or header field has
    changed. *)
Theorem capacity_boundary (buf : SkipList) n (l : list (nat * T)) lvl e fuel :
  0 <= n < 2 ^ 32 - 1 ->
  Z.of_nat (List.length l) = n ->
  Forall (fun p => (1 <= fst p <= MAX_LEVEL_NUM)%nat) l ->
  (1 <= lvl <= MAX_LEVEL_NUM)%nat ->
  (List.length l < fuel)%nat ->
  exists s0 s,
    init (Some buf) (max_mem_size n) n true = InitOk s0 /\
    insert_all fuel l s0 = Some (repeat true (List.length l), s) /\
    length (sl s) = n /\
    insert fuel lvl e s = Some (false, s).
Proof.
  intros Hn Hlen Hlv Hlvl Hfuel.
  pose proof (node_size_pos HE) as Hnp. pose proof (header_size_pos HE) as Hhp.
  pose proof (sizes_fit HE) as Hfit.
  destruct (init_raw_defined buf (max_mem_size n) n Hn (Z.le_refl _)) as (s0 & Hinit).
  destruct (init_raw_ok HE buf _ n s0 Hinit) as (_ & Hroom & Hh & _).
  pose proof (max_mem_size_exact n Hn) as Hsize.
  assert (Hcap : fits_uint32 (max_mem_size n)).
  { unfold fits_uint32. rewrite Hsize. nia. }
  pose proof (init_spec HE buf _ n s0 Hcap Hinit) as HI0.
  assert (Hms0 : mem_size (mem_header_ s0) = max_mem_size n) by now rewrite Hh.
  assert (Hrun : forall l' (s : SkipList) L,
             Inv s L [] ->
             Forall (fun p => (1 <= fst p <= MAX_LEVEL_NUM)%nat) l' ->
             (List.length L + List.length l' < fuel)%nat ->
             mem_header_size + mem_node_size * Z.of_nat (1 + List.length L + List.length l')
             <= mem_size (mem_header_ s) ->
             exists s' L',
               insert_all fuel l' s = Some (repeat true (List.length l'), s') /\
               Inv s' L' [] /\
               List.length L' = (List.length L + List.length l')%nat /\
               mem_size (mem_header_ s') = mem_size (mem_header_ s)).
  { induction l' as [|[lv x] l' IH]; intros s L HI Hlv' Hf Hm.
    - exists s, L. cbn. split; [reflexivity|]. split; [assumption|]. split; [lia | reflexivity].
    - apply Forall_cons_iff in Hlv'. destruct Hlv' as [Hlv1 Hlv']. cbn [fst] in Hlv1.
      cbn [List.length] in Hf, Hm.
      destruct (insert_fresh HE s L lv x fuel HI Hlv1) as (s1 & Hins & HI1 & Hms1); [lia | |].
      { rewrite (inv_alloc _ _ _ _ HI). cbn [List.length]. nia. }
      destruct (IH s1 _ HI1 Hlv') as (s' & L' & Hall & HI' & Hlen' & Hms').
      { rewrite insert_abs_length. lia. }
      { rewrite insert_abs_length, Hms1. etransitivity; [|exact Hm].
        apply Z.add_le_mono_l. apply Z.mul_le_mono_nonneg_l; lia. }
      exists s', L'. cbn [insert_all List.length repeat]. rewrite Hins, Hall.
      split; [reflexivity|]. split; [assumption|]. split.
      + rewrite Hlen', insert_abs_length. lia.
      + congruence. }
  destruct (Hrun l s0 [] HI0 Hlv) as (s & L & Hall & HI & HlenL & Hms).
  { cbn [List.length]. lia. }
  { rewrite Hms0, Hsize. cbn [List.length]. nia. }
  exists s0, s. split; [exact Hinit|]. split; [exact Hall|]. split.
  - rewrite (inv_length _ _ _ _ HI), HlenL. cbn [List.length]. lia.
  - apply (insert_full HE s L); try assumption.
    + rewrite HlenL. cbn [List.length]. lia.
    + rewrite (inv_alloc _ _ _ _ HI), Hms, Hms0, Hsize, HlenL. cbn [List.length]. nia.
Qed.

End BufferProperties.

(** ** Nodes, slots and cursors *)

Section NodeProperties.

Context {E : Elem}.
Hypothesis HE : ElemOK E.

(** X13. A slot that is freed is the next one allocated: [alloc_node] after
    [free_node r] returns [r], zeroed, and puts the free list and the rest of
    the header back as they were. *)
Theorem alloc_after_free (s : SkipList) (r : Z) :
  r <> 0 ->
  exists s',
    alloc_node (free_node r s) = (r, s') /\
    mem_header_ s' = mem_header_ s /\
    forall x, deref s' x = if x =? r then zero_node else deref s x.
Proof.
  intros Hr.
  unfold alloc_node, free_node, nxt, memset_node, set_free_list, set_next,
    with_header, with_node.
  cbn [mem_header_ deref free_list].
  destruct (Z.eqb_spec r 0) as [|_]; [contradiction|]. cbn [negb].
  rewrite Z.eqb_refl. cbn [next].
  eexists. split; [reflexivity|]. split.
  - cbn [mem_header_ magic_num mem_size alloc_size header_size node_size sl_info].
    destruct s as [h d]. destruct h. reflexivity.
  - intros x. cbn [deref]. destruct (x =? r); reflexivity.
Qed.

(** The links of the base level, by position in the walk. *)
Lemma base_links (s : SkipList) L F X p r :
  InvX s L F X ->
  nth_error (map a_ref L) p = Some r ->
  fwd s r 0 = nth (S p) (map a_ref L) 0 /\
  bwd s r = match p with O => 0 | S p' => nth p' (map a_ref L) 0 end.
Proof.
  intros HI Hnth. pose proof HI as HI0. inv_facts HI.
  assert (Hh1 : Forall (fun x => (1 <= a_height x)%nat) L).
  { eapply Forall_impl; [|exact I_heights]. cbn. intros; lia. }
  destruct (nth_error_split _ _ Hnth) as (pre & suf & Heq & Hp).
  rewrite Heq.
  destruct (refs_split L pre r suf Heq) as (l1 & x & l2 & -> & <- & <- & <-).
  split.
  - assert (Hc : chain_ok s ((head_node s :: l1) ++ x :: l2)) by exact I_chain.
    destruct (chain_ok_at s _ x l2 Hc 0%nat) as [Hf _].
    { apply Forall_app in Hh1. destruct Hh1 as [_ Hx]. apply Forall_inv in Hx. lia. }
    rewrite Hf, fwd_of_level0.
    + rewrite app_nth2 by lia. rewrite <- Hp.
      replace (S (List.length (map a_ref l1)) - List.length (map a_ref l1))%nat
        with 1%nat by lia.
      destruct l2; reflexivity.
    + apply Forall_app in Hh1. destruct Hh1 as [_ Hx]. now apply Forall_inv_tail in Hx.
  - rewrite (back_ok_at s l1 l2 x 0 I_back).
    destruct p as [|p'].
    + destruct l1; [reflexivity | discriminate].
    + rewrite app_nth1 by lia.
      destruct (exists_last (l := map a_ref l1)) as (b & z & Hb).
      { intros Hnil. rewrite Hnil in Hp. discriminate. }
      rewrite Hb in *. rewrite last_last.
      rewrite length_app in Hp. cbn [List.length] in Hp.
      rewrite app_nth2 by lia.
      replace (p' - List.length b)%nat with 0%nat by lia. reflexivity.
Qed.

(** X14. Cursors move along the walk: [k] increments take a cursor from the
    node at position [p] to the node at position [p + k], and to [end()] from
    the last one; [k] decrements take it back to position [p - k], and to the
    null offset, which is also that of [end()], from the first node. *)
Theorem iterator_walks (s : SkipList) :
  reachable s ->
  exists nodes,
    (forall fuel, (List.length nodes < fuel)%nat -> to_list fuel s = Some nodes) /\
    begin_ s = mkIterator (nth 0 nodes 0) /\
    end_ s = mkIterator 0 /\
    (forall p k, (p < List.length nodes)%nat -> (p + k <= List.length nodes)%nat ->
       Nat.iter k (iter_incr s) (mkIterator (nth p nodes 0))
       = mkIterator (nth (p + k) nodes 0)) /\
    (forall p k, (k <= p < List.length nodes)%nat ->
       Nat.iter k (iter_decr s) (mkIterator (nth p nodes 0))
       = mkIterator (nth (p - k) nodes 0)) /\
    (forall p, (p < List.length nodes)%nat ->
       Nat.iter (S p) (iter_decr s) (mkIterator (nth p nodes 0)) = mkIterator 0).
Proof.
  intros Hr. destruct (reachable_inv HE s Hr) as (L & F & HI).
  exists (map a_ref L).
  assert (Hstep : forall p, (p < List.length (map a_ref L))%nat ->
            nth_error (map a_ref L) p = Some (nth p (map a_ref L) 0)).
  { intros p Hp. now apply nth_error_nth'. }
  assert (Hback : forall p k, (k <= p < List.length (map a_ref L))%nat ->
            Nat.iter k (iter_decr s) (mkIterator (nth p (map a_ref L) 0))
            = mkIterator (nth (p - k) (map a_ref L) 0)).
  { intros p k. induction k as [|k IH]; intros Hk.
    - unfold Nat.iter. cbn [nat_rect]. now rewrite Nat.sub_0_r.
    - rewrite Nat.iter_succ, IH by lia. unfold iter_decr. cbn [node_ref].
      destruct (base_links s L F [] (p - k) _ HI (Hstep (p - k)%nat ltac:(lia))) as [_ Hb].
      rewrite Hb. destruct (p - k)%nat as [|m] eqn:Hm; [lia|].
      f_equal. f_equal. lia. }
  split; [|split; [|split; [|split; [|split]]]].
  - intros fuel Hfuel. rewrite length_map in Hfuel. now apply (to_list_inv s L F []).
  - unfold begin_. pose proof (inv_chain _ _ _ _ HI) as [Hhead _].
    pose proof (inv_level_num _ _ _ _ HI) as Hlv.
    destruct (Hhead 0%nat) as [Hf _]; [cbn; lia|].
    cbn [a_ref head_node] in Hf. rewrite Hf, fwd_of_level0.
    + destruct L; reflexivity.
    + eapply Forall_impl; [|exact (inv_heights _ _ _ _ HI)]. cbn. intros; lia.
  - exact (end_inv s L F [] HI).
  - intros p k. induction k as [|k IH]; intros Hp Hk.
    + unfold Nat.iter. cbn [nat_rect]. now rewrite Nat.add_0_r.
    + rewrite Nat.iter_succ, IH by lia. unfold iter_incr. cbn [node_ref].
      destruct (base_links s L F [] (p + k) _ HI (Hstep (p + k)%nat ltac:(lia))) as [Hf _].
      rewrite Hf. f_equal. f_equal. lia.
  - exact Hback.
  - intros p Hp. rewrite Nat.iter_succ, Hback by lia. unfold iter_decr. cbn [node_ref].
    rewrite Nat.sub_diag.
    destruct (base_links s L F [] 0 _ HI (Hstep 0%nat ltac:(lia))) as [_ Hb].
    now rewrite Hb.
Qed.

(** X15. The buffer is laid out in whole slots: the head sentinel sits right
    behind the header, every node of the list and every slot of the free list
    is a slot of the allocated part, no slot is used twice, and the allocated
    part is made of the head sentinel, the nodes and the free slots and
    nothing else; it never exceeds the buffer. *)
Theorem nodes_are_slots (s : SkipList) :
  reachable s ->
  exists nodes free,
    (forall fuel, (List.length nodes < fuel)%nat -> to_list fuel s = Some nodes) /\
    (forall fuel, (List.length free < fuel)%nat -> free_slots fuel s = Some free) /\
    head (sl s) = mem_header_size /\
    NoDup (head (sl s) :: nodes ++ free) /\
    Forall (is_slot s) (head (sl s) :: nodes ++ free) /\
    alloc_size (mem_header_ s)
    = mem_header_size
      + mem_node_size * Z.of_nat (1 + List.length nodes + List.length free) /\
    alloc_size (mem_header_ s) <= mem_size (mem_header_ s).
Proof.
  intros Hr.
  destruct (reachable_full HE s Hr) as (L & F & HI & Hslots & _ & _ & _ & Hhead).
  exists (map a_ref L), F. inv_facts HI.
  rewrite app_nil_r in I_nodup. rewrite length_map.
  cbn [List.length] in I_alloc. rewrite Nat.add_0_r in I_alloc.
  repeat split; try assumption.
  - intros fuel Hfuel. now apply (to_list_inv s L F []).
  - intros fuel Hfuel. now apply (free_slots_inv s L F []).
Qed.

(** X16. The level count is between 1 and [MAX_LEVEL_NUM], no level from it
    upwards is linked at the head sentinel, and the top level below it holds a
    node unless it is the only level. *)
Theorem top_level_in_use (s : SkipList) :
  reachable s ->
  (1 <= level_num (sl s) <= MAX_LEVEL_NUM)%nat /\
  (forall i, (level_num (sl s) <= i)%nat -> fwd s (head (sl s)) i = 0) /\
  top_level_used s /\
  (length (sl s) = 0 -> level_num (sl s) = 1%nat).
Proof.
  intros Hr.
  destruct (reachable_full HE s Hr) as (L & F & HI & _ & Htop & _).
  inv_facts HI. repeat split; try assumption; try lia.
  intros Hz. apply I_empty. destruct L; [reflexivity|].
  rewrite I_length in Hz. cbn [List.length] in Hz. lia.
Qed.

(** X17. [insert] takes the slot freed last when the free list holds one, and
    the allocated part of the buffer does not grow; only with an empty free
    list does it take the slot at [alloc_size], which then moves on by one
    node. *)
Theorem insert_reuses_freed_slot (s s' : SkipList) lvl e fuel :
  reachable s -> (1 <= lvl <= MAX_LEVEL_NUM)%nat ->
  insert fuel lvl e s = Some (true, s') ->
  exists nodes free nodes' free' new,
    (forall f, (List.length nodes < f)%nat -> to_list f s = Some nodes) /\
    (forall f, (List.length free < f)%nat -> free_slots f s = Some free) /\
    (forall f, (List.length nodes' < f)%nat -> to_list f s' = Some nodes') /\
    (forall f, (List.length free' < f)%nat -> free_slots f s' = Some free') /\
    In new nodes' /\ ~ In new nodes /\ elem s' new = e /\
    match free with
    | r :: rest =>
        new = r /\ free' = rest /\
        alloc_size (mem_header_ s') = alloc_size (mem_header_ s)
    | [] =>
        new = alloc_size (mem_header_ s) /\ free' = [] /\
        alloc_size (mem_header_ s') = alloc_size (mem_header_ s) + mem_node_size
    end.
Proof.
  intros Hr Hlvl Hins.
  destruct (reachable_full HE s Hr) as (L & F & HI & Hslots & Htop & _).
  destruct (insert_step HE s s' L F fuel lvl e HI Hslots Htop Hlvl Hins)
    as (new & F' & HI' & _ & _ & _ & Hcase).
  set (L' := less_part e L ++ mkANode new e lvl :: rest_part e L) in *.
  exists (map a_ref L), F, (map a_ref L'), F', new.
  split; [|split; [|split; [|split; [|split; [|split; [|split]]]]]].
  - intros f Hf. rewrite length_map in Hf. now apply (to_list_inv s L F []).
  - intros f Hf. now apply (free_slots_inv s L F []).
  - intros f Hf. rewrite length_map in Hf. now apply (to_list_inv s' L' F' []).
  - intros f Hf. now apply (free_slots_inv s' L' F' []).
  - unfold L'. rewrite map_app. apply in_or_app. right. now left.
  - pose proof (inv_nodup _ _ _ _ HI') as Hnd. apply NoDup_cons_iff in Hnd.
    destruct Hnd as [_ Hnd]. apply NoDup_app_remove_r in Hnd.
    unfold L' in Hnd. rewrite map_app in Hnd. cbn [map a_ref] in Hnd.
    apply NoDup_remove_2 in Hnd. intros Hin. apply Hnd.
    rewrite (less_rest_split e L), map_app in Hin. exact Hin.
  - pose proof (inv_elem _ _ _ _ HI') as Hel. rewrite Forall_forall in Hel.
    apply (Hel (mkANode new e lvl)). unfold L'. apply in_or_app. right. now left.
  - destruct Hcase as [(-> & Ha) | (-> & -> & Hn & Ha)]; repeat split; assumption.
Qed.

End NodeProperties.

(** ** Failure of [insert], and ranks *)

Section MoreProperties.

Context {E : Elem}.
Hypothesis HE : ElemOK E.

(** X18. [insert] fails only for lack of space: it returns false exactly when
    the free list is empty and the unused part of the buffer is smaller than a
    node, and then it leaves the state as it is. *)
Theorem insert_fails_only_when_full (s : SkipList) lvl e fuel :
  reachable s -> (1 <= lvl <= MAX_LEVEL_NUM)%nat ->
  length (sl s) < Z.of_nat fuel ->
  exists b s',
    insert fuel lvl e s = Some (b, s') /\
    (b = false <->
     free_list (mem_header_ s) = 0 /\
     mem_size (mem_header_ s)
     < alloc_size (mem_header_ s) + node_size (mem_header_ s)) /\
    (b = false -> s' = s) /\
    (b = true -> length (sl s') = length (sl s) + 1).
Proof.
  intros Hr Hlvl Hfuel. destruct (reachable_inv HE s Hr) as (L & F & HI).
  pose proof (inv_length _ _ _ _ HI) as Hlen. rewrite Hlen in Hfuel.
  pose proof (inv_node_size _ _ _ _ HI) as Hns. rewrite Hns.
  pose proof (inv_free _ _ _ _ HI) as Hfree.
  destruct (insert_spec HE s L F lvl e fuel HI Hlvl ltac:(lia))
    as [(Hfail & HF & Hfull) | (new & s' & F' & Hok & HI' & Hnew)].
  - exists false, s. split; [exact Hfail|]. subst F. cbn [free_ok] in Hfree.
    repeat split; try assumption; try reflexivity. discriminate.
  - exists true, s'. split; [exact Hok|]. split; [|split; [discriminate|]].
    + split; [discriminate|]. intros [Hz Hfull]. exfalso.
      destruct Hnew as [HF | (_ & _ & _ & Hroom)]; [|lia].
      subst F. cbn [free_ok] in Hfree. destruct Hfree as [Hnew _].
      pose proof (inv_range _ _ _ _ HI) as Hrange.
      apply Forall_inv_tail in Hrange. rewrite Forall_forall in Hrange.
      specialize (Hrange new ltac:(apply in_or_app; right; apply in_or_app; left; now left)).
      lia.
    + intros _. rewrite (inv_length _ _ _ _ HI'), Hlen.
      rewrite (less_rest_split e L) at 3. rewrite !length_app. cbn [List.length]. lia.
Qed.

Lemma nth_error_in_middle (A B C : list anode) p x (P : anode -> Prop) :
  nth_error (A ++ B ++ C) p = Some x ->
  Forall (fun y => ~ P y) A -> Forall (fun y => ~ P y) C -> P x ->
  (List.length A <= p < List.length A + List.length B)%nat.
Proof.
  intros Hnth HA HC Hx. rewrite Forall_forall in HA, HC.
  destruct (Nat.lt_ge_cases p (List.length A)) as [Hlt|Hge].
  - rewrite nth_error_app1 in Hnth by assumption.
    apply nth_error_In in Hnth. exfalso. exact (HA x Hnth Hx).
  - rewrite nth_error_app2 in Hnth by assumption.
    destruct (Nat.lt_ge_cases (p - List.length A) (List.length B)) as [Hlt|Hge2]; [lia|].
    rewrite nth_error_app2 in Hnth by assumption.
    apply nth_error_In in Hnth. exfalso. exact (HC x Hnth Hx).
Qed.

(** X5. Looking up the element stored at rank [p + 1] gives that rank back, up
    to the run of elements equivalent to it: the rank returned differs from [p
    + 1] by less than the number of equivalent elements, so it is exactly [p +
    1] for an element stored once. *)
Theorem get_index_of_ranked_element (s : SkipList) :
  reachable s ->
  exists nodes,
    forall fuel p x, (List.length nodes < fuel)%nat ->
      nth_error nodes p = Some x ->
      to_list fuel s = Some nodes /\
      exists r,
        get_index fuel (elem s x) s = Some r /\ 1 <= r /\
        Z.abs (r - (Z.of_nat p + 1))
        < Z.of_nat (List.length (filter (fun y => equiv (elem s y) (elem s x)) nodes)).
Proof.
  intros Hr. destruct (reachable_inv HE s Hr) as (L & F & HI).
  exists (map a_ref L). intros fuel p x Hfuel Hnth. rewrite length_map in Hfuel.
  split; [now apply (to_list_inv s L F [])|].
  rewrite nth_error_map in Hnth.
  destruct (nth_error L p) as [ax|] eqn:Hax; [|discriminate].
  cbn [option_map] in Hnth. injection Hnth as <-.
  pose proof (inv_elem _ _ _ _ HI) as Hel. rewrite Forall_forall in Hel.
  rewrite (Hel ax (nth_error_In _ _ Hax)).
  set (e := a_elem ax).
  pose proof (inv_sorted _ _ _ _ HI) as Hs.
  rewrite (filter_refs s L F [] (fun t => equiv t e) HI), length_map.
  rewrite (filter_removed HE e L Hs).
  (* the node lies in the run *)
  assert (Hpos : (List.length (less_part e L) <= p
                  < List.length (less_part e L)
                    + List.length (eq_run e (rest_part e L)))%nat).
  { apply (nth_error_in_middle _ _ (after_run e (rest_part e L)) p ax
             (fun y => equiv (a_elem y) e = true)).
    - rewrite <- run_split, <- less_rest_split. exact Hax.
    - eapply Forall_impl; [|exact (less_part_less e L)].
      cbn. intros y Hy. unfold equiv. rewrite Hy. discriminate.
    - rewrite (less_rest_split e L), map_app in Hs. apply sorted_app_r in Hs.
      eapply Forall_impl; [|exact (after_run_greater HE e _ Hs)].
      cbn. intros y Hy. unfold equiv. rewrite Hy, andb_false_r. discriminate.
    - unfold equiv, e. now rewrite (cmp_irrefl HE). }
  destruct (lookup_inv HE s L F [] HI e fuel Hfuel) as (r & it & Hget & _ & Hres).
  exists r. split; [exact Hget|].
  destruct Hres as [(-> & _ & Habs) | (q & y & t & HB & Hrun & -> & _)].
  - exfalso. rewrite Forall_forall in Habs.
    specialize (Habs ax (nth_error_In _ _ Hax)).
    unfold equiv, e in Habs. rewrite (cmp_irrefl HE) in Habs. discriminate.
  - destruct (lookup_rank_bounds HE s L F [] HI e q y t HB Hrun) as (Hq & _).
    rewrite (filter_removed HE e L Hs) in Hq. split; [lia|]. lia.
Qed.

End MoreProperties.

(** ** Sizes and levels *)

Lemma align8_sub (n : Z) :
  0 <= n <= 2 ^ 64 - 8 -> align8 n = n + 7 - (n + 7) mod 8.
Proof.
  intros Hn. unfold align8, wrap64.
  rewrite (Z.mod_small (n + 7)) by lia.
  rewrite <- (Z.land_ones (Z.lnot 7) 64) by lia.
  rewrite (Z.land_comm (Z.lnot 7)), Z.land_assoc.
  rewrite (Z.land_ones (n + 7) 64) by lia.
  rewrite (Z.mod_small (n + 7)) by lia.
  rewrite <- Z.ldiff_land.
  change 8 with (2 ^ 3). rewrite <- (Z.land_ones (n + 7) 3) by lia.
  change (Z.ones 3) with 7.
  rewrite Z.sub_nocarry_ldiff.
  - apply Z.bits_inj'. intros i Hi.
    rewrite !Z.ldiff_spec, Z.land_spec.
    destruct (Z.testbit (n + 7) i), (Z.testbit 7 i); reflexivity.
  - apply Z.bits_inj'. intros i Hi.
    rewrite Z.ldiff_spec, Z.land_spec, Z.bits_0.
    destruct (Z.testbit (n + 7) i), (Z.testbit 7 i); reflexivity.
Qed.

(** X19. The sizes are rounded up to the next multiple of 8: the result is a
    multiple of 8, not less than the size and less than 8 more, and a size
    that is a multiple of 8 is left as it is. *)
Theorem align8_rounds_up (n : Z) :
  0 <= n <= 2 ^ 64 - 8 ->
  align8 n mod 8 = 0 /\ n <= align8 n < n + 8 /\ (n mod 8 = 0 -> align8 n = n).
Proof.
  intros Hn. rewrite (align8_sub n Hn).
  pose proof (Z.mod_pos_bound (n + 7) 8 ltac:(lia)) as Hr.
  pose proof (Z.div_mod (n + 7) 8 ltac:(lia)) as Hdm.
  split; [|split].
  - replace (n + 7 - (n + 7) mod 8) with ((n + 7) / 8 * 8) by lia.
    apply Z.mod_mul. lia.
  - lia.
  - intros Hz. pose proof (Z.div_mod n 8 ltac:(lia)) as Hn8. rewrite Hz in Hn8.
    replace (n + 7) with (7 + n / 8 * 8) by lia.
    rewrite Z.mod_add by lia. change (7 mod 8) with 7. lia.
Qed.

Lemma random_level_loop_prefix (pass : list Z) r rest : forall level,
  Forall (fun d => Z.land d 65535 <= 16383) pass ->
  16383 < Z.land r 65535 ->
  random_level_loop (pass ++ r :: rest) level = (level + List.length pass)%nat.
Proof.
  intros level Hpass Hr. revert level.
  induction Hpass as [|d pass Hd _ IH]; intros level.
  - cbn [app random_level_loop List.length]. unfold SKIPLIST_P.
    destruct (Z.ltb_spec (Z.land r 65535 * 4) 65535); lia.
  - cbn [app random_level_loop List.length]. unfold SKIPLIST_P.
    destruct (Z.ltb_spec (Z.land d 65535 * 4) 65535); [|lia].
    rewrite IH. lia.
Qed.

(** X20. [random_level()] is one more than the number of draws that pass the
    test before the first one that fails it, capped at [MAX_LEVEL_NUM]; a draw
    passes when its low 16 bits are at most 16383, one value in four. *)
Theorem random_level_counts_draws (pass : list Z) (r : Z) (rest : list Z) :
  Forall (fun d => Z.land d 65535 <= 16383) pass ->
  16383 < Z.land r 65535 ->
  random_level (pass ++ r :: rest) = Nat.min (1 + List.length pass) MAX_LEVEL_NUM /\
  (1 <= random_level (pass ++ r :: rest) <= MAX_LEVEL_NUM)%nat.
Proof.
  intros Hpass Hr. unfold random_level.
  rewrite (random_level_loop_prefix pass r rest 1%nat Hpass Hr).
  unfold MAX_LEVEL_NUM.
  destruct (Nat.ltb_spec (1 + List.length pass) 32); lia.
Qed.

(** ** Order of the ranks, and the elements kept *)

Section OrderProperties.

Context {E : Elem}.
Hypothesis HE : ElemOK E.

Lemma filter_length_sum {A : Type} (P Q R : A -> bool) (l : list A) :
  (forall x, P x = true -> R x = true) ->
  (forall x, Q x = true -> R x = true) ->
  (forall x, P x = true -> Q x = false) ->
  (List.length (filter P l) + List.length (filter Q l) <= List.length (filter R l))%nat.
Proof.
  intros HP HQ HPQ. induction l as [|x l IH]; [cbn; lia|].
  cbn [filter].
  destruct (P x) eqn:Px, (Q x) eqn:Qx, (R x) eqn:Rx; cbn [List.length];
    try lia;
    try (rewrite (HP x Px) in Rx; discriminate);
    try (rewrite (HQ x Qx) in Rx; discriminate);
    try (rewrite (HPQ x Px) in Qx; discriminate).
Qed.

(** X21. The ranks follow the order: of two stored elements, the smaller one
    has the smaller rank for [get_index]. *)
Theorem get_index_monotone (s : SkipList) :
  reachable s ->
  exists nodes,
    forall fuel a b, (List.length nodes < fuel)%nat -> cmp a b = true ->
      to_list fuel s = Some nodes /\
      exists ra rb,
        get_index fuel a s = Some ra /\ get_index fuel b s = Some rb /\
        (ra <> 0 -> rb <> 0 -> ra < rb).
Proof.
  intros Hr. destruct (reachable_inv HE s Hr) as (L & F & HI).
  exists (map a_ref L). intros fuel a b Hfuel Hab. rewrite length_map in Hfuel.
  split; [now apply (to_list_inv s L F [])|].
  destruct (lookup_inv HE s L F [] HI a fuel Hfuel) as (ra & ita & Hga & _ & Hra).
  destruct (lookup_inv HE s L F [] HI b fuel Hfuel) as (rb & itb & Hgb & _ & Hrb).
  exists ra, rb. split; [exact Hga|]. split; [exact Hgb|].
  intros Ha0 Hb0.
  destruct Hra as [(-> & _) | (qa & ya & ta & HBa & Hruna & -> & _)]; [contradiction|].
  destruct Hrb as [(-> & _) | (qb & yb & tb & HBb & Hrunb & -> & _)]; [contradiction|].
  destruct (lookup_rank_bounds HE s L F [] HI a qa ya ta HBa Hruna) as (Hqa & Hla & _).
  destruct (lookup_rank_bounds HE s L F [] HI b qb yb tb HBb Hrunb) as (_ & Hlb & _).
  pose proof (filter_length_sum (fun x => cmp (a_elem x) a) (fun x => equiv (a_elem x) a)
                (fun x => cmp (a_elem x) b) L) as Hsum.
  cbv beta in Hsum.
  assert (Hle : (List.length (filter (fun x => cmp (a_elem x) a) L)
                 + List.length (filter (fun x => equiv (a_elem x) a) L)
                 <= List.length (filter (fun x => cmp (a_elem x) b) L))%nat).
  { apply Hsum.
    - intros x Hx. exact (cmp_trans HE _ _ _ Hx Hab).
    - intros x Hx. unfold equiv in Hx. apply andb_prop in Hx. destruct Hx as [_ Hx].
      apply negb_true_iff in Hx.
      destruct (cmp_cotrans HE a (a_elem x) b Hab) as [H|H]; [congruence | exact H].
    - intros x Hx. unfold equiv. now rewrite Hx. }
  lia.
Qed.

Lemma insert_all_keeps fuel : forall (l : list (nat * T)) (s : SkipList) L F bs s',
  Inv s L F ->
  Forall (fun p => (1 <= fst p <= MAX_LEVEL_NUM)%nat) l ->
  insert_all fuel l s = Some (bs, s') ->
  Forall (fun b => b = true) bs ->
  exists L' F',
    Inv s' L' F' /\ Permutation (map a_elem L') (map snd l ++ map a_elem L).
Proof.
  induction l as [|[lvl e] l IH]; intros s L F bs s' HI Hl Hall Hbs.
  - cbn in Hall. injection Hall as _ <-. exists L, F. split; [exact HI|]. reflexivity.
  - cbn [insert_all] in Hall.
    destruct (insert fuel lvl e s) as [[b s1]|] eqn:Hins; [|discriminate].
    destruct (insert_all fuel l s1) as [[bs' s2]|] eqn:Hrest; [|discriminate].
    injection Hall as <- <-.
    pose proof (Forall_inv Hbs) as Hb. cbn beta in Hb. subst b.
    apply Forall_inv_tail in Hbs.
    pose proof (Forall_inv Hl) as Hlvl. cbn [fst] in Hlvl. apply Forall_inv_tail in Hl.
    pose proof (insert_mono fuel (Nat.max fuel (S (List.length L))) lvl e s _ Hins) as Hbig.
    specialize (Hbig ltac:(lia)).
    destruct (insert_spec HE s L F lvl e (Nat.max fuel (S (List.length L))) HI Hlvl)
      as [(Hfail & _) | (new & s'' & F' & Hok & HI' & _)]; [lia | congruence |].
    rewrite Hok in Hbig. injection Hbig as <-.
    destruct (IH s'' _ F' bs' s2 HI' Hl Hrest Hbs) as (L' & F2 & HI2 & Hperm).
    exists L', F2. split; [exact HI2|].
    rewrite Hperm. cbn [map snd app]. rewrite map_app. cbn [map a_elem].
    rewrite (less_rest_split e L) at 3. rewrite map_app.
    rewrite Permutation_middle. apply Permutation_app_head.
    symmetry. apply Permutation_middle.
Qed.

(** X22. Inserts that all succeed lose and invent nothing: the elements of the
    walk afterwards are those of the walk before together with the inserted
    ones, in non-decreasing order. *)
Theorem inserts_keep_every_element (s s' : SkipList) fuel (l : list (nat * T)) bs :
  reachable s ->
  Forall (fun p => (1 <= fst p <= MAX_LEVEL_NUM)%nat) l ->
  insert_all fuel l s = Some (bs, s') ->
  Forall (fun b => b = true) bs ->
  exists nodes nodes',
    (forall f, (List.length nodes < f)%nat -> to_list f s = Some nodes) /\
    (forall f, (List.length nodes' < f)%nat -> to_list f s' = Some nodes') /\
    Permutation (map (elem s') nodes') (map snd l ++ map (elem s) nodes) /\
    sorted (map (elem s') nodes') /\
    length (sl s') = length (sl s) + Z.of_nat (List.length l).
Proof.
  intros Hr Hl Hall Hbs. destruct (reachable_inv HE s Hr) as (L & F & HI).
  destruct (insert_all_keeps fuel l s L F bs s' HI Hl Hall Hbs) as (L' & F' & HI' & Hperm).
  exists (map a_ref L), (map a_ref L').
  rewrite (elems_inv s L F [] HI), (elems_inv s' L' F' [] HI').
  split; [|split; [|split; [|split]]].
  - intros f Hf. rewrite length_map in Hf. now apply (to_list_inv s L F []).
  - intros f Hf. rewrite length_map in Hf. now apply (to_list_inv s' L' F' []).
  - exact Hperm.
  - exact (inv_sorted _ _ _ _ HI').
  - rewrite (inv_length _ _ _ _ HI), (inv_length _ _ _ _ HI').
    apply Permutation_length in Hperm. rewrite length_app, !length_map in Hperm. lia.
Qed.

End OrderProperties.

(** ** The allocated part of the buffer *)

Section AllocatedPart.

Context {E : Elem}.
Hypothesis HE : ElemOK E.

Lemma reachable_from_alloc (s0 s : SkipList) L0 F0 :
  Inv s0 L0 F0 ->
  Forall (is_slot s0) (head (sl s0) :: map a_ref L0 ++ F0) ->
  top_level_used s0 ->
  reachable_from s0 s ->
  alloc_size (mem_header_ s0) <= alloc_size (mem_header_ s).
Proof.
  intros HI0 Hs0 Ht0 Hfrom. pose proof (node_size_pos HE) as Hnp.
  induction Hfrom as [|s fuel lvl e b s' Hprev IH Hlvl Hins
                       |s fuel e count s' Hprev IH Her].
  - lia.
  - destruct (reachable_from_inv HE s0 s L0 F0 HI0 Hs0 Ht0 Hprev)
      as (L & F & HI & _ & Hslots & Htop).
    destruct b.
    + destruct (insert_step HE s s' L F fuel lvl e HI Hslots Htop Hlvl Hins)
        as (new & F' & _ & _ & _ & _ & Hcase).
      destruct Hcase as [(_ & Ha) | (_ & _ & _ & Ha)]; lia.
    + pose proof (insert_mono fuel (Nat.max fuel (S (List.length L))) lvl e s _ Hins) as Hbig.
      specialize (Hbig ltac:(lia)).
      destruct (insert_spec HE s L F lvl e (Nat.max fuel (S (List.length L))) HI Hlvl)
        as [(Hfail & _) | (new & s'' & F' & Hok & _)]; [lia | | congruence].
      rewrite Hfail in Hbig. injection Hbig as <-. exact IH.
  - destruct (reachable_from_inv HE s0 s L0 F0 HI0 Hs0 Ht0 Hprev)
      as (L & F & HI & _ & Hslots & Htop).
    destruct (erase_step HE s s' L F fuel e count HI Hslots Htop Her)
      as (_ & _ & _ & Ha & _).
    lia.
Qed.

(** X23. The allocated part of the buffer never shrinks and never exceeds
    the buffer: [erase] leaves [alloc_size] as it is, the slots it frees
    are reused by later inserts but never handed back, and [mem_size]
    stays what [init] was given. *)
Theorem allocated_part_never_shrinks (buf : SkipList) (size n : Z) (s0 s s' : SkipList) :
  fits_uint32 size ->
  init (Some buf) size n true = InitOk s0 ->
  reachable_from s0 s ->
  reachable_from s s' ->
  mem_header_size + mem_node_size <= alloc_size (mem_header_ s) /\
  alloc_size (mem_header_ s) <= alloc_size (mem_header_ s') /\
  alloc_size (mem_header_ s') <= mem_size (mem_header_ s') /\
  mem_size (mem_header_ s') = size /\
  (forall fuel e count s1,
     erase fuel e s = Some (count, s1) ->
     alloc_size (mem_header_ s1) = alloc_size (mem_header_ s)).
Proof.
  intros Hcap Hinit Hs Hs'.
  destruct (init_reached HE buf size n s0 Hcap Hinit) as (HI0 & Hs0 & Ht0 & Hl0).
  destruct (init_raw_ok HE buf size n s0 Hinit) as (_ & _ & Hh & _).
  destruct (reachable_from_inv HE s0 s [] [] HI0 Hs0 Ht0 Hs) as (L & F & HI & _ & Hsl & Htop).
  pose proof (reachable_from_alloc s0 s [] [] HI0 Hs0 Ht0 Hs) as Ha0.
  rewrite Hh in Ha0. cbn [alloc_size] in Ha0.
  pose proof (reachable_from_alloc s s' L F HI Hsl Htop Hs') as Ha.
  destruct (reachable_from_inv HE s0 s' [] [] HI0 Hs0 Ht0
              (reachable_from_trans s0 s s' Hs Hs')) as (L' & F' & HI' & Hlay & _).
  pose proof (layout_mem_size _ _ Hlay) as Hms. rewrite Hh in Hms. cbn [mem_size] in Hms.
  split; [exact Ha0|]. split; [exact Ha|]. split; [exact (inv_alloc_le _ _ _ _ HI')|].
  split; [exact Hms|].
  intros fuel e count s1 Her.
  destruct (erase_step HE s s1 L F fuel e count HI Hsl Htop Her) as (_ & _ & _ & Hal & _).
  exact Hal.
Qed.

End AllocatedPart.

(** * The instance [SkipList<int>] *)

Lemma IntElemOK : ElemOK IntElem.
Proof.
  constructor; cbn.
  - apply Z.ltb_irrefl.
  - intros a b c Hab Hbc. apply Z.ltb_lt in Hab, Hbc. apply Z.ltb_lt. lia.
  - intros a b c Hac. apply Z.ltb_lt in Hac.
    destruct (Z.ltb_spec a b); [now left | right]. apply Z.ltb_lt. lia.
  - lia.
  - lia.
  - lia.
Qed.

Lemma insert_all_reachable {E : Elem} fuel : forall l (s : SkipList) bs s',
  reachable s ->
  Forall (fun p => (1 <= fst p <= MAX_LEVEL_NUM)%nat) l ->
  insert_all fuel l s = Some (bs, s') ->
  reachable s'.
Proof.
  induction l as [|[lvl e] l IH]; intros s bs s' Hr Hlv Hall.
  - cbn in Hall. injection Hall as _ <-. exact Hr.
  - cbn [insert_all] in Hall.
    apply Forall_cons_iff in Hlv. destruct Hlv as [Hlvl Hlv]. cbn [fst] in Hlvl.
    destruct (insert fuel lvl e s) as [[b s1]|] eqn:Hins; [|discriminate].
    destruct (insert_all fuel l s1) as [[bs' s2]|] eqn:Hrest; [|discriminate].
    injection Hall as _ <-.
    apply (IH s1 bs' s2); [|assumption|assumption].
    exact (reach_insert s fuel lvl e b s1 Hr Hlvl Hins).
Qed.

Lemma int_init_ok :
  init (Some int_buffer) (max_mem_size (E := IntElem) 8) 8 true = InitOk (int_init 8).
Proof. vm_compute. reflexivity. Qed.

Lemma int_init_reachable : reachable (int_init 8).
Proof.
  apply (reach_init int_buffer (max_mem_size (E := IntElem) 8) 8).
  - unfold fits_uint32. vm_compute. reflexivity.
  - exact int_init_ok.
Qed.

Lemma int_inserts_reachable l (s : @SkipList IntElem) :
  reachable s ->
  Forall (fun p => (1 <= fst p <= MAX_LEVEL_NUM)%nat) l ->
  reachable (int_inserts l s).
Proof.
  intros Hr Hlv. unfold int_inserts.
  destruct (insert_all (E := IntElem) 16 l s) as [[bs s']|] eqn:Hall; [|exact Hr].
  exact (insert_all_reachable (E := IntElem) 16 l s bs s' Hr Hlv Hall).
Qed.

Lemma two_fives_reachable : reachable two_fives.
Proof.
  apply int_inserts_reachable; [exact int_init_reachable|].
  repeat constructor; cbn; unfold MAX_LEVEL_NUM; lia.
Qed.

Lemma one_seven_reachable : reachable one_seven.
Proof.
  apply int_inserts_reachable; [exact int_init_reachable|].
  repeat constructor; cbn; unfold MAX_LEVEL_NUM; lia.
Qed.

Lemma five_elems_reachable : reachable five_elems.
Proof.
  apply int_inserts_reachable; [exact int_init_reachable|].
  repeat constructor; cbn; unfold MAX_LEVEL_NUM; lia.
Qed.

(** C1. [get_index] does not return the rank of the foremost of several
    equal elements: with 5 inserted at level 2 and then 5 at level 1, the
    nodes are met in the order 1144, 608, both hold 5, and
    [get_index(5)] returns 2, the rank of the node found on the top
    level, where the foremost occurrence has rank 1. *)
Theorem get_index_misses_foremost :
  reachable two_fives /\
  to_list 8 two_fives = Some [1144; 608] /\
  elem two_fives 1144 = 5 /\
  elem two_fives 608 = 5 /\
  get_index (E := IntElem) 8 5 two_fives = Some 2.
Proof.
  split; [exact two_fives_reachable|].
  repeat split; vm_compute; reflexivity.
Qed.

(** C3. [find(element)] does not return the foremost of several equal
    elements: in the same state [begin()] is on node 1144, which holds 5,
    and [find(5)] returns a cursor on node 608, the second of the two. *)
Theorem find_misses_foremost :
  reachable two_fives /\
  begin_ two_fives = mkIterator 1144 /\
  elem two_fives 1144 = 5 /\
  find (E := IntElem) 8 5 two_fives = Some (mkIterator 608).
Proof.
  split; [exact two_fives_reachable|].
  repeat split; vm_compute; reflexivity.
Qed.

(** C2. [find(index)] returns [end()] for the index of the last element:
    with the single element 7 stored, whose node is 608, the length is 1
    and [find(1)] is the cursor [end()]. *)
Theorem find_index_last_returns_end :
  reachable one_seven /\
  to_list 8 one_seven = Some [608] /\
  length (sl one_seven) = 1 /\
  end_ one_seven = mkIterator 0 /\
  find_index 8 1 one_seven = Some (end_ one_seven).
Proof.
  split; [exact one_seven_reachable|].
  repeat split; vm_compute; reflexivity.
Qed.

(** C7. The capacity is lost at the largest length.  For
    [max_sl_len = 2 ^ 32 - 1] the [uint32_t] sum [max_sl_len + 1] is 0 and
    [max_mem_size] returns 72, the size of the header alone, where the
    length just below still gets the header and [2 ^ 32 - 1] nodes.  Over
    a buffer of exactly [max_mem_size (2 ^ 32 - 1)] bytes the raw [init]
    passes its size test, gets 0 from [alloc_node] and goes on to write
    the head sentinel at offset 0, on top of the header.  Over a buffer
    with room for the head sentinel as well, where [init] has a result,
    the very first [insert] returns false with the length at 0: not one
    of the [2 ^ 32 - 1] inserts succeeds. *)
Theorem capacity_lost_at_longest_length :
  max_mem_size (E := IntElem) (2 ^ 32 - 1) = 72 /\
  max_mem_size (E := IntElem) (2 ^ 32 - 2) = 72 + (2 ^ 32 - 1) * 536 /\
  init (Some int_buffer) (max_mem_size (E := IntElem) (2 ^ 32 - 1)) (2 ^ 32 - 1) true
  = InitUndefined /\
  init (Some int_buffer) 608 (2 ^ 32 - 1) true = InitOk int_init_longest /\
  length (sl int_init_longest) = 0 /\
  insert (E := IntElem) 8 1 5 int_init_longest = Some (false, int_init_longest).
Proof. repeat split; vm_compute; reflexivity. Qed.

Lemma int_init_inv :
  Inv (int_init 8) [] [] /\ mem_size (mem_header_ (int_init 8)) = 4896.
Proof.
  split.
  - apply (init_spec IntElemOK int_buffer (max_mem_size (E := IntElem) 8) 8).
    + unfold fits_uint32. vm_compute. reflexivity.
    + exact int_init_ok.
  - vm_compute. reflexivity.
Qed.

(** One more insert into a buffer of [max_mem_size 8] bytes whose free
    list is empty takes the next unused slot. *)
Lemma int_insert_step (s : @SkipList IntElem) L lvl (e : Z) (k : nat) :
  Inv s L [] -> List.length L = k -> (k < 8)%nat ->
  mem_size (mem_header_ s) = 4896 ->
  (1 <= lvl <= MAX_LEVEL_NUM)%nat ->
  exists s',
    insert (E := IntElem) 8 lvl e s = Some (true, s') /\
    Inv s' (less_part (E := IntElem) e L
            ++ mkANode (E := IntElem) (608 + 536 * Z.of_nat k) e lvl
               :: rest_part (E := IntElem) e L) [] /\
    mem_size (mem_header_ s') = 4896.
Proof.
  intros HI Hlen Hk Hms Hlvl.
  pose proof (inv_alloc _ _ _ _ HI) as Ha. cbn [List.length mem_header_size mem_node_size IntElem] in Ha.
  rewrite Hlen in Ha.
  destruct (insert_fresh IntElemOK s L lvl e 8 HI Hlvl) as (s' & Hins & HI' & Hms').
  - lia.
  - rewrite Hms, Ha. cbn [mem_node_size IntElem]. lia.
  - exists s'. split; [exact Hins|]. split; [|congruence].
    replace (608 + 536 * Z.of_nat k) with (alloc_size (mem_header_ s)) by lia.
    exact HI'.
Qed.

(** C6. [insert] puts the new node behind the nodes that are less than
    the element and in front of all the others, so in front of every
    equal element inserted before.  Inserting 5, 3, 5, 1, 5 into an empty
    structure, whatever levels are drawn, gives the base-level order
    1, 3, 5, 5, 5 with length 5, the three nodes holding 5 in the order
    last inserted (2752), second (1680), first (608). *)
Theorem insert_duplicate_goes_first :
  (forall (E : Elem), ElemOK E ->
   forall (s : SkipList) lvl (e : T),
     reachable s -> (1 <= lvl <= MAX_LEVEL_NUM)%nat ->
     exists nodes,
       forall fuel s', (List.length nodes < fuel)%nat ->
         to_list fuel s = Some nodes /\
         (insert fuel lvl e s = Some (true, s') ->
          exists before new after,
            nodes = before ++ after /\
            to_list (S fuel) s' = Some (before ++ new :: after) /\
            Forall (fun r => cmp (elem s r) e = true) before /\
            Forall (fun r => cmp (elem s r) e = false) after /\
            elem s' new = e /\ ~ In new nodes /\
            Forall (fun r => elem s' r = elem s r) nodes /\
            length (sl s') = length (sl s) + 1)) /\
  (forall l1 l2 l3 l4 l5,
     (1 <= l1 <= MAX_LEVEL_NUM)%nat -> (1 <= l2 <= MAX_LEVEL_NUM)%nat ->
     (1 <= l3 <= MAX_LEVEL_NUM)%nat -> (1 <= l4 <= MAX_LEVEL_NUM)%nat ->
     (1 <= l5 <= MAX_LEVEL_NUM)%nat ->
     exists s,
       insert_all (E := IntElem) 8 [(l1, 5); (l2, 3); (l3, 5); (l4, 1); (l5, 5)]
                  (int_init 8)
       = Some ([true; true; true; true; true], s) /\
       to_list 8 s = Some [2216; 1144; 2752; 1680; 608] /\
       map (elem s) [2216; 1144; 2752; 1680; 608] = [1; 3; 5; 5; 5] /\
       length (sl s) = 5).
Proof.
  split.
  - intros E HE s lvl e. exact (insert_position HE s lvl e).
  - intros l1 l2 l3 l4 l5 H1 H2 H3 H4 H5.
    destruct int_init_inv as [HI0 Hms0].
    destruct (int_insert_step _ _ l1 5 0 HI0 eq_refl ltac:(lia) Hms0 H1)
      as (s1 & Hi1 & HI1 & Hms1).
    cbn [less_part rest_part app Z.of_nat Z.mul Z.add Pos.add Pos.succ] in HI1.
    destruct (int_insert_step _ _ l2 3 1 HI1 eq_refl ltac:(lia) Hms1 H2)
      as (s2 & Hi2 & HI2 & Hms2).
    cbn in HI2.
    destruct (int_insert_step _ _ l3 5 2 HI2 eq_refl ltac:(lia) Hms2 H3)
      as (s3 & Hi3 & HI3 & Hms3).
    cbn in HI3.
    destruct (int_insert_step _ _ l4 1 3 HI3 eq_refl ltac:(lia) Hms3 H4)
      as (s4 & Hi4 & HI4 & Hms4).
    cbn in HI4.
    destruct (int_insert_step _ _ l5 5 4 HI4 eq_refl ltac:(lia) Hms4 H5)
      as (s5 & Hi5 & HI5 & Hms5).
    cbn in HI5.
    exists s5. split; [|split; [|split]].
    + cbn [insert_all]. now rewrite Hi1, Hi2, Hi3, Hi4, Hi5.
    + exact (to_list_inv s5 _ _ [] 8 HI5 ltac:(cbn; lia)).
    + exact (elems_inv s5 _ _ [] HI5).
    + exact (inv_length _ _ _ _ HI5).
Qed.

(** ** The theorems at work on concrete states *)

Lemma five_elems_inserted :
  insert_all (E := IntElem) 16
             [(1%nat, 5); (3%nat, 3); (2%nat, 5); (1%nat, 1); (4%nat, 5)]
             (int_init 8)
  = Some ([true; true; true; true; true], five_elems).
Proof. vm_compute. reflexivity. Qed.

Lemma span_counts_base_positions_witness :
  reachable five_elems /\
  exists nodes,
    (forall fuel, (List.length nodes < fuel)%nat ->
       to_list fuel five_elems = Some nodes) /\
    length (sl five_elems) = Z.of_nat (List.length nodes) /\
    NoDup (head (sl five_elems) :: nodes) /\
    (forall k r i,
       nth_error (head (sl five_elems) :: nodes) k = Some r ->
       (i < level_num (sl five_elems))%nat -> fwd five_elems r i <> 0 ->
       1 <= spn five_elems r i /\
       nth_error (head (sl five_elems) :: nodes) (k + Z.to_nat (spn five_elems r i))
       = Some (fwd five_elems r i)) /\
    (forall r total,
       search_path five_elems r total ->
       0 <= total /\
       nth_error (head (sl five_elems) :: nodes) (Z.to_nat total) = Some r).
Proof.
  split; [exact five_elems_reachable|].
  exact (span_counts_base_positions IntElemOK five_elems five_elems_reachable).
Defined.

Lemma base_level_sorted_and_doubly_linked_witness :
  reachable five_elems /\
  exists nodes,
    (forall fuel, (List.length nodes < fuel)%nat ->
       to_list fuel five_elems = Some nodes) /\
    sorted (map (elem five_elems) nodes) /\
    (forall pre r suf, nodes = pre ++ r :: suf ->
       bwd five_elems r = last pre 0 /\ fwd five_elems r 0 = hd 0 suf) /\
    node_ref (begin_ five_elems) = hd 0 nodes /\
    tail (sl five_elems) = last nodes 0 /\
    end_ five_elems = mkIterator 0.
Proof.
  split; [exact five_elems_reachable|].
  exact (base_level_sorted_and_doubly_linked IntElemOK five_elems five_elems_reachable).
Defined.

Lemma insert_duplicate_goes_first_witness :
  (1 <= 1 <= MAX_LEVEL_NUM)%nat /\ (1 <= 3 <= MAX_LEVEL_NUM)%nat /\
  (1 <= 2 <= MAX_LEVEL_NUM)%nat /\ (1 <= 4 <= MAX_LEVEL_NUM)%nat /\
  exists s,
    insert_all (E := IntElem) 8
               [(1%nat, 5); (3%nat, 3); (2%nat, 5); (1%nat, 1); (4%nat, 5)]
               (int_init 8)
    = Some ([true; true; true; true; true], s) /\
    to_list 8 s = Some [2216; 1144; 2752; 1680; 608] /\
    map (elem s) [2216; 1144; 2752; 1680; 608] = [1; 3; 5; 5; 5] /\
    length (sl s) = 5.
Proof.
  assert (H1 : (1 <= 1 <= MAX_LEVEL_NUM)%nat) by (unfold MAX_LEVEL_NUM; lia).
  assert (H2 : (1 <= 2 <= MAX_LEVEL_NUM)%nat) by (unfold MAX_LEVEL_NUM; lia).
  assert (H3 : (1 <= 3 <= MAX_LEVEL_NUM)%nat) by (unfold MAX_LEVEL_NUM; lia).
  assert (H4 : (1 <= 4 <= MAX_LEVEL_NUM)%nat) by (unfold MAX_LEVEL_NUM; lia).
  repeat (split; [assumption|]).
  exact (proj2 insert_duplicate_goes_first 1%nat 3%nat 2%nat 1%nat 4%nat H1 H3 H2 H1 H4).
Defined.

Lemma capacity_boundary_witness :
  0 <= 2 < 2 ^ 32 - 1 /\
  Z.of_nat (List.length [(1%nat, 10); (2%nat, 20)]) = 2 /\
  exists s0 s,
    init (Some int_buffer) (max_mem_size (E := IntElem) 2) 2 true = InitOk s0 /\
    insert_all (E := IntElem) 8 [(1%nat, 10); (2%nat, 20)] s0
    = Some (repeat true (List.length [(1%nat, 10); (2%nat, 20)]), s) /\
    length (sl s) = 2 /\
    insert (E := IntElem) 8 1 30 s = Some (false, s).
Proof.
  assert (Hn : 0 <= 2 < 2 ^ 32 - 1) by lia.
  assert (Hlen : Z.of_nat (List.length [(1%nat, 10); (2%nat, 20)]) = 2) by reflexivity.
  split; [exact Hn|]. split; [exact Hlen|].
  apply (capacity_boundary IntElemOK int_buffer 2
           [(1%nat, 10); (2%nat, 20)] 1%nat 30 8%nat Hn Hlen).
  - repeat constructor; cbn; unfold MAX_LEVEL_NUM; lia.
  - unfold MAX_LEVEL_NUM; lia.
  - cbn; lia.
Defined.

Lemma erase_removes_every_occurrence_witness :
  reachable five_elems /\
  exists nodes,
    forall fuel, (List.length nodes < fuel)%nat ->
      to_list fuel five_elems = Some nodes /\
      (exists s',
         erase (E := IntElem) fuel 5 five_elems
         = Some (Z.of_nat (List.length
                   (filter (fun r => equiv (elem five_elems r) 5) nodes)), s') /\
         to_list fuel s'
         = Some (filter (fun r => negb (equiv (elem five_elems r) 5)) nodes) /\
         Forall (fun r => elem s' r = elem five_elems r /\ equiv (elem s' r) 5 = false)
                (filter (fun r => negb (equiv (elem five_elems r) 5)) nodes) /\
         length (sl s')
         = length (sl five_elems)
           - Z.of_nat (List.length
               (filter (fun r => equiv (elem five_elems r) 5) nodes))) /\
      (exists b s1,
         del_first_of (E := IntElem) fuel 5 five_elems = Some (b, s1) /\
         if b then
           exists pre d suf,
             nodes = pre ++ d :: suf /\
             Forall (fun r => equiv (elem five_elems r) 5 = false) pre /\
             equiv (elem five_elems d) 5 = true /\
             to_list fuel s1 = Some (pre ++ suf)
         else
           s1 = five_elems /\
           Forall (fun r => equiv (elem five_elems r) 5 = false) nodes).
Proof.
  split; [exact five_elems_reachable|].
  exact (erase_removes_every_occurrence IntElemOK five_elems 5 five_elems_reachable).
Defined.

Lemma insert_erase_round_trip_witness :
  fits_uint32 (E := IntElem) (max_mem_size (E := IntElem) 8) /\
  init (Some int_buffer) (max_mem_size (E := IntElem) 8) 8 true = InitOk (int_init 8) /\
  insert_all (E := IntElem) 16
             [(1%nat, 5); (3%nat, 3); (2%nat, 5); (1%nat, 1); (4%nat, 5)]
             (int_init 8)
  = Some ([true; true; true; true; true], five_elems) /\
  exists cs s2 slots,
    erase_all (E := IntElem) 16 [5; 3; 1] five_elems = Some (cs, s2) /\
    length (sl s2) = 0 /\
    level_num (sl s2) = 1%nat /\
    to_list 16 s2 = Some [] /\
    free_slots 16 s2 = Some slots /\
    List.length slots = 5%nat /\
    NoDup slots /\
    Forall (fun r => 0 < r < alloc_size (mem_header_ s2)) slots.
Proof.
  assert (Hcap : fits_uint32 (E := IntElem) (max_mem_size (E := IntElem) 8))
    by (unfold fits_uint32; vm_compute; reflexivity).
  split; [exact Hcap|]. split; [exact int_init_ok|]. split; [exact five_elems_inserted|].
  apply (insert_erase_round_trip IntElemOK int_buffer (max_mem_size (E := IntElem) 8) 8
           (int_init 8) [(1%nat, 5); (3%nat, 3); (2%nat, 5); (1%nat, 1); (4%nat, 5)]
           [5; 3; 1] [true; true; true; true; true] five_elems 16%nat
           Hcap int_init_ok).
  - repeat constructor; cbn; unfold MAX_LEVEL_NUM; lia.
  - cbn; lia.
  - exact five_elems_inserted.
  - repeat constructor.
  - cbn. intros e He.
    repeat (destruct He as [<-|He]; [cbn; tauto|]). destruct He.
Defined.

Lemma erase_absent_writes_nothing_witness :
  reachable five_elems /\
  exists nodes,
    forall fuel, (List.length nodes < fuel)%nat ->
      to_list fuel five_elems = Some nodes /\
      (Forall (fun r => equiv (elem five_elems r) 4 = false) nodes ->
       del_first_of (E := IntElem) fuel 4 five_elems = Some (false, five_elems) /\
       erase (E := IntElem) fuel 4 five_elems = Some (0, five_elems)).
Proof.
  split; [exact five_elems_reachable|].
  exact (erase_absent_writes_nothing IntElemOK five_elems 4 five_elems_reachable).
Defined.

(** ** The further properties at work on concrete states *)

Lemma insert_all_reachable_from {E : Elem} fuel (l : list (nat * T)) :
  forall (s0 s : SkipList) bs s',
    reachable_from s0 s ->
    Forall (fun p => (1 <= fst p <= MAX_LEVEL_NUM)%nat) l ->
    insert_all fuel l s = Some (bs, s') ->
    reachable_from s0 s'.
Proof.
  induction l as [|[lvl e] l IH]; intros s0 s bs s' Hs Hl Hall.
  - cbn in Hall. injection Hall as _ <-. exact Hs.
  - cbn [insert_all] in Hall.
    destruct (insert fuel lvl e s) as [[b s1]|] eqn:Hins; [|discriminate].
    destruct (insert_all fuel l s1) as [[bs' s2]|] eqn:Hrest; [|discriminate].
    injection Hall as _ <-.
    apply (IH s0 s1 bs' s2); [|now apply Forall_inv_tail in Hl | exact Hrest].
    apply (from_insert s0 s fuel lvl e b s1 Hs); [|exact Hins].
    now apply Forall_inv in Hl.
Qed.

Lemma five_elems_from_init : reachable_from (int_init 8) five_elems.
Proof.
  apply (insert_all_reachable_from (E := IntElem) 16
           [(1%nat, 5); (3%nat, 3); (2%nat, 5); (1%nat, 1); (4%nat, 5)]
           (int_init 8) (int_init 8) [true; true; true; true; true] five_elems).
  - constructor.
  - repeat constructor; cbn; unfold MAX_LEVEL_NUM; lia.
  - exact five_elems_inserted.
Qed.

Lemma one_seven_inserted :
  insert (E := IntElem) 16 1 7 (int_init 8) = Some (true, one_seven).
Proof. vm_compute. reflexivity. Qed.

Lemma without_fives_erased :
  erase (E := IntElem) 16 5 five_elems = Some (3, without_fives).
Proof. vm_compute. reflexivity. Qed.

Lemma level_1_ok : (1 <= 1 <= MAX_LEVEL_NUM)%nat.
Proof. unfold MAX_LEVEL_NUM. lia. Qed.

Lemma find_spec_witness :
  reachable five_elems /\
  exists nodes,
    forall fuel e, (List.length nodes < fuel)%nat ->
      to_list fuel five_elems = Some nodes /\
      exists it, find (E := IntElem) fuel e five_elems = Some it /\
        ((it = end_ five_elems /\
          Forall (fun y => equiv (elem five_elems y) e = false) nodes) \/
         (In (node_ref it) nodes /\ equiv (elem five_elems (node_ref it)) e = true)).
Proof.
  split; [exact five_elems_reachable|].
  exact (find_spec IntElemOK five_elems five_elems_reachable).
Defined.

Lemma find_index_spec_witness :
  reachable five_elems /\
  exists nodes,
    forall fuel j, (List.length nodes < fuel)%nat -> 0 <= j < 2 ^ 32 ->
      to_list fuel five_elems = Some nodes /\
      (1 <= j < Z.of_nat (List.length nodes) ->
       exists r, nth_error nodes (Z.to_nat (j - 1)) = Some r /\
                 find_index fuel j five_elems = Some (mkIterator r)) /\
      (j = 0 \/ Z.of_nat (List.length nodes) <= j ->
       find_index fuel j five_elems = Some (end_ five_elems)).
Proof.
  split; [exact five_elems_reachable|].
  exact (find_index_spec IntElemOK five_elems five_elems_reachable).
Defined.

Lemma get_index_find_agree_witness :
  reachable five_elems /\
  exists nodes,
    forall fuel e, (List.length nodes < fuel)%nat ->
      to_list fuel five_elems = Some nodes /\
      exists r it,
        get_index (E := IntElem) fuel e five_elems = Some r /\
        find (E := IntElem) fuel e five_elems = Some it /\
        ((r = 0 /\ it = end_ five_elems) \/
         (1 <= r /\ nth_error nodes (Z.to_nat (r - 1)) = Some (node_ref it))).
Proof.
  split; [exact five_elems_reachable|].
  exact (get_index_find_agree IntElemOK five_elems five_elems_reachable).
Defined.

Lemma get_index_within_run_witness :
  reachable five_elems /\
  exists nodes,
    forall fuel e, (List.length nodes < fuel)%nat ->
      to_list fuel five_elems = Some nodes /\
      exists r,
        get_index (E := IntElem) fuel e five_elems = Some r /\
        let smaller := List.length (filter (fun x => cmp (elem five_elems x) e) nodes) in
        let equal := List.length (filter (fun x => equiv (elem five_elems x) e) nodes) in
        if (equal =? 0)%nat then r = 0
        else Z.of_nat smaller + 1 <= r <= Z.of_nat smaller + Z.of_nat equal.
Proof.
  split; [exact five_elems_reachable|].
  exact (get_index_within_run IntElemOK five_elems five_elems_reachable).
Defined.

Lemma get_index_of_ranked_element_witness :
  reachable five_elems /\
  exists nodes,
    forall fuel p x, (List.length nodes < fuel)%nat ->
      nth_error nodes p = Some x ->
      to_list fuel five_elems = Some nodes /\
      exists r,
        get_index (E := IntElem) fuel (elem five_elems x) five_elems = Some r /\ 1 <= r /\
        Z.abs (r - (Z.of_nat p + 1))
        < Z.of_nat (List.length
                      (filter (fun y => equiv (elem five_elems y) (elem five_elems x))
                              nodes)).
Proof.
  split; [exact five_elems_reachable|].
  exact (get_index_of_ranked_element IntElemOK five_elems five_elems_reachable).
Defined.

Lemma insert_then_found_witness :
  reachable (int_init 8) /\ (1 <= 1 <= MAX_LEVEL_NUM)%nat /\
  insert (E := IntElem) 16 1 7 (int_init 8) = Some (true, one_seven) /\
  forall fuel', length (sl one_seven) < Z.of_nat fuel' ->
    exists r it,
      get_index (E := IntElem) fuel' 7 one_seven = Some r /\
      1 <= r <= length (sl one_seven) /\
      find (E := IntElem) fuel' 7 one_seven = Some it /\ it <> end_ one_seven /\
      equiv (iter_get one_seven it) 7 = true.
Proof.
  split; [exact int_init_reachable|]. split; [exact level_1_ok|].
  split; [exact one_seven_inserted|].
  exact (insert_then_found IntElemOK (int_init 8) one_seven 1%nat 7 16%nat
           int_init_reachable level_1_ok one_seven_inserted).
Defined.

Lemma erase_then_absent_witness :
  reachable five_elems /\
  erase (E := IntElem) 16 5 five_elems = Some (3, without_fives) /\
  forall fuel', length (sl without_fives) < Z.of_nat fuel' ->
    get_index (E := IntElem) fuel' 5 without_fives = Some 0 /\
    find (E := IntElem) fuel' 5 without_fives = Some (end_ without_fives) /\
    del_first_of (E := IntElem) fuel' 5 without_fives = Some (false, without_fives) /\
    erase (E := IntElem) fuel' 5 without_fives = Some (0, without_fives).
Proof.
  split; [exact five_elems_reachable|]. split; [exact without_fives_erased|].
  exact (erase_then_absent IntElemOK five_elems without_fives 5 16%nat 3
           five_elems_reachable without_fives_erased).
Defined.

Lemma init_raw_succeeds_witness :
  0 <= 8 < 2 ^ 32 - 1 /\
  max_mem_size (E := IntElem) 8 = (@mem_header_size IntElem) + (8 + 1) * (@mem_node_size IntElem) /\
  init (E := IntElem) None 4896 8 true = InitFailed "mem is nullptr" /\
  (4896 < max_mem_size (E := IntElem) 8 ->
   init (Some int_buffer) 4896 8 true = InitFailed "mem_size not enough") /\
  (max_mem_size (E := IntElem) 8 <= 4896 ->
   exists s, init (Some int_buffer) 4896 8 true = InitOk s /\
             length (sl s) = 0 /\ level_num (sl s) = 1%nat /\
             mem_size (mem_header_ s) = 4896 /\
             alloc_size (mem_header_ s) = (@mem_header_size IntElem) + (@mem_node_size IntElem)).
Proof.
  assert (Hn : 0 <= 8 < 2 ^ 32 - 1) by lia.
  split; [exact Hn|].
  exact (init_raw_succeeds IntElemOK int_buffer 4896 8 Hn).
Defined.

Lemma init_length_overflow_witness :
  mem_header_size (Elem := IntElem) <= 72
  < mem_header_size (Elem := IntElem) + mem_node_size (Elem := IntElem) /\
  max_mem_size (E := IntElem) (2 ^ 32 - 1) = (@mem_header_size IntElem) /\
  init (Some int_buffer) 72 (2 ^ 32 - 1) true = InitUndefined.
Proof.
  assert (Hsz : mem_header_size (Elem := IntElem) <= 72
                < mem_header_size (Elem := IntElem) + mem_node_size (Elem := IntElem))
    by (cbn; lia).
  split; [exact Hsz|].
  exact (init_length_overflow IntElemOK int_buffer 72 Hsz).
Defined.

Lemma fresh_list_is_empty_witness :
  init (Some int_buffer) (max_mem_size (E := IntElem) 8) 8 true = InitOk (int_init 8) /\
  length (sl (int_init 8)) = 0 /\ begin_ (int_init 8) = end_ (int_init 8) /\
  forall fuel, (0 < fuel)%nat ->
    to_list fuel (int_init 8) = Some [] /\
    (forall e, get_index (E := IntElem) fuel e (int_init 8) = Some 0 /\
               find (E := IntElem) fuel e (int_init 8) = Some (end_ (int_init 8)) /\
               erase (E := IntElem) fuel e (int_init 8) = Some (0, int_init 8)) /\
    (forall i, find_index fuel i (int_init 8) = Some (end_ (int_init 8))).
Proof.
  split; [exact int_init_ok|].
  exact (fresh_list_is_empty IntElemOK int_buffer (max_mem_size (E := IntElem) 8) 8
           (int_init 8) int_init_ok).
Defined.

Lemma attach_after_use_witness :
  init (Some int_buffer) (max_mem_size (E := IntElem) 8) 8 true = InitOk (int_init 8) /\
  reachable_from (int_init 8) five_elems /\
  forall n',
    (max_mem_size (E := IntElem) n' <= max_mem_size (E := IntElem) 8 ->
     init (Some five_elems) (max_mem_size (E := IntElem) 8) n' false = InitOk five_elems) /\
    (forall size', size' <> max_mem_size (E := IntElem) 8 ->
       exists msg, init (Some five_elems) size' n' false = InitFailed msg).
Proof.
  split; [exact int_init_ok|]. split; [exact five_elems_from_init|].
  exact (attach_after_use IntElemOK int_buffer (max_mem_size (E := IntElem) 8) 8
           (int_init 8) five_elems int_init_ok five_elems_from_init).
Defined.

Lemma int_size_fits : fits_uint32 (E := IntElem) (max_mem_size (E := IntElem) 8).
Proof. unfold fits_uint32. vm_compute. reflexivity. Qed.

Lemma five_elems_length : length (sl five_elems) < Z.of_nat 16.
Proof. vm_compute. reflexivity. Qed.

Lemma insert_succeeds_while_room_witness :
  0 <= 8 < 2 ^ 32 - 1 /\
  fits_uint32 (E := IntElem) (max_mem_size (E := IntElem) 8) /\
  init (Some int_buffer) (max_mem_size (E := IntElem) 8) 8 true = InitOk (int_init 8) /\
  reachable_from (int_init 8) five_elems /\
  (1 <= 1 <= MAX_LEVEL_NUM)%nat /\
  length (sl five_elems) < Z.of_nat 16 /\
  (@mem_header_size IntElem) + (length (sl five_elems) + 1) * (@mem_node_size IntElem)
  <= max_mem_size (E := IntElem) 8 /\
  (length (sl five_elems) < 8 ->
   exists s', insert (E := IntElem) 16 1 4 five_elems = Some (true, s')) /\
  (max_mem_size (E := IntElem) 8 < max_mem_size (E := IntElem) 8 + (@mem_node_size IntElem) ->
   length (sl five_elems) <= 8 /\
   (length (sl five_elems) = 8 ->
    insert (E := IntElem) 16 1 4 five_elems = Some (false, five_elems))).
Proof.
  assert (Hn : 0 <= 8 < 2 ^ 32 - 1) by lia.
  split; [exact Hn|]. split; [exact int_size_fits|]. split; [exact int_init_ok|].
  split; [exact five_elems_from_init|]. split; [exact level_1_ok|].
  split; [exact five_elems_length|].
  exact (insert_succeeds_while_room IntElemOK int_buffer (max_mem_size (E := IntElem) 8) 8
           (int_init 8) five_elems 1%nat 4 16%nat Hn int_size_fits int_init_ok
           five_elems_from_init level_1_ok five_elems_length).
Defined.

Lemma alloc_after_free_witness :
  608 <> 0 /\
  exists s',
    alloc_node (free_node 608 five_elems) = (608, s') /\
    mem_header_ s' = mem_header_ five_elems /\
    forall x, deref s' x = if x =? 608 then zero_node else deref five_elems x.
Proof.
  assert (Hr : 608 <> 0) by lia.
  split; [exact Hr|].
  exact (alloc_after_free five_elems 608 Hr).
Defined.

Lemma iterator_walks_witness :
  reachable five_elems /\
  exists nodes,
    (forall fuel, (List.length nodes < fuel)%nat -> to_list fuel five_elems = Some nodes) /\
    begin_ five_elems = mkIterator (nth 0 nodes 0) /\
    end_ five_elems = mkIterator 0 /\
    (forall p k, (p < List.length nodes)%nat -> (p + k <= List.length nodes)%nat ->
       Nat.iter k (iter_incr five_elems) (mkIterator (nth p nodes 0))
       = mkIterator (nth (p + k) nodes 0)) /\
    (forall p k, (k <= p < List.length nodes)%nat ->
       Nat.iter k (iter_decr five_elems) (mkIterator (nth p nodes 0))
       = mkIterator (nth (p - k) nodes 0)) /\
    (forall p, (p < List.length nodes)%nat ->
       Nat.iter (S p) (iter_decr five_elems) (mkIterator (nth p nodes 0)) = mkIterator 0).
Proof.
  split; [exact five_elems_reachable|].
  exact (iterator_walks IntElemOK five_elems five_elems_reachable).
Defined.

Lemma nodes_are_slots_witness :
  reachable without_fives /\
  exists nodes free,
    (forall fuel, (List.length nodes < fuel)%nat -> to_list fuel without_fives = Some nodes) /\
    (forall fuel, (List.length free < fuel)%nat -> free_slots fuel without_fives = Some free) /\
    head (sl without_fives) = (@mem_header_size IntElem) /\
    NoDup (head (sl without_fives) :: nodes ++ free) /\
    Forall (is_slot without_fives) (head (sl without_fives) :: nodes ++ free) /\
    alloc_size (mem_header_ without_fives)
    = (@mem_header_size IntElem)
      + (@mem_node_size IntElem) * Z.of_nat (1 + List.length nodes + List.length free) /\
    alloc_size (mem_header_ without_fives) <= mem_size (mem_header_ without_fives).
Proof.
  assert (Hr : reachable without_fives)
    by exact (reach_erase five_elems 16%nat 5 3 without_fives five_elems_reachable
                without_fives_erased).
  split; [exact Hr|].
  exact (nodes_are_slots IntElemOK without_fives Hr).
Defined.

Lemma top_level_in_use_witness :
  reachable without_fives /\
  (1 <= level_num (sl without_fives) <= MAX_LEVEL_NUM)%nat /\
  (forall i, (level_num (sl without_fives) <= i)%nat ->
     fwd without_fives (head (sl without_fives)) i = 0) /\
  top_level_used without_fives /\
  (length (sl without_fives) = 0 -> level_num (sl without_fives) = 1%nat).
Proof.
  assert (Hr : reachable without_fives)
    by exact (reach_erase five_elems 16%nat 5 3 without_fives five_elems_reachable
                without_fives_erased).
  split; [exact Hr|].
  exact (top_level_in_use IntElemOK without_fives Hr).
Defined.

Lemma without_fives_reachable : reachable without_fives.
Proof.
  exact (reach_erase five_elems 16%nat 5 3 without_fives five_elems_reachable
           without_fives_erased).
Qed.

Lemma with_four_inserted :
  insert (E := IntElem) 16 1 4 without_fives = Some (true, with_four).
Proof. vm_compute. reflexivity. Qed.

Lemma insert_reuses_freed_slot_witness :
  reachable without_fives /\ (1 <= 1 <= MAX_LEVEL_NUM)%nat /\
  insert (E := IntElem) 16 1 4 without_fives = Some (true, with_four) /\
  exists nodes free nodes' free' new,
    (forall f, (List.length nodes < f)%nat -> to_list f without_fives = Some nodes) /\
    (forall f, (List.length free < f)%nat -> free_slots f without_fives = Some free) /\
    (forall f, (List.length nodes' < f)%nat -> to_list f with_four = Some nodes') /\
    (forall f, (List.length free' < f)%nat -> free_slots f with_four = Some free') /\
    In new nodes' /\ ~ In new nodes /\ elem with_four new = 4 /\
    match free with
    | r :: rest =>
        new = r /\ free' = rest /\
        alloc_size (mem_header_ with_four) = alloc_size (mem_header_ without_fives)
    | [] =>
        new = alloc_size (mem_header_ without_fives) /\ free' = [] /\
        alloc_size (mem_header_ with_four)
        = alloc_size (mem_header_ without_fives) + (@mem_node_size IntElem)
    end.
Proof.
  split; [exact without_fives_reachable|]. split; [exact level_1_ok|].
  split; [exact with_four_inserted|].
  exact (insert_reuses_freed_slot IntElemOK without_fives with_four 1%nat 4 16%nat
           without_fives_reachable level_1_ok with_four_inserted).
Defined.

Lemma insert_fails_only_when_full_witness :
  reachable five_elems /\ (1 <= 1 <= MAX_LEVEL_NUM)%nat /\
  length (sl five_elems) < Z.of_nat 16 /\
  exists b s',
    insert (E := IntElem) 16 1 4 five_elems = Some (b, s') /\
    (b = false <->
     free_list (mem_header_ five_elems) = 0 /\
     mem_size (mem_header_ five_elems)
     < alloc_size (mem_header_ five_elems) + node_size (mem_header_ five_elems)) /\
    (b = false -> s' = five_elems) /\
    (b = true -> length (sl s') = length (sl five_elems) + 1).
Proof.
  split; [exact five_elems_reachable|]. split; [exact level_1_ok|].
  split; [exact five_elems_length|].
  exact (insert_fails_only_when_full IntElemOK five_elems 1%nat 4 16%nat
           five_elems_reachable level_1_ok five_elems_length).
Defined.

Lemma align8_rounds_up_witness :
  0 <= 67 <= 2 ^ 64 - 8 /\
  align8 67 mod 8 = 0 /\ 67 <= align8 67 < 67 + 8 /\ (67 mod 8 = 0 -> align8 67 = 67).
Proof.
  assert (Hn : 0 <= 67 <= 2 ^ 64 - 8) by lia.
  split; [exact Hn|].
  exact (align8_rounds_up 67 Hn).
Defined.

Lemma random_level_counts_draws_witness :
  Forall (fun d => Z.land d 65535 <= 16383) [0%Z; 65536%Z] /\
  16383 < Z.land 65535 65535 /\
  random_level ([0%Z; 65536%Z] ++ 65535%Z :: [3%Z]) = Nat.min (1 + List.length [0%Z; 65536%Z]) MAX_LEVEL_NUM /\
  (1 <= random_level ([0%Z; 65536%Z] ++ 65535%Z :: [3%Z]) <= MAX_LEVEL_NUM)%nat.
Proof.
  assert (Hpass : Forall (fun d => Z.land d 65535 <= 16383) [0%Z; 65536%Z])
    by (repeat constructor; cbn; lia).
  assert (Hr : 16383 < Z.land 65535 65535) by (cbn; lia).
  split; [exact Hpass|]. split; [exact Hr|].
  exact (random_level_counts_draws [0%Z; 65536%Z] 65535 [3] Hpass Hr).
Defined.

Lemma five_elems_levels :
  Forall (fun p : nat * Z => (1 <= fst p <= MAX_LEVEL_NUM)%nat)
         [(1%nat, 5); (3%nat, 3); (2%nat, 5); (1%nat, 1); (4%nat, 5)].
Proof. repeat constructor; cbn; unfold MAX_LEVEL_NUM; lia. Qed.

Lemma all_true_5 : Forall (fun b => b = true) [true; true; true; true; true].
Proof. repeat constructor. Qed.

Lemma get_index_monotone_witness :
  reachable five_elems /\
  exists nodes,
    forall fuel a b, (List.length nodes < fuel)%nat -> cmp (Elem := IntElem) a b = true ->
      to_list fuel five_elems = Some nodes /\
      exists ra rb,
        get_index (E := IntElem) fuel a five_elems = Some ra /\
        get_index (E := IntElem) fuel b five_elems = Some rb /\
        (ra <> 0 -> rb <> 0 -> ra < rb).
Proof.
  split; [exact five_elems_reachable|].
  exact (get_index_monotone IntElemOK five_elems five_elems_reachable).
Defined.

Lemma inserts_keep_every_element_witness :
  reachable (int_init 8) /\
  Forall (fun p : nat * Z => (1 <= fst p <= MAX_LEVEL_NUM)%nat)
         [(1%nat, 5); (3%nat, 3); (2%nat, 5); (1%nat, 1); (4%nat, 5)] /\
  insert_all (E := IntElem) 16
             [(1%nat, 5); (3%nat, 3); (2%nat, 5); (1%nat, 1); (4%nat, 5)] (int_init 8)
  = Some ([true; true; true; true; true], five_elems) /\
  Forall (fun b => b = true) [true; true; true; true; true] /\
  exists nodes nodes',
    (forall f, (List.length nodes < f)%nat -> to_list f (int_init 8) = Some nodes) /\
    (forall f, (List.length nodes' < f)%nat -> to_list f five_elems = Some nodes') /\
    Permutation (map (elem five_elems) nodes')
                (map snd [(1%nat, 5); (3%nat, 3); (2%nat, 5); (1%nat, 1); (4%nat, 5)]
                 ++ map (elem (int_init 8)) nodes) /\
    sorted (map (elem five_elems) nodes') /\
    length (sl five_elems)
    = length (sl (int_init 8))
      + Z.of_nat (List.length [(1%nat, 5); (3%nat, 3); (2%nat, 5); (1%nat, 1); (4%nat, 5)]).
Proof.
  split; [exact int_init_reachable|]. split; [exact five_elems_levels|].
  split; [exact five_elems_inserted|]. split; [exact all_true_5|].
  exact (inserts_keep_every_element IntElemOK (int_init 8) five_elems 16%nat
           [(1%nat, 5); (3%nat, 3); (2%nat, 5); (1%nat, 1); (4%nat, 5)]
           [true; true; true; true; true]
           int_init_reachable five_elems_levels five_elems_inserted all_true_5).
Defined.

Lemma without_fives_from_five : reachable_from five_elems without_fives.
Proof.
  apply (from_erase five_elems five_elems 16%nat 5 3 without_fives).
  - constructor.
  - exact without_fives_erased.
Qed.

Lemma allocated_part_never_shrinks_witness :
  fits_uint32 (E := IntElem) (max_mem_size (E := IntElem) 8) /\
  init (Some int_buffer) (max_mem_size (E := IntElem) 8) 8 true = InitOk (int_init 8) /\
  reachable_from (int_init 8) five_elems /\
  reachable_from five_elems without_fives /\
  @mem_header_size IntElem + @mem_node_size IntElem <= alloc_size (mem_header_ five_elems) /\
  alloc_size (mem_header_ five_elems) <= alloc_size (mem_header_ without_fives) /\
  alloc_size (mem_header_ without_fives) <= mem_size (mem_header_ without_fives) /\
  mem_size (mem_header_ without_fives) = max_mem_size (E := IntElem) 8 /\
  (forall fuel e count s1,
     erase (E := IntElem) fuel e five_elems = Some (count, s1) ->
     alloc_size (mem_header_ s1) = alloc_size (mem_header_ five_elems)).
Proof.
  split; [exact int_size_fits|]. split; [exact int_init_ok|].
  split; [exact five_elems_from_init|]. split; [exact without_fives_from_five|].
  exact (allocated_part_never_shrinks IntElemOK int_buffer (max_mem_size (E := IntElem) 8) 8
           (int_init 8) five_elems without_fives int_size_fits int_init_ok
           five_elems_from_init without_fives_from_five).
Defined.
